(** * The SP 800-90A DRBG of libgcrypt (random/drbg.c)

    A shallow embedding of the mechanism layer of [random/drbg.c] and the
    properties of its specification that we checked against it.

    Conventions of the embedding.
    - A C byte is a [Z] in [0, 256); a buffer is a [list Z].
    - A C integer is a [Z]; where the source relies on a width (the
      [size_t] reseed counter, the [u32] arguments of
      [gcry_drbg_cpu_to_be32]) the wrap-around is written out.
    - A pointer is a [ptr]: null, an offset into one of the buffers of the
      DRBG state (or into the caller's output buffer), or a buffer that
      lives outside the state (caller data, automatic arrays).
    - A function that threads the DRBG state and the crypto backend is a
      state transformer that may fail to return ([None]): this happens
      only where the C function would loop for ever or dereference a null
      handle. Error codes are ordinary return values, as in C. *)

From Stdlib Require Import ZArith List Lia Bool.
Import ListNotations.
Open Scope Z_scope.

(** ** Bytes and buffers *)

Definition is_byte (b : Z) : Prop := 0 <= b < 256.

Definition bytes (l : list Z) : Prop := Forall is_byte l.

(** The unsigned integer a buffer denotes when read big-endian. *)
Definition be_int (l : list Z) : Z :=
  fold_left (fun acc b => acc * 256 + b) l 0.

(** [buf_write sp o bs]: store [bs] at offset [o] of [sp] (a [memcpy]
    into [sp + o]).  A store that runs past the end of the buffer is
    undefined in C; here it is clipped to the buffer. *)
Fixpoint buf_write (sp : list Z) (o : nat) (bs : list Z) : list Z :=
  match sp with
  | [] => []
  | x :: sp' =>
      match o with
      | S o' => x :: buf_write sp' o' bs
      | O =>
          match bs with
          | [] => x :: sp'
          | b :: bs' => b :: buf_write sp' 0 bs'
          end
      end
  end.

(** [buf_read sp o n]: the [n] bytes at offset [o] of [sp]. *)
Definition buf_read (sp : list Z) (o n : nat) : list Z :=
  firstn n (skipn o sp).

(** [*(p + i)] for a byte pointer into a buffer. *)
Definition byte_at (l : list Z) (i : Z) : Z := nth (Z.to_nat i) l 0.

Definition set_byte (l : list Z) (i : Z) (v : Z) : list Z :=
  buf_write l (Z.to_nat i) [v].

(** ** [gcry_drbg_add_buf] *)

(** First loop: [len] bytes of [add] are added to the tail of [dst],
    from the last byte towards the first, [remainder] carrying. *)
Fixpoint add_buf_loop1 (len : nat) (dst add : list Z)
         (dstptr addptr remainder : Z) : list Z * Z * Z :=
  match len with
  | O => (dst, dstptr, remainder)
  | S len' =>
      let remainder := remainder + (byte_at dst dstptr + byte_at add addptr) in
      let dst := set_byte dst dstptr (Z.land remainder 255) in
      let remainder := Z.shiftr remainder 8 in
      add_buf_loop1 len' dst add (dstptr - 1) (addptr - 1) remainder
  end.

(** Second loop: the carry runs on through the bytes of [dst] that [add]
    does not reach, and stops as soon as it is used up. *)
Fixpoint add_buf_loop2 (len : nat) (dst : list Z)
         (dstptr remainder : Z) : list Z :=
  match len with
  | O => dst
  | S len' =>
      if 0 <? remainder then
        let remainder := byte_at dst dstptr + 1 in
        let dst := set_byte dst dstptr (Z.land remainder 255) in
        let remainder := Z.shiftr remainder 8 in
        add_buf_loop2 len' dst (dstptr - 1) remainder
      else dst
  end.

Definition gcry_drbg_add_buf (dst : list Z) (dstlen : Z)
           (add : list Z) (addlen : Z) : list Z :=
  let remainder := 0 in
  let len := addlen in
  let dstptr := dstlen - 1 in
  let addptr := addlen - 1 in
  let '(dst, dstptr, remainder) :=
    add_buf_loop1 (Z.to_nat len) dst add dstptr addptr remainder in
  let len := dstlen - addlen in
  add_buf_loop2 (Z.to_nat len) dst dstptr remainder.

(** ** Error codes

    [gpg_err_code_t] is the unsigned enumeration of libgpg-error; the
    values below are those of its [gpg-error.h]. *)

Definition GPG_ERR_NO_ERROR : Z := 0.
Definition GPG_ERR_GENERAL : Z := 1.
Definition GPG_ERR_INV_ARG : Z := 45.
Definition GPG_ERR_ENOMEM : Z := 32854.

(** Conversion of an [int] to [gpg_err_code_t]. *)
Definition to_err_code (z : Z) : Z := z mod 2 ^ 32.

(** [if (ret)] *)
Definition is_err (ret : Z) : bool := negb (ret =? 0).

(** ** Pointers, byte-string chains and the DRBG state *)

(** The buffers a pointer of [drbg.c] can point into: [drbg->V],
    [drbg->C], [drbg->scratchpad] and the output buffer of the caller. *)
Inductive loc := LV | LC | LScratch | LOut.

Inductive ptr :=
| Null
| Mem (l : loc) (off : Z)
| Data (bs : list Z).

Definition ptr_add (p : ptr) (k : Z) : ptr :=
  match p with
  | Null => Null
  | Mem l off => Mem l (off + k)
  | Data bs => Data (skipn (Z.to_nat k) bs)
  end.

Definition is_null (p : ptr) : bool :=
  match p with Null => true | _ => false end.

(** A [struct gcry_drbg_string *]: null, or a node of the chain of byte
    strings with its [buf], [len] and [next]. *)
Inductive gcry_drbg_string :=
| NoString
| drbg_string (buf : ptr) (len : Z) (next : gcry_drbg_string).

(** [s->next = n] *)
Definition set_next (s n : gcry_drbg_string) : gcry_drbg_string :=
  match s with
  | NoString => NoString
  | drbg_string b l _ => drbg_string b l n
  end.

(** Modelled from the spec: [gcry_drbg_string_fill] is declared in a
    header that is not among the sources; by section 4.1 a node is a
    [(pointer, length, next)] triple, and filling one leaves it unlinked. *)
Definition gcry_drbg_string_fill (buf : ptr) (len : Z) : gcry_drbg_string :=
  drbg_string buf len NoString.

Record gcry_drbg_core := {
  flags : Z;
  statelen : Z;
  blocklen_bytes : Z;
  backend_cipher : Z
}.

Record gcry_drbg_test_data := {
  testentropy : gcry_drbg_string;
  fail_seed_source : bool
}.

(** The three [struct gcry_drbg_state_ops] tables. *)
Inductive gcry_drbg_state_ops :=
| gcry_drbg_hash_ops
| gcry_drbg_hmac_ops
| gcry_drbg_ctr_ops.

(** [struct gcry_drbg_state].  A freed or not yet allocated buffer is the
    empty list; the one-bit fields [seeded] and [pr] are booleans. *)
Record gcry_drbg_state := {
  V : list Z;
  C : list Z;
  reseed_ctr : Z;
  scratchpad : list Z;
  seeded : bool;
  pr : bool;
  seed_init_pid : Z;
  d_ops : option gcry_drbg_state_ops;
  core : option gcry_drbg_core;
  test_data : option gcry_drbg_test_data
}.

Definition set_V (v : list Z) (st : gcry_drbg_state) : gcry_drbg_state :=
  {| V := v; C := C st; reseed_ctr := reseed_ctr st;
     scratchpad := scratchpad st; seeded := seeded st; pr := pr st;
     seed_init_pid := seed_init_pid st; d_ops := d_ops st; core := core st;
     test_data := test_data st |}.

Definition set_C (c : list Z) (st : gcry_drbg_state) : gcry_drbg_state :=
  {| V := V st; C := c; reseed_ctr := reseed_ctr st;
     scratchpad := scratchpad st; seeded := seeded st; pr := pr st;
     seed_init_pid := seed_init_pid st; d_ops := d_ops st; core := core st;
     test_data := test_data st |}.

Definition set_scratchpad (s : list Z) (st : gcry_drbg_state) : gcry_drbg_state :=
  {| V := V st; C := C st; reseed_ctr := reseed_ctr st;
     scratchpad := s; seeded := seeded st; pr := pr st;
     seed_init_pid := seed_init_pid st; d_ops := d_ops st; core := core st;
     test_data := test_data st |}.

Definition set_reseed_ctr (n : Z) (st : gcry_drbg_state) : gcry_drbg_state :=
  {| V := V st; C := C st; reseed_ctr := n;
     scratchpad := scratchpad st; seeded := seeded st; pr := pr st;
     seed_init_pid := seed_init_pid st; d_ops := d_ops st; core := core st;
     test_data := test_data st |}.

Definition set_seeded (b : bool) (st : gcry_drbg_state) : gcry_drbg_state :=
  {| V := V st; C := C st; reseed_ctr := reseed_ctr st;
     scratchpad := scratchpad st; seeded := b; pr := pr st;
     seed_init_pid := seed_init_pid st; d_ops := d_ops st; core := core st;
     test_data := test_data st |}.

Definition set_pr (b : bool) (st : gcry_drbg_state) : gcry_drbg_state :=
  {| V := V st; C := C st; reseed_ctr := reseed_ctr st;
     scratchpad := scratchpad st; seeded := seeded st; pr := b;
     seed_init_pid := seed_init_pid st; d_ops := d_ops st; core := core st;
     test_data := test_data st |}.

Definition set_seed_init_pid (p : Z) (st : gcry_drbg_state) : gcry_drbg_state :=
  {| V := V st; C := C st; reseed_ctr := reseed_ctr st;
     scratchpad := scratchpad st; seeded := seeded st; pr := pr st;
     seed_init_pid := p; d_ops := d_ops st; core := core st;
     test_data := test_data st |}.

Definition set_d_ops (o : option gcry_drbg_state_ops) (st : gcry_drbg_state) :=
  {| V := V st; C := C st; reseed_ctr := reseed_ctr st;
     scratchpad := scratchpad st; seeded := seeded st; pr := pr st;
     seed_init_pid := seed_init_pid st; d_ops := o; core := core st;
     test_data := test_data st |}.

Definition set_core (c : option gcry_drbg_core) (st : gcry_drbg_state) :=
  {| V := V st; C := C st; reseed_ctr := reseed_ctr st;
     scratchpad := scratchpad st; seeded := seeded st; pr := pr st;
     seed_init_pid := seed_init_pid st; d_ops := d_ops st; core := c;
     test_data := test_data st |}.

Definition set_test_data (t : option gcry_drbg_test_data) (st : gcry_drbg_state) :=
  {| V := V st; C := C st; reseed_ctr := reseed_ctr st;
     scratchpad := scratchpad st; seeded := seeded st; pr := pr st;
     seed_init_pid := seed_init_pid st; d_ops := d_ops st; core := core st;
     test_data := t |}.

(** What [xcalloc_secure (1, sizeof (struct gcry_drbg_state))] returns. *)
Definition drbg_calloc : gcry_drbg_state :=
  {| V := []; C := []; reseed_ctr := 0; scratchpad := []; seeded := false;
     pr := false; seed_init_pid := 0; d_ops := None; core := None;
     test_data := None |}.

(** ** The platform: build configuration, header constants, backend

    The parts of libgcrypt [drbg.c] is compiled against.  The flag and
    algorithm macros come from headers that are not among the sources, so
    they are parameters here; so are the hash, HMAC and block cipher, the
    entropy gatherer, and the ways in which the backend can fail. *)

(** The backend calls of [drbg.c] that return an error code (or, for
    the allocator, a possibly null pointer). *)
Inductive backend_op :=
| md_open (algo : Z) (hmac : bool)
| md_setkey (key : list Z)
| cipher_open (algo : Z)
| cipher_setkey (key : list Z)
| xcalloc_secure (n : Z).

Record platform (env : Type) := {
  (** [__LP64__] *)
  lp64 : bool;
  GCRY_DRBG_CTRAES : Z;
  GCRY_DRBG_CTR_MASK : Z;
  GCRY_DRBG_HASHSHA1 : Z;
  GCRY_DRBG_HASHSHA256 : Z;
  GCRY_DRBG_HASHSHA384 : Z;
  GCRY_DRBG_HASHSHA512 : Z;
  GCRY_DRBG_HASH_MASK : Z;
  GCRY_DRBG_HMAC : Z;
  GCRY_DRBG_SYM128 : Z;
  GCRY_DRBG_SYM192 : Z;
  GCRY_DRBG_SYM256 : Z;
  GCRY_DRBG_CIPHER_MASK : Z;
  GCRY_DRBG_PREDICTION_RESIST : Z;
  GCRY_MD_SHA1 : Z;
  GCRY_MD_SHA256 : Z;
  GCRY_MD_SHA384 : Z;
  GCRY_MD_SHA512 : Z;
  GCRY_CIPHER_AES128 : Z;
  GCRY_CIPHER_AES192 : Z;
  GCRY_CIPHER_AES256 : Z;
  (** The outcome of a backend call in a state of the backend: an error
      code, 0 for success (for [xcalloc_secure]: 0 for a non-null
      result), and the next state of the backend. *)
  backend : env -> backend_op -> Z * env;
  (** What [_gcry_md_read] returns after the data was written to a
      handle opened for [algo], keyed ([Some key], HMAC) or not. *)
  md_digest : Z -> option (list Z) -> list Z -> list Z;
  (** What [_gcry_cipher_encrypt] stores for a key and an input in ECB. *)
  cipher_encrypt : Z -> list Z -> list Z -> list Z;
  cipher_get_algo_blklen : Z -> Z;
  (** [_gcry_rndlinux_gather_random] asked for [n] bytes: its return
      code and the bytes it hands to the callback. *)
  gather_random : env -> Z -> Z * list Z * env
}.

Arguments lp64 {env}.
Arguments GCRY_DRBG_CTRAES {env}.
Arguments GCRY_DRBG_CTR_MASK {env}.
Arguments GCRY_DRBG_HASHSHA1 {env}.
Arguments GCRY_DRBG_HASHSHA256 {env}.
Arguments GCRY_DRBG_HASHSHA384 {env}.
Arguments GCRY_DRBG_HASHSHA512 {env}.
Arguments GCRY_DRBG_HASH_MASK {env}.
Arguments GCRY_DRBG_HMAC {env}.
Arguments GCRY_DRBG_SYM128 {env}.
Arguments GCRY_DRBG_SYM192 {env}.
Arguments GCRY_DRBG_SYM256 {env}.
Arguments GCRY_DRBG_CIPHER_MASK {env}.
Arguments GCRY_DRBG_PREDICTION_RESIST {env}.
Arguments GCRY_MD_SHA1 {env}.
Arguments GCRY_MD_SHA256 {env}.
Arguments GCRY_MD_SHA384 {env}.
Arguments GCRY_MD_SHA512 {env}.
Arguments GCRY_CIPHER_AES128 {env}.
Arguments GCRY_CIPHER_AES192 {env}.
Arguments GCRY_CIPHER_AES256 {env}.
Arguments backend {env}.
Arguments md_digest {env}.
Arguments cipher_encrypt {env}.
Arguments cipher_get_algo_blklen {env}.
Arguments gather_random {env}.

(** The machine: the DRBG instance a function works on, the output
    buffer of the caller, and the state of the backend. *)
Record mach (env : Type) := {
  drbg : gcry_drbg_state;
  out : list Z;
  be : env
}.

Arguments drbg {env}.
Arguments out {env}.
Arguments be {env}.
Arguments Build_mach {env}.

(** ** The embedding of [random/drbg.c] *)

Section Monad.

Context {env : Type}.

(** A C function over the machine.  [None]: the call does not return
    (a loop that never ends, a null pointer dereferenced). *)
Definition M (A : Type) : Type := mach env -> option (A * mach env).

Definition ret {A : Type} (a : A) : M A := fun m => Some (a, m).

Definition bind {A B : Type} (x : M A) (f : A -> M B) : M B :=
  fun m => match x m with
           | Some (a, m') => f a m'
           | None => None
           end.

Definition diverge {A : Type} : M A := fun _ => None.

End Monad.

Arguments M env A : clear implicits.

Notation "x <- c ;; k" := (bind c (fun x => k))
  (at level 61, c at next level, right associativity).
Notation "' p <- c ;; k" := (bind c (fun x => match x with p => k end))
  (at level 61, p pattern, c at next level, right associativity).
Notation "c ;; k" := (bind c (fun _ => k))
  (at level 61, right associativity).

Section Drbg.

Context {env : Type} (G : platform env).

Definition get_drbg : M env gcry_drbg_state := fun m => Some (drbg m, m).

Definition modify_drbg (f : gcry_drbg_state -> gcry_drbg_state) : M env unit :=
  fun m => Some (tt, {| drbg := f (drbg m); out := out m; be := be m |}).

(** A backend call: the backend decides the error code and moves on. *)
Definition call (op : backend_op) : M env Z :=
  fun m => let '(e, b) := backend G (be m) op in
           Some (e, {| drbg := drbg m; out := out m; be := b |}).

Definition buf_of (m : mach env) (l : loc) : list Z :=
  match l with
  | LV => V (drbg m)
  | LC => C (drbg m)
  | LScratch => scratchpad (drbg m)
  | LOut => out m
  end.

Definition set_buf (l : loc) (b : list Z) (m : mach env) : mach env :=
  match l with
  | LV => {| drbg := set_V b (drbg m); out := out m; be := be m |}
  | LC => {| drbg := set_C b (drbg m); out := out m; be := be m |}
  | LScratch => {| drbg := set_scratchpad b (drbg m); out := out m; be := be m |}
  | LOut => {| drbg := drbg m; out := b; be := be m |}
  end.

(** The [n] bytes a pointer points at. *)
Definition load_ptr (m : mach env) (p : ptr) (n : Z) : list Z :=
  match p with
  | Null => []
  | Mem l off => buf_read (buf_of m l) (Z.to_nat off) (Z.to_nat n)
  | Data bs => firstn (Z.to_nat n) bs
  end.

(** Stores go to the DRBG buffers and to the output buffer only. *)
Definition store_ptr (p : ptr) (bs : list Z) (m : mach env) : mach env :=
  match p with
  | Mem l off => set_buf l (buf_write (buf_of m l) (Z.to_nat off) bs) m
  | _ => m
  end.

Definition load (p : ptr) (n : Z) : M env (list Z) :=
  fun m => Some (load_ptr m p n, m).

Definition store (p : ptr) (bs : list Z) : M env unit :=
  fun m => Some (tt, store_ptr p bs m).

(** [*p] for a byte pointer. *)
Definition deref (p : ptr) : M env Z :=
  match p with
  | Null => diverge
  | _ => bs <- load p 1 ;; ret (hd 0 bs)
  end.

Definition memset (p : ptr) (c : Z) (n : Z) : M env unit :=
  store p (repeat c (Z.to_nat n)).

Definition memcpy (dst src : ptr) (n : Z) : M env unit :=
  bs <- load src n ;; store dst bs.

(** The bytes a chain denotes, read when it is consumed. *)
Fixpoint chain_bytes (m : mach env) (s : gcry_drbg_string) : list Z :=
  match s with
  | NoString => []
  | drbg_string b l nx => load_ptr m b l ++ chain_bytes m nx
  end.

Definition read_chain (s : gcry_drbg_string) : M env (list Z) :=
  fun m => Some (chain_bytes m s, m).

(** *** Generic helper functions *)

Definition size_bits : Z := if lp64 G then 64 else 32.
Definition SIZE_MAX : Z := 2 ^ size_bits - 1.
Definition to_size_t (z : Z) : Z := z mod 2 ^ size_bits.
Definition to_ushort (z : Z) : Z := z mod 2 ^ 16.
Definition to_short (z : Z) : Z := (z + 2 ^ 15) mod 2 ^ 16 - 2 ^ 15.

Definition gcry_drbg_statelen (st : gcry_drbg_state) : Z :=
  match core st with
  | Some c => statelen c
  | None => 0
  end.

Definition gcry_drbg_blocklen (st : gcry_drbg_state) : Z :=
  match core st with
  | Some c => blocklen_bytes c
  | None => 0
  end.

Definition gcry_drbg_keylen (st : gcry_drbg_state) : Z :=
  match core st with
  | Some c => to_ushort (statelen c - blocklen_bytes c)
  | None => 0
  end.

Definition gcry_drbg_max_request_bytes : Z := Z.shiftl 1 16.

Definition gcry_drbg_max_addtl : Z :=
  if lp64 G then Z.shiftl 1 35 else SIZE_MAX - 1.

Definition gcry_drbg_max_requests : Z :=
  if lp64 G then Z.shiftl 1 48 else SIZE_MAX.

(** [flags & bit] as a condition. *)
Definition flag_set (fl bit : Z) : bool := negb (Z.land fl bit =? 0).

Definition gcry_drbg_sec_strength (fl : Z) : Z :=
  if flag_set fl (GCRY_DRBG_HASHSHA1 G) || flag_set fl (GCRY_DRBG_SYM128 G)
  then 16
  else if flag_set fl (GCRY_DRBG_SYM192 G)
  then 24
  else if flag_set fl (GCRY_DRBG_SYM256 G)
          || flag_set fl (GCRY_DRBG_HASHSHA256 G)
          || flag_set fl (GCRY_DRBG_HASHSHA384 G)
          || flag_set fl (GCRY_DRBG_HASHSHA512 G)
  then 32
  else 32.

(** The four bytes [gcry_drbg_cpu_to_be32] stores for its [u32] argument. *)
Definition gcry_drbg_cpu_to_be32 (val : Z) : list Z :=
  let val := val mod 2 ^ 32 in
  [Z.land (Z.shiftr val 24) 255; Z.land (Z.shiftr val 16) 255;
   Z.land (Z.shiftr val 8) 255; Z.land val 255].

(** The eight bytes of [be_bswap64 (val)] in memory. *)
Definition be_bswap64 (val : Z) : list Z :=
  let val := val mod 2 ^ 64 in
  [Z.land (Z.shiftr val 56) 255; Z.land (Z.shiftr val 48) 255;
   Z.land (Z.shiftr val 40) 255; Z.land (Z.shiftr val 32) 255;
   Z.land (Z.shiftr val 24) 255; Z.land (Z.shiftr val 16) 255;
   Z.land (Z.shiftr val 8) 255; Z.land val 255].

(** [gcry_drbg_add_buf] on buffers in memory. *)
Definition add_buf (dst : ptr) (dstlen : Z) (add : ptr) (addlen : Z) : M env unit :=
  d <- load dst dstlen ;;
  a <- load add addlen ;;
  store dst (gcry_drbg_add_buf d dstlen a addlen).

(** [gcry_drbg_get_entropy] with [gcry_drbg_read_cb]: the callback copies
    what the gatherer delivers into [buffer], at most [len] bytes. *)
Definition gcry_drbg_get_entropy (buffer : list Z) (len : Z) : M env (Z * list Z) :=
  st <- get_drbg ;;
  if match test_data st with
     | Some t => fail_seed_source t
     | None => false
     end
  then ret (-1, buffer)
  else
    fun m =>
      let '(rc, bs, e) := gather_random G (be m) len in
      Some ((rc, buf_write buffer 0 (firstn (Z.to_nat len) bs)),
            {| drbg := drbg m; out := out m; be := e |}).

(** *** Cipher invocations requested by DRBG *)

(** [drbg->core], dereferenced. *)
Definition get_core : M env gcry_drbg_core :=
  st <- get_drbg ;;
  match core st with
  | Some c => ret c
  | None => diverge
  end.

Definition gcry_drbg_hmac (key : ptr) (outval : ptr)
           (buf : gcry_drbg_string) : M env Z :=
  c <- get_core ;;
  st <- get_drbg ;;
  if negb (is_null key) then
    err <- call (md_open (backend_cipher c) true) ;;
    if is_err err then ret err else
    k <- load key (gcry_drbg_statelen st) ;;
    err <- call (md_setkey k) ;;
    if is_err err then ret err else
    data <- read_chain buf ;;
    store outval (firstn (Z.to_nat (gcry_drbg_blocklen st))
                         (md_digest G (backend_cipher c) (Some k) data)) ;;
    ret 0
  else
    err <- call (md_open (backend_cipher c) false) ;;
    if is_err err then ret err else
    data <- read_chain buf ;;
    store outval (firstn (Z.to_nat (gcry_drbg_blocklen st))
                         (md_digest G (backend_cipher c) None data)) ;;
    ret 0.

Definition gcry_drbg_sym (key : ptr) (outval : ptr)
           (buf : gcry_drbg_string) : M env Z :=
  c <- get_core ;;
  st <- get_drbg ;;
  err <- call (cipher_open (backend_cipher c)) ;;
  if is_err err then ret err else
  if negb (gcry_drbg_blocklen st =? cipher_get_algo_blklen G (backend_cipher c))
  then ret (to_err_code (- GPG_ERR_NO_ERROR)) else
  match buf with
  | NoString => diverge
  | drbg_string b l _ =>
      if gcry_drbg_blocklen st <? l
      then ret (to_err_code (- GPG_ERR_NO_ERROR)) else
      k <- load key (gcry_drbg_keylen st) ;;
      err <- call (cipher_setkey k) ;;
      if is_err err then ret err else
      input <- load b l ;;
      store outval (firstn (Z.to_nat (gcry_drbg_blocklen st))
                           (cipher_encrypt G (backend_cipher c) k input)) ;;
      ret 0
  end.

(** *** CTR DRBG callback functions *)

(** The [for] loop of [gcry_drbg_ctr_bcc]: XOR up to one block of the
    chain into [out], walking from node to node.  Returns [curr], [pos]
    and [inpos]. *)
Fixpoint ctr_bcc_for (n : nat) (cnt : Z) (out_ : ptr)
         (curr : gcry_drbg_string) (pos : ptr) (inpos : Z)
  : M env (gcry_drbg_string * ptr * Z) :=
  match n with
  | O => ret (curr, pos, inpos)
  | S n' =>
      o <- deref (ptr_add out_ cnt) ;;
      p <- deref pos ;;
      store (ptr_add out_ cnt) [Z.lxor o p] ;;
      let pos := ptr_add pos 1 in
      let inpos := to_size_t (inpos - 1) in
      if inpos =? 0 then
        match curr with
        | NoString => diverge
        | drbg_string _ _ NoString => ret (NoString, pos, 0)
        | drbg_string _ _ (drbg_string b l nx) =>
            ctr_bcc_for n' (cnt + 1) out_ (drbg_string b l nx) b l
        end
      else ctr_bcc_for n' (cnt + 1) out_ curr pos inpos
  end.

Fixpoint ctr_bcc_while (fuel : nat) (bl : Z) (out_ key : ptr)
         (data : gcry_drbg_string)
         (curr : gcry_drbg_string) (pos : ptr) (inpos : Z) : M env Z :=
  if inpos =? 0 then ret 0 else
  match fuel with
  | O => diverge
  | S fuel' =>
      ' (curr, pos, inpos) <- ctr_bcc_for (Z.to_nat bl) 0 out_ curr pos inpos ;;
      r <- gcry_drbg_sym key out_ data ;;
      if is_err r then ret r else
      ctr_bcc_while fuel' bl out_ key data curr pos inpos
  end.

(** The sum of the [len] fields of a chain. *)
Fixpoint chain_len (s : gcry_drbg_string) : Z :=
  match s with
  | NoString => 0
  | drbg_string _ l nx => l + chain_len nx
  end.

(** BCC function for CTR DRBG as defined in 10.4.3 *)
Definition gcry_drbg_ctr_bcc (out_ key : ptr) (in_ : gcry_drbg_string) : M env Z :=
  match in_ with
  | NoString => diverge
  | drbg_string b l _ =>
      st <- get_drbg ;;
      let data := gcry_drbg_string_fill out_ (gcry_drbg_blocklen st) in
      memset out_ 0 (gcry_drbg_blocklen st) ;;
      ctr_bcc_while (Z.to_nat (chain_len in_)) (gcry_drbg_blocklen st)
                    out_ key data in_ b l
  end.

(** [tempstr = addtl; while (tempstr->next) tempstr = tempstr->next;
    tempstr->next = &S4;] *)
Fixpoint splice (s s4 : gcry_drbg_string) : gcry_drbg_string :=
  match s with
  | NoString => NoString
  | drbg_string b l NoString => drbg_string b l s4
  | drbg_string b l nx => drbg_string b l (splice nx s4)
  end.

(** The fixed key of the derivation function. *)
Definition ctr_df_K : list Z :=
  [0; 1; 2; 3; 4; 5; 6; 7; 8; 9; 10; 11; 12; 13; 14; 15;
   16; 17; 18; 19; 20; 21; 22; 23; 24; 25; 26; 27; 28; 29; 30; 31].

(** 10.4.2 step 9 *)
Fixpoint ctr_df_bcc_loop (fuel : nat) (kl bl : Z) (iv temp : ptr)
         (S1 : gcry_drbg_string) (i templen : Z) : M env Z :=
  if templen <? kl + bl then
    match fuel with
    | O => diverge
    | S fuel' =>
        store iv (gcry_drbg_cpu_to_be32 i) ;;
        r <- gcry_drbg_ctr_bcc (ptr_add temp templen) (Data ctr_df_K) S1 ;;
        if is_err r then ret r else
        ctr_df_bcc_loop fuel' kl bl iv temp S1 (i + 1) (templen + bl)
    end
  else ret 0.

(** 10.4.2 step 13 *)
Fixpoint ctr_df_out_loop (fuel : nat) (bl : Z) (df_data temp X : ptr)
         (cipherin : gcry_drbg_string)
         (bytes_to_return generated_len : Z) : M env Z :=
  if generated_len <? bytes_to_return then
    match fuel with
    | O => diverge
    | S fuel' =>
        r <- gcry_drbg_sym temp X cipherin ;;
        if is_err r then ret r else
        let blocklen := to_short (if bl <? bytes_to_return - generated_len
                                  then bl
                                  else bytes_to_return - generated_len) in
        memcpy (ptr_add df_data generated_len) X blocklen ;;
        ctr_df_out_loop fuel' bl df_data temp X cipherin
                        bytes_to_return (generated_len + blocklen)
    end
  else ret 0.

(** Derivation Function for CTR DRBG as defined in 10.4.2.  Returns the
    error code and the chain of the caller as the function leaves it. *)
Definition gcry_drbg_ctr_df (df_data : ptr) (bytes_to_return : Z)
           (addtl : gcry_drbg_string) : M env (Z * gcry_drbg_string) :=
  st <- get_drbg ;;
  let sl := gcry_drbg_statelen st in
  let bl := gcry_drbg_blocklen st in
  let kl := gcry_drbg_keylen st in
  let pad := ptr_add df_data sl in
  let iv := ptr_add pad bl in
  let temp := ptr_add iv bl in
  memset pad 0 bl ;;
  memset iv 0 bl ;;
  memset temp 0 sl ;;
  if 512 / 8 <? bytes_to_return then ret (GPG_ERR_INV_ARG, addtl) else
  let inputlen := to_size_t (chain_len addtl) in
  let L_N := gcry_drbg_cpu_to_be32 inputlen
             ++ gcry_drbg_cpu_to_be32 bytes_to_return in
  if bl =? 0 then diverge else
  let padlen := to_size_t (inputlen + 8 + 1) mod bl in
  let padlen := if negb (padlen =? 0) then bl - padlen else padlen in
  let padlen := padlen + 1 in
  store pad [128] ;;
  let S4 := gcry_drbg_string_fill pad padlen in
  match addtl with
  | NoString => diverge
  | _ =>
      let addtl := splice addtl S4 in
      let S2 := drbg_string (Data L_N) 8 addtl in
      let S1 := drbg_string iv bl S2 in
      r <- ctr_df_bcc_loop (Z.to_nat (kl + bl)) kl bl iv temp S1 0 0 ;;
      r <- (if is_err r then ret r else
            let X := ptr_add temp kl in
            let cipherin := gcry_drbg_string_fill X bl in
            ctr_df_out_loop (Z.to_nat bytes_to_return) bl df_data temp X
                            cipherin bytes_to_return 0) ;;
      memset iv 0 bl ;;
      memset temp 0 sl ;;
      memset pad 0 bl ;;
      ret (r, addtl)
  end.

Fixpoint xor_bytes (a b : list Z) : list Z :=
  match a, b with
  | x :: a', y :: b' => Z.lxor x y :: xor_bytes a' b'
  | _, _ => []
  end.

(** 10.2.1.2 step 2 *)
Fixpoint ctr_update_loop (fuel : nat) (sl bl : Z) (temp : ptr)
         (cipherin : gcry_drbg_string) (len : Z) : M env Z :=
  if len <? sl then
    match fuel with
    | O => diverge
    | S fuel' =>
        add_buf (Mem LV 0) bl (Data [1]) 1 ;;
        r <- gcry_drbg_sym (Mem LC 0) (ptr_add temp len) cipherin ;;
        if is_err r then ret r else
        ctr_update_loop fuel' sl bl temp cipherin (len + bl)
    end
  else ret 0.

(** update function of CTR DRBG as defined in 10.2.1.2 *)
Definition gcry_drbg_ctr_update (addtl : gcry_drbg_string) (reseed : Z)
  : M env (Z * gcry_drbg_string) :=
  st <- get_drbg ;;
  let sl := gcry_drbg_statelen st in
  let bl := gcry_drbg_blocklen st in
  let kl := gcry_drbg_keylen st in
  let temp := Mem LScratch 0 in
  let df_data := Mem LScratch (sl + bl) in
  memset temp 0 (sl + bl) ;;
  (if reseed <? 3 then memset df_data 0 sl else ret tt) ;;
  ' (r, addtl) <-
    match addtl with
    | NoString => ret (0, addtl)
    | drbg_string _ l _ =>
        if 0 <? l then gcry_drbg_ctr_df df_data sl addtl else ret (0, addtl)
    end ;;
  r <- (if is_err r then ret r else
        let cipherin := gcry_drbg_string_fill (Mem LV 0) bl in
        r <- ctr_update_loop (Z.to_nat sl) sl bl temp cipherin 0 ;;
        if is_err r then ret r else
        t <- load temp sl ;;
        d <- load df_data sl ;;
        store temp (xor_bytes t d) ;;
        memcpy (Mem LC 0) temp kl ;;
        memcpy (Mem LV 0) (ptr_add temp kl) bl ;;
        ret 0) ;;
  memset temp 0 (sl + bl) ;;
  (if negb (reseed =? 2) then memset df_data 0 sl else ret tt) ;;
  ret (r, addtl).

(** 10.2.1.5.2 step 4 *)
Fixpoint ctr_generate_loop (fuel : nat) (bl : Z) (buf : ptr) (buflen : Z)
         (data : gcry_drbg_string) (len : Z) : M env Z :=
  if len <? buflen then
    match fuel with
    | O => diverge
    | S fuel' =>
        r <- gcry_drbg_sym (Mem LC 0) (Mem LScratch 0) data ;;
        if is_err r then ret r else
        let outlen := if bl <? buflen - len then bl else buflen - len in
        memcpy (ptr_add buf len) (Mem LScratch 0) outlen ;;
        let len := len + outlen in
        (if len <? buflen then add_buf (Mem LV 0) bl (Data [1]) 1
         else ret tt) ;;
        ctr_generate_loop fuel' bl buf buflen data len
    end
  else ret 0.

(** [addtl && 0 < addtl->len] *)
Definition has_bytes (addtl : gcry_drbg_string) : bool :=
  match addtl with
  | NoString => false
  | drbg_string _ l _ => 0 <? l
  end.

(** Generate function of CTR DRBG as defined in 10.2.1.5.2 *)
Definition gcry_drbg_ctr_generate (buf : ptr) (buflen : Z)
           (addtl : gcry_drbg_string) : M env (Z * gcry_drbg_string) :=
  st <- get_drbg ;;
  let bl := gcry_drbg_blocklen st in
  memset (Mem LScratch 0) 0 bl ;;
  ' (r, addtl) <-
    (if has_bytes addtl
     then gcry_drbg_ctr_update (set_next addtl NoString) 2
     else ret (0, addtl)) ;;
  if is_err r then ret (r, addtl) else
  add_buf (Mem LV 0) bl (Data [1]) 1 ;;
  let data := gcry_drbg_string_fill (Mem LV 0) bl in
  r <- ctr_generate_loop (Z.to_nat buflen) bl buf buflen data 0 ;;
  if is_err r then memset (Mem LScratch 0) 0 bl ;; ret (r, addtl) else
  ' (r, addtl) <- gcry_drbg_ctr_update (set_next addtl NoString) 3 ;;
  memset (Mem LScratch 0) 0 bl ;;
  ret (r, addtl).

(** The scheme section 4.3.3 of the specification compares the CTR
    generate function with: the same steps, but [update] is called with
    flag 1 both times, so that the additional input goes through the
    derivation function each time and nothing is kept in between. *)
Definition ctr_generate_unoptimized (buf : ptr) (buflen : Z)
           (addtl : gcry_drbg_string) : M env (Z * gcry_drbg_string) :=
  st <- get_drbg ;;
  let bl := gcry_drbg_blocklen st in
  memset (Mem LScratch 0) 0 bl ;;
  ' (r, addtl) <-
    (if has_bytes addtl
     then gcry_drbg_ctr_update (set_next addtl NoString) 1
     else ret (0, addtl)) ;;
  if is_err r then ret (r, addtl) else
  add_buf (Mem LV 0) bl (Data [1]) 1 ;;
  let data := gcry_drbg_string_fill (Mem LV 0) bl in
  r <- ctr_generate_loop (Z.to_nat buflen) bl buf buflen data 0 ;;
  if is_err r then memset (Mem LScratch 0) 0 bl ;; ret (r, addtl) else
  ' (r, addtl) <- gcry_drbg_ctr_update (set_next addtl NoString) 1 ;;
  memset (Mem LScratch 0) 0 bl ;;
  ret (r, addtl).

(** *** HMAC DRBG callback functions *)

(** The two rounds of V/K massaging, [i] counting down from 2. *)
Fixpoint hmac_update_for (i : nat) (sl : Z) (seed : gcry_drbg_string) : M env Z :=
  match i with
  | O => ret 0
  | S i' =>
      let prefix := if (i =? 1)%nat then 1 else 0 in
      let seed2 := drbg_string (Data [prefix]) 1 seed in
      let seed1 := drbg_string (Mem LV 0) sl seed2 in
      let cipherin := gcry_drbg_string_fill (Mem LV 0) sl in
      r <- gcry_drbg_hmac (Mem LC 0) (Mem LC 0) seed1 ;;
      if is_err r then ret r else
      r <- gcry_drbg_hmac (Mem LC 0) (Mem LV 0) cipherin ;;
      if is_err r then ret r else
      if negb (has_bytes seed) then ret r else
      hmac_update_for i' sl seed
  end.

Definition gcry_drbg_hmac_update (seed : gcry_drbg_string) (reseed : Z)
  : M env (Z * gcry_drbg_string) :=
  st <- get_drbg ;;
  let sl := gcry_drbg_statelen st in
  (if reseed =? 0 then memset (Mem LV 0) 1 sl else ret tt) ;;
  r <- hmac_update_for 2 sl seed ;;
  ret (r, seed).

(** 10.1.2.5 step 4 *)
Fixpoint hmac_generate_loop (fuel : nat) (bl : Z) (buf : ptr) (buflen : Z)
         (data : gcry_drbg_string) (len : Z) : M env Z :=
  if len <? buflen then
    match fuel with
    | O => diverge
    | S fuel' =>
        r <- gcry_drbg_hmac (Mem LC 0) (Mem LV 0) data ;;
        if is_err r then ret r else
        let outlen := if bl <? buflen - len then bl else buflen - len in
        memcpy (ptr_add buf len) (Mem LV 0) outlen ;;
        hmac_generate_loop fuel' bl buf buflen data (len + outlen)
    end
  else ret 0.

(** generate function of HMAC DRBG as defined in 10.1.2.5 *)
Definition gcry_drbg_hmac_generate (buf : ptr) (buflen : Z)
           (addtl : gcry_drbg_string) : M env (Z * gcry_drbg_string) :=
  st <- get_drbg ;;
  let sl := gcry_drbg_statelen st in
  let bl := gcry_drbg_blocklen st in
  ' (r, addtl) <-
    (if has_bytes addtl
     then gcry_drbg_hmac_update (set_next addtl NoString) 1
     else ret (0, addtl)) ;;
  if is_err r then ret (r, addtl) else
  let data := gcry_drbg_string_fill (Mem LV 0) sl in
  r <- hmac_generate_loop (Z.to_nat buflen) bl buf buflen data 0 ;;
  if is_err r then ret (r, addtl) else
  gcry_drbg_hmac_update (set_next addtl NoString) 1.

(** *** Hash DRBG callback functions *)

(** 10.4.1 step 4.  [input] is the five-byte array; the node [data1]
    points at it and at the chain [entropy]. *)
Fixpoint hash_df_loop (fuel : nat) (bl : Z) (outval tmp : ptr) (outlen : Z)
         (entropy : gcry_drbg_string) (input : list Z) (len : Z) : M env Z :=
  if len <? outlen then
    match fuel with
    | O => diverge
    | S fuel' =>
        let data1 := drbg_string (Data input) 5 entropy in
        r <- gcry_drbg_hmac Null tmp data1 ;;
        if is_err r then ret r else
        let input := set_byte input 0 ((byte_at input 0 + 1) mod 256) in
        let blocklen := to_short (if bl <? outlen - len
                                  then bl else outlen - len) in
        memcpy (ptr_add outval len) tmp blocklen ;;
        hash_df_loop fuel' bl outval tmp outlen entropy input (len + blocklen)
    end
  else ret 0.

(** Derivation Function for Hash DRBG as defined in 10.4.1 *)
Definition gcry_drbg_hash_df (outval : ptr) (outlen : Z)
           (entropy : gcry_drbg_string) : M env Z :=
  st <- get_drbg ;;
  let bl := gcry_drbg_blocklen st in
  let tmp := Mem LScratch (gcry_drbg_statelen st) in
  memset tmp 0 bl ;;
  let input := 1 :: gcry_drbg_cpu_to_be32 (to_size_t (outlen * 8)) in
  r <- hash_df_loop (Z.to_nat outlen) bl outval tmp outlen entropy input 0 ;;
  memset tmp 0 bl ;;
  ret r.

(** update function for Hash DRBG as defined in 10.1.1.2 / 10.1.1.3 *)
Definition gcry_drbg_hash_update (seed : gcry_drbg_string) (reseed : Z)
  : M env (Z * gcry_drbg_string) :=
  st <- get_drbg ;;
  let sl := gcry_drbg_statelen st in
  let V_ := Mem LScratch 0 in
  memset (Mem LScratch 0) 0 sl ;;
  match seed with
  | NoString => ret (GPG_ERR_INV_ARG, seed)
  | drbg_string sbuf slen snext =>
      data1 <-
        (if negb (reseed =? 0) then
           memcpy V_ (Mem LV 0) sl ;;
           ret (drbg_string (Data [1]) 1 (drbg_string V_ sl seed))
         else ret (drbg_string sbuf slen snext)) ;;
      r <- gcry_drbg_hash_df (Mem LV 0) sl data1 ;;
      r <- (if is_err r then ret r else
            let data1 := drbg_string (Data [0]) 1
                           (gcry_drbg_string_fill (Mem LV 0) sl) in
            gcry_drbg_hash_df (Mem LC 0) sl data1) ;;
      memset (Mem LScratch 0) 0 sl ;;
      ret (r, seed)
  end.

(** processing of additional information string for Hash DRBG *)
Definition gcry_drbg_hash_process_addtl (addtl : gcry_drbg_string)
  : M env (Z * gcry_drbg_string) :=
  st <- get_drbg ;;
  let sl := gcry_drbg_statelen st in
  let bl := gcry_drbg_blocklen st in
  memset (Mem LScratch 0) 0 bl ;;
  if negb (has_bytes addtl) then ret (0, addtl) else
  let data3 := set_next addtl NoString in
  let data1 := drbg_string (Data [2]) 1 (drbg_string (Mem LV 0) sl data3) in
  r <- gcry_drbg_hmac Null (Mem LScratch 0) data1 ;;
  (if is_err r then ret tt
   else add_buf (Mem LV 0) sl (Mem LScratch 0) bl) ;;
  memset (Mem LScratch 0) 0 bl ;;
  ret (r, data3).

(** 10.1.1.4 hashgen step 4 *)
Fixpoint hash_hashgen_loop (fuel : nat) (sl bl : Z) (buf : ptr) (buflen : Z)
         (src dst : ptr) (data : gcry_drbg_string) (len : Z) : M env Z :=
  if len <? buflen then
    match fuel with
    | O => diverge
    | S fuel' =>
        r <- gcry_drbg_hmac Null dst data ;;
        if is_err r then ret r else
        let outlen := if bl <? buflen - len then bl else buflen - len in
        memcpy (ptr_add buf len) dst outlen ;;
        let len := len + outlen in
        (if len <? buflen then add_buf src sl (Data [1]) 1 else ret tt) ;;
        hash_hashgen_loop fuel' sl bl buf buflen src dst data len
    end
  else ret 0.

(** Hashgen defined in 10.1.1.4 *)
Definition gcry_drbg_hash_hashgen (buf : ptr) (buflen : Z) : M env Z :=
  st <- get_drbg ;;
  let sl := gcry_drbg_statelen st in
  let bl := gcry_drbg_blocklen st in
  let src := Mem LScratch 0 in
  let dst := Mem LScratch sl in
  memset src 0 sl ;;
  memset dst 0 bl ;;
  memcpy src (Mem LV 0) sl ;;
  let data := gcry_drbg_string_fill src sl in
  r <- hash_hashgen_loop (Z.to_nat buflen) sl bl buf buflen src dst data 0 ;;
  memset (Mem LScratch 0) 0 (sl + bl) ;;
  ret r.

(** generate function for Hash DRBG as defined in 10.1.1.4 *)
Definition gcry_drbg_hash_generate (buf : ptr) (buflen : Z)
           (addtl : gcry_drbg_string) : M env (Z * gcry_drbg_string) :=
  st <- get_drbg ;;
  let sl := gcry_drbg_statelen st in
  let bl := gcry_drbg_blocklen st in
  ' (r, addtl) <- gcry_drbg_hash_process_addtl addtl ;;
  if is_err r then ret (r, addtl) else
  r <- gcry_drbg_hash_hashgen buf buflen ;;
  if is_err r then ret (r, addtl) else
  memset (Mem LScratch 0) 0 bl ;;
  let data1 := drbg_string (Data [3]) 1
                 (gcry_drbg_string_fill (Mem LV 0) sl) in
  r <- gcry_drbg_hmac Null (Mem LScratch 0) data1 ;;
  (if is_err r then ret tt else
   add_buf (Mem LV 0) sl (Mem LScratch 0) bl ;;
   add_buf (Mem LV 0) sl (Mem LC 0) sl ;;
   st <- get_drbg ;;
   add_buf (Mem LV 0) sl (Data (be_bswap64 (reseed_ctr st))) 8) ;;
  memset (Mem LScratch 0) 0 bl ;;
  ret (r, addtl).

(** *** Functions common for DRBG implementations *)

(** [drbg->d_ops->update] and [drbg->d_ops->generate] *)
Definition d_ops_update (seed : gcry_drbg_string) (reseed : Z)
  : M env (Z * gcry_drbg_string) :=
  st <- get_drbg ;;
  match d_ops st with
  | None => diverge
  | Some gcry_drbg_hash_ops => gcry_drbg_hash_update seed reseed
  | Some gcry_drbg_hmac_ops => gcry_drbg_hmac_update seed reseed
  | Some gcry_drbg_ctr_ops => gcry_drbg_ctr_update seed reseed
  end.

Definition d_ops_generate (buf : ptr) (buflen : Z) (addtl : gcry_drbg_string)
  : M env (Z * gcry_drbg_string) :=
  st <- get_drbg ;;
  match d_ops st with
  | None => diverge
  | Some gcry_drbg_hash_ops => gcry_drbg_hash_generate buf buflen addtl
  | Some gcry_drbg_hmac_ops => gcry_drbg_hmac_generate buf buflen addtl
  | Some gcry_drbg_ctr_ops => gcry_drbg_ctr_generate buf buflen addtl
  end.

(** [drbg->core->flags] *)
Definition core_flags : M env Z := c <- get_core ;; ret (flags c).

(** The number of bytes [gcry_drbg_seed] asks the entropy source for. *)
Definition seed_entropylen (strength reseed : Z) : Z :=
  if reseed =? 0 then ((strength + 1) / 2) * 3 else strength.

(** [pers && pers->buf && 0 < pers->len && NULL == pers->next] *)
Definition pers_usable (pers : gcry_drbg_string) : bool :=
  match pers with
  | drbg_string b l NoString => negb (is_null b) && (0 <? l)
  | _ => false
  end.

(** Seeding or reseeding of the DRBG.  Returns the error code and the
    node [pers] of the caller as the function leaves it. *)
Definition gcry_drbg_seed (pers : gcry_drbg_string) (reseed : Z)
  : M env (Z * gcry_drbg_string) :=
  if match pers with
     | NoString => false
     | drbg_string _ l _ => l >? gcry_drbg_max_addtl
     end
  then ret (GPG_ERR_INV_ARG, pers) else
  st <- get_drbg ;;
  ' (r, data1) <-
    match test_data st with
    | Some {| testentropy := drbg_string tb tl _ |} =>
        ret (0, gcry_drbg_string_fill tb tl)
    | _ =>
        fl <- core_flags ;;
        let entropylen := gcry_drbg_sec_strength fl in
        if entropylen =? 0 then ret (GPG_ERR_GENERAL, NoString) else
        let entropylen := seed_entropylen entropylen reseed in
        e <- call (xcalloc_secure entropylen) ;;
        if is_err e then ret (GPG_ERR_ENOMEM, NoString) else
        let entropy := repeat 0 (Z.to_nat entropylen) in
        ' (rc, entropy) <- gcry_drbg_get_entropy entropy entropylen ;;
        let r := to_err_code rc in
        if is_err r then ret (r, NoString) else
        ret (0, gcry_drbg_string_fill (Data entropy) entropylen)
    end ;;
  if is_err r then ret (r, pers) else
  let linked := pers_usable pers in
  let data1 := if linked then set_next data1 pers else data1 in
  ' (r, data1) <- d_ops_update data1 reseed ;;
  let pers := if linked
              then match data1 with
                   | drbg_string _ _ nx => nx
                   | NoString => pers
                   end
              else pers in
  if is_err r then ret (r, pers) else
  modify_drbg (set_seeded true) ;;
  modify_drbg (set_reseed_ctr 1) ;;
  ret (r, pers).

(** *** Exported interfaces *)

(** DRBG generate function as required by SP800-90A.  Returns the error
    code and the node [addtl] of the caller as the function leaves it. *)
Definition gcry_drbg_generate (buf : ptr) (buflen : Z)
           (addtl : gcry_drbg_string) : M env (Z * gcry_drbg_string) :=
  if (buflen =? 0) || is_null buf then ret (GPG_ERR_INV_ARG, addtl) else
  if match addtl with
     | NoString => false
     | drbg_string b l _ => is_null b && (0 <? l)
     end
  then ret (GPG_ERR_INV_ARG, addtl) else
  if buflen >? gcry_drbg_max_request_bytes
  then ret (GPG_ERR_INV_ARG, addtl) else
  if match addtl with
     | NoString => false
     | drbg_string _ l _ => l >? gcry_drbg_max_addtl
     end
  then ret (GPG_ERR_INV_ARG, addtl) else
  st <- get_drbg ;;
  (if gcry_drbg_max_requests <? reseed_ctr st
   then modify_drbg (set_seeded false) else ret tt) ;;
  st <- get_drbg ;;
  if pr st || negb (seeded st) then
    ' (r, caller_addtl) <- gcry_drbg_seed addtl 1 ;;
    if is_err r then ret (r, caller_addtl) else
    ' (r, _) <- d_ops_generate buf buflen NoString ;;
    st <- get_drbg ;;
    modify_drbg (set_reseed_ctr (to_size_t (reseed_ctr st + 1))) ;;
    ret (r, caller_addtl)
  else
    ' (r, caller_addtl) <- d_ops_generate buf buflen addtl ;;
    st <- get_drbg ;;
    modify_drbg (set_reseed_ctr (to_size_t (reseed_ctr st + 1))) ;;
    ret (r, caller_addtl).

(** The [do ... while] of [gcry_drbg_generate_long]; [len] counts the
    bytes delivered so far. *)
Fixpoint generate_long_loop (fuel : nat) (buf_p : ptr) (buflen len : Z)
         (addtl : gcry_drbg_string) : M env (Z * gcry_drbg_string) :=
  match fuel with
  | O => diverge
  | S fuel' =>
      let slice := (buflen - len) / gcry_drbg_max_request_bytes in
      let chunk := if negb (slice =? 0)
                   then gcry_drbg_max_request_bytes else buflen - len in
      ' (r, addtl) <- gcry_drbg_generate buf_p chunk addtl ;;
      if is_err r then ret (r, addtl) else
      let buf_p := ptr_add buf_p chunk in
      let len := len + chunk in
      if (slice >? 0) && (len <? buflen)
      then generate_long_loop fuel' buf_p buflen len addtl
      else ret (r, addtl)
  end.

Definition gcry_drbg_generate_long (buf : ptr) (buflen : Z)
           (addtl : gcry_drbg_string) : M env (Z * gcry_drbg_string) :=
  generate_long_loop (Z.to_nat (buflen / gcry_drbg_max_request_bytes) + 1)
                     buf buflen 0 addtl.

(** DRBG uninstantiate function as required by SP800-90A *)
Definition gcry_drbg_uninstantiate : M env Z :=
  modify_drbg (set_V []) ;;
  modify_drbg (set_C []) ;;
  modify_drbg (set_reseed_ctr 0) ;;
  modify_drbg (set_scratchpad []) ;;
  modify_drbg (set_seeded false) ;;
  modify_drbg (set_pr false) ;;
  modify_drbg (set_seed_init_pid 0) ;;
  ret 0.

(** Backend cipher definitions available to DRBG *)
Definition gcry_drbg_cores : list gcry_drbg_core :=
  [ Build_gcry_drbg_core (GCRY_DRBG_HASHSHA1 G) 55 20 (GCRY_MD_SHA1 G);
    Build_gcry_drbg_core (GCRY_DRBG_HASHSHA256 G) 55 32 (GCRY_MD_SHA256 G);
    Build_gcry_drbg_core (GCRY_DRBG_HASHSHA384 G) 111 48 (GCRY_MD_SHA384 G);
    Build_gcry_drbg_core (GCRY_DRBG_HASHSHA512 G) 111 64 (GCRY_MD_SHA512 G);
    Build_gcry_drbg_core (Z.lor (GCRY_DRBG_HASHSHA1 G) (GCRY_DRBG_HMAC G))
                         20 20 (GCRY_MD_SHA1 G);
    Build_gcry_drbg_core (Z.lor (GCRY_DRBG_HASHSHA256 G) (GCRY_DRBG_HMAC G))
                         32 32 (GCRY_MD_SHA256 G);
    Build_gcry_drbg_core (Z.lor (GCRY_DRBG_HASHSHA384 G) (GCRY_DRBG_HMAC G))
                         48 48 (GCRY_MD_SHA384 G);
    Build_gcry_drbg_core (Z.lor (GCRY_DRBG_HASHSHA512 G) (GCRY_DRBG_HMAC G))
                         64 64 (GCRY_MD_SHA512 G);
    Build_gcry_drbg_core (Z.lor (GCRY_DRBG_CTRAES G) (GCRY_DRBG_SYM128 G))
                         32 16 (GCRY_CIPHER_AES128 G);
    Build_gcry_drbg_core (Z.lor (GCRY_DRBG_CTRAES G) (GCRY_DRBG_SYM192 G))
                         40 16 (GCRY_CIPHER_AES192 G);
    Build_gcry_drbg_core (Z.lor (GCRY_DRBG_CTRAES G) (GCRY_DRBG_SYM256 G))
                         48 16 (GCRY_CIPHER_AES256 G) ].

(** DRBG instantiation function as required by SP800-90A *)
Definition gcry_drbg_instantiate (pers : gcry_drbg_string)
           (coreref : Z) (pr_ : bool) : M env (Z * gcry_drbg_string) :=
  match nth_error gcry_drbg_cores (Z.to_nat coreref) with
  | None => diverge
  | Some c =>
      modify_drbg (set_core (Some c)) ;;
      modify_drbg (set_pr pr_) ;;
      modify_drbg (set_seeded false) ;;
      let ops :=
        if flag_set (flags c) (GCRY_DRBG_HMAC G)
        then Some gcry_drbg_hmac_ops
        else if flag_set (flags c) (GCRY_DRBG_HASH_MASK G)
        then Some gcry_drbg_hash_ops
        else if flag_set (flags c) (GCRY_DRBG_CTR_MASK G)
        then Some gcry_drbg_ctr_ops
        else None in
      match ops with
      | None => ret (GPG_ERR_GENERAL, pers)
      | Some o =>
          modify_drbg (set_d_ops (Some o)) ;;
          let sl := statelen c in
          let bl := blocklen_bytes c in
          ' (r, pers) <-
            (e <- call (xcalloc_secure sl) ;;
             if is_err e then ret (GPG_ERR_ENOMEM, pers) else
             modify_drbg (set_V (repeat 0 (Z.to_nat sl))) ;;
             e <- call (xcalloc_secure sl) ;;
             if is_err e then ret (GPG_ERR_ENOMEM, pers) else
             modify_drbg (set_C (repeat 0 (Z.to_nat sl))) ;;
             let sb_size :=
               if flag_set (flags c) (GCRY_DRBG_HMAC G) then 0
               else if flag_set (flags c) (GCRY_DRBG_CTR_MASK G)
               then sl + bl + sl + bl + bl + sl + bl
               else sl + bl in
             e <- (if 0 <? sb_size
                   then e <- call (xcalloc_secure sb_size) ;;
                        if is_err e then ret e else
                        modify_drbg
                          (set_scratchpad (repeat 0 (Z.to_nat sb_size))) ;;
                        ret 0
                   else ret 0) ;;
             if is_err e then ret (GPG_ERR_ENOMEM, pers) else
             gcry_drbg_seed pers 0) ;;
          if is_err r then gcry_drbg_uninstantiate ;; ret (r, pers)
          else ret (0, pers)
      end
  end.

(** DRBG reseed function as required by SP800-90A *)
Definition gcry_drbg_reseed (addtl : gcry_drbg_string)
  : M env (Z * gcry_drbg_string) :=
  gcry_drbg_seed addtl 1.

(** *** Self-test code *)

(** Check whether given flags are known to point to an applicable DRBG:
    the error code and [*coreref]. *)
Fixpoint algo_available_loop (cores : list gcry_drbg_core) (fl i : Z)
  : Z * Z :=
  match cores with
  | [] => (GPG_ERR_GENERAL, 0)
  | c :: cores' =>
      if Z.land (flags c) (GCRY_DRBG_CIPHER_MASK G)
         =? Z.land fl (GCRY_DRBG_CIPHER_MASK G)
      then (0, i)
      else algo_available_loop cores' fl (i + 1)
  end.

Definition gcry_drbg_algo_available (fl : Z) : Z * Z :=
  algo_available_loop gcry_drbg_cores fl 0.

(** [sizeof (struct gcry_drbg_state)] *)
Definition sizeof_gcry_drbg_state : Z := if lp64 G then 64 else 36.

End Drbg.

(** [struct gcry_drbg_test_vector], declared in a header that is not
    among the sources; the fields are those the test code reads. *)
Record gcry_drbg_test_vector := {
  tv_flags : Z;
  tv_entropy : ptr;
  tv_entropylen : Z;
  tv_entpra : ptr;
  tv_entprb : ptr;
  tv_entprlen : Z;
  tv_addtla : ptr;
  tv_addtlb : ptr;
  tv_addtllen : Z;
  tv_pers : ptr;
  tv_perslen : Z;
  tv_expected : ptr;
  tv_expectedlen : Z;
  tv_entropyreseed : ptr;
  tv_entropyreseed_len : Z;
  tv_addtl_reseed : ptr;
  tv_addtl_reseed_len : Z
}.

(** [memcmp]: zero when the first [n] bytes agree, else the difference
    of the first two bytes that differ. *)
Fixpoint memcmp (a b : list Z) (n : nat) : Z :=
  match n with
  | O => 0
  | S n' =>
      let x := hd 0 a in
      let y := hd 0 b in
      if x =? y then memcmp (tl a) (tl b) n' else x - y
  end.

Section Selftest.

Context {env : Type} (G : platform env).

(** [test_data.testentropy = &testentropy] with the node filled anew:
    the instance sees the new node through [drbg->test_data]. *)
Definition fill_testentropy (buf : ptr) (len : Z) : M env unit :=
  modify_drbg
    (set_test_data
       (Some {| testentropy := gcry_drbg_string_fill buf len;
                fail_seed_source := false |})).

(** [buf = xcalloc_secure (1, n)] for the output buffer of the machine. *)
Definition calloc_out (n : Z) : M env unit :=
  fun m => Some (tt, {| drbg := drbg m; out := repeat 0 (Z.to_nat n);
                        be := be m |}).

(** The part of [gcry_drbg_cavs_test] that works on the instance it
    allocated: the error code it would return. *)
Definition cavs_test_run (test : gcry_drbg_test_vector) (buf : ptr)
           (coreref : Z) : M env Z :=
  let pr_ := flag_set (tv_flags test) (GCRY_DRBG_PREDICTION_RESIST G) in
  fill_testentropy (tv_entropy test) (tv_entropylen test) ;;
  let pers := gcry_drbg_string_fill (tv_pers test) (tv_perslen test) in
  ' (r, _) <- gcry_drbg_instantiate G pers coreref pr_ ;;
  if is_err r then ret r else
  e <- (if negb (is_null (tv_entropyreseed test)) then
          fill_testentropy (tv_entropyreseed test)
                           (tv_entropyreseed_len test) ;;
          let addtl := gcry_drbg_string_fill (tv_addtl_reseed test)
                                             (tv_addtl_reseed_len test) in
          ' (e, _) <- gcry_drbg_reseed G addtl ;;
          ret e
        else ret 0) ;;
  if is_err e then ret r else
  let addtl := gcry_drbg_string_fill (tv_addtla test) (tv_addtllen test) in
  (if negb (is_null (tv_entpra test))
   then fill_testentropy (tv_entpra test) (tv_entprlen test)
   else ret tt) ;;
  gcry_drbg_generate_long G buf (tv_expectedlen test) addtl ;;
  let addtl := gcry_drbg_string_fill (tv_addtlb test) (tv_addtllen test) in
  (if negb (is_null (tv_entprb test))
   then fill_testentropy (tv_entprb test) (tv_entprlen test)
   else ret tt) ;;
  gcry_drbg_generate_long G buf (tv_expectedlen test) addtl ;;
  gcry_drbg_uninstantiate ;;
  ret r.

(** CAVS test.  The instance the test works on is its own: it is
    allocated here and freed before the function returns, and the
    instance of the machine is left as it was. *)
Definition gcry_drbg_cavs_test (test : gcry_drbg_test_vector) (buf : ptr)
  : M env Z :=
  let '(r, coreref) := gcry_drbg_algo_available G (tv_flags test) in
  if is_err r then ret r else
  e <- call G (xcalloc_secure (sizeof_gcry_drbg_state G)) ;;
  if is_err e then ret GPG_ERR_ENOMEM else
  fun m =>
    match cavs_test_run test buf coreref
            {| drbg := drbg_calloc; out := out m; be := be m |} with
    | None => None
    | Some (r, m') => Some (r, {| drbg := drbg m; out := out m'; be := be m' |})
    end.

(** Invoke the CAVS test and perform the final check whether the
    calculated random value matches the expected one.  [buf], which the
    function allocates, is the output buffer of the machine. *)
Definition gcry_drbg_healthcheck_one (test : gcry_drbg_test_vector)
  : M env Z :=
  e <- call G (xcalloc_secure (tv_expectedlen test)) ;;
  if is_err e then ret GPG_ERR_ENOMEM else
  calloc_out (tv_expectedlen test) ;;
  _ <- gcry_drbg_cavs_test test (Mem LOut 0) ;;
  expected <- load (tv_expected test) (tv_expectedlen test) ;;
  buf <- load (Mem LOut 0) (tv_expectedlen test) ;;
  ret (to_err_code (memcmp expected buf (Z.to_nat (tv_expectedlen test)))).

End Selftest.

(** ** The tail of the chain of the caller

    [caller_tail_next orig now]: the [next] pointer, in the chain [now],
    of the node that is the last node of the chain [orig] the caller
    passed in. *)
Fixpoint caller_tail_next (orig now : gcry_drbg_string) : gcry_drbg_string :=
  match orig, now with
  | drbg_string _ _ NoString, drbg_string _ _ nx => nx
  | drbg_string _ _ orig', drbg_string _ _ now' => caller_tail_next orig' now'
  | _, _ => NoString
  end.

(** ** The derivation function of the specification

    Section 4.2 of the specification, in its words: [counter = 1];
    [prefix = counter || BE32 (L*8)] (5 bytes); while [produced < L],
    compute [block = H (prefix || in)], append [min (outlen, L - produced)]
    bytes of it, increment [counter].  The prefix has five bytes: the
    counter is one byte and counts modulo 256, and [BE32] encodes the low
    32 bits of its argument. *)

Definition BE32 (n : Z) : list Z :=
  [n / 2 ^ 24 mod 256; n / 2 ^ 16 mod 256; n / 2 ^ 8 mod 256; n mod 256].

Fixpoint Hash_df_blocks (H : list Z -> list Z) (outlen : Z) (inb : list Z)
         (L : Z) (fuel : nat) (counter produced : Z) : list Z :=
  match fuel with
  | O => []
  | S fuel' =>
      if produced <? L then
        let block := H ((counter mod 256 :: BE32 (L * 8)) ++ inb) in
        let keep := Z.min outlen (L - produced) in
        firstn (Z.to_nat keep) block
          ++ Hash_df_blocks H outlen inb L fuel' (counter + 1) (produced + keep)
      else []
  end.

Definition Hash_df (H : list Z -> list Z) (outlen : Z) (inb : list Z)
           (L : Z) : list Z :=
  Hash_df_blocks H outlen inb L (Z.to_nat L) 1 0.

(** A chain whose nodes lie outside the memory a derivation writes: the
    buffer [l] it stores its output in and the scratchpad from offset
    [sl] on. *)
Definition node_outside (l : loc) (sl : Z) (p : ptr) (n : Z) : Prop :=
  match p with
  | Mem l' o => l' <> l /\ (l' = LScratch -> 0 <= o /\ 0 <= n /\ o + n <= sl)
  | _ => True
  end.

Fixpoint chain_outside (l : loc) (sl : Z) (s : gcry_drbg_string) : Prop :=
  match s with
  | NoString => True
  | drbg_string p n nx => node_outside l sl p n /\ chain_outside l sl nx
  end.

(** ** A test platform

    A 64-bit build with the flag and algorithm values of libgcrypt's
    headers and a scripted backend: the state of the backend is the list
    of the error codes its next calls return, and once the script is used
    up every call succeeds.  The digest and the cipher are stand-ins that
    only have the right lengths.  The theorems below hold for every
    platform; this one supplies concrete runs. *)

Definition sum_bytes (l : list Z) : Z := fold_left Z.add l 0.

Definition test_digest_len (algo : Z) : nat :=
  if algo =? 2 then 20%nat
  else if algo =? 8 then 32%nat
  else if algo =? 9 then 48%nat
  else 64%nat.

Definition test_md_digest (algo : Z) (key : option (list Z))
           (data : list Z) : list Z :=
  let k := match key with Some k => sum_bytes k + 1 | None => 0 end in
  map (fun i => (sum_bytes data + 3 * k + 7 * Z.of_nat i + algo) mod 256)
      (seq 0 (test_digest_len algo)).

Definition test_cipher_encrypt (algo : Z) (key input : list Z) : list Z :=
  map (fun b => (b + sum_bytes key + algo) mod 256) input.

Definition test_backend (script : list Z) (op : backend_op) : Z * list Z :=
  match script with
  | [] => (0, [])
  | e :: script' => (e, script')
  end.

Definition test_gather_random (script : list Z) (n : Z) : Z * list Z * list Z :=
  (0, repeat 170 (Z.to_nat n), script).

Definition test_platform_with
           (b : list Z -> backend_op -> Z * list Z) : platform (list Z) :=
  {| lp64 := true;
     GCRY_DRBG_CTRAES := 1;
     GCRY_DRBG_CTR_MASK := 7;
     GCRY_DRBG_HASHSHA1 := 16;
     GCRY_DRBG_HASHSHA256 := 64;
     GCRY_DRBG_HASHSHA384 := 128;
     GCRY_DRBG_HASHSHA512 := 256;
     GCRY_DRBG_HASH_MASK := 496;
     GCRY_DRBG_HMAC := 4096;
     GCRY_DRBG_SYM128 := 8192;
     GCRY_DRBG_SYM192 := 16384;
     GCRY_DRBG_SYM256 := 32768;
     GCRY_DRBG_CIPHER_MASK := 61943;
     GCRY_DRBG_PREDICTION_RESIST := 268435456;
     GCRY_MD_SHA1 := 2;
     GCRY_MD_SHA256 := 8;
     GCRY_MD_SHA384 := 9;
     GCRY_MD_SHA512 := 10;
     GCRY_CIPHER_AES128 := 7;
     GCRY_CIPHER_AES192 := 8;
     GCRY_CIPHER_AES256 := 9;
     backend := b;
     md_digest := test_md_digest;
     cipher_encrypt := test_cipher_encrypt;
     cipher_get_algo_blklen := fun _ => 16;
     gather_random := test_gather_random |}.

(** The platform whose backend follows a script of error codes. *)
Definition test_platform : platform (list Z) :=
  test_platform_with test_backend.

(** The platform whose backend never fails. *)
Definition quiet_platform : platform (list Z) :=
  test_platform_with (fun e _ => (0, e)).

(** An instance in the state [gcry_drbg_instantiate] leaves it in, for
    core [coreref] of the table, with all buffers zero. *)
Definition test_state (coreref : nat) (ops : gcry_drbg_state_ops)
           (sb_size : nat) : gcry_drbg_state :=
  let c := nth coreref (gcry_drbg_cores test_platform)
               (Build_gcry_drbg_core 0 0 0 0) in
  {| V := repeat 0 (Z.to_nat (statelen c));
     C := repeat 0 (Z.to_nat (statelen c));
     reseed_ctr := 1;
     scratchpad := repeat 0 sb_size;
     seeded := true;
     pr := false;
     seed_init_pid := 0;
     d_ops := Some ops;
     core := Some c;
     test_data := None |}.

Definition test_mach (st : gcry_drbg_state) (outlen : nat)
           (script : list Z) : mach (list Z) :=
  {| drbg := st; out := repeat 0 outlen; be := script |}.


(** ** Conditions the properties are stated with *)

Section Conditions.

Context {env : Type} (G : platform env).

(** The argument checks of [gcry_drbg_generate], as a condition. *)
Definition generate_args_rejected (buf : ptr) (buflen : Z)
           (addtl : gcry_drbg_string) : bool :=
  (buflen =? 0) || is_null buf
  || match addtl with
     | NoString => false
     | drbg_string b l _ => is_null b && (0 <? l)
     end
  || (buflen >? gcry_drbg_max_request_bytes)
  || match addtl with
     | NoString => false
     | drbg_string _ l _ => l >? gcry_drbg_max_addtl G
     end.

(** Step 4 of the generate control flow of the specification: a reseed
    counter above [2^48] clears [seeded]. *)
Definition clear_seeded_if_exhausted (m : mach env) : mach env :=
  if 2 ^ 48 <? reseed_ctr (drbg m)
  then {| drbg := set_seeded false (drbg m); out := out m; be := be m |}
  else m.

(** Steps 5 and 6 of that control flow when a reseed is due: reseed with
    the additional input of the caller, then run the generate function
    of the mechanism with a null additional input; the request is
    counted. *)
Definition reseed_then_generate (buf : ptr) (buflen : Z)
           (addtl : gcry_drbg_string) : M env (Z * gcry_drbg_string) :=
  ' (r, caller_addtl) <- gcry_drbg_reseed G addtl ;;
  if is_err r then ret (r, caller_addtl) else
  ' (r, _) <- d_ops_generate G buf buflen NoString ;;
  st <- get_drbg ;;
  modify_drbg (set_reseed_ctr (to_size_t G (reseed_ctr st + 1))) ;;
  ret (r, caller_addtl).

(** The machine after the backend has moved on to [b]. *)
Definition with_be (m : mach env) (b : env) : mach env :=
  {| drbg := drbg m; out := out m; be := b |}.

(** [x] relates the machine it starts in to the machine it returns in. *)
Definition preserves {A : Type} (R : mach env -> mach env -> Prop)
           (x : M env A) : Prop :=
  forall m a m', x m = Some (a, m') -> R m m'.

(** The request counter is as it was. *)
Definition same_reseed_ctr (m m' : mach env) : Prop :=
  reseed_ctr (drbg m') = reseed_ctr (drbg m).

(** The output buffer of the caller is as it was. *)
Definition same_out (m m' : mach env) : Prop := out m' = out m.

(** A pointer that does not point into the output buffer. *)
Definition not_out (p : ptr) : Prop :=
  match p with
  | Mem LOut _ => False
  | _ => True
  end.

(** What [x] returns, when it returns, satisfies [Q]. *)
Definition returns {A : Type} (Q : A -> Prop) (x : M env A) : Prop :=
  forall m a m', x m = Some (a, m') -> Q a.

(** *** Two runs side by side

    [agree_off a n sp sp']: two scratchpads of the same length that
    agree outside the [n] bytes from offset [a] on. *)
Definition agree_off (a n : nat) (sp sp' : list Z) : Prop :=
  length sp = length sp' /\
  forall i, (i < a \/ a + n <= i)%nat -> nth i sp 0 = nth i sp' 0.

(** Two machines with the core [c] that agree on [V], [C], the output
    buffer and the backend, and on the scratchpad (of length [slen])
    outside the [n] bytes from offset [a] on. *)
Definition ctr_rel (c : gcry_drbg_core) (slen a n : nat)
           (m m' : mach env) : Prop :=
  core (drbg m) = Some c /\ core (drbg m') = Some c
  /\ V (drbg m') = V (drbg m) /\ C (drbg m') = C (drbg m)
  /\ out m' = out m /\ be m' = be m
  /\ length (scratchpad (drbg m)) = slen
  /\ agree_off a n (scratchpad (drbg m)) (scratchpad (drbg m')).

(** [sim Rpre Rpost x y]: started in machines related by [Rpre], [x] and
    [y] both fail to return, or both return, with the same value [v] and
    in machines related by [Rpost v]. *)
Definition sim {A : Type} (Rpre : mach env -> mach env -> Prop)
           (Rpost : A -> mach env -> mach env -> Prop)
           (x y : M env A) : Prop :=
  forall m m', Rpre m m' ->
    match x m, y m' with
    | Some (v, n), Some (v', n') => v = v' /\ Rpost v n n'
    | None, None => True
    | _, _ => False
    end.

(** The [k] bytes at offset [o] of the scratchpad lie outside the [n]
    bytes from offset [a] on. *)
Definition span_avoids (a n : nat) (o k : Z) : Prop :=
  0 <= o /\
  ((Z.to_nat o + Z.to_nat k <= a)%nat \/ (a + n <= Z.to_nat o)%nat).

Definition ptr_avoids (a n : nat) (p : ptr) (k : Z) : Prop :=
  match p with
  | Mem LScratch o => span_avoids a n o k
  | _ => True
  end.

(** A pointer into the scratchpad points beyond that area. *)
Definition ptr_above (a n : nat) (p : ptr) : Prop :=
  match p with
  | Mem LScratch o => 0 <= o /\ (a + n <= Z.to_nat o)%nat
  | _ => True
  end.

(** A pointer that does not point into the scratchpad. *)
Definition ptr_free (p : ptr) : Prop :=
  match p with
  | Mem LScratch _ => False
  | _ => True
  end.

(** The nodes of a chain that lie in the scratchpad are not empty and
    lie outside that area. *)
Definition node_ok (a n : nat) (p : ptr) (k : Z) : Prop :=
  match p with
  | Mem LScratch o => 0 < k <= SIZE_MAX G /\ span_avoids a n o k
  | _ => True
  end.

Fixpoint chain_ok (a n : nat) (s : gcry_drbg_string) : Prop :=
  match s with
  | NoString => True
  | drbg_string p k nx => node_ok a n p k /\ chain_ok a n nx
  end.

(** [curr->next] *)
Definition string_next (s : gcry_drbg_string) : gcry_drbg_string :=
  match s with
  | NoString => NoString
  | drbg_string _ _ nx => nx
  end.

(** What the walk of [gcry_drbg_ctr_bcc] along the chain relies on: it
    has reached the end, or what is left of the current node and the
    nodes after it lie outside the area. *)
Definition walk_ok (a n : nat) (v : gcry_drbg_string * ptr * Z) : Prop :=
  let '(curr, pos, inpos) := v in
  inpos = 0 \/ (node_ok a n pos inpos /\ chain_ok a n (string_next curr)).

(** The outcomes of two runs: both fail to return, or both return the
    same value, in machines related by [T]. *)
Definition rel2 {A : Type} (T : mach env -> mach env -> Prop)
           (o1 o2 : option (A * mach env)) : Prop :=
  match o1, o2 with
  | Some (v, m1), Some (v', m2) => v = v' /\ T m1 m2
  | None, None => True
  | _, _ => False
  end.

(** *** One run

    [x] keeps [P]: when it returns from a machine with [P], the machine
    it returns in has [P]. *)
Definition holds {A : Type} (P : mach env -> Prop) (x : M env A) : Prop :=
  forall m a m', P m -> x m = Some (a, m') -> P m'.

(** The [df_data] area of the scratchpad of the CTR DRBG, the [statelen]
    bytes behind the [statelen + blocklen_bytes] bytes of [temp], holds
    zeros: [gcry_drbg_instantiate] allocates it so, and
    [gcry_drbg_ctr_update] clears it on its way out unless its flag
    is 2. *)
Definition df_data_clear (c : gcry_drbg_core) (m : mach env) : Prop :=
  forall i,
    (Z.to_nat (statelen c + blocklen_bytes c) <= i
     < Z.to_nat (statelen c + blocklen_bytes c) + Z.to_nat (statelen c))%nat ->
    nth i (scratchpad (drbg m)) 0 = 0.

(** An instance with the core [c] and a clear [df_data]. *)
Definition ctr_inv (c : gcry_drbg_core) (m : mach env) : Prop :=
  core (drbg m) = Some c /\ df_data_clear c m.

(** The additional input of a call: its bytes do not lie in the
    scratchpad of the instance. *)
Definition addtl_free (addtl : gcry_drbg_string) : Prop :=
  match addtl with
  | NoString => True
  | drbg_string b _ _ => ptr_free b
  end.

(** What the two schemes of the CTR generate function are compared on:
    the key [C] and [V], the output buffer of the caller and the
    backend. *)
Definition same_key_state (m1 m2 : mach env) : Prop :=
  V (drbg m2) = V (drbg m1) /\ C (drbg m2) = C (drbg m1)
  /\ out m2 = out m1 /\ be m2 = be m1.

(** The platform with another entropy gatherer. *)
Definition with_gather (g : env -> Z -> Z * list Z * env) : platform env :=
  {| lp64 := lp64 G;
     GCRY_DRBG_CTRAES := GCRY_DRBG_CTRAES G;
     GCRY_DRBG_CTR_MASK := GCRY_DRBG_CTR_MASK G;
     GCRY_DRBG_HASHSHA1 := GCRY_DRBG_HASHSHA1 G;
     GCRY_DRBG_HASHSHA256 := GCRY_DRBG_HASHSHA256 G;
     GCRY_DRBG_HASHSHA384 := GCRY_DRBG_HASHSHA384 G;
     GCRY_DRBG_HASHSHA512 := GCRY_DRBG_HASHSHA512 G;
     GCRY_DRBG_HASH_MASK := GCRY_DRBG_HASH_MASK G;
     GCRY_DRBG_HMAC := GCRY_DRBG_HMAC G;
     GCRY_DRBG_SYM128 := GCRY_DRBG_SYM128 G;
     GCRY_DRBG_SYM192 := GCRY_DRBG_SYM192 G;
     GCRY_DRBG_SYM256 := GCRY_DRBG_SYM256 G;
     GCRY_DRBG_CIPHER_MASK := GCRY_DRBG_CIPHER_MASK G;
     GCRY_DRBG_PREDICTION_RESIST := GCRY_DRBG_PREDICTION_RESIST G;
     GCRY_MD_SHA1 := GCRY_MD_SHA1 G;
     GCRY_MD_SHA256 := GCRY_MD_SHA256 G;
     GCRY_MD_SHA384 := GCRY_MD_SHA384 G;
     GCRY_MD_SHA512 := GCRY_MD_SHA512 G;
     GCRY_CIPHER_AES128 := GCRY_CIPHER_AES128 G;
     GCRY_CIPHER_AES192 := GCRY_CIPHER_AES192 G;
     GCRY_CIPHER_AES256 := GCRY_CIPHER_AES256 G;
     backend := backend G;
     md_digest := md_digest G;
     cipher_encrypt := cipher_encrypt G;
     cipher_get_algo_blklen := cipher_get_algo_blklen G;
     gather_random := g |}.

End Conditions.


(** A test vector for Hash-SHA1 whose expected output is four zero
    bytes. *)
Definition test_vector : gcry_drbg_test_vector :=
  {| tv_flags := 16;
     tv_entropy := Data (repeat 1 24);
     tv_entropylen := 24;
     tv_entpra := Null;
     tv_entprb := Null;
     tv_entprlen := 0;
     tv_addtla := Data [1; 2; 3; 4];
     tv_addtlb := Data [5; 6; 7; 8];
     tv_addtllen := 4;
     tv_pers := Null;
     tv_perslen := 0;
     tv_expected := Data [0; 0; 0; 0];
     tv_expectedlen := 4;
     tv_entropyreseed := Null;
     tv_entropyreseed_len := 0;
     tv_addtl_reseed := Null;
     tv_addtl_reseed_len := 0 |}.

(** ** Conditions for the further properties *)

Section Bookkeeping.

Context {env : Type} (G : platform env).

(** A table entry answers a request for [fl]: the flags agree under
    [GCRY_DRBG_CIPHER_MASK]. *)
Definition core_matches (c : gcry_drbg_core) (fl : Z) : Prop :=
  Z.land (flags c) (GCRY_DRBG_CIPHER_MASK G)
  = Z.land fl (GCRY_DRBG_CIPHER_MASK G).

(** The fields of an instance that no function of a mechanism writes,
    and the output buffer of the caller. *)
Definition same_bookkeeping (m m' : mach env) : Prop :=
  reseed_ctr (drbg m') = reseed_ctr (drbg m)
  /\ seeded (drbg m') = seeded (drbg m)
  /\ pr (drbg m') = pr (drbg m)
  /\ seed_init_pid (drbg m') = seed_init_pid (drbg m)
  /\ d_ops (drbg m') = d_ops (drbg m)
  /\ core (drbg m') = core (drbg m)
  /\ test_data (drbg m') = test_data (drbg m).

(** The buffers of the instance have the sizes they had. *)
Definition same_lengths (m m' : mach env) : Prop :=
  length (V (drbg m')) = length (V (drbg m))
  /\ length (C (drbg m')) = length (C (drbg m))
  /\ length (scratchpad (drbg m')) = length (scratchpad (drbg m)).

(** What [gcry_drbg_instantiate] sets up and no later call changes. *)
Definition same_config (m m' : mach env) : Prop :=
  pr (drbg m') = pr (drbg m)
  /\ seed_init_pid (drbg m') = seed_init_pid (drbg m)
  /\ d_ops (drbg m') = d_ops (drbg m)
  /\ core (drbg m') = core (drbg m)
  /\ test_data (drbg m') = test_data (drbg m).

(** The state [gcry_drbg_uninstantiate] leaves: no buffers, no counter,
    no flags. *)
Definition uninstantiated (st : gcry_drbg_state) : Prop :=
  V st = [] /\ C st = [] /\ scratchpad st = [] /\ reseed_ctr st = 0
  /\ seeded st = false /\ pr st = false /\ seed_init_pid st = 0.

(** [d_ops] as [gcry_drbg_instantiate] selects it from the flags of the
    core. *)
Definition ops_of_flags (fl : Z) : option gcry_drbg_state_ops :=
  if flag_set fl (GCRY_DRBG_HMAC G) then Some gcry_drbg_hmac_ops
  else if flag_set fl (GCRY_DRBG_HASH_MASK G) then Some gcry_drbg_hash_ops
  else if flag_set fl (GCRY_DRBG_CTR_MASK G) then Some gcry_drbg_ctr_ops
  else None.

(** The size of the scratchpad [gcry_drbg_instantiate] allocates. *)
Definition sb_size_of (c : gcry_drbg_core) : Z :=
  if flag_set (flags c) (GCRY_DRBG_HMAC G) then 0
  else if flag_set (flags c) (GCRY_DRBG_CTR_MASK G)
  then statelen c + blocklen_bytes c + statelen c + blocklen_bytes c
       + blocklen_bytes c + statelen c + blocklen_bytes c
  else statelen c + blocklen_bytes c.

End Bookkeeping.

(** ** The output buffer around a request

    [out_window off n m m']: the output buffer of the caller has in [m']
    the length it has in [m], and outside the [n] bytes from offset
    [off] on it holds the same bytes. *)
Definition out_window {env : Type} (off n : Z) (m m' : mach env) : Prop :=
  agree_off (Z.to_nat off) (Z.to_nat n) (out m) (out m').

(** ** Chains and the buffers of the machine

    [chain_off l s]: no node of the chain [s] points into the buffer
    [l]. *)
Fixpoint chain_off (l : loc) (s : gcry_drbg_string) : Prop :=
  match s with
  | NoString => True
  | drbg_string p _ nx =>
      match p with
      | Mem l' _ => l' <> l
      | _ => True
      end /\ chain_off l nx
  end.

(** ** Requests and blocks

    The number of blocks of [bl] bytes a request of [k] bytes takes. *)
Definition req_blocks (bl k : Z) : nat := Z.to_nat ((k + bl - 1) / bl).

(** ** The digests of a core

    What the backend computes for the algorithm of the core [c]: the
    keyed digest [gcry_drbg_hmac] reads with a key, and the plain digest
    it reads without one. *)
Definition core_hmac {env : Type} (G : platform env) (c : gcry_drbg_core)
           (key data : list Z) : list Z :=
  md_digest G (backend_cipher c) (Some key) data.

Definition core_hash {env : Type} (G : platform env) (c : gcry_drbg_core)
           (data : list Z) : list Z :=
  md_digest G (backend_cipher c) None data.

(** ** The HMAC DRBG of SP 800-90A, section 10.1.2

    The mechanism as the standard words it, over an [HMAC (key, data)]:
    the state is the pair of the key [K] and the value [V]. *)

(** 10.1.2.2 steps 1-2 and 4-5: [K = HMAC (K, V || prefix || data)],
    [V = HMAC (K, V)]. *)
Definition HMAC_DRBG_round (HMAC : list Z -> list Z -> list Z) (prefix : Z)
           (data : list Z) (KV : list Z * list Z) : list Z * list Z :=
  let K := HMAC (fst KV) (snd KV ++ prefix :: data) in
  (K, HMAC K (snd KV)).

(** 10.1.2.2: the round with prefix 0x00 and, when there is provided
    data ([second]), the round with prefix 0x01. *)
Definition HMAC_DRBG_Update (HMAC : list Z -> list Z -> list Z)
           (second : bool) (data : list Z) (KV : list Z * list Z)
  : list Z * list Z :=
  let KV1 := HMAC_DRBG_round HMAC 0 data KV in
  if second then HMAC_DRBG_round HMAC 1 data KV1 else KV1.

(** 10.1.2.5 step 4: [n] times [V = HMAC (K, V)]. *)
Fixpoint HMAC_DRBG_V (HMAC : list Z -> list Z -> list Z) (K V_ : list Z)
         (n : nat) : list Z :=
  match n with
  | O => V_
  | S n' => HMAC_DRBG_V HMAC K (HMAC K V_) n'
  end.

(** 10.1.2.5 step 4: the concatenation of these [n] values. *)
Fixpoint HMAC_DRBG_temp (HMAC : list Z -> list Z -> list Z) (K V_ : list Z)
         (n : nat) : list Z :=
  match n with
  | O => []
  | S n' => HMAC K V_ ++ HMAC_DRBG_temp HMAC K (HMAC K V_) n'
  end.

(** ** Big-endian numbers of a fixed length

    [be_bytes n x]: the [n] bytes of [x mod 256^n], most significant
    byte first. *)
Fixpoint be_bytes (n : nat) (x : Z) : list Z :=
  match n with
  | O => []
  | S n' => be_bytes n' (x / 256) ++ [x mod 256]
  end.

(** [(V + x) mod 2^seedlen] on a value held as bytes. *)
Definition add_mod (V_ : list Z) (x : Z) : list Z :=
  be_bytes (length V_) (be_int V_ + x).

(** ** The Hash DRBG of SP 800-90A, section 10.1.1

    The mechanism as the standard words it, over a [Hash]: the state is
    the value [V], the constant [C] and the reseed counter. *)

(** 10.1.1.4 Hashgen: [data = V]; [n] times [W = W || Hash (data)],
    [data = (data + 1) mod 2^seedlen]. *)
Fixpoint Hashgen (Hash : list Z -> list Z) (data : list Z) (n : nat)
  : list Z :=
  match n with
  | O => []
  | S n' => Hash data ++ Hashgen Hash (add_mod data 1) n'
  end.

(** 10.1.1.4 step 2: with additional input,
    [w = Hash (0x02 || V || additional_input)], [V = (V + w) mod 2^seedlen]. *)
Definition Hash_DRBG_addtl (Hash : list Z -> list Z) (V_ : list Z)
           (has : bool) (additional_input : list Z) : list Z :=
  if has then add_mod V_ (be_int (Hash (2 :: V_ ++ additional_input)))
  else V_.

(** 10.1.1.4 steps 4 and 5: [H = Hash (0x03 || V)],
    [V = (V + H + C + reseed_counter) mod 2^seedlen]. *)
Definition Hash_DRBG_next (Hash : list Z -> list Z) (V_ C_ : list Z)
           (reseed_counter : Z) : list Z :=
  add_mod V_ (be_int (Hash (3 :: V_)) + be_int C_ + reseed_counter).

(** The first [k] bytes of a buffer are zero. *)
Definition zero_upto (k : nat) (sp : list Z) : Prop :=
  forall i, (i < k)%nat -> nth i sp 0 = 0.

(** ** The sanity test of the health check

    [fips_mode] is a function of another file: what it returns is an
    argument here. *)

Section Sanity.

Context {env : Type} (G : platform env).

(** The part of [gcry_drbg_healthcheck_sanity] that works on the
    instance it allocated, from the first instantiation to the label
    [outbuf]: what the function returns. *)
Definition healthcheck_sanity_run (test : gcry_drbg_test_vector)
           (coreref : Z) : M env Z :=
  ' (r, _) <- gcry_drbg_instantiate G NoString coreref true ;;
  if is_err r then ret r else
  let max_addtllen := gcry_drbg_max_addtl G in
  let max_request_bytes := gcry_drbg_max_request_bytes in
  r <-
    ((* overflow addtllen with additional info string *)
     let addtl := gcry_drbg_string_fill (tv_addtla test)
                    (to_size_t G (max_addtllen + 1)) in
     ' (len, addtl) <- gcry_drbg_generate G (Mem LOut 0)
                         (tv_expectedlen test) addtl ;;
     if is_err len then ret r else
     (* overflow max_bits *)
     ' (len, _) <- gcry_drbg_generate G (Mem LOut 0)
                     (max_request_bytes + 1) NoString ;;
     if is_err len then ret r else
     gcry_drbg_uninstantiate ;;
     (* test failing entropy source *)
     modify_drbg
       (set_test_data
          (Some {| testentropy := NoString; fail_seed_source := true |})) ;;
     ' (tmpret, _) <- gcry_drbg_instantiate G NoString coreref false ;;
     if negb (is_err tmpret) then ret r else
     fill_testentropy (tv_entropy test) (tv_entropylen test) ;;
     (* overflow max addtllen with personalization string *)
     ' (tmpret, _) <- gcry_drbg_instantiate G addtl coreref false ;;
     if negb (is_err tmpret) then ret r else
     ret 0) ;;
  (* outdrbg: *)
  gcry_drbg_uninstantiate ;;
  ret r.

(** Tests as defined in 11.3.2 in addition to the cipher tests: testing
    of the error handling.  As in [gcry_drbg_cavs_test] the instance is
    the function's own and [buf] is the output buffer of the machine. *)
Definition gcry_drbg_healthcheck_sanity (fips_mode : bool)
           (test : gcry_drbg_test_vector) : M env Z :=
  if negb fips_mode then ret 0 else
  e <- call G (xcalloc_secure (tv_expectedlen test)) ;;
  if is_err e then ret GPG_ERR_ENOMEM else
  calloc_out (tv_expectedlen test) ;;
  let '(tmpret, coreref) := gcry_drbg_algo_available G (tv_flags test) in
  if is_err tmpret then ret GPG_ERR_GENERAL else
  e <- call G (xcalloc_secure (sizeof_gcry_drbg_state G)) ;;
  if is_err e then ret GPG_ERR_GENERAL else
  fun m =>
    match healthcheck_sanity_run test coreref
            {| drbg := drbg_calloc; out := out m; be := be m |} with
    | None => None
    | Some (r, m') => Some (r, {| drbg := drbg m; out := out m'; be := be m' |})
    end.

End Sanity.

(** ** The instance of the library

    The file keeps the current instance behind the static pointer
    [gcry_drbg], and [_gcry_drbg_init_internal] keeps the flags of its
    last call in the static [oldflags].  The instance [gcry_drbg] points
    at, once allocated, is the instance of the machine;
    [fips_signal_error] is recorded as a flag. *)
Record drbg_globals := {
  (** [NULL != gcry_drbg] *)
  gcry_drbg_allocated : bool;
  oldflags : Z;
  (** [fips_signal_error] has been called *)
  fips_error : bool
}.

Definition set_oldflags (fl : Z) (g : drbg_globals) : drbg_globals :=
  {| gcry_drbg_allocated := gcry_drbg_allocated g; oldflags := fl;
     fips_error := fips_error g |}.

Definition set_allocated (b : bool) (g : drbg_globals) : drbg_globals :=
  {| gcry_drbg_allocated := b; oldflags := oldflags g;
     fips_error := fips_error g |}.

Definition fips_signal_error (g : drbg_globals) : drbg_globals :=
  {| gcry_drbg_allocated := gcry_drbg_allocated g; oldflags := oldflags g;
     fips_error := true |}.

Section Init.

Context {env : Type} (G : platform env).

(** [getpid ()] is an argument: [pid]. *)
Definition _gcry_drbg_init_internal (pid flags : Z)
           (pers : gcry_drbg_string) (g : drbg_globals)
  : M env (Z * drbg_globals) :=
  (* If a caller provides 0 as flags, use the flags of the previous
     initialization, otherwise use the current flags and remember them
     for the next invocation *)
  let flags := if flags =? 0 then oldflags g else flags in
  let g := set_oldflags flags g in
  let '(r, coreref) := gcry_drbg_algo_available G flags in
  if is_err r then ret (r, g) else
  ' (e, g) <-
    (if gcry_drbg_allocated g
     then gcry_drbg_uninstantiate ;; ret (0, g)
     else e <- call G (xcalloc_secure (sizeof_gcry_drbg_state G)) ;;
          if is_err e then ret (GPG_ERR_ENOMEM, g) else
          modify_drbg (fun _ => drbg_calloc) ;;
          ret (0, set_allocated true g)) ;;
  if is_err e then ret (e, g) else
  let pr_ := flag_set flags (GCRY_DRBG_PREDICTION_RESIST G) in
  ' (r, _) <- gcry_drbg_instantiate G pers coreref pr_ ;;
  if is_err r then ret (r, fips_signal_error g)
  else modify_drbg (set_seed_init_pid pid) ;; ret (r, g).

End Init.

(** ** The CTR DRBG of SP 800-90A, section 10.2.1 *)

(** What the backend computes for the cipher of the core [c]. *)
Definition core_encrypt {env : Type} (G : platform env) (c : gcry_drbg_core)
           (key input : list Z) : list Z :=
  cipher_encrypt G (backend_cipher c) key input.

(** 10.2.1.2 step 2 and 10.2.1.5.2 step 4: [n] times
    [V = (V + 1) mod 2^blocklen], [temp = temp || Block_Encrypt (Key, V)]. *)
Fixpoint CTR_DRBG_temp (E : list Z -> list Z -> list Z) (Key V_ : list Z)
         (n : nat) : list Z :=
  match n with
  | O => []
  | S n' =>
      let V1 := add_mod V_ 1 in
      E Key V1 ++ CTR_DRBG_temp E Key V1 n'
  end.

(** ** The derivation function of the CTR DRBG, SP 800-90A 10.4.2, 10.4.3 *)

(** [xor_into o r]: the bytes of [r] XORed into the front of [o]. *)
Fixpoint xor_into (o r : list Z) : list Z :=
  match o, r with
  | x :: o', y :: r' => Z.lxor x y :: xor_into o' r'
  | _, _ => o
  end.

(** 10.4.3, BCC: block by block,
    [chaining_value = Block_Encrypt (Key, chaining_value xor block)];
    a last block that is short counts as filled with zeros.  [E] is the
    cipher with the key. *)
Fixpoint BCC_blocks (E : list Z -> list Z) (bl fuel : nat)
         (chaining_value data : list Z) : list Z :=
  match fuel with
  | O => chaining_value
  | S fuel' =>
      match data with
      | [] => chaining_value
      | _ => BCC_blocks E bl fuel'
               (E (xor_into chaining_value (firstn bl data)))
               (skipn bl data)
      end
  end.

Definition BCC (E : list Z -> list Z) (bl : nat) (data : list Z) : list Z :=
  BCC_blocks E bl (length data) (repeat 0 bl) data.

(** A node with bytes, all of which can be read, and none of which lies
    in the [n] bytes at offset [a] of the buffer [l]. *)
Definition node_apart {env : Type} (m : mach env) (l : loc) (a n : Z)
           (p : ptr) (k : Z) : Prop :=
  0 < k < 2 ^ 32
  /\ match p with
     | Null => False
     | Data bs => k <= Z.of_nat (length bs)
     | Mem l' o =>
         0 <= o /\ o + k <= Z.of_nat (length (buf_of m l'))
         /\ (l' = l -> o + k <= a \/ a + n <= o)
     end.

Fixpoint chain_apart {env : Type} (m : mach env) (l : loc) (a n : Z)
         (s : gcry_drbg_string) : Prop :=
  match s with
  | NoString => True
  | drbg_string p k nx => node_apart m l a n p k /\ chain_apart m l a n nx
  end.

(** 10.4.2 step 9: [temp = temp || BCC (K, IV || S)] for [i = 0, 1, ...],
    where [IV] is [i] on 32 bits followed by zeros up to a block. *)
Definition df_temp (E : list Z -> list Z -> list Z) (K : list Z) (outlen : Z)
           (S_ : list Z) (n : nat) : list Z :=
  flat_map (fun i => BCC (E K) (Z.to_nat outlen)
                         ((BE32 (Z.of_nat i)
                           ++ repeat 0 (Z.to_nat (outlen - 4))) ++ S_))
           (seq 0 n).

(** 10.4.2 step 13: [X = Block_Encrypt (K, X)], [temp = temp || X], [n]
    times.  [E] is the cipher with the key. *)
Fixpoint df_out (E : list Z -> list Z) (X : list Z) (n : nat) : list Z :=
  match n with
  | O => []
  | S n' => E X ++ df_out E (E X) n'
  end.

(** 10.4.2, Block_Cipher_df, with the key [K] of step 8 given:
    [S = L || N || input_string || 0x80], filled with zeros up to a
    multiple of the block length [outlen]. *)
Definition Block_Cipher_df (E : list Z -> list Z -> list Z) (K : list Z)
           (keylen outlen : Z) (input_string : list Z)
           (number_of_bytes_to_return : Z) : list Z :=
  let L := BE32 (Z.of_nat (length input_string)) in
  let N := BE32 number_of_bytes_to_return in
  let S0 := L ++ N ++ input_string ++ [128] in
  let S_ := S0 ++ repeat 0 (Z.to_nat ((- Z.of_nat (length S0)) mod outlen)) in
  let temp := df_temp E (firstn (Z.to_nat keylen) K) outlen S_
                      (req_blocks outlen (keylen + outlen)) in
  let K' := firstn (Z.to_nat keylen) temp in
  let X := firstn (Z.to_nat outlen) (skipn (Z.to_nat keylen) temp) in
  firstn (Z.to_nat number_of_bytes_to_return)
         (df_out (E K') X (req_blocks outlen number_of_bytes_to_return)).
(** * Properties *)

(** ** Buffer lemmas *)

Lemma buf_write_length sp : forall o bs,
  length (buf_write sp o bs) = length sp.
Proof.
  induction sp as [|x sp IH]; intros o bs; simpl; [reflexivity|].
  destruct o; [destruct bs|]; simpl; now rewrite ?IH.
Qed.

Lemma buf_write_nil sp : forall o, buf_write sp o [] = sp.
Proof.
  induction sp as [|x sp IH]; intros [|o]; simpl; try reflexivity.
  now rewrite IH.
Qed.

Lemma buf_write_app_skip A : forall R o bs,
  buf_write (A ++ R) (length A + o) bs = A ++ buf_write R o bs.
Proof.
  induction A as [|a A IH]; intros R o bs; simpl; [reflexivity|].
  now rewrite IH.
Qed.

Lemma buf_write_exact bs : forall old R,
  length old = length bs -> buf_write (old ++ R) 0 bs = bs ++ R.
Proof.
  induction bs as [|b bs IH]; intros [|x old] R H; simpl in *; try discriminate.
  - now rewrite buf_write_nil.
  - rewrite IH; [reflexivity|lia].
Qed.

Lemma buf_write_mid A old R bs :
  length old = length bs ->
  buf_write (A ++ old ++ R) (length A) bs = A ++ bs ++ R.
Proof.
  intros H. replace (length A) with (length A + 0)%nat by lia.
  now rewrite buf_write_app_skip, buf_write_exact.
Qed.

Lemma buf_read_mid A M R :
  buf_read (A ++ M ++ R) (length A) (length M) = M.
Proof.
  unfold buf_read. rewrite skipn_app, skipn_all, Nat.sub_diag. simpl.
  rewrite firstn_app, firstn_all, Nat.sub_diag. simpl. now rewrite app_nil_r.
Qed.

Lemma byte_at_mid A x R : byte_at (A ++ x :: R) (Z.of_nat (length A)) = x.
Proof.
  unfold byte_at. rewrite Nat2Z.id, app_nth2, Nat.sub_diag; [reflexivity|lia].
Qed.

Lemma set_byte_mid A x R v :
  set_byte (A ++ x :: R) (Z.of_nat (length A)) v = A ++ v :: R.
Proof.
  unfold set_byte. rewrite Nat2Z.id.
  apply (buf_write_mid A [x] R [v]). reflexivity.
Qed.

(** ** Big-endian values *)

Lemma be_int_acc l : forall a,
  fold_left (fun acc b => acc * 256 + b) l a = a * 256 ^ Z.of_nat (length l) + be_int l.
Proof.
  unfold be_int. induction l as [|x l IH]; intros a.
  - simpl. lia.
  - cbn [fold_left length]. rewrite IH, (IH (0 * 256 + x)).
    rewrite Nat2Z.inj_succ, Z.pow_succ_r by lia. ring.
Qed.

Lemma be_int_app a b :
  be_int (a ++ b) = be_int a * 256 ^ Z.of_nat (length b) + be_int b.
Proof.
  unfold be_int at 1. rewrite fold_left_app. fold (be_int a).
  apply be_int_acc.
Qed.

Lemma be_int_single x : be_int [x] = x.
Proof. reflexivity. Qed.

Lemma be_int_range l : bytes l -> 0 <= be_int l < 256 ^ Z.of_nat (length l).
Proof.
  induction l as [|x l IH] using rev_ind; intros H.
  - cbn. lia.
  - apply Forall_app in H as [Hl Hx]. inversion Hx as [|? ? Hb _]; subst.
    rewrite be_int_app, length_app, be_int_single. cbn [length].
    specialize (IH Hl). unfold is_byte in Hb.
    rewrite Nat2Z.inj_add, Z.pow_add_r by lia.
    change (256 ^ Z.of_nat 1) with 256. nia.
Qed.

Lemma low_byte r : 0 <= r -> Z.land r 255 = r mod 256.
Proof. intros _. change 255 with (Z.ones 8). now rewrite Z.land_ones by lia. Qed.

Lemma high_part r : Z.shiftr r 8 = r / 256.
Proof. now rewrite Z.shiftr_div_pow2 by lia. Qed.

Lemma split_last (l : list Z) n :
  length l = S n -> exists l0 x, l = l0 ++ [x] /\ length l0 = n.
Proof.
  intros H. destruct (exists_last (l := l)) as (l0 & x & ->).
  - intros ->. discriminate.
  - exists l0, x. split; [reflexivity|].
    rewrite length_app in H. simpl in H. lia.
Qed.

Lemma bytes_app a b : bytes (a ++ b) <-> bytes a /\ bytes b.
Proof. apply Forall_app. Qed.

Lemma bytes_single x : bytes [x] <-> is_byte x.
Proof.
  split; intros H.
  - now inversion H.
  - now constructor.
Qed.

(** Pushing a digit below a reduced number. *)
Lemma mod_push_digit X M N v :
  0 < M -> 0 < N -> 0 <= v < N ->
  (X * N + v) mod (M * N) = (X mod M) * N + v.
Proof.
  intros HM HN Hv. symmetry.
  apply Z.mod_unique with (q := X / M).
  - left. pose proof (Z.mod_pos_bound X M HM). nia.
  - pose proof (Z.div_mod X M ltac:(lia)). nia.
Qed.

Lemma add_buf_loop1_spec : forall len A Dm B A' Am B' r,
  length Dm = len -> length Am = len -> bytes Dm -> bytes Am -> 0 <= r <= 1 ->
  exists Dm' r',
    add_buf_loop1 len (A ++ Dm ++ B) (A' ++ Am ++ B')
                  (Z.of_nat (length A + len) - 1)
                  (Z.of_nat (length A' + len) - 1) r
    = (A ++ Dm' ++ B, Z.of_nat (length A) - 1, r')
    /\ length Dm' = len /\ bytes Dm' /\ 0 <= r' <= 1
    /\ be_int Dm' + r' * 256 ^ Z.of_nat len = be_int Dm + be_int Am + r.
Proof.
  induction len as [|n IH]; intros A Dm B A' Am B' r HD HA HbD HbA Hr.
  - destruct Dm; [|discriminate]. destruct Am; [|discriminate].
    exists [], r. cbn. rewrite Nat.add_0_r. repeat split; try lia; constructor.
  - destruct (split_last Dm n HD) as (D0 & x & -> & HD0).
    destruct (split_last Am n HA) as (A0 & y & -> & HA0).
    apply bytes_app in HbD as [HbD0 Hx]. apply bytes_single in Hx.
    apply bytes_app in HbA as [HbA0 Hy]. apply bytes_single in Hy.
    unfold is_byte in Hx, Hy.
    cbn [add_buf_loop1].
    replace (A ++ (D0 ++ [x]) ++ B) with ((A ++ D0) ++ x :: B)
      by (now rewrite <- !app_assoc).
    replace (A' ++ (A0 ++ [y]) ++ B') with ((A' ++ A0) ++ y :: B')
      by (now rewrite <- !app_assoc).
    replace (Z.of_nat (length A + S n) - 1) with (Z.of_nat (length (A ++ D0)))
      by (rewrite length_app; lia).
    replace (Z.of_nat (length A' + S n) - 1) with (Z.of_nat (length (A' ++ A0)))
      by (rewrite length_app; lia).
    rewrite !byte_at_mid, set_byte_mid.
    set (s := r + (x + y)).
    assert (Hs : 0 <= s <= 511) by (unfold s; lia).
    rewrite high_part, low_byte by lia.
    assert (Hc : 0 <= s / 256 <= 1).
    { split; [apply Z.div_pos; lia|].
      apply Z.lt_succ_r. apply Z.div_lt_upper_bound; lia. }
    destruct (IH A D0 (s mod 256 :: B) A' A0 (y :: B') (s / 256)
                HD0 HA0 HbD0 HbA0 Hc)
      as (D0' & r' & Heq & HlD & HbD' & Hr' & Hval).
    exists (D0' ++ [s mod 256]), r'.
    replace (Z.of_nat (length (A ++ D0)) - 1) with (Z.of_nat (length A + n) - 1)
      by (rewrite length_app; lia).
    replace (Z.of_nat (length (A' ++ A0)) - 1)
      with (Z.of_nat (length A' + n) - 1)
      by (rewrite length_app; lia).
    rewrite <- !app_assoc. cbn [app]. rewrite Heq.
    pose proof (Z.mod_pos_bound s 256 ltac:(lia)) as Hm.
    repeat split; try lia.
    + rewrite length_app. simpl. lia.
    + apply bytes_app. split; [assumption|]. apply bytes_single.
      unfold is_byte. lia.
    + rewrite !be_int_app, !be_int_single. cbn [length].
      change (256 ^ Z.of_nat 1) with 256.
      rewrite Nat2Z.inj_succ, Z.pow_succ_r by lia.
      pose proof (Z.div_mod s 256 ltac:(lia)). unfold s in *. nia.
Qed.

Lemma add_buf_loop2_spec : forall len A B r,
  length A = len -> bytes A -> 0 <= r <= 1 ->
  exists A',
    add_buf_loop2 len (A ++ B) (Z.of_nat len - 1) r = A' ++ B
    /\ length A' = len /\ bytes A'
    /\ be_int A' = (be_int A + r) mod 256 ^ Z.of_nat len.
Proof.
  induction len as [|n IH]; intros A B r HA HbA Hr.
  - destruct A; [|discriminate]. exists []. cbn [add_buf_loop2 app length].
    repeat split; [constructor|].
    change (256 ^ Z.of_nat 0) with 1. now rewrite Z.mod_1_r.
  - cbn [add_buf_loop2]. destruct (0 <? r) eqn:Hpos.
    + apply Z.ltb_lt in Hpos. assert (r = 1) as -> by lia.
      destruct (split_last A n HA) as (A0 & x & -> & HA0).
      apply bytes_app in HbA as [HbA0 Hx]. apply bytes_single in Hx.
      unfold is_byte in Hx.
      replace (Z.of_nat (S n) - 1) with (Z.of_nat (length A0)) by lia.
      rewrite <- app_assoc. cbn [app].
      rewrite byte_at_mid, set_byte_mid.
      rewrite high_part, low_byte by lia.
      assert (Hc : 0 <= (x + 1) / 256 <= 1).
      { split; [apply Z.div_pos; lia|].
        apply Z.lt_succ_r. apply Z.div_lt_upper_bound; lia. }
      rewrite HA0.
      destruct (IH A0 ((x + 1) mod 256 :: B) ((x + 1) / 256) HA0 HbA0 Hc)
        as (A0' & Heq & Hl & Hb & Hval).
      exists (A0' ++ [(x + 1) mod 256]).
      rewrite <- app_assoc. cbn [app]. rewrite Heq.
      pose proof (Z.mod_pos_bound (x + 1) 256 ltac:(lia)) as Hm.
      repeat split.
      * rewrite length_app. simpl. lia.
      * apply bytes_app. split; [assumption|]. apply bytes_single.
        unfold is_byte. lia.
      * rewrite !be_int_app, !be_int_single. cbn [length].
        change (256 ^ Z.of_nat 1) with 256.
        rewrite Nat2Z.inj_succ, Z.pow_succ_r by lia.
        rewrite Hval.
        rewrite (Z.mul_comm 256 (256 ^ Z.of_nat n)).
        rewrite <- mod_push_digit by (try lia; apply Z.pow_pos_nonneg; lia).
        f_equal. pose proof (Z.div_mod (x + 1) 256 ltac:(lia)). nia.
    + apply Z.ltb_ge in Hpos. assert (r = 0) as -> by lia.
      exists A. repeat split; try assumption.
      rewrite Z.add_0_r, Z.mod_small; [reflexivity|].
      rewrite <- HA. now apply be_int_range.
Qed.

(** C8.  For buffers [dst] and [add] of bytes with [addlen <= dstlen],
    [gcry_drbg_add_buf] rewrites [dst] to the big-endian representation
    of [(int dst + int add) mod 256^dstlen]: the result has the length of
    [dst], consists of bytes, and read big-endian it is that number.  The
    addend is right-aligned and the carry out of the first byte is
    dropped. *)
Theorem gcry_drbg_add_buf_be_sum (dst add : list Z) :
  bytes dst -> bytes add -> (length add <= length dst)%nat ->
  let r := gcry_drbg_add_buf dst (Z.of_nat (length dst))
                             add (Z.of_nat (length add)) in
  length r = length dst /\ bytes r /\
  be_int r = (be_int dst + be_int add) mod 256 ^ Z.of_nat (length dst).
Proof.
  intros Hd Ha Hlen r. subst r. unfold gcry_drbg_add_buf.
  set (k := (length dst - length add)%nat).
  assert (Hsplit : exists A Dm, dst = A ++ Dm /\ length A = k
                                /\ length Dm = length add).
  { exists (firstn k dst), (skipn k dst). rewrite firstn_skipn.
    rewrite length_firstn, length_skipn. repeat split; lia. }
  destruct Hsplit as (A & Dm & -> & HlA & HlD). clearbody k.
  apply bytes_app in Hd as [HbA HbD].
  destruct (add_buf_loop1_spec (length add) A Dm [] [] add [] 0
              HlD eq_refl HbD Ha ltac:(lia))
    as (Dm' & r' & Heq & HlD' & HbD' & Hr' & Hval).
  rewrite !app_nil_r in Heq. cbn [app length] in Heq.
  rewrite Nat2Z.id, length_app.
  replace (Z.of_nat (length A + length Dm) - 1)
    with (Z.of_nat (length A + length add) - 1) by lia.
  replace (Z.of_nat (length add) - 1)
    with (Z.of_nat (0 + length add) - 1) by lia.
  rewrite Heq.
  replace (Z.to_nat (Z.of_nat (length A + length Dm) - Z.of_nat (length add)))
    with k by lia.
  destruct (add_buf_loop2_spec k A Dm' r' HlA HbA Hr')
    as (A' & Heq2 & HlA' & HbA' & Hval2).
  rewrite HlA, Heq2.
  repeat split.
  - rewrite length_app. lia.
  - apply bytes_app. now split.
  - rewrite !be_int_app, Hval2, HlD', HlD.
    rewrite Nat2Z.inj_add, Z.pow_add_r by lia.
    pose proof (be_int_range Dm' HbD') as HrD. rewrite HlD' in HrD.
    rewrite <- mod_push_digit
      by (try apply Z.pow_pos_nonneg; lia).
    f_equal. nia.
Qed.

(** The addition of [18] to the three-byte big-endian [0x00ffff]. *)
Lemma gcry_drbg_add_buf_be_sum_witness :
  let r := gcry_drbg_add_buf [0; 255; 255] 3 [18] 1 in
  length r = 3%nat /\ bytes r /\ be_int r = (65535 + 18) mod 256 ^ 3.
Proof.
  apply (gcry_drbg_add_buf_be_sum [0; 255; 255] [18]).
  - repeat constructor; unfold is_byte; lia.
  - repeat constructor; unfold is_byte; lia.
  - simpl. lia.
Defined.

(** ** The limits of a request *)

Section Limits.

Context {env : Type} (G : platform env).

Lemma max_request_bytes_eq : gcry_drbg_max_request_bytes = 2 ^ 16.
Proof. reflexivity. Qed.

Lemma max_addtl_eq :
  gcry_drbg_max_addtl G = if lp64 G then 2 ^ 35 else 2 ^ 32 - 1 - 1.
Proof.
  unfold gcry_drbg_max_addtl, SIZE_MAX, size_bits.
  now destruct (lp64 G).
Qed.

Lemma max_requests_eq :
  gcry_drbg_max_requests G = if lp64 G then 2 ^ 48 else 2 ^ 32 - 1.
Proof.
  unfold gcry_drbg_max_requests, SIZE_MAX, size_bits.
  now destruct (lp64 G).
Qed.

Lemma generate_rejected buf buflen addtl m :
  generate_args_rejected G buf buflen addtl = true ->
  gcry_drbg_generate G buf buflen addtl m = Some ((GPG_ERR_INV_ARG, addtl), m).
Proof.
  unfold generate_args_rejected, gcry_drbg_generate. intros H.
  destruct ((buflen =? 0) || is_null buf); [reflexivity|].
  destruct (match addtl with
            | NoString => false
            | drbg_string b l _ => is_null b && (0 <? l)
            end); [reflexivity|].
  destruct (buflen >? gcry_drbg_max_request_bytes); [reflexivity|].
  destruct (match addtl with
            | NoString => false
            | drbg_string _ l _ => l >? gcry_drbg_max_addtl G
            end); [reflexivity|discriminate].
Qed.

(** C1.  If the output buffer is null, or the requested length is 0 or
    exceeds [2^16], or the additional input is longer than [max_addtl]
    ([2^35] on a 64-bit build, [SIZE_MAX - 1] otherwise), then
    [gcry_drbg_generate] returns [GPG_ERR_INV_ARG] and leaves the machine
    as it was: no byte of the output buffer is written, and none of the
    state. *)
Theorem gcry_drbg_generate_invalid_arg buf buflen addtl (m : mach env) :
  is_null buf = true \/ buflen = 0 \/ 2 ^ 16 < buflen
  \/ (exists b l nx, addtl = drbg_string b l nx
                     /\ (if lp64 G then 2 ^ 35 else 2 ^ 32 - 1 - 1) < l) ->
  gcry_drbg_generate G buf buflen addtl m = Some ((GPG_ERR_INV_ARG, addtl), m).
Proof.
  intros H. apply generate_rejected. unfold generate_args_rejected.
  rewrite max_request_bytes_eq.
  destruct H as [H|[H|[H|(b & l & nx & -> & H)]]].
  - rewrite H. now rewrite orb_true_r.
  - subst. reflexivity.
  - assert (E : (buflen >? 2 ^ 16) = true) by (apply Z.gtb_lt; lia).
    rewrite E. now rewrite orb_true_r.
  - rewrite <- max_addtl_eq in H.
    assert (E : (l >? gcry_drbg_max_addtl G) = true) by (apply Z.gtb_lt; lia).
    rewrite E. now rewrite !orb_true_r.
Qed.

End Limits.

(** A request for [2^16 + 1] bytes on the test platform. *)
Lemma gcry_drbg_generate_invalid_arg_witness :
  gcry_drbg_generate test_platform (Mem LOut 0) 65537 NoString
    (test_mach (test_state 0 gcry_drbg_hash_ops 75) 4 [])
  = Some ((GPG_ERR_INV_ARG, NoString),
          test_mach (test_state 0 gcry_drbg_hash_ops 75) 4 []).
Proof.
  apply (gcry_drbg_generate_invalid_arg test_platform).
  right. right. left. reflexivity.
Defined.

(** ** Reseeding before generation *)

Section Reseed.

Context {env : Type} (G : platform env).

Lemma generate_accepted buf buflen addtl :
  generate_args_rejected G buf buflen addtl = false ->
  gcry_drbg_generate G buf buflen addtl =
  (st <- get_drbg ;;
   (if gcry_drbg_max_requests G <? reseed_ctr st
    then modify_drbg (set_seeded false) else ret tt) ;;
   st <- get_drbg ;;
   if pr st || negb (seeded st) then reseed_then_generate G buf buflen addtl
   else
     ' (r, caller_addtl) <- d_ops_generate G buf buflen addtl ;;
     st <- get_drbg ;;
     modify_drbg (set_reseed_ctr (to_size_t G (reseed_ctr st + 1))) ;;
     ret (r, caller_addtl)).
Proof.
  unfold generate_args_rejected, gcry_drbg_generate. intros H.
  apply orb_false_elim in H as [H H4].
  apply orb_false_elim in H as [H H3].
  apply orb_false_elim in H as [H1 H2].
  rewrite H1, H2, H3, H4. reflexivity.
Qed.


End Reseed.


(** ** The block-encryption adapter *)

Section Sym.

Context {env : Type} (G : platform env).


End Sym.


(** ** The length of the seed *)

Section SeedLength.

Context {env : Type} (G : platform env).

Lemma sec_strength_cases fl :
  gcry_drbg_sec_strength G fl = 16 \/ gcry_drbg_sec_strength G fl = 24
  \/ gcry_drbg_sec_strength G fl = 32.
Proof.
  unfold gcry_drbg_sec_strength.
  destruct (_ || _); [now left|].
  destruct (flag_set _ _); [now right; left|].
  destruct (_ || _); now right; right.
Qed.

Lemma bind_ext {A B : Type} (x y : M env A) (f h : A -> M env B) m :
  x m = y m -> (forall a m', f a m' = h a m') -> bind x f m = bind y h m.
Proof.
  intros Hx Hf. unfold bind. rewrite Hx.
  destruct (y m) as [[a m']|]; [apply Hf|reflexivity].
Qed.

Lemma bind_get {B : Type} (f : gcry_drbg_state -> M env B) m :
  bind get_drbg f m = f (drbg m) m.
Proof. reflexivity. Qed.

Lemma get_entropy_gather g n :
  (forall e, g e n = gather_random G e n) ->
  forall b m, gcry_drbg_get_entropy (with_gather G g) b n m
              = gcry_drbg_get_entropy G b n m.
Proof.
  intros Hg b m. unfold gcry_drbg_get_entropy.
  apply bind_ext; [reflexivity|]. intros st m'.
  destruct (match test_data st with
            | Some t => fail_seed_source t
            | None => false
            end); [reflexivity|].
  cbn [gather_random with_gather]. now rewrite Hg.
Qed.

(** The block of [gcry_drbg_seed] that gathers entropy. *)
Lemma seed_gather_block g reseed m :
  (forall c, core (drbg m) = Some c ->
     forall e,
       g e (seed_entropylen (gcry_drbg_sec_strength G (flags c)) reseed)
       = gather_random G e
           (seed_entropylen (gcry_drbg_sec_strength G (flags c)) reseed)) ->
  (fl <- core_flags ;;
   let entropylen := gcry_drbg_sec_strength (with_gather G g) fl in
   if entropylen =? 0 then ret (GPG_ERR_GENERAL, NoString) else
   let entropylen := seed_entropylen entropylen reseed in
   e <- call (with_gather G g) (xcalloc_secure entropylen) ;;
   if is_err e then ret (GPG_ERR_ENOMEM, NoString) else
   let entropy := repeat 0 (Z.to_nat entropylen) in
   ' (rc, entropy) <- gcry_drbg_get_entropy (with_gather G g)
                                            entropy entropylen ;;
   let r := to_err_code rc in
   if is_err r then ret (r, NoString) else
   ret (0, gcry_drbg_string_fill (Data entropy) entropylen)) m
  =
  (fl <- core_flags ;;
   let entropylen := gcry_drbg_sec_strength G fl in
   if entropylen =? 0 then ret (GPG_ERR_GENERAL, NoString) else
   let entropylen := seed_entropylen entropylen reseed in
   e <- call G (xcalloc_secure entropylen) ;;
   if is_err e then ret (GPG_ERR_ENOMEM, NoString) else
   let entropy := repeat 0 (Z.to_nat entropylen) in
   ' (rc, entropy) <- gcry_drbg_get_entropy G entropy entropylen ;;
   let r := to_err_code rc in
   if is_err r then ret (r, NoString) else
   ret (0, gcry_drbg_string_fill (Data entropy) entropylen)) m.
Proof.
  intros Hg.
  cbv beta iota zeta delta [bind ret core_flags get_core get_drbg].
  destruct (core (drbg m)) as [c|] eqn:Hc; [|reflexivity].
  specialize (Hg c eq_refl).
  cbv beta iota zeta delta [diverge].
  change (gcry_drbg_sec_strength (with_gather G g) (flags c))
    with (gcry_drbg_sec_strength G (flags c)).
  destruct (gcry_drbg_sec_strength G (flags c) =? 0); [reflexivity|].
  change (call (with_gather G g)) with (call G).
  destruct (call G _ m) as [[e m1]|]; [|reflexivity].
  destruct (is_err e); [reflexivity|].
  rewrite (get_entropy_gather g _ Hg). reflexivity.
Qed.

Lemma seed_gather g pers reseed m :
  (forall c, core (drbg m) = Some c ->
     forall e,
       g e (seed_entropylen (gcry_drbg_sec_strength G (flags c)) reseed)
       = gather_random G e
           (seed_entropylen (gcry_drbg_sec_strength G (flags c)) reseed)) ->
  gcry_drbg_seed (with_gather G g) pers reseed m
  = gcry_drbg_seed G pers reseed m.
Proof.
  intros Hg. unfold gcry_drbg_seed.
  change (gcry_drbg_max_addtl (with_gather G g)) with (gcry_drbg_max_addtl G).
  destruct (match pers with
            | NoString => false
            | drbg_string _ l _ => l >? gcry_drbg_max_addtl G
            end); [reflexivity|].
  rewrite !bind_get.
  apply bind_ext; [|reflexivity].
  destruct (test_data (drbg m)) as [[[|tb tl tn] fs]|]; try reflexivity.
  - apply seed_gather_block. exact Hg.
  - apply seed_gather_block. exact Hg.
Qed.

(** C7.  Let [s] be the security strength of the core of an instance;
    it is 16, 24 or 32.  The seeding of [gcry_drbg_instantiate]
    ([gcry_drbg_seed] with [reseed = 0]) asks the entropy source for
    [ceil (1.5 * s)] bytes, and a reseed ([reseed = 1]) for [s] bytes:
    that is the length [n] the function computes, what it does depends
    on the gatherer through its answer to a request for [n] bytes only,
    and when that request fails the function fails with its code. *)
Theorem gcry_drbg_seed_entropy_request c g pers reseed (m : mach env) :
  core (drbg m) = Some c ->
  let s := gcry_drbg_sec_strength G (flags c) in
  let n := seed_entropylen s reseed in
  (s = 16 \/ s = 24 \/ s = 32)
  /\ (reseed = 0 -> 3 * s <= 2 * n < 3 * s + 2)
  /\ (reseed = 1 -> n = s)
  /\ ((forall e, g e n = gather_random G e n) ->
      gcry_drbg_seed (with_gather G g) pers reseed m
      = gcry_drbg_seed G pers reseed m)
  /\ (forall e1 rc bs e2,
        test_data (drbg m) = None ->
        backend G (be m) (xcalloc_secure n) = (0, e1) ->
        gather_random G e1 n = (rc, bs, e2) ->
        is_err (to_err_code rc) = true ->
        gcry_drbg_seed G NoString reseed m
        = Some ((to_err_code rc, NoString),
                {| drbg := drbg m; out := out m; be := e2 |})).
Proof.
  intros Hc s n. subst s n.
  pose proof (sec_strength_cases (flags c)) as Hs.
  split; [exact Hs|]. split; [|split; [|split]].
  - intros ->. unfold seed_entropylen. cbn [Z.eqb].
    destruct Hs as [-> | [-> | ->]]; cbn; lia.
  - intros ->. reflexivity.
  - intros Hg. apply seed_gather. intros c' Hc' e.
    rewrite Hc in Hc'. injection Hc' as <-. apply Hg.
  - intros e1 rc bs e2 Ht Ha Hgr Herr.
    unfold gcry_drbg_seed.
    cbv beta iota delta [bind get_drbg core_flags get_core ret call
                         gcry_drbg_get_entropy].
    rewrite Ht, Hc. cbv beta iota.
    assert (H0 : (gcry_drbg_sec_strength G (flags c) =? 0) = false).
    { destruct Hs as [-> | [-> | ->]]; reflexivity. }
    rewrite H0, Ha. cbv beta iota. cbn [is_err Z.eqb negb be drbg].
    rewrite Ht. cbv beta iota. cbn [be].
    rewrite Hgr. cbv beta iota zeta. rewrite Herr.
    cbv beta iota. rewrite Herr. reflexivity.
Qed.

End SeedLength.

(** The first seeding of a Hash-SHA1 instance; the gatherer fails. *)
Lemma gcry_drbg_seed_entropy_request_witness :
  let G := with_gather test_platform
             (fun e n => if n =? 24 then (5, [], e) else (0, [], e)) in
  let g := fun (e : list Z) (n : Z) =>
             if n =? 24 then (5, [], e) else (0, [1], e) in
  let m := test_mach (test_state 0 gcry_drbg_hash_ops 75) 0 [] in
  let c := Build_gcry_drbg_core 16 55 20 2 in
  let s := gcry_drbg_sec_strength G (flags c) in
  let n := seed_entropylen s 0 in
  (s = 16 \/ s = 24 \/ s = 32)
  /\ (0 = 0 -> 3 * s <= 2 * n < 3 * s + 2)
  /\ (0 = 1 -> n = s)
  /\ ((forall e, g e n = gather_random G e n) ->
      gcry_drbg_seed (with_gather G g) NoString 0 m
      = gcry_drbg_seed G NoString 0 m)
  /\ (forall e1 rc bs e2,
        test_data (drbg m) = None ->
        backend G (be m) (xcalloc_secure n) = (0, e1) ->
        gather_random G e1 n = (rc, bs, e2) ->
        is_err (to_err_code rc) = true ->
        gcry_drbg_seed G NoString 0 m
        = Some ((to_err_code rc, NoString),
                {| drbg := drbg m; out := out m; be := e2 |})).
Proof.
  intros G g m c.
  apply (gcry_drbg_seed_entropy_request G c g NoString 0 m).
  reflexivity.
Defined.

(** ** What the functions leave alone

    A relation [R] between the machine before and after that every
    store to an admissible pointer and every backend call respects is
    respected by the adapters and by the functions of the three
    mechanisms. *)

Section Frame.

Context {env : Type} (G : platform env).

Variable R : mach env -> mach env -> Prop.
Variable okptr : ptr -> Prop.

Hypothesis R_refl : forall m, R m m.
Hypothesis R_trans : forall a b c, R a b -> R b c -> R a c.
Hypothesis R_store : forall p bs m, okptr p -> R m (store_ptr p bs m).
Hypothesis R_be :
  forall m e, R m {| drbg := drbg m; out := out m; be := e |}.
Hypothesis ok_add : forall p k, okptr p -> okptr (ptr_add p k).
Hypothesis ok_V : forall o, okptr (Mem LV o).
Hypothesis ok_C : forall o, okptr (Mem LC o).
Hypothesis ok_scratch : forall o, okptr (Mem LScratch o).

Lemma pres_ret {A} (a : A) : preserves R (ret a).
Proof. intros m a' m' H. injection H as _ <-. apply R_refl. Qed.

Lemma pres_diverge {A} : preserves R (diverge (A := A)).
Proof. intros m a m' H. discriminate. Qed.

Lemma pres_bind {A B} (x : M env A) (f : A -> M env B) :
  preserves R x -> (forall a, preserves R (f a)) -> preserves R (bind x f).
Proof.
  intros Hx Hf m b m' H. unfold bind in H.
  destruct (x m) as [[a m1]|] eqn:E; [|discriminate].
  eapply R_trans; [eapply Hx; eassumption|eapply Hf; eassumption].
Qed.

Lemma pres_get_drbg : preserves R get_drbg.
Proof. intros m a m' H. injection H as _ <-. apply R_refl. Qed.

Lemma pres_load p n : preserves R (load p n).
Proof. intros m a m' H. injection H as _ <-. apply R_refl. Qed.

Lemma pres_read_chain s : preserves R (read_chain s).
Proof. intros m a m' H. injection H as _ <-. apply R_refl. Qed.

Lemma pres_store p bs : okptr p -> preserves R (store p bs).
Proof. intros Hp m a m' H. injection H as _ <-. now apply R_store. Qed.

Lemma pres_call op : preserves R (call G op).
Proof.
  intros m a m' H. unfold call in H.
  destruct (backend G (be m) op) as [e b]. injection H as _ <-. apply R_be.
Qed.

Lemma pres_get_core : preserves R get_core.
Proof.
  unfold get_core. apply pres_bind; [apply pres_get_drbg|]. intros st.
  destruct (core st); [apply pres_ret|apply pres_diverge].
Qed.

Lemma pres_deref p : preserves R (deref p).
Proof.
  destruct p; cbn; try apply pres_diverge;
    (apply pres_bind; [apply pres_load|intros; apply pres_ret]).
Qed.

Lemma pres_memset p c n : okptr p -> preserves R (memset p c n).
Proof. intros Hp. now apply pres_store. Qed.

Lemma pres_memcpy dst src n : okptr dst -> preserves R (memcpy dst src n).
Proof.
  intros Hp. apply pres_bind; [apply pres_load|]. intros. now apply pres_store.
Qed.

Lemma pres_add_buf dst dstlen add addlen :
  okptr dst -> preserves R (add_buf dst dstlen add addlen).
Proof.
  intros Hp. apply pres_bind; [apply pres_load|]. intros.
  apply pres_bind; [apply pres_load|]. intros. now apply pres_store.
Qed.

Lemma pres_get_entropy b n : preserves R (gcry_drbg_get_entropy G b n).
Proof.
  apply pres_bind; [apply pres_get_drbg|]. intros st.
  destruct (match test_data st with
            | Some t => fail_seed_source t
            | None => false
            end); [apply pres_ret|].
  intros m a m' H. destruct (gather_random G (be m) n) as [[rc bs] e].
  injection H as _ <-. apply R_be.
Qed.

(** One step of a frame proof: peel a bind, or split a conditional. *)
Ltac pres_step :=
  match goal with
  | |- preserves _ (ret _) => apply pres_ret
  | |- preserves _ diverge => apply pres_diverge
  | |- preserves _ get_drbg => apply pres_get_drbg
  | |- preserves _ get_core => apply pres_get_core
  | |- preserves _ (load _ _) => apply pres_load
  | |- preserves _ (read_chain _) => apply pres_read_chain
  | |- preserves _ (deref _) => apply pres_deref
  | |- preserves _ (call _ _) => apply pres_call
  | |- preserves _ (store _ _) => apply pres_store
  | |- preserves _ (memset _ _ _) => apply pres_memset
  | |- preserves _ (memcpy _ _ _) => apply pres_memcpy
  | |- preserves _ (add_buf _ _ _ _) => apply pres_add_buf
  | |- preserves _ (bind _ _) => apply pres_bind; [|intros]
  | |- preserves _ (if ?c then _ else _) => destruct c
  | |- preserves _ (match ?x with _ => _ end) => destruct x
  | |- okptr (ptr_add _ _) => apply ok_add
  | |- okptr (Mem LV _) => apply ok_V
  | |- okptr (Mem LC _) => apply ok_C
  | |- okptr (Mem LScratch _) => apply ok_scratch
  | |- okptr _ => assumption
  end.

Ltac pres := repeat pres_step.

Lemma pres_hmac key outval buf :
  okptr outval -> preserves R (gcry_drbg_hmac G key outval buf).
Proof. intros Ho. unfold gcry_drbg_hmac. pres. Qed.

Lemma pres_sym key outval buf :
  okptr outval -> preserves R (gcry_drbg_sym G key outval buf).
Proof. intros Ho. unfold gcry_drbg_sym. pres. Qed.

Lemma pres_ctr_bcc_for n : forall cnt out_ curr pos inpos,
  okptr out_ -> preserves R (ctr_bcc_for G n cnt out_ curr pos inpos).
Proof.
  induction n as [|n IH]; intros cnt out_ curr pos inpos Ho; cbn.
  - pres.
  - pres; now apply IH.
Qed.

Lemma pres_ctr_bcc_while fuel : forall bl out_ key data curr pos inpos,
  okptr out_ ->
  preserves R (ctr_bcc_while G fuel bl out_ key data curr pos inpos).
Proof.
  induction fuel as [|n IH]; intros bl out_ key data curr pos inpos Ho; cbn.
  - pres.
  - pres; try (now apply pres_ctr_bcc_for); try (now apply pres_sym);
      now apply IH.
Qed.

Lemma pres_ctr_bcc out_ key in_ :
  okptr out_ -> preserves R (gcry_drbg_ctr_bcc G out_ key in_).
Proof.
  intros Ho. unfold gcry_drbg_ctr_bcc. pres. now apply pres_ctr_bcc_while.
Qed.

Lemma pres_ctr_df_bcc_loop fuel : forall kl bl iv temp S1 i templen,
  okptr iv -> okptr temp ->
  preserves R (ctr_df_bcc_loop G fuel kl bl iv temp S1 i templen).
Proof.
  induction fuel as [|n IH]; intros kl bl iv temp S1 i templen Hi Ht; cbn.
  - pres.
  - pres; try (apply pres_ctr_bcc; now apply ok_add); now apply IH.
Qed.

Lemma pres_ctr_df_out_loop fuel : forall bl df_data temp X cipherin n g,
  okptr df_data -> okptr X ->
  preserves R (ctr_df_out_loop G fuel bl df_data temp X cipherin n g).
Proof.
  induction fuel as [|k IH]; intros bl df_data temp X cipherin n g Hd HX; cbn.
  - pres.
  - pres; try (now apply pres_sym); now apply IH.
Qed.

Lemma pres_ctr_df df_data n addtl :
  okptr df_data -> preserves R (gcry_drbg_ctr_df G df_data n addtl).
Proof.
  intros Hd. unfold gcry_drbg_ctr_df. pres;
    try (apply pres_ctr_df_bcc_loop; pres);
    try (apply pres_ctr_df_out_loop; pres).
Qed.

Lemma pres_ctr_update_loop fuel : forall sl bl temp cipherin len,
  okptr temp -> preserves R (ctr_update_loop G fuel sl bl temp cipherin len).
Proof.
  induction fuel as [|k IH]; intros sl bl temp cipherin len Ht; cbn.
  - pres.
  - pres; try (apply pres_sym; pres); now apply IH.
Qed.

Lemma pres_ctr_update addtl reseed :
  preserves R (gcry_drbg_ctr_update G addtl reseed).
Proof.
  unfold gcry_drbg_ctr_update. pres;
    try (apply pres_ctr_df; pres);
    try (apply pres_ctr_update_loop; pres).
Qed.

Lemma pres_ctr_generate_loop fuel : forall bl buf buflen data len,
  okptr buf -> preserves R (ctr_generate_loop G fuel bl buf buflen data len).
Proof.
  induction fuel as [|k IH]; intros bl buf buflen data len Hb; cbn.
  - pres.
  - pres; try (apply pres_sym; pres); now apply IH.
Qed.

Lemma pres_ctr_generate buf buflen addtl :
  okptr buf -> preserves R (gcry_drbg_ctr_generate G buf buflen addtl).
Proof.
  intros Hb. unfold gcry_drbg_ctr_generate. pres;
    try apply pres_ctr_update;
    try (apply pres_ctr_generate_loop; pres).
Qed.

Lemma pres_hmac_update_for i : forall sl seed,
  preserves R (hmac_update_for G i sl seed).
Proof.
  induction i as [|k IH]; intros sl seed; cbn [hmac_update_for].
  - pres.
  - pres; try (apply pres_hmac; pres); apply IH.
Qed.

Lemma pres_hmac_update seed reseed :
  preserves R (gcry_drbg_hmac_update G seed reseed).
Proof.
  unfold gcry_drbg_hmac_update. pres. apply pres_hmac_update_for.
Qed.

Lemma pres_hmac_generate_loop fuel : forall bl buf buflen data len,
  okptr buf -> preserves R (hmac_generate_loop G fuel bl buf buflen data len).
Proof.
  induction fuel as [|k IH]; intros bl buf buflen data len Hb; cbn.
  - pres.
  - pres; try (apply pres_hmac; pres); now apply IH.
Qed.

Lemma pres_hmac_generate buf buflen addtl :
  okptr buf -> preserves R (gcry_drbg_hmac_generate G buf buflen addtl).
Proof.
  intros Hb. unfold gcry_drbg_hmac_generate. pres;
    try apply pres_hmac_update;
    try (apply pres_hmac_generate_loop; pres).
Qed.

Lemma pres_hash_df_loop fuel : forall bl outval tmp outlen entropy input len,
  okptr outval -> okptr tmp ->
  preserves R (hash_df_loop G fuel bl outval tmp outlen entropy input len).
Proof.
  induction fuel as [|k IH];
    intros bl outval tmp outlen entropy input len Ho Ht; cbn.
  - pres.
  - pres; try (apply pres_hmac; pres); now apply IH.
Qed.

Lemma pres_hash_df outval outlen entropy :
  okptr outval -> preserves R (gcry_drbg_hash_df G outval outlen entropy).
Proof.
  intros Ho. unfold gcry_drbg_hash_df. pres. apply pres_hash_df_loop; pres.
Qed.

Lemma pres_hash_update seed reseed :
  preserves R (gcry_drbg_hash_update G seed reseed).
Proof.
  unfold gcry_drbg_hash_update. pres; apply pres_hash_df; pres.
Qed.

Lemma pres_hash_process_addtl addtl :
  preserves R (gcry_drbg_hash_process_addtl G addtl).
Proof.
  unfold gcry_drbg_hash_process_addtl. pres; apply pres_hmac; pres.
Qed.

Lemma pres_hash_hashgen_loop fuel : forall sl bl buf buflen src dst data len,
  okptr buf -> okptr src -> okptr dst ->
  preserves R (hash_hashgen_loop G fuel sl bl buf buflen src dst data len).
Proof.
  induction fuel as [|k IH];
    intros sl bl buf buflen src dst data len Hb Hs Hd; cbn.
  - pres.
  - pres; try (apply pres_hmac; pres); now apply IH.
Qed.

Lemma pres_hash_hashgen buf buflen :
  okptr buf -> preserves R (gcry_drbg_hash_hashgen G buf buflen).
Proof.
  intros Hb. unfold gcry_drbg_hash_hashgen. pres.
  apply pres_hash_hashgen_loop; pres.
Qed.

Lemma pres_hash_generate buf buflen addtl :
  okptr buf -> preserves R (gcry_drbg_hash_generate G buf buflen addtl).
Proof.
  intros Hb. unfold gcry_drbg_hash_generate. pres;
    try apply pres_hash_process_addtl;
    try (now apply pres_hash_hashgen);
    try (apply pres_hmac; pres).
Qed.

Lemma pres_d_ops_update seed reseed : preserves R (d_ops_update G seed reseed).
Proof.
  unfold d_ops_update. pres;
    [apply pres_hash_update|apply pres_hmac_update|apply pres_ctr_update].
Qed.

Lemma pres_d_ops_generate buf buflen addtl :
  okptr buf -> preserves R (d_ops_generate G buf buflen addtl).
Proof.
  intros Hb. unfold d_ops_generate. pres;
    [now apply pres_hash_generate|now apply pres_hmac_generate
     |now apply pres_ctr_generate].
Qed.

(** The functions that set fields of the instance, for a relation
    that does not look at them. *)

Hypothesis R_modify :
  forall f m, R m {| drbg := f (drbg m); out := out m; be := be m |}.

Lemma pres_modify f : preserves R (modify_drbg f).
Proof. intros m a m' H. injection H as _ <-. apply R_modify. Qed.

Lemma pres_seed pers reseed : preserves R (gcry_drbg_seed G pers reseed).
Proof.
  unfold gcry_drbg_seed, core_flags. pres;
    try apply pres_get_entropy; try apply pres_d_ops_update;
    try apply pres_modify.
Qed.

Lemma pres_uninstantiate : preserves R gcry_drbg_uninstantiate.
Proof. unfold gcry_drbg_uninstantiate. pres; apply pres_modify. Qed.

Lemma pres_instantiate pers coreref pr_ :
  preserves R (gcry_drbg_instantiate G pers coreref pr_).
Proof.
  unfold gcry_drbg_instantiate. pres;
    try apply pres_modify; try apply pres_seed; try apply pres_uninstantiate.
Qed.

End Frame.

(** ** Errors of the generate function *)

Section GenerateErrors.

Context {env : Type} (G : platform env).

(** No function of a mechanism touches the request counter. *)
Lemma d_ops_generate_same_reseed_ctr buf buflen addtl :
  preserves same_reseed_ctr (d_ops_generate G buf buflen addtl).
Proof.
  apply pres_d_ops_generate with (okptr := fun _ => True);
    unfold same_reseed_ctr; try (intros; exact I); try reflexivity.
  - intros a b c H1 H2. congruence.
  - intros p bs m _. destruct p as [|l o|d]; try reflexivity.
    destruct l; reflexivity.
Qed.

(** C3 (as the code has it).  [gcry_drbg_generate] does not roll back.
    When the argument checks reject the call, it returns
    [GPG_ERR_INV_ARG] and the machine is as it was.  When they pass and
    no reseed is due, whatever the generate function of the mechanism
    returns, error or not, is returned as it is: the state and the output
    buffer are as the mechanism left them, and the request counter, which
    the mechanism does not touch, has been incremented. *)
Theorem gcry_drbg_generate_no_rollback buf buflen addtl (m : mach env)
        r a m' :
  gcry_drbg_generate G buf buflen addtl m = Some ((r, a), m') ->
  (generate_args_rejected G buf buflen addtl = true ->
   r = GPG_ERR_INV_ARG /\ a = addtl /\ m' = m)
  /\
  (generate_args_rejected G buf buflen addtl = false ->
   pr (drbg m) = false -> seeded (drbg m) = true ->
   reseed_ctr (drbg m) <= gcry_drbg_max_requests G ->
   exists m1,
     d_ops_generate G buf buflen addtl m = Some ((r, a), m1)
     /\ m' = {| drbg := set_reseed_ctr
                          (to_size_t G (reseed_ctr (drbg m) + 1)) (drbg m1);
                out := out m1; be := be m1 |}).
Proof.
  intros H. split.
  - intros Hrej. rewrite (generate_rejected G _ _ _ m Hrej) in H.
    injection H as <- <- <-. repeat split.
  - intros Hacc Hpr Hseeded Hctr.
    rewrite (generate_accepted G _ _ _ Hacc) in H.
    cbv beta iota delta [bind get_drbg] in H.
    assert (E : (gcry_drbg_max_requests G <? reseed_ctr (drbg m)) = false)
      by (apply Z.ltb_ge; lia).
    rewrite E in H. cbv beta iota delta [ret] in H.
    rewrite Hpr, Hseeded in H. cbn [orb negb] in H.
    destruct (d_ops_generate G buf buflen addtl m) as [[[r0 a0] m1]|] eqn:Ed;
      [|discriminate].
    pose proof (d_ops_generate_same_reseed_ctr _ _ _ _ _ _ Ed) as Hsame.
    unfold same_reseed_ctr in Hsame.
    cbv beta iota delta [modify_drbg] in H.
    injection H as <- <- <-. exists m1. rewrite Hsame. split; reflexivity.
Qed.

End GenerateErrors.

(** C3 (the statement of the specification fails).  A Hash-SHA1
    instance, a request for 40 bytes with three bytes of additional
    input, and a backend
    whose third [_gcry_md_open] fails with code 5: the call returns 5,
    [V] has been advanced by the additional input, the request counter
    has been incremented, and the first 20 of the 40 bytes of the output
    buffer have been written. *)
Lemma gcry_drbg_generate_error_changes_state :
  let m := test_mach (test_state 0 gcry_drbg_hash_ops 75) 40 [0; 0; 5] in
  exists a m',
    gcry_drbg_generate test_platform (Mem LOut 0) 40
                       (drbg_string (Data [1; 2; 3]) 3 NoString) m
    = Some ((5, a), m')
    /\ V (drbg m') <> V (drbg m)
    /\ reseed_ctr (drbg m') <> reseed_ctr (drbg m)
    /\ firstn 20 (out m') <> firstn 20 (out m)
    /\ skipn 20 (out m') = skipn 20 (out m).
Proof.
  intros m. eexists. eexists. split; [vm_compute; reflexivity|].
  repeat split; vm_compute; discriminate.
Qed.

(** The same run, in the terms of the theorem. *)
Lemma gcry_drbg_generate_no_rollback_witness :
  let m := test_mach (test_state 0 gcry_drbg_hash_ops 75) 40 [0; 0; 5] in
  let addtl := drbg_string (Data [1; 2; 3]) 3 NoString in
  exists r a m',
    gcry_drbg_generate test_platform (Mem LOut 0) 40 addtl m
    = Some ((r, a), m')
    /\ (generate_args_rejected test_platform (Mem LOut 0) 40 addtl = true ->
        r = GPG_ERR_INV_ARG /\ a = addtl /\ m' = m)
    /\ (generate_args_rejected test_platform (Mem LOut 0) 40 addtl = false ->
        pr (drbg m) = false -> seeded (drbg m) = true ->
        reseed_ctr (drbg m) <= gcry_drbg_max_requests test_platform ->
        exists m1,
          d_ops_generate test_platform (Mem LOut 0) 40 addtl m
          = Some ((r, a), m1)
          /\ m' = {| drbg := set_reseed_ctr
                               (to_size_t test_platform
                                          (reseed_ctr (drbg m) + 1))
                               (drbg m1);
                     out := out m1; be := be m1 |}).
Proof.
  intros m addtl.
  destruct (gcry_drbg_generate test_platform (Mem LOut 0) 40 addtl m)
    as [[[r a] m']|] eqn:E; [|vm_compute in E; discriminate].
  exists r, a, m'. split; [reflexivity|].
  apply (gcry_drbg_generate_no_rollback
           test_platform (Mem LOut 0) 40 addtl m r a m' E).
Defined.

(** ** The chain of the caller after [gcry_drbg_ctr_df] *)

Section Splice.

Context {env : Type} (G : platform env).

Lemma returns_ret {A} (Q : A -> Prop) (a : A) :
  Q a -> returns (env := env) Q (ret a).
Proof. intros H m a' m' E. injection E as <- _. exact H. Qed.

Lemma returns_bind {A B} (Q : B -> Prop) (x : M env A) (f : A -> M env B) :
  (forall a, returns Q (f a)) -> returns Q (bind x f).
Proof.
  intros Hf m b m' E. unfold bind in E.
  destruct (x m) as [[a m1]|]; [|discriminate]. eapply Hf; eassumption.
Qed.

Lemma returns_diverge {A} (Q : A -> Prop) : returns (env := env) Q diverge.
Proof. intros m a m' E. discriminate. Qed.

Lemma caller_tail_next_splice s s4 :
  s <> NoString -> caller_tail_next s (splice s s4) = s4.
Proof.
  induction s as [|b l nx IH]; intros Hs; [contradiction|].
  destruct nx as [|b' l' nx']; [reflexivity|].
  change (caller_tail_next (drbg_string b' l' nx')
            (splice (drbg_string b' l' nx') s4) = s4).
  apply IH. discriminate.
Qed.


End Splice.



(** ** The verdict of the known-answer test *)

Section Healthcheck.

Context {env : Type} (G : platform env).

Lemma not_out_add p k : not_out p -> not_out (ptr_add p k).
Proof. destruct p as [|[] o|d]; cbn; auto. Qed.

Lemma instantiate_same_out pers coreref pr_ :
  preserves same_out (gcry_drbg_instantiate G pers coreref pr_).
Proof.
  apply pres_instantiate with (okptr := not_out); unfold same_out;
    try reflexivity; try (intros; exact I).
  - intros a b c H1 H2. congruence.
  - intros p bs m Hp. destruct p as [|l o|d]; try reflexivity.
    destruct l; try reflexivity. contradiction.
  - exact not_out_add.
Qed.

(** [gcry_drbg_cavs_test] returns a non-zero code only for a failure
    before the first generate call, and then [buf] has not been
    written. *)
Lemma cavs_test_run_error test buf coreref (m : mach env) r m' :
  cavs_test_run G test buf coreref m = Some (r, m') ->
  is_err r = true -> out m' = out m.
Proof.
  unfold cavs_test_run. intros E Hr.
  cbv beta iota delta [bind fill_testentropy modify_drbg] in E.
  match type of E with
  | match ?x with _ => _ end = _ => destruct x as [[[r0 p] m1]|] eqn:Ei
  end; [|discriminate].
  apply instantiate_same_out in Ei. unfold same_out in Ei. cbn [out] in Ei.
  destruct (is_err r0) eqn:E0.
  - injection E as <- <-. exact Ei.
  - exfalso.
    assert (Hq : returns (fun r' => r' = r0)
      (e <- (if negb (is_null (tv_entropyreseed test)) then
               fill_testentropy (env := env) (tv_entropyreseed test)
                                (tv_entropyreseed_len test) ;;
               ' (e, _) <- gcry_drbg_reseed G
                             (gcry_drbg_string_fill
                                (tv_addtl_reseed test)
                                (tv_addtl_reseed_len test)) ;;
               ret e
             else ret 0) ;;
       if is_err e then ret r0 else
       (if negb (is_null (tv_entpra test))
        then fill_testentropy (tv_entpra test) (tv_entprlen test)
        else ret tt) ;;
       gcry_drbg_generate_long G buf (tv_expectedlen test)
         (gcry_drbg_string_fill (tv_addtla test) (tv_addtllen test)) ;;
       (if negb (is_null (tv_entprb test))
        then fill_testentropy (tv_entprb test) (tv_entprlen test)
        else ret tt) ;;
       gcry_drbg_generate_long G buf (tv_expectedlen test)
         (gcry_drbg_string_fill (tv_addtlb test) (tv_addtllen test)) ;;
       gcry_drbg_uninstantiate ;;
       ret r0)).
    { apply returns_bind. intros e.
      destruct (is_err e); [now apply returns_ret|].
      repeat (apply returns_bind; intros). now apply returns_ret. }
    specialize (Hq _ _ _ E). congruence.
Qed.

Lemma cavs_test_error test buf (m : mach env) r m' :
  gcry_drbg_cavs_test G test buf m = Some (r, m') ->
  is_err r = true -> out m' = out m.
Proof.
  unfold gcry_drbg_cavs_test. intros E Hr.
  destruct (gcry_drbg_algo_available G (tv_flags test)) as [r0 coreref].
  destruct (is_err r0).
  - injection E as _ <-. reflexivity.
  - cbv beta iota delta [bind call] in E.
    destruct (backend G (be m) (xcalloc_secure (sizeof_gcry_drbg_state G)))
      as [e b].
    destruct (is_err e).
    + injection E as _ <-. reflexivity.
    + destruct (cavs_test_run G test buf coreref _) as [[r1 m1]|] eqn:Er;
        [|discriminate].
      injection E as <- <-. cbn [out].
      apply (cavs_test_run_error _ _ _ _ _ _ Er Hr).
Qed.

(** C10.  Once [gcry_drbg_healthcheck_one] has its zero-filled buffer,
    its verdict is the comparison of the buffer, as the vector run left
    it, with the expected bytes; the code [r] the run returns does not
    enter it.  When the run returns an error code the buffer is still
    zero-filled, so the verdict is the comparison of the expected bytes
    with zeros. *)
Theorem gcry_drbg_healthcheck_one_verdict test (m : mach env) e :
  backend G (be m) (xcalloc_secure (tv_expectedlen test)) = (0, e) ->
  let n := tv_expectedlen test in
  let zeros := repeat 0 (Z.to_nat n) in
  let m0 := {| drbg := drbg m; out := zeros; be := e |} in
  match gcry_drbg_cavs_test G test (Mem LOut 0) m0 with
  | None => gcry_drbg_healthcheck_one G test m = None
  | Some (r, m') =>
      let expected := load_ptr m' (tv_expected test) n in
      gcry_drbg_healthcheck_one G test m
      = Some (to_err_code
                (memcmp expected (buf_read (out m') 0 (Z.to_nat n))
                        (Z.to_nat n)), m')
      /\ (is_err r = true ->
          gcry_drbg_healthcheck_one G test m
          = Some (to_err_code (memcmp expected zeros (Z.to_nat n)), m'))
  end.
Proof.
  intros Ha n zeros m0.
  assert (Hh : gcry_drbg_healthcheck_one G test m
               = match gcry_drbg_cavs_test G test (Mem LOut 0) m0 with
                 | None => None
                 | Some (r, m') =>
                     Some (to_err_code
                             (memcmp (load_ptr m' (tv_expected test) n)
                                     (buf_read (out m') 0 (Z.to_nat n))
                                     (Z.to_nat n)), m')
                 end).
  { unfold gcry_drbg_healthcheck_one.
    cbv beta iota delta [bind call calloc_out]. rewrite Ha.
    cbv beta iota. cbn [is_err Z.eqb negb drbg out be]. fold n zeros m0.
    destruct (gcry_drbg_cavs_test G test (Mem LOut 0) m0) as [[r m']|];
      reflexivity. }
  destruct (gcry_drbg_cavs_test G test (Mem LOut 0) m0) as [[r m']|] eqn:E;
    [|exact Hh].
  cbv zeta. split; [exact Hh|].
  intros Hr. rewrite Hh.
  rewrite (cavs_test_error _ _ _ _ _ E Hr). cbn [out m0].
  unfold buf_read, zeros. cbn [skipn].
  rewrite firstn_all2 by (rewrite repeat_length; lia).
  reflexivity.
Qed.

End Healthcheck.

(** A vector that expects four zero bytes, run on a backend whose third
    allocation (that of [V]) fails: the run returns [GPG_ERR_ENOMEM]
    and the health check reports success. *)
Lemma gcry_drbg_healthcheck_one_verdict_witness :
  let m := test_mach drbg_calloc 0 [0; 0; 7] in
  let n := tv_expectedlen test_vector in
  let zeros := repeat 0 (Z.to_nat n) in
  let m0 := {| drbg := drbg m; out := zeros; be := [0; 7] |} in
  match gcry_drbg_cavs_test test_platform test_vector (Mem LOut 0) m0 with
  | None => gcry_drbg_healthcheck_one test_platform test_vector m = None
  | Some (r, m') =>
      let expected := load_ptr m' (tv_expected test_vector) n in
      gcry_drbg_healthcheck_one test_platform test_vector m
      = Some (to_err_code
                (memcmp expected (buf_read (out m') 0 (Z.to_nat n))
                        (Z.to_nat n)), m')
      /\ (is_err r = true ->
          gcry_drbg_healthcheck_one test_platform test_vector m
          = Some (to_err_code (memcmp expected zeros (Z.to_nat n)), m'))
  end.
Proof.
  intros m.
  apply (gcry_drbg_healthcheck_one_verdict test_platform test_vector m [0; 7]).
  reflexivity.
Defined.

(** ** More on buffers *)

Lemma buf_write_compose B : forall o x y,
  buf_write (buf_write B o x) (o + length x) y = buf_write B o (x ++ y).
Proof.
  induction B as [|b B IH]; intros o x y; [reflexivity|].
  destruct o as [|o].
  - destruct x as [|a x].
    + reflexivity.
    + cbn [buf_write app length Nat.add]. f_equal. apply (IH 0%nat).
  - cbn [buf_write Nat.add]. f_equal. apply IH.
Qed.

Lemma buf_write_in_range sp : forall o bs,
  (o + length bs <= length sp)%nat ->
  buf_write sp o bs = firstn o sp ++ bs ++ skipn (o + length bs) sp.
Proof.
  induction sp as [|x sp IH]; intros o bs H.
  - cbn in H. assert (o = 0%nat) as -> by lia.
    destruct bs; [reflexivity|cbn in H; lia].
  - destruct o as [|o].
    + destruct bs as [|b bs]; [reflexivity|].
      cbn [buf_write firstn app length Nat.add skipn]. f_equal.
      cbn in H. rewrite (IH 0%nat bs) by lia. reflexivity.
    + cbn [buf_write firstn app length Nat.add skipn]. f_equal.
      cbn in H. apply IH. lia.
Qed.

Lemma buf_read_write_same sp o bs k :
  (o + length bs <= length sp)%nat -> (k <= length bs)%nat ->
  buf_read (buf_write sp o bs) o k = firstn k bs.
Proof.
  intros H Hk. rewrite buf_write_in_range by exact H. unfold buf_read.
  rewrite skipn_app, length_firstn, Nat.min_l by lia.
  rewrite Nat.sub_diag, skipn_all2 by (rewrite length_firstn; lia).
  cbn [skipn app]. rewrite firstn_app.
  replace (k - length bs)%nat with 0%nat by lia.
  cbn [firstn]. now rewrite app_nil_r.
Qed.

Lemma buf_read_prefix sp sp' o n k :
  firstn k sp = firstn k sp' -> (o + n <= k)%nat ->
  buf_read sp o n = buf_read sp' o n.
Proof.
  intros H Hk. unfold buf_read.
  assert (E : forall l : list Z,
             firstn n (skipn o l) = firstn n (skipn o (firstn k l))).
  { intros l. rewrite skipn_firstn_comm, firstn_firstn.
    now rewrite Nat.min_l by lia. }
  rewrite (E sp), (E sp'), H. reflexivity.
Qed.

Lemma firstn_buf_write_above sp o bs k :
  (k <= o)%nat -> firstn k (buf_write sp o bs) = firstn k sp.
Proof.
  revert o k. induction sp as [|x sp IH]; intros o k H; [reflexivity|].
  destruct k as [|k]; [reflexivity|].
  destruct o as [|o]; [lia|].
  cbn [buf_write firstn]. f_equal. apply IH. lia.
Qed.

(** ** The big-endian prefix *)

Lemma be32_byte x k :
  0 <= k -> k + 8 <= 32 ->
  Z.land (Z.shiftr (x mod 2 ^ 32) k) 255 = (x / 2 ^ k) mod 256.
Proof.
  intros Hk Hk8.
  change 255 with (Z.ones 8). change 256 with (2 ^ 8).
  rewrite <- (Z.land_ones (x / 2 ^ k)) by lia.
  rewrite <- (Z.land_ones x 32) by lia.
  rewrite <- Z.shiftr_div_pow2 by lia.
  apply Z.bits_inj'. intros i Hi.
  rewrite !Z.land_spec, !Z.shiftr_spec, Z.land_spec by lia.
  destruct (Z.ltb_spec i 8).
  - rewrite !Z.ones_spec_low by lia. now rewrite !andb_true_r.
  - rewrite (Z.ones_spec_high 8) by lia. now rewrite !andb_false_r.
Qed.

Lemma mod_mod_pow2 x a b :
  0 <= b <= a -> (x mod 2 ^ a) mod 2 ^ b = x mod 2 ^ b.
Proof.
  intros H. rewrite <- !Z.land_ones by lia.
  apply Z.bits_inj'. intros i Hi. rewrite !Z.land_spec.
  destruct (Z.ltb_spec i b).
  - rewrite !Z.ones_spec_low by lia. now rewrite !andb_true_r.
  - rewrite (Z.ones_spec_high b) by lia. now rewrite !andb_false_r.
Qed.

Lemma cpu_to_be32_BE32 {env : Type} (G : platform env) x :
  gcry_drbg_cpu_to_be32 (to_size_t G x) = BE32 x.
Proof.
  unfold gcry_drbg_cpu_to_be32, BE32, to_size_t, size_bits.
  assert (E : (x mod 2 ^ (if lp64 G then 64 else 32)) mod 2 ^ 32
              = x mod 2 ^ 32)
    by (destruct (lp64 G); apply mod_mod_pow2; lia).
  cbv zeta. rewrite E.
  rewrite !be32_byte by lia.
  replace (Z.land (x mod 2 ^ 32) 255) with (x / 2 ^ 0 mod 256)
    by (rewrite <- be32_byte by lia; now rewrite Z.shiftr_0_r).
  now rewrite Z.pow_0_r, Z.div_1_r.
Qed.

(** ** Stores and the machine *)

Section Stores.

Context {env : Type} (G : platform env).

Lemma buf_of_store_same l o bs (m : mach env) :
  buf_of (store_ptr (Mem l o) bs m) l = buf_write (buf_of m l) (Z.to_nat o) bs.
Proof. destruct l; reflexivity. Qed.

Lemma buf_of_store_other l l' o bs (m : mach env) :
  l' <> l -> buf_of (store_ptr (Mem l o) bs m) l' = buf_of m l'.
Proof. intros H. destruct l, l'; try reflexivity; contradiction. Qed.

Lemma core_store p bs (m : mach env) :
  core (drbg (store_ptr p bs m)) = core (drbg m).
Proof. destruct p as [|[] o|d]; reflexivity. Qed.

Lemma be_store p bs (m : mach env) : be (store_ptr p bs m) = be m.
Proof. destruct p as [|[] o|d]; reflexivity. Qed.

Lemma buf_of_with_be (m : mach env) b l : buf_of (with_be m b) l = buf_of m l.
Proof. destruct l; reflexivity. Qed.

Lemma bind_some {A B} (x : M env A) (f : A -> M env B) m a m' :
  x m = Some (a, m') -> bind x f m = f a m'.
Proof. intros E. unfold bind. now rewrite E. Qed.

Lemma memcpy_eq dst src n (m : mach env) :
  memcpy dst src n m = Some (tt, store_ptr dst (load_ptr m src n) m).
Proof. reflexivity. Qed.

Lemma memset_eq p c n (m : mach env) :
  memset p c n m = Some (tt, store_ptr p (repeat c (Z.to_nat n)) m).
Proof. reflexivity. Qed.

Lemma loc_eq_scratch (l : loc) : l = LScratch \/ l <> LScratch.
Proof. destruct l; (now left) || (right; discriminate). Qed.

End Stores.

(** ** The derivation function of Hash DRBG *)

Section HashDf.

Context {env : Type} (G : platform env).

Variable c : gcry_drbg_core.
Variable l : loc.
Variables off L : Z.
Variable entropy : gcry_drbg_string.

Let sl := statelen c.
Let bl := blocklen_bytes c.
Let H := md_digest G (backend_cipher c) None.

Hypothesis Hbl : 0 < bl < 2 ^ 15.
Hypothesis Hsl : 0 <= sl.
Hypothesis Hopen :
  forall e, fst (backend G e (md_open (backend_cipher c) false)) = 0.
Hypothesis Hdlen : forall data, length (H data) = Z.to_nat bl.
Hypothesis Hl : l <> LScratch.
Hypothesis Hoff : 0 <= off.
Hypothesis HL : 0 <= L.
Hypothesis Hchain : chain_outside l sl entropy.

(** What the loop relies on. *)
Let inv (m : mach env) : Prop :=
  core (drbg m) = Some c
  /\ (Z.to_nat (sl + bl) <= length (scratchpad (drbg m)))%nat.

(** What the chain can see is as it was. *)
Let stab (m m' : mach env) : Prop :=
  (forall l', l' <> l -> l' <> LScratch -> buf_of m' l' = buf_of m l')
  /\ firstn (Z.to_nat sl) (scratchpad (drbg m'))
     = firstn (Z.to_nat sl) (scratchpad (drbg m)).

Lemma chain_bytes_stab s m m' :
  chain_outside l sl s -> stab m m' -> chain_bytes m' s = chain_bytes m s.
Proof.
  intros Hs [Hb Hf]. induction s as [|p n nx IH]; [reflexivity|].
  destruct Hs as [Hn Hs]. cbn [chain_bytes]. rewrite (IH Hs). f_equal.
  destruct p as [|l' o|d]; try reflexivity.
  cbn [load_ptr]. destruct Hn as [Hl' Hsc].
  destruct (loc_eq_scratch l') as [->|Hns].
  - destruct (Hsc eq_refl) as (Ho & Hn0 & Hon).
    cbn [buf_of]. apply buf_read_prefix with (k := Z.to_nat sl); [exact Hf|lia].
  - now rewrite Hb.
Qed.

Lemma stab_tmp_store m bs (o : Z) :
  sl <= o -> stab m (store_ptr (Mem LScratch o) bs m).
Proof.
  intros Ho. split.
  - intros l' _ Hns. now apply buf_of_store_other.
  - change (scratchpad (drbg (store_ptr (Mem LScratch o) bs m)))
      with (buf_of (store_ptr (Mem LScratch o) bs m) LScratch).
    rewrite buf_of_store_same. apply firstn_buf_write_above. lia.
Qed.

Lemma stab_out_store m bs (o : Z) : stab m (store_ptr (Mem l o) bs m).
Proof.
  split.
  - intros l' Hl' _. now apply buf_of_store_other.
  - change (scratchpad (drbg (store_ptr (Mem l o) bs m)))
      with (buf_of (store_ptr (Mem l o) bs m) LScratch).
    now rewrite buf_of_store_other by exact (not_eq_sym Hl).
Qed.

Lemma stab_with_be m b : stab m (with_be m b).
Proof. split; [intros; apply buf_of_with_be|reflexivity]. Qed.

Lemma stab_trans m1 m2 m3 : stab m1 m2 -> stab m2 m3 -> stab m1 m3.
Proof.
  intros [A1 B1] [A2 B2]. split.
  - intros l' H1 H2. now rewrite A2, A1.
  - now rewrite B2, B1.
Qed.

(** One call of the hash through the adapter. *)
Lemma hmac_hash m tmp buf :
  core (drbg m) = Some c ->
  exists b,
    gcry_drbg_hmac G Null tmp buf m
    = Some (0, store_ptr tmp (H (chain_bytes m buf)) (with_be m b)).
Proof.
  intros Hc.
  cbv beta iota delta [gcry_drbg_hmac bind get_core get_drbg call ret
                       is_null negb read_chain store].
  rewrite Hc. cbv beta iota.
  pose proof (Hopen (be m)) as Ho.
  destruct (backend G (be m) (md_open (backend_cipher c) false)) as [e b].
  cbn in Ho. subst e. exists b. cbn [is_err Z.eqb negb].
  unfold gcry_drbg_blocklen. cbn [drbg]. rewrite Hc.
  fold bl. fold H.
  rewrite firstn_all2 by (rewrite Hdlen; lia).
  assert (E : chain_bytes {| drbg := drbg m; out := out m; be := b |} buf
              = chain_bytes m buf).
  { clear. induction buf as [|p n nx IH]; [reflexivity|].
    cbn [chain_bytes]. rewrite IH. f_equal;
      try (destruct p as [|[] o|d]; reflexivity). }
  rewrite E. reflexivity.
Qed.

Lemma hash_df_loop_spec inb : forall fuel counter len m,
  inv m -> chain_bytes m entropy = inb ->
  (Z.to_nat (off + L) <= length (buf_of m l))%nat ->
  0 <= len -> (Z.to_nat (L - len) <= fuel)%nat ->
  exists m',
    hash_df_loop G fuel bl (Mem l off) (Mem LScratch sl) L entropy
                 (counter mod 256 :: BE32 (L * 8)) len m = Some (0, m')
    /\ buf_of m' l
       = buf_write (buf_of m l) (Z.to_nat (off + len))
                   (Hash_df_blocks H bl inb L fuel counter len).
Proof.
  induction fuel as [|fuel IH]; intros counter len m Hinv Hin Hlen Hl0 Hfuel.
  - cbn [hash_df_loop Hash_df_blocks].
    assert (E : (len <? L) = false) by (apply Z.ltb_ge; lia).
    rewrite E. exists m. split; [reflexivity|]. now rewrite buf_write_nil.
  - cbn [hash_df_loop Hash_df_blocks].
    destruct (len <? L) eqn:E.
    2:{ exists m. split; [reflexivity|]. now rewrite buf_write_nil. }
    apply Z.ltb_lt in E. destruct Hinv as [Hc Hsp].
    set (input := counter mod 256 :: BE32 (L * 8)).
    destruct (hmac_hash m (Mem LScratch sl) (drbg_string (Data input) 5 entropy)
                        Hc) as [b Hh].
    rewrite (bind_some _ _ _ _ _ Hh). cbn [is_err Z.eqb negb].
    set (blk := H (chain_bytes m (drbg_string (Data input) 5 entropy))).
    set (m1 := store_ptr (Mem LScratch sl) blk (with_be m b)).
    set (k := Z.min bl (L - len)).
    assert (Hk : to_short (if bl <? L - len then bl else L - len) = k).
    { unfold k, to_short. destruct (Z.ltb_spec bl (L - len)).
      - rewrite Z.min_l by lia. rewrite Z.mod_small; lia.
      - rewrite Z.min_r by lia. rewrite Z.mod_small; lia. }
    rewrite Hk.
    assert (Hkr : 0 < k <= bl) by (unfold k; lia).
    assert (Hblk : length blk = Z.to_nat bl) by apply Hdlen.
    (* the copy out of the scratchpad *)
    assert (Hload : load_ptr m1 (Mem LScratch sl) k = firstn (Z.to_nat k) blk).
    { cbn [load_ptr]. unfold m1. rewrite buf_of_store_same.
      apply buf_read_write_same.
      - rewrite buf_of_with_be. cbn [buf_of]. lia.
      - lia. }
    rewrite (bind_some _ _ _ _ _ (memcpy_eq _ _ _ _)), Hload.
    cbn [ptr_add].
    set (m2 := store_ptr (Mem l (off + len)) (firstn (Z.to_nat k) blk) m1).
    assert (Hstab : stab m m2).
    { apply stab_trans with (m2 := with_be m b); [apply stab_with_be|].
      apply stab_trans with (m2 := m1);
        [apply stab_tmp_store; lia|apply stab_out_store]. }
    assert (Hin2 : chain_bytes m2 entropy = inb)
      by (rewrite <- Hin; now apply chain_bytes_stab).
    assert (Hinv2 : inv m2).
    { split.
      - unfold m2, m1. now rewrite !core_store.
      - unfold m2.
        change (scratchpad (drbg (store_ptr (Mem l (off + len))
                                           (firstn (Z.to_nat k) blk) m1)))
          with (buf_of (store_ptr (Mem l (off + len))
                                  (firstn (Z.to_nat k) blk) m1) LScratch).
        rewrite buf_of_store_other by exact (not_eq_sym Hl).
        unfold m1. rewrite buf_of_store_same, buf_write_length.
        now rewrite buf_of_with_be. }
    assert (Hbuf2 : buf_of m2 l
                    = buf_write (buf_of m l) (Z.to_nat (off + len))
                                (firstn (Z.to_nat k) blk)).
    { unfold m2. rewrite buf_of_store_same. unfold m1.
      rewrite buf_of_store_other by exact Hl. now rewrite buf_of_with_be. }
    assert (Hlen2 : (Z.to_nat (off + L) <= length (buf_of m2 l))%nat)
      by (now rewrite Hbuf2, buf_write_length).
    assert (Hinput : set_byte input 0 ((byte_at input 0 + 1) mod 256)
                     = (counter + 1) mod 256 :: BE32 (L * 8)).
    { unfold input, set_byte, byte_at. cbn [Z.to_nat nth buf_write].
      now rewrite Zplus_mod_idemp_l. }
    rewrite Hinput.
    destruct (IH (counter + 1) (len + k) m2 Hinv2 Hin2 Hlen2
                 ltac:(lia) ltac:(lia)) as (m' & Hrun & Hres).
    exists m'. split; [exact Hrun|].
    rewrite Hres, Hbuf2.
    replace (Z.to_nat (off + (len + k)))
      with (Z.to_nat (off + len) + length (firstn (Z.to_nat k) blk))%nat
      by (rewrite length_firstn, Hblk; lia).
    rewrite buf_write_compose. f_equal.
    unfold blk. cbn [chain_bytes load_ptr]. rewrite Hin.
    change (firstn (Z.to_nat 5) input) with input.
    reflexivity.
Qed.

Lemma Hash_df_blocks_length inb : forall fuel counter produced,
  0 <= produced -> (Z.to_nat (L - produced) <= fuel)%nat ->
  length (Hash_df_blocks H bl inb L fuel counter produced)
  = Z.to_nat (L - produced).
Proof.
  induction fuel as [|fuel IH]; intros counter produced Hp Hf.
  - cbn. lia.
  - cbn [Hash_df_blocks]. destruct (produced <? L) eqn:E.
    + apply Z.ltb_lt in E.
      rewrite length_app, length_firstn, Hdlen, IH by lia. lia.
    + apply Z.ltb_ge in E. cbn. lia.
Qed.

(** C4.  Let the hash always open, let its digest have [outlen =
    blocklen] bytes, and let the chain lie outside the memory the
    function writes.  Then [gcry_drbg_hash_df] returns 0 and stores at
    [outval] exactly [L] bytes: the concatenation of the hash blocks
    [H (prefix || in)], where the five-byte prefix is a one-byte counter,
    1 for the first block and one more for each further block, followed
    by the big-endian 32-bit encoding of [L*8], and of each block the
    first [min (outlen, L - produced)] bytes are kept. *)
Theorem gcry_drbg_hash_df_blocks (m : mach env) :
  core (drbg m) = Some c ->
  (Z.to_nat (sl + bl) <= length (scratchpad (drbg m)))%nat ->
  (Z.to_nat (off + L) <= length (buf_of m l))%nat ->
  let produced := Hash_df H bl (chain_bytes m entropy) L in
  length produced = Z.to_nat L /\
  exists m',
    gcry_drbg_hash_df G (Mem l off) L entropy m = Some (0, m')
    /\ buf_of m' l = buf_write (buf_of m l) (Z.to_nat off) produced.
Proof.
  intros Hc Hsp Hlen produced. split.
  - unfold produced, Hash_df. rewrite Hash_df_blocks_length by lia.
    f_equal. lia.
  - unfold gcry_drbg_hash_df. rewrite bind_get.
    unfold gcry_drbg_blocklen, gcry_drbg_statelen. rewrite Hc.
    fold sl. fold bl.
    rewrite (bind_some _ _ _ _ _ (memset_eq _ _ _ _)).
    set (m0 := store_ptr (Mem LScratch sl) (repeat 0 (Z.to_nat bl)) m).
    assert (Hstab : stab m m0) by (apply stab_tmp_store; lia).
    assert (Hinv0 : inv m0).
    { split.
      - unfold m0. now rewrite core_store.
      - unfold m0.
        change (scratchpad (drbg (store_ptr (Mem LScratch sl)
                                           (repeat 0 (Z.to_nat bl)) m)))
          with (buf_of (store_ptr (Mem LScratch sl)
                                  (repeat 0 (Z.to_nat bl)) m) LScratch).
        now rewrite buf_of_store_same, buf_write_length. }
    assert (Hb0 : buf_of m0 l = buf_of m l)
      by (unfold m0; now rewrite buf_of_store_other by exact Hl).
    rewrite cpu_to_be32_BE32.
    change 1 with (1 mod 256) at 1.
    destruct (hash_df_loop_spec (chain_bytes m entropy) (Z.to_nat L) 1 0 m0
                Hinv0 (chain_bytes_stab _ _ _ Hchain Hstab)
                ltac:(now rewrite Hb0) ltac:(lia) ltac:(lia))
      as (m' & Hrun & Hres).
    rewrite (bind_some _ _ _ _ _ Hrun).
    rewrite (bind_some _ _ _ _ _ (memset_eq _ _ _ _)). unfold ret.
    eexists. split; [reflexivity|].
    rewrite buf_of_store_other by exact Hl.
    rewrite Hres, Hb0. rewrite Z.add_0_r. reflexivity.
Qed.

End HashDf.

(** The theorem on the instance for SHA-1 (blocks of 20 bytes): 55 bytes
    for [V], from a chain of two nodes; three blocks, the last one cut
    to 15 bytes. *)
Lemma gcry_drbg_hash_df_blocks_witness :
  let m := test_mach (test_state 0 gcry_drbg_hash_ops 75) 0 [] in
  let entropy := drbg_string (Data [1; 2; 3]) 3
                   (drbg_string (Mem LC 0) 55 NoString) in
  let produced := Hash_df (test_md_digest 2 None) 20
                          (chain_bytes m entropy) 55 in
  length produced = 55%nat
  /\ exists m',
       gcry_drbg_hash_df quiet_platform (Mem LV 0) 55 entropy m
       = Some (0, m')
       /\ V (drbg m') = buf_write (V (drbg m)) 0 produced.
Proof.
  intros m entropy.
  apply (gcry_drbg_hash_df_blocks quiet_platform
           (Build_gcry_drbg_core 16 55 20 2) LV 0 55 entropy).
  - cbn. lia.
  - cbn. lia.
  - intros e. reflexivity.
  - intros data. change (length (test_md_digest 2 None data) = 20%nat).
    unfold test_md_digest. now rewrite length_map, length_seq.
  - discriminate.
  - lia.
  - cbn. repeat split; discriminate.
  - reflexivity.
  - apply Nat.leb_le. reflexivity.
  - apply Nat.leb_le. reflexivity.
Defined.

(** ** Scratchpads that agree outside an area *)

Lemma nth_buf_write_in sp : forall o bs i,
  (o <= i < o + length bs)%nat -> (i < length sp)%nat ->
  nth i (buf_write sp o bs) 0 = nth (i - o) bs 0.
Proof.
  induction sp as [|x sp IH]; intros o bs i Hi Hl; [cbn in Hl; lia|].
  destruct o as [|o].
  - destruct bs as [|b bs]; [cbn in Hi; lia|].
    destruct i as [|i]; [reflexivity|].
    cbn [buf_write nth]. rewrite (IH 0%nat bs i) by (cbn in *; lia).
    now rewrite Nat.sub_0_r.
  - destruct i as [|i]; [lia|].
    cbn [buf_write nth Nat.sub]. apply IH; cbn in *; lia.
Qed.

Lemma nth_buf_write_out sp : forall o bs i,
  ~ (o <= i < o + length bs)%nat ->
  nth i (buf_write sp o bs) 0 = nth i sp 0.
Proof.
  induction sp as [|x sp IH]; intros o bs i Hi; [reflexivity|].
  destruct o as [|o].
  - destruct bs as [|b bs]; [reflexivity|].
    destruct i as [|i]; [cbn in Hi; lia|].
    cbn [buf_write nth]. apply IH. cbn in *. lia.
  - destruct i as [|i]; [reflexivity|].
    cbn [buf_write nth]. apply IH. lia.
Qed.

Lemma agree_refl a n sp : agree_off a n sp sp.
Proof. split; reflexivity. Qed.

Lemma agree_write a n sp sp' o bs :
  agree_off a n sp sp' ->
  agree_off a n (buf_write sp o bs) (buf_write sp' o bs).
Proof.
  intros [Hl Ha]. split; [now rewrite !buf_write_length|].
  intros i Hi.
  destruct (Nat.le_gt_cases o i) as [H1|H1];
    [destruct (Nat.lt_ge_cases i (o + length bs)) as [H2|H2]|].
  - destruct (Nat.lt_ge_cases i (length sp)) as [H3|H3].
    + rewrite !nth_buf_write_in by lia. reflexivity.
    + rewrite !nth_overflow by (rewrite buf_write_length; lia). reflexivity.
  - rewrite !nth_buf_write_out by lia. now apply Ha.
  - rewrite !nth_buf_write_out by lia. now apply Ha.
Qed.

Lemma agree_write_shrink a n sp sp' bs :
  agree_off a n sp sp' -> (length bs <= n)%nat ->
  agree_off (a + length bs) (n - length bs)
            (buf_write sp a bs) (buf_write sp' a bs).
Proof.
  intros [Hl Ha] Hb. split; [now rewrite !buf_write_length|].
  intros i Hi.
  destruct (Nat.le_gt_cases a i) as [H1|H1];
    [destruct (Nat.lt_ge_cases i (a + length bs)) as [H2|H2]|].
  - destruct (Nat.lt_ge_cases i (length sp)) as [H3|H3].
    + rewrite !nth_buf_write_in by lia. reflexivity.
    + rewrite !nth_overflow by (rewrite buf_write_length; lia). reflexivity.
  - rewrite !nth_buf_write_out by lia. apply Ha. lia.
  - rewrite !nth_buf_write_out by lia. apply Ha. lia.
Qed.

Lemma agree_write_right a n sp sp' bs :
  agree_off a n sp sp' -> (length bs <= n)%nat ->
  agree_off a n sp (buf_write sp' a bs).
Proof.
  intros [Hl Ha] Hb. split; [now rewrite buf_write_length|].
  intros i Hi. rewrite nth_buf_write_out by lia. now apply Ha.
Qed.

Lemma agree_weaken a n g sp sp' :
  agree_off (a + g) (n - g) sp sp' -> (g <= n)%nat -> agree_off a n sp sp'.
Proof.
  intros [Hl Ha] Hg. split; [exact Hl|]. intros i Hi. apply Ha. lia.
Qed.

Lemma agree_eq a sp sp' : agree_off a 0 sp sp' -> sp = sp'.
Proof.
  intros [Hl Ha]. apply nth_ext with (d := 0) (d' := 0); [exact Hl|].
  intros i _. apply Ha. lia.
Qed.

Lemma agree_read a n sp sp' o k :
  agree_off a n sp sp' -> (o + k <= a \/ a + n <= o)%nat ->
  buf_read sp o k = buf_read sp' o k.
Proof.
  intros [Hl Ha] Hok. unfold buf_read.
  apply nth_ext with (d := 0) (d' := 0).
  - rewrite !length_firstn, !length_skipn. lia.
  - intros i Hi. rewrite length_firstn, length_skipn in Hi.
    rewrite !nth_firstn.
    destruct (i <? k)%nat eqn:E; [|reflexivity].
    apply Nat.ltb_lt in E. rewrite !nth_skipn. apply Ha. lia.
Qed.

Lemma buf_read_length sp o k :
  (o + k <= length sp)%nat -> length (buf_read sp o k) = k.
Proof.
  intros H. unfold buf_read. rewrite length_firstn, length_skipn. lia.
Qed.

(** ** Two runs of the CTR functions, side by side *)

Section Sim.

Context {env : Type} (G : platform env).

Lemma sim_ret {A} (R : mach env -> mach env -> Prop)
      (P : A -> mach env -> mach env -> Prop) a :
  (forall m m', R m m' -> P a m m') -> sim R P (ret a) (ret a).
Proof. intros H m m' HR. cbn. split; [reflexivity|now apply H]. Qed.

Lemma sim_diverge {A} (R : mach env -> mach env -> Prop)
      (P : A -> mach env -> mach env -> Prop) :
  sim R P diverge diverge.
Proof. intros m m' HR. exact I. Qed.

Lemma sim_bind {A B} (R : mach env -> mach env -> Prop)
      (Q : A -> mach env -> mach env -> Prop)
      (P : B -> mach env -> mach env -> Prop)
      (x y : M env A) (f g : A -> M env B) :
  sim R Q x y -> (forall a, sim (Q a) P (f a) (g a)) ->
  sim R P (bind x f) (bind y g).
Proof.
  intros Hx Hf m m' HR. specialize (Hx m m' HR). unfold bind.
  destruct (x m) as [[a m1]|], (y m') as [[a' m1']|]; try contradiction.
  - destruct Hx as [<- HQ]. exact (Hf a m1 m1' HQ).
  - exact I.
Qed.

Lemma sim_post {A} (R : mach env -> mach env -> Prop)
      (P P' : A -> mach env -> mach env -> Prop) (x y : M env A) :
  sim R P x y -> (forall a m m', P a m m' -> P' a m m') -> sim R P' x y.
Proof.
  intros Hx HP m m' HR. specialize (Hx m m' HR).
  destruct (x m) as [[a m1]|], (y m') as [[a' m1']|]; try contradiction.
  - destruct Hx as [<- HQ]. split; [reflexivity|now apply HP].
  - exact I.
Qed.

Lemma sim_pre {A} (R R' : mach env -> mach env -> Prop)
      (P : A -> mach env -> mach env -> Prop) (x y : M env A) :
  sim R P x y -> (forall m m', R' m m' -> R m m') -> sim R' P x y.
Proof. intros Hx HR m m' H. apply Hx. now apply HR. Qed.

Variable c : gcry_drbg_core.
Variable slen : nat.

Let R (a n : nat) := ctr_rel (env := env) c slen a n.

(** [x] keeps two runs related. *)
Let keeps {A} (a n : nat) (x : M env A) : Prop :=
  sim (R a n) (fun _ => R a n) x x.

Lemma sim_get {A} a n (P : A -> mach env -> mach env -> Prop)
      (f g : gcry_drbg_state -> M env A) :
  (forall st st', core st = Some c -> core st' = Some c ->
                  sim (R a n) P (f st) (g st')) ->
  sim (R a n) P (bind get_drbg f) (bind get_drbg g).
Proof.
  intros H m m' HR. unfold bind, get_drbg.
  refine (H (drbg m) (drbg m') _ _ m m' HR); apply HR.
Qed.

Lemma keeps_get_core a n : keeps a n get_core.
Proof.
  intros m m' HR. unfold get_core, bind, get_drbg.
  destruct HR as (Hc & Hc' & HR). rewrite Hc, Hc'. cbn.
  split; [reflexivity|]. exact (conj Hc (conj Hc' HR)).
Qed.

Lemma rel_load a n m m' p k :
  R a n m m' -> ptr_avoids a n p k -> load_ptr m p k = load_ptr m' p k.
Proof.
  intros (Hc & Hc' & HV & HC & Ho & Hb & Hl & Ha) Hp.
  destruct p as [|l o|d]; try reflexivity.
  destruct l; cbn [load_ptr buf_of]; try congruence.
  destruct Hp as [Ho0 Hp]. eapply agree_read; [exact Ha|exact Hp].
Qed.

Lemma rel_store a n m m' p bs :
  R a n m m' -> R a n (store_ptr p bs m) (store_ptr p bs m').
Proof.
  intros HR. destruct p as [|l o|d]; [exact HR| |exact HR].
  destruct HR as (Hc & Hc' & HV & HC & Ho & Hb & Hl & Ha).
  pose proof (agree_write a n _ _ (Z.to_nat o) bs Ha) as Hw.
  destruct l; unfold R, ctr_rel; cbn;
    repeat match goal with |- _ /\ _ => split end;
    try assumption; try congruence.
  now rewrite buf_write_length.
Qed.

Lemma keeps_load a n p k : ptr_avoids a n p k -> keeps a n (load p k).
Proof.
  intros Hp m m' HR. cbn. split; [now apply (rel_load a n)|exact HR].
Qed.

Lemma keeps_store a n p bs : keeps a n (store p bs).
Proof. intros m m' HR. cbn. split; [reflexivity|now apply rel_store]. Qed.

Lemma keeps_call a n op : keeps a n (call G op).
Proof.
  intros m m' HR. unfold call.
  destruct HR as (Hc & Hc' & HV & HC & Ho & Hb & Hl & Ha). rewrite Hb.
  destruct (backend G (be m) op) as [e b]. split; [reflexivity|].
  exact (conj Hc (conj Hc' (conj HV (conj HC (conj Ho
           (conj eq_refl (conj Hl Ha))))))).
Qed.

Lemma keeps_deref a n p : ptr_avoids a n p 1 -> keeps a n (deref p).
Proof.
  intros Hp. destruct p as [|l o|d]; cbn [deref].
  - apply sim_diverge.
  - eapply sim_bind; [now apply keeps_load|]. intros bs. now apply sim_ret.
  - eapply sim_bind; [now apply keeps_load|]. intros bs. now apply sim_ret.
Qed.

Lemma keeps_memset a n p v k : keeps a n (memset p v k).
Proof. apply keeps_store. Qed.

Lemma keeps_memcpy a n dst src k :
  ptr_avoids a n src k -> keeps a n (memcpy dst src k).
Proof.
  intros Hs. eapply sim_bind; [now apply keeps_load|]. intros bs.
  apply keeps_store.
Qed.

Lemma keeps_add_buf a n dst dstlen add addlen :
  ptr_avoids a n dst dstlen -> ptr_avoids a n add addlen ->
  keeps a n (add_buf dst dstlen add addlen).
Proof.
  intros Hd Ha. eapply sim_bind; [now apply keeps_load|]. intros d.
  eapply sim_bind; [now apply keeps_load|]. intros x. apply keeps_store.
Qed.

Lemma keeps_sym a n key outval b l nx :
  ptr_avoids a n key (to_ushort (statelen c - blocklen_bytes c)) ->
  ptr_avoids a n b l ->
  keeps a n (gcry_drbg_sym G key outval (drbg_string b l nx)).
Proof.
  intros Hk Hb. unfold gcry_drbg_sym.
  eapply sim_bind; [apply keeps_get_core|]. intros c0.
  apply sim_get. intros st st' Hc Hc'.
  unfold gcry_drbg_blocklen, gcry_drbg_keylen. rewrite Hc, Hc'.
  eapply sim_bind; [apply keeps_call|]. intros e.
  destruct (is_err e); [now apply sim_ret|].
  destruct (negb _); [now apply sim_ret|].
  destruct (blocklen_bytes c <? l); [now apply sim_ret|].
  eapply sim_bind; [now apply keeps_load|]. intros k.
  eapply sim_bind; [apply keeps_call|]. intros e'.
  destruct (is_err e'); [now apply sim_ret|].
  eapply sim_bind; [now apply keeps_load|]. intros input.
  eapply sim_bind; [apply keeps_store|]. intros ?. now apply sim_ret.
Qed.

Lemma to_size_t_small z : 0 <= z <= SIZE_MAX G -> to_size_t G z = z.
Proof.
  intros H. unfold to_size_t. apply Z.mod_small. unfold SIZE_MAX in H. lia.
Qed.

Lemma above_avoids a n p k cnt :
  ptr_above a n p -> 0 <= cnt -> ptr_avoids a n (ptr_add p cnt) k.
Proof.
  intros Hp Hc. destruct p as [|l o|d]; try exact I.
  destruct l; try exact I. destruct Hp as [Ho Ha].
  split; [lia|]. right. lia.
Qed.

Lemma above_add a n p cnt :
  ptr_above a n p -> 0 <= cnt -> ptr_above a n (ptr_add p cnt).
Proof.
  intros Hp Hc. destruct p as [|l o|d]; try exact I.
  destruct l; try exact I. destruct Hp as [Ho Ha]. split; lia.
Qed.

Lemma node_ok_avoids_1 a n p k :
  node_ok G a n p k -> ptr_avoids a n p 1.
Proof.
  intros H. destruct p as [|l o|d]; try exact I.
  destruct l; try exact I. destruct H as [Hk [Ho Hs]].
  split; [exact Ho|]. destruct Hs as [Hs|Hs]; [left|right]; lia.
Qed.

Lemma node_ok_step a n p k :
  node_ok G a n p k -> to_size_t G (k - 1) <> 0 ->
  node_ok G a n (ptr_add p 1) (to_size_t G (k - 1)).
Proof.
  intros H Hne. destruct p as [|l o|d]; try exact I.
  destruct l; try exact I. destruct H as [Hk [Ho Hs]].
  cbn [ptr_add node_ok].
  rewrite to_size_t_small in * by lia.
  split; [lia|]. split; [lia|].
  destruct Hs as [Hs|Hs]; [left|right]; lia.
Qed.

Lemma keeps_ctr_bcc_for a n : forall k cnt out_ curr pos inpos,
  0 <= cnt -> ptr_above a n out_ ->
  node_ok G a n pos inpos -> chain_ok G a n (string_next curr) ->
  sim (R a n) (fun v m m' => R a n m m' /\ walk_ok G a n v)
      (ctr_bcc_for G k cnt out_ curr pos inpos)
      (ctr_bcc_for G k cnt out_ curr pos inpos).
Proof.
  induction k as [|k IH]; intros cnt out_ curr pos inpos Hcnt Hout Hpos Hch;
    cbn [ctr_bcc_for].
  - apply sim_ret. intros m m' HR. split; [exact HR|]. right. now split.
  - eapply sim_bind; [apply keeps_deref; now apply above_avoids|]. intros o.
    eapply sim_bind;
      [apply keeps_deref; eapply node_ok_avoids_1; exact Hpos|]. intros p.
    eapply sim_bind; [apply keeps_store|]. intros ?.
    destruct (to_size_t G (inpos - 1) =? 0) eqn:E.
    + destruct curr as [|b0 l0 [|b l nx]].
      * apply sim_diverge.
      * apply sim_ret. intros m m' HR. split; [exact HR|]. now left.
      * cbn [string_next chain_ok] in Hch. destruct Hch as [Hn Hch].
        apply IH; try assumption. lia.
    + apply Z.eqb_neq in E. apply IH; try assumption; [lia|].
      now apply node_ok_step.
Qed.

Lemma keeps_ctr_bcc_while a n : forall fuel bl out_ key curr pos inpos,
  ptr_above a n out_ ->
  ptr_avoids a n key (to_ushort (statelen c - blocklen_bytes c)) ->
  walk_ok G a n (curr, pos, inpos) ->
  keeps a n (ctr_bcc_while G fuel bl out_ key
               (gcry_drbg_string_fill out_ bl) curr pos inpos).
Proof.
  induction fuel as [|fuel IH]; intros bl out_ key curr pos inpos Hout Hkey Hw;
    cbn [ctr_bcc_while].
  - destruct (inpos =? 0); [now apply sim_ret|apply sim_diverge].
  - destruct (inpos =? 0) eqn:E; [now apply sim_ret|].
    apply Z.eqb_neq in E. destruct Hw as [Hw|[Hpos Hch]]; [contradiction|].
    eapply sim_bind; [apply keeps_ctr_bcc_for; try assumption; lia|].
    intros [[curr' pos'] inpos'].
    apply sim_pre with (R := fun m m' => R a n m m'
                                         /\ walk_ok G a n (curr', pos', inpos'));
      [|intros m m' H; exact H].
    intros m m' [HR Hw']. revert m m' HR.
    change (keeps a n
              (r <- gcry_drbg_sym G key out_ (gcry_drbg_string_fill out_ bl) ;;
               if is_err r then ret r
               else ctr_bcc_while G fuel bl out_ key
                      (gcry_drbg_string_fill out_ bl) curr' pos' inpos')).
    eapply sim_bind.
    + apply keeps_sym; [exact Hkey|].
      replace out_ with (ptr_add out_ 0)
        by (destruct out_ as [|l o|d]; cbn; rewrite ?Z.add_0_r; reflexivity).
      apply above_avoids; [exact Hout|lia].
    + intros r. destruct (is_err r); [now apply sim_ret|].
      now apply IH.
Qed.

Lemma keeps_ctr_bcc a n out_ key in_ :
  ptr_above a n out_ ->
  ptr_avoids a n key (to_ushort (statelen c - blocklen_bytes c)) ->
  chain_ok G a n in_ ->
  keeps a n (gcry_drbg_ctr_bcc G out_ key in_).
Proof.
  intros Hout Hkey Hch. unfold gcry_drbg_ctr_bcc.
  destruct in_ as [|b l nx]; [apply sim_diverge|].
  apply sim_get. intros st st' Hc Hc'.
  unfold gcry_drbg_blocklen. rewrite Hc, Hc'.
  eapply sim_bind; [apply keeps_memset|]. intros ?.
  apply keeps_ctr_bcc_while; try assumption.
  right. exact Hch.
Qed.

(** *** The layout of the scratchpad of CTR DRBG *)

Hypothesis Hbl : 0 < blocklen_bytes c < 2 ^ 15.
Hypothesis Hsl : blocklen_bytes c <= statelen c < 2 ^ 16.

Let sl := statelen c.
Let bl := blocklen_bytes c.
Let kl := sl - bl.
Let a0 := Z.to_nat (sl + bl).
Let n0 := Z.to_nat sl.

Hypothesis Hslen : (Z.to_nat (sl + bl + sl + bl + bl + sl + bl) <= slen)%nat.

Lemma keylen_eq : to_ushort (statelen c - blocklen_bytes c) = kl.
Proof. unfold to_ushort, kl, sl, bl. apply Z.mod_small. lia. Qed.

Lemma SIZE_MAX_ge : 2 ^ 32 - 1 <= SIZE_MAX G.
Proof. unfold SIZE_MAX, size_bits. destruct (lp64 G); lia. Qed.

Lemma rel_weaken a n g m m' :
  R (a + g) (n - g) m m' -> (g <= n)%nat -> R a n m m'.
Proof.
  intros (Hc & Hc' & HV & HC & Ho & Hb & Hl & Ha) Hg.
  exact (conj Hc (conj Hc' (conj HV (conj HC (conj Ho (conj Hb
           (conj Hl (agree_weaken _ _ _ _ _ Ha Hg)))))))).
Qed.

Lemma rel_empty a a' n m m' : R a 0 m m' -> R a' n m m'.
Proof.
  intros (Hc & Hc' & HV & HC & Ho & Hb & Hl & Ha).
  refine (conj Hc (conj Hc' (conj HV (conj HC (conj Ho (conj Hb
            (conj Hl _))))))).
  pose proof (agree_eq _ _ _ Ha) as E. rewrite <- E. apply agree_refl.
Qed.

Lemma rel_shrink a n o bs m m' :
  R a n m m' -> Z.to_nat o = a -> (length bs <= n)%nat ->
  R (a + length bs) (n - length bs)
    (store_ptr (Mem LScratch o) bs m) (store_ptr (Mem LScratch o) bs m').
Proof.
  intros (Hc & Hc' & HV & HC & Ho & Hb & Hl & Ha) Hoa Hlen.
  unfold R, ctr_rel. cbn. rewrite Hoa.
  refine (conj Hc (conj Hc' (conj HV (conj HC (conj Ho (conj Hb
            (conj _ _))))))).
  - now rewrite buf_write_length.
  - now apply agree_write_shrink.
Qed.

Lemma rel_store_right a n o bs m m' :
  R a n m m' -> Z.to_nat o = a -> (length bs <= n)%nat ->
  R a n m (store_ptr (Mem LScratch o) bs m').
Proof.
  intros (Hc & Hc' & HV & HC & Ho & Hb & Hl & Ha) Hoa Hlen.
  unfold R, ctr_rel. cbn. rewrite Hoa.
  refine (conj Hc (conj Hc' (conj HV (conj HC (conj Ho (conj Hb
            (conj Hl _))))))).
  now apply agree_write_right.
Qed.

(** The copy of one block into [df_data]: the area where the runs may
    differ shrinks by the block. *)
Lemma sim_memcpy_shrink a n o so kz :
  Z.to_nat o = a -> span_avoids a n so kz ->
  (Z.to_nat so + Z.to_nat kz <= slen)%nat -> (Z.to_nat kz <= n)%nat ->
  sim (R a n) (fun _ => R (a + Z.to_nat kz) (n - Z.to_nat kz))
      (memcpy (Mem LScratch o) (Mem LScratch so) kz)
      (memcpy (Mem LScratch o) (Mem LScratch so) kz).
Proof.
  intros Hoa Hsp Hin Hk m m' HR.
  unfold memcpy, bind, load, store.
  rewrite <- (rel_load _ _ _ _ (Mem LScratch so) kz HR Hsp).
  split; [reflexivity|].
  assert (Hlen : length (load_ptr m (Mem LScratch so) kz) = Z.to_nat kz).
  { cbn [load_ptr buf_of]. apply buf_read_length.
    destruct HR as (_ & _ & _ & _ & _ & _ & Hl & _). lia. }
  rewrite <- Hlen at 1 2. apply rel_shrink; [exact HR|exact Hoa|lia].
Qed.

Lemma keeps_ctr_df_bcc_loop a n : forall fuel iv temp S1 i templen,
  ptr_above a n temp -> 0 <= templen -> chain_ok G a n S1 ->
  keeps a n (ctr_df_bcc_loop G fuel kl bl iv temp S1 i templen).
Proof.
  induction fuel as [|fuel IH]; intros iv temp S1 i templen Ht Hl Hch;
    cbn [ctr_df_bcc_loop].
  - destruct (templen <? kl + bl); [apply sim_diverge|now apply sim_ret].
  - destruct (templen <? kl + bl); [|now apply sim_ret].
    eapply sim_bind; [apply keeps_store|]. intros ?.
    eapply sim_bind.
    + apply keeps_ctr_bcc; [now apply above_add|exact I|exact Hch].
    + intros r. destruct (is_err r); [now apply sim_ret|].
      apply IH; try assumption. unfold bl. lia.
Qed.

Lemma sim_ctr_df_out_loop (tmpo : Z) : forall fuel gl,
  0 <= tmpo -> (a0 + n0 <= Z.to_nat tmpo)%nat ->
  (Z.to_nat (tmpo + kl + bl) <= slen)%nat ->
  0 <= gl <= sl ->
  sim (R (a0 + Z.to_nat gl) (n0 - Z.to_nat gl))
      (fun r m m' => if is_err r then R a0 n0 m m' else R a0 0 m m')
      (ctr_df_out_loop G fuel bl (Mem LScratch (sl + bl)) (Mem LScratch tmpo)
         (Mem LScratch (tmpo + kl))
         (gcry_drbg_string_fill (Mem LScratch (tmpo + kl)) bl) sl gl)
      (ctr_df_out_loop G fuel bl (Mem LScratch (sl + bl)) (Mem LScratch tmpo)
         (Mem LScratch (tmpo + kl))
         (gcry_drbg_string_fill (Mem LScratch (tmpo + kl)) bl) sl gl).
Proof.
  assert (Hkl : 0 <= kl) by (unfold kl, sl, bl; lia).
  assert (Hbl0 : 0 < bl < 2 ^ 15) by exact Hbl.
  assert (Hsl0 : 0 <= sl) by (unfold sl, bl in *; lia).
  induction fuel as [|fuel IH]; intros gl Ht Habove Hin Hgl;
    cbn [ctr_df_out_loop].
  - destruct (gl <? sl) eqn:E; [apply sim_diverge|].
    apply Z.ltb_ge in E. apply sim_ret. intros m m' HR. cbn.
    apply rel_empty with (a := (a0 + Z.to_nat gl)%nat).
    replace (n0 - Z.to_nat gl)%nat with 0%nat in HR by (unfold n0; lia).
    exact HR.
  - destruct (gl <? sl) eqn:E.
    2:{ apply Z.ltb_ge in E. apply sim_ret. intros m m' HR. cbn.
        apply rel_empty with (a := (a0 + Z.to_nat gl)%nat).
        replace (n0 - Z.to_nat gl)%nat with 0%nat in HR by (unfold n0; lia).
        exact HR. }
    apply Z.ltb_lt in E.
    eapply sim_bind.
    + apply keeps_sym.
      * rewrite keylen_eq. split; [exact Ht|]. right. unfold n0. lia.
      * split; [lia|]. right. unfold n0. lia.
    + intros r. destruct (is_err r) eqn:Er.
      * apply sim_ret. intros m m' HR. rewrite Er.
        apply rel_weaken with (g := Z.to_nat gl); [exact HR|unfold n0; lia].
      * set (kz := to_short (if bl <? sl - gl then bl else sl - gl)).
        assert (Hkz : 0 < kz <= bl /\ kz <= sl - gl).
        { unfold kz, to_short. destruct (Z.ltb_spec bl (sl - gl));
            rewrite Z.mod_small; lia. }
        cbn [ptr_add].
        eapply sim_bind.
        -- apply sim_memcpy_shrink.
           ++ unfold a0. lia.
           ++ split; [lia|]. right. unfold n0. lia.
           ++ lia.
           ++ unfold n0. lia.
        -- intros ?.
           replace (a0 + Z.to_nat gl + Z.to_nat kz)%nat
             with (a0 + Z.to_nat (gl + kz))%nat by lia.
           replace (n0 - Z.to_nat gl - Z.to_nat kz)%nat
             with (n0 - Z.to_nat (gl + kz))%nat by lia.
           apply IH; try assumption. lia.
Qed.

Lemma chain_ok_splice a n s s4 :
  chain_ok G a n s -> chain_ok G a n s4 -> chain_ok G a n (splice s s4).
Proof.
  intros Hs H4. induction s as [|b l nx IH]; [exact I|].
  destruct Hs as [Hn Hs]. destruct nx as [|b' l' nx'].
  - cbn. now split.
  - change (splice (drbg_string b l (drbg_string b' l' nx')) s4)
      with (drbg_string b l (splice (drbg_string b' l' nx') s4)).
    split; [exact Hn|now apply IH].
Qed.

Lemma sim_ctr_df addtl :
  chain_ok G a0 n0 addtl ->
  sim (R a0 n0)
      (fun v m m' => if is_err (fst v) then R a0 n0 m m' else R a0 0 m m')
      (gcry_drbg_ctr_df G (Mem LScratch (sl + bl)) sl addtl)
      (gcry_drbg_ctr_df G (Mem LScratch (sl + bl)) sl addtl).
Proof.
  intros Hch.
  assert (Hkl : 0 <= kl) by (unfold kl, sl, bl; lia).
  assert (Hbl0 : 0 < bl < 2 ^ 15) by exact Hbl.
  assert (Hsl0 : 0 <= sl) by (unfold sl, bl in *; lia).
  unfold gcry_drbg_ctr_df. apply sim_get. intros st st' Hc Hc'.
  unfold gcry_drbg_statelen, gcry_drbg_blocklen, gcry_drbg_keylen.
  rewrite Hc, Hc', keylen_eq. fold sl. fold bl. cbn [ptr_add].
  eapply sim_bind; [apply keeps_memset|]. intros ?.
  eapply sim_bind; [apply keeps_memset|]. intros ?.
  eapply sim_bind; [apply keeps_memset|]. intros ?.
  destruct (512 / 8 <? sl); [now apply sim_ret|].
  destruct (bl =? 0); [apply sim_diverge|].
  eapply sim_bind; [apply keeps_store|]. intros ?.
  set (inputlen := to_size_t G (chain_len addtl)).
  set (p0 := to_size_t G (inputlen + 8 + 1) mod bl).
  set (padlen := (if negb (p0 =? 0) then bl - p0 else p0) + 1).
  set (L_N := gcry_drbg_cpu_to_be32 inputlen ++ gcry_drbg_cpu_to_be32 sl).
  assert (Hpad : 0 < padlen <= bl).
  { pose proof (Z.mod_pos_bound (to_size_t G (inputlen + 8 + 1)) bl
                                ltac:(lia)) as Hm.
    fold p0 in Hm. unfold padlen.
    destruct (p0 =? 0) eqn:E0; cbn [negb].
    - apply Z.eqb_eq in E0. lia.
    - apply Z.eqb_neq in E0. lia. }
  destruct addtl as [|b l nx]; [apply sim_diverge|].
  set (addtl' := splice (drbg_string b l nx)
                        (gcry_drbg_string_fill (Mem LScratch (sl + bl + sl))
                                               padlen)).
  eapply sim_bind.
  - apply keeps_ctr_df_bcc_loop.
    + split; [lia|]. unfold a0, n0. lia.
    + lia.
    + pose proof SIZE_MAX_ge as HS.
      split; [|split; [exact I|]].
      * split; [lia|]. split; [lia|]. right. unfold a0, n0. lia.
      * apply chain_ok_splice; [exact Hch|].
        split; [|exact I].
        split; [lia|]. split; [lia|]. right. unfold a0, n0. lia.
  - intros r.
    eapply sim_bind
      with (Q := fun r m m' => if is_err r then R a0 n0 m m' else R a0 0 m m').
    + destruct (is_err r) eqn:Er.
      * apply sim_ret. intros m m' HR. now rewrite Er.
      * eapply sim_pre.
        -- apply (sim_ctr_df_out_loop (sl + bl + sl + bl + bl)
                                      (Z.to_nat sl) 0).
           ++ lia.
           ++ unfold a0, n0. lia.
           ++ unfold kl. lia.
           ++ lia.
        -- intros m m' HR. cbn [Z.to_nat].
           now rewrite Nat.add_0_r, Nat.sub_0_r.
    + intros r2. destruct (is_err r2) eqn:Er2.
      * eapply sim_bind; [apply keeps_memset|]. intros ?.
        eapply sim_bind; [apply keeps_memset|]. intros ?.
        eapply sim_bind; [apply keeps_memset|]. intros ?.
        apply sim_ret. intros m m' HR. cbn [fst]. now rewrite Er2.
      * eapply sim_bind; [apply keeps_memset|]. intros ?.
        eapply sim_bind; [apply keeps_memset|]. intros ?.
        eapply sim_bind; [apply keeps_memset|]. intros ?.
        apply sim_ret. intros m m' HR. cbn [fst]. now rewrite Er2.
Qed.

Lemma keeps_ctr_update_loop a n : forall fuel temp len,
  keeps a n (ctr_update_loop G fuel sl bl temp
               (gcry_drbg_string_fill (Mem LV 0) bl) len).
Proof.
  induction fuel as [|fuel IH]; intros temp len; cbn [ctr_update_loop].
  - destruct (len <? sl); [apply sim_diverge|now apply sim_ret].
  - destruct (len <? sl); [|now apply sim_ret].
    eapply sim_bind; [apply keeps_add_buf; exact I|]. intros ?.
    eapply sim_bind; [apply keeps_sym; exact I|]. intros r.
    destruct (is_err r); [now apply sim_ret|]. apply IH.
Qed.

Lemma keeps_ctr_generate_loop a n : forall fuel buf buflen len,
  (Z.to_nat bl <= a)%nat ->
  keeps a n (ctr_generate_loop G fuel bl buf buflen
               (gcry_drbg_string_fill (Mem LV 0) bl) len).
Proof.
  induction fuel as [|fuel IH]; intros buf buflen len Ha;
    cbn [ctr_generate_loop].
  - destruct (len <? buflen); [apply sim_diverge|now apply sim_ret].
  - destruct (len <? buflen); [|now apply sim_ret].
    eapply sim_bind; [apply keeps_sym; exact I|]. intros r.
    destruct (is_err r); [now apply sim_ret|].
    eapply sim_bind.
    + apply keeps_memcpy. split; [lia|]. left.
      destruct (bl <? buflen - len) eqn:E; [lia|].
      apply Z.ltb_ge in E. lia.
    + intros ?. eapply sim_bind.
      * destruct (_ <? buflen); [apply keeps_add_buf; exact I|now apply sim_ret].
      * intros ?. now apply IH.
Qed.

(** The two places where the flag of [gcry_drbg_ctr_update] is looked
    at: one run clears [df_data] or not, the other one does. *)
Lemma sim_flag_memset (clear : bool) :
  sim (R a0 n0) (fun _ => R a0 n0)
      (if clear then memset (Mem LScratch (sl + bl)) 0 sl else ret tt)
      (memset (Mem LScratch (sl + bl)) 0 sl).
Proof.
  destruct clear; [apply keeps_memset|].
  intros m m' HR. unfold memset, store, ret. cbv beta iota.
  split; [reflexivity|].
  apply rel_store_right; [exact HR|reflexivity|].
  rewrite repeat_length. apply Nat.le_refl.
Qed.

(** [gcry_drbg_ctr_update] with any flag next to the call with flag 1,
    for an additional input that has bytes: the derivation function
    overwrites [df_data] in both runs. *)
Lemma sim_ctr_update_flag f b l nx :
  0 < l -> chain_ok G a0 n0 (drbg_string b l nx) ->
  sim (R a0 n0) (fun _ => R a0 n0)
      (gcry_drbg_ctr_update G (drbg_string b l nx) f)
      (gcry_drbg_ctr_update G (drbg_string b l nx) 1).
Proof.
  intros Hl Hch.
  assert (Hkl : 0 <= kl) by (unfold kl, sl, bl; lia).
  assert (Hbl0 : 0 < bl < 2 ^ 15) by exact Hbl.
  assert (Hsl0 : 0 <= sl) by (unfold sl, bl in *; lia).
  unfold gcry_drbg_ctr_update. apply sim_get. intros st st' Hc Hc'.
  unfold gcry_drbg_statelen, gcry_drbg_blocklen, gcry_drbg_keylen.
  rewrite Hc, Hc', keylen_eq. fold sl. fold bl.
  change (1 <? 3) with true. change (negb (1 =? 2)) with true. cbv iota.
  assert (E : (0 <? l) = true) by (apply Z.ltb_lt; lia). rewrite E.
  eapply sim_bind; [apply keeps_memset|]. intros ?.
  eapply sim_bind; [apply sim_flag_memset|]. intros ?.
  eapply sim_bind; [apply sim_ctr_df; exact Hch|]. intros [r a'].
  cbn [fst]. destruct (is_err r) eqn:Er.
  - eapply sim_bind; [apply sim_ret; intros m m' HR; exact HR|]. intros r'.
    eapply sim_bind; [apply keeps_memset|]. intros ?.
    eapply sim_bind; [apply sim_flag_memset|]. intros ?.
    now apply sim_ret.
  - eapply sim_bind with (Q := fun _ => R a0 0).
    + eapply sim_bind; [apply keeps_ctr_update_loop|]. intros r1.
      destruct (is_err r1); [now apply sim_ret|].
      eapply sim_bind.
      { apply keeps_load. split; [lia|]. left. unfold a0. lia. }
      intros t. eapply sim_bind.
      { apply keeps_load. split; [lia|]. right. unfold a0. lia. }
      intros d. eapply sim_bind; [apply keeps_store|]. intros ?.
      eapply sim_bind.
      { apply keeps_memcpy. split; [lia|]. left. unfold a0, kl. lia. }
      intros ?. eapply sim_bind.
      { apply keeps_memcpy. cbn [ptr_add]. split; [lia|]. left.
        unfold a0, kl. lia. }
      intros ?. now apply sim_ret.
    + intros r'. eapply sim_pre with (R := R a0 n0).
      * eapply sim_bind; [apply keeps_memset|]. intros ?.
        eapply sim_bind; [apply sim_flag_memset|]. intros ?.
        now apply sim_ret.
      * intros m m' HR. exact (rel_empty _ _ _ _ _ HR).
Qed.

Lemma sim_bind_returns {A B} (P : mach env -> mach env -> Prop)
      (Q : A -> mach env -> mach env -> Prop)
      (T : B -> mach env -> mach env -> Prop) (W : A -> Prop)
      (x y : M env A) (f g : A -> M env B) :
  sim P Q x y -> returns W x ->
  (forall a, W a -> sim (Q a) T (f a) (g a)) ->
  sim P T (bind x f) (bind y g).
Proof.
  intros Hx Hw Hf m m' HR. specialize (Hx m m' HR). unfold bind.
  destruct (x m) as [[a m1]|] eqn:E, (y m') as [[a' m1']|];
    try contradiction; [|exact I].
  destruct Hx as [<- HQ]. apply (Hf a (Hw _ _ _ E)). exact HQ.
Qed.

Lemma returns_bind_post {A B} (W : A -> Prop) (Q : B -> Prop)
      (x : M env A) (f : A -> M env B) :
  returns W x -> (forall a, W a -> returns Q (f a)) -> returns Q (bind x f).
Proof.
  intros Hx Hf m v m' E. unfold bind in E.
  destruct (x m) as [[a m1]|] eqn:Ex; [|discriminate].
  exact (Hf a (Hx _ _ _ Ex) _ _ _ E).
Qed.

(** The chain the derivation function hands back starts with the node
    of the caller. *)
Lemma returns_ctr_df_head df n b l nx :
  returns (fun v => exists nx', snd v = drbg_string b l nx')
          (gcry_drbg_ctr_df G df n (drbg_string b l nx)).
Proof.
  unfold gcry_drbg_ctr_df. apply returns_bind. intros st.
  do 3 (apply returns_bind; intros ?).
  destruct (_ <? n); [apply returns_ret; cbn; eauto|].
  destruct (_ =? 0); [apply returns_diverge|].
  do 3 (apply returns_bind; intros ?).
  do 3 (apply returns_bind; intros ?).
  apply returns_ret. cbn [snd]. destruct nx; cbn; eauto.
Qed.

Lemma returns_ctr_update_head f b l nx :
  returns (fun v => exists nx', snd v = drbg_string b l nx')
          (gcry_drbg_ctr_update G (drbg_string b l nx) f).
Proof.
  unfold gcry_drbg_ctr_update. apply returns_bind. intros st.
  do 2 (apply returns_bind; intros ?).
  eapply returns_bind_post.
  - destruct (0 <? l); [apply returns_ctr_df_head|].
    apply returns_ret. cbn. eauto.
  - intros [r a'] [nx' E]. cbn in E. subst a'.
    do 3 (apply returns_bind; intros ?).
    apply returns_ret. cbn. eauto.
Qed.

(** The generate function next to the scheme that calls update with
    flag 1 both times, for an additional input that has bytes. *)
Lemma sim_ctr_generate buf buflen b l nx :
  0 < l -> node_ok G a0 n0 b l ->
  sim (R a0 n0) (fun _ => R a0 n0)
      (gcry_drbg_ctr_generate G buf buflen (drbg_string b l nx))
      (ctr_generate_unoptimized G buf buflen (drbg_string b l nx)).
Proof.
  intros Hl Hb.
  assert (Hbl0 : 0 < bl < 2 ^ 15) by exact Hbl.
  assert (Hsl0 : 0 <= sl) by (unfold sl, bl in *; lia).
  assert (Hch : chain_ok G a0 n0 (drbg_string b l NoString))
    by exact (conj Hb I).
  unfold gcry_drbg_ctr_generate, ctr_generate_unoptimized.
  apply sim_get. intros st st' Hc Hc'.
  unfold gcry_drbg_blocklen. rewrite Hc, Hc'. fold bl.
  eapply sim_bind; [apply keeps_memset|]. intros ?.
  assert (E : has_bytes (drbg_string b l nx) = true)
    by (apply Z.ltb_lt; lia).
  rewrite E. cbn [set_next].
  eapply sim_bind_returns.
  - apply sim_ctr_update_flag; [exact Hl|exact Hch].
  - apply returns_ctr_update_head.
  - intros [r a'] [nx' Ea]. cbn in Ea. subst a'. cbn [set_next].
    destruct (is_err r); [now apply sim_ret|].
    eapply sim_bind; [apply keeps_add_buf; exact I|]. intros ?.
    eapply sim_bind.
    { apply keeps_ctr_generate_loop. unfold a0. lia. }
    intros r1. destruct (is_err r1).
    + eapply sim_bind; [apply keeps_memset|]. intros ?. now apply sim_ret.
    + eapply sim_bind.
      { apply sim_ctr_update_flag; [exact Hl|exact Hch]. }
      intros [r2 a2].
      eapply sim_bind; [apply keeps_memset|]. intros ?. now apply sim_ret.
Qed.

End Sim.

(** ** One run of the CTR generate function: [df_data] stays clear *)

Section Clear.

Context {env : Type} (G : platform env).

Variable c : gcry_drbg_core.

Hypothesis Hbl : 0 < blocklen_bytes c < 2 ^ 15.
Hypothesis Hsl : blocklen_bytes c <= statelen c < 2 ^ 16.

Let sl := statelen c.
Let bl := blocklen_bytes c.
Let Inv := ctr_inv (env := env) c.

Lemma holds_ret {A} (a : A) : holds Inv (ret a).
Proof. intros m v m' H E. injection E as _ <-. exact H. Qed.

Lemma holds_diverge {A} : holds Inv (diverge (A := A)).
Proof. intros m v m' H E. discriminate. Qed.

Lemma holds_bind {A B} (x : M env A) (f : A -> M env B) :
  holds Inv x -> (forall a, holds Inv (f a)) -> holds Inv (bind x f).
Proof.
  intros Hx Hf m v m' H E. unfold bind in E.
  destruct (x m) as [[a m1]|] eqn:Ex; [|discriminate].
  exact (Hf a m1 v m' (Hx m a m1 H Ex) E).
Qed.

Lemma holds_get {A} (f : gcry_drbg_state -> M env A) :
  (forall st, core st = Some c -> holds Inv (f st)) ->
  holds Inv (bind get_drbg f).
Proof.
  intros Hf m v m' H E. rewrite bind_get in E.
  exact (Hf (drbg m) (proj1 H) m v m' H E).
Qed.

Lemma holds_get_core : holds Inv get_core.
Proof.
  intros m v m' H E. unfold get_core in E. rewrite bind_get in E.
  destruct (core (drbg m)); [|discriminate]. injection E as _ <-. exact H.
Qed.

Lemma holds_load p k : holds Inv (load p k).
Proof. intros m v m' H E. injection E as _ <-. exact H. Qed.

(** What a load delivers is no longer than what was asked for. *)
Lemma holds_bind_load {B} p k (f : list Z -> M env B) :
  (forall bs, (length bs <= Z.to_nat k)%nat -> holds Inv (f bs)) ->
  holds Inv (bind (load p k) f).
Proof.
  intros Hf m v m' H E. unfold bind, load in E.
  refine (Hf (load_ptr m p k) _ m v m' H E).
  destruct p as [|l o|d]; cbn [load_ptr]; unfold buf_read;
    rewrite ?length_firstn; cbn [length]; lia.
Qed.

Lemma holds_call op : holds Inv (call G op).
Proof.
  intros m v m' H E. unfold call in E.
  destruct (backend G (be m) op) as [e b]. injection E as _ <-. exact H.
Qed.

Lemma inv_store_free p bs m : ptr_free p -> Inv m -> Inv (store_ptr p bs m).
Proof.
  intros Hp H. destruct p as [|l o|d]; try exact H.
  destruct l; try exact H. contradiction.
Qed.

(** A store into the [temp] area in front of [df_data]. *)
Lemma inv_store_low o bs m :
  (Z.to_nat o + length bs <= Z.to_nat (sl + bl))%nat ->
  Inv m -> Inv (store_ptr (Mem LScratch o) bs m).
Proof.
  intros Hlow [Hc Hz]. split; [exact Hc|].
  intros i Hi. cbn. rewrite nth_buf_write_out.
  - now apply Hz.
  - fold sl bl in Hi. lia.
Qed.

Lemma holds_store_free p bs : ptr_free p -> holds Inv (store p bs).
Proof.
  intros Hp m v m' H E. injection E as _ <-. now apply inv_store_free.
Qed.

Lemma holds_store_low o bs :
  (Z.to_nat o + length bs <= Z.to_nat (sl + bl))%nat ->
  holds Inv (store (Mem LScratch o) bs).
Proof.
  intros Hlow m v m' H E. injection E as _ <-. now apply inv_store_low.
Qed.

Lemma holds_add_buf dst dstlen add addlen :
  ptr_free dst -> holds Inv (add_buf dst dstlen add addlen).
Proof.
  intros Hd. apply holds_bind; [apply holds_load|]. intros d.
  apply holds_bind; [apply holds_load|]. intros a.
  now apply holds_store_free.
Qed.

Lemma ptr_free_add p k : ptr_free p -> ptr_free (ptr_add p k).
Proof. destruct p as [|l o|d]; [easy| |easy]. now destruct l. Qed.

(** One block of the cipher, written into the [temp] area. *)
Lemma holds_sym_low key o buf :
  (Z.to_nat o + Z.to_nat bl <= Z.to_nat (sl + bl))%nat ->
  holds Inv (gcry_drbg_sym G key (Mem LScratch o) buf).
Proof.
  intros Ho. unfold gcry_drbg_sym.
  apply holds_bind; [apply holds_get_core|]. intros c0.
  apply holds_get. intros st Hc.
  unfold gcry_drbg_blocklen, gcry_drbg_keylen. rewrite Hc.
  apply holds_bind; [apply holds_call|]. intros e.
  destruct (is_err e); [apply holds_ret|].
  destruct (negb _); [apply holds_ret|].
  destruct buf as [|b l nx]; [apply holds_diverge|].
  destruct (blocklen_bytes c <? l); [apply holds_ret|].
  apply holds_bind; [apply holds_load|]. intros k.
  apply holds_bind; [apply holds_call|]. intros e'.
  destruct (is_err e'); [apply holds_ret|].
  apply holds_bind; [apply holds_load|]. intros input.
  apply holds_bind; [|intros ?; apply holds_ret].
  apply holds_store_low. rewrite length_firstn. fold bl. lia.
Qed.

Lemma holds_ctr_generate_loop buf buflen data : forall fuel len,
  ptr_free buf ->
  holds Inv (ctr_generate_loop G fuel bl buf buflen data len).
Proof.
  induction fuel as [|fuel IH]; intros len Hb; cbn [ctr_generate_loop].
  - destruct (len <? buflen); [apply holds_diverge|apply holds_ret].
  - destruct (len <? buflen); [|apply holds_ret].
    apply holds_bind; [apply holds_sym_low; unfold sl, bl; lia|]. intros r.
    destruct (is_err r); [apply holds_ret|].
    apply holds_bind.
    { apply holds_bind; [apply holds_load|]. intros bs.
      apply holds_store_free. now apply ptr_free_add. }
    intros ?. apply holds_bind.
    + destruct (_ <? buflen); [now apply holds_add_buf|apply holds_ret].
    + intros ?. now apply IH.
Qed.

(** Clearing a clear [df_data] changes nothing. *)
Lemma store_clear_id (m : mach env) :
  Inv m ->
  store_ptr (Mem LScratch (sl + bl)) (repeat 0 (Z.to_nat sl)) m = m.
Proof.
  intros [Hc Hz]. unfold store_ptr, set_buf, buf_of.
  assert (E : buf_write (scratchpad (drbg m)) (Z.to_nat (sl + bl))
                        (repeat 0 (Z.to_nat sl)) = scratchpad (drbg m)).
  { apply nth_ext with (d := 0) (d' := 0); [apply buf_write_length|].
    intros i Hi. rewrite buf_write_length in Hi.
    destruct (Nat.le_gt_cases (Z.to_nat (sl + bl)) i) as [Hlo|Hlo];
      [destruct (Nat.lt_ge_cases i (Z.to_nat (sl + bl) + Z.to_nat sl))
        as [Hhi|Hhi]|].
    - rewrite nth_buf_write_in by (rewrite ?repeat_length; lia).
      rewrite nth_repeat. symmetry. apply Hz. fold sl bl. lia.
    - apply nth_buf_write_out. rewrite repeat_length. lia.
    - apply nth_buf_write_out. lia. }
  rewrite E. destruct m as [[] ? ?]. reflexivity.
Qed.

Lemma bind_ret {A B} (a : A) (f : A -> M env B) (m : mach env) :
  bind (ret a) f m = f a m.
Proof. reflexivity. Qed.

Lemma bind_cong_holds {A B} (x : M env A) (f g : A -> M env B) m :
  Inv m -> holds Inv x ->
  (forall a m1, Inv m1 -> f a m1 = g a m1) ->
  bind x f m = bind x g m.
Proof.
  intros H Hx Hfg. unfold bind.
  destruct (x m) as [[a m1]|] eqn:E; [|reflexivity].
  apply Hfg. exact (Hx m a m1 H E).
Qed.

Lemma holds_memset_df : holds Inv (memset (Mem LScratch (sl + bl)) 0 sl).
Proof.
  intros m v m' H E. rewrite memset_eq, store_clear_id in E by exact H.
  injection E as _ <-. exact H.
Qed.

Lemma bind_flag_clear {B} (clear : bool) (k : unit -> M env B) m :
  Inv m ->
  bind (if clear then memset (Mem LScratch (sl + bl)) 0 sl else ret tt) k m
  = bind (memset (Mem LScratch (sl + bl)) 0 sl) k m.
Proof.
  intros H. destruct clear; [reflexivity|].
  unfold bind at 2. now rewrite memset_eq, store_clear_id.
Qed.

Lemma xor_bytes_length : forall a b,
  (length (xor_bytes a b) <= length a)%nat.
Proof.
  induction a as [|x a IH]; intros b; [apply Nat.le_refl|].
  destruct b as [|y b]; cbn; [lia|]. specialize (IH b). lia.
Qed.

Lemma holds_ctr_update_loop cipherin : forall fuel len,
  0 <= len ->
  holds Inv (ctr_update_loop G fuel sl bl (Mem LScratch 0) cipherin len).
Proof.
  induction fuel as [|fuel IH]; intros len Hlen; cbn [ctr_update_loop].
  - destruct (len <? sl); [apply holds_diverge|apply holds_ret].
  - destruct (len <? sl) eqn:E; [|apply holds_ret].
    apply Z.ltb_lt in E.
    apply holds_bind; [now apply holds_add_buf|]. intros ?.
    apply holds_bind.
    { cbn [ptr_add]. apply holds_sym_low. unfold sl, bl in *. lia. }
    intros r. destruct (is_err r); [apply holds_ret|].
    apply IH. unfold bl. lia.
Qed.

(** Without additional input the derivation function is not run, and
    on a clear [df_data] the flag makes no difference. *)
Lemma ctr_update_flag_clear f addtl (m : mach env) :
  Inv m -> has_bytes addtl = false ->
  gcry_drbg_ctr_update G addtl f m = gcry_drbg_ctr_update G addtl 1 m.
Proof.
  intros H Hno. unfold gcry_drbg_ctr_update. rewrite !bind_get.
  unfold gcry_drbg_statelen, gcry_drbg_blocklen, gcry_drbg_keylen.
  rewrite (proj1 H). fold sl. fold bl.
  change (1 <? 3) with true. change (negb (1 =? 2)) with true. cbv iota.
  assert (Htemp : holds Inv (memset (Mem LScratch 0) 0 (sl + bl))).
  { apply holds_store_low. rewrite repeat_length. lia. }
  apply bind_cong_holds; [exact H|exact Htemp|].
  intros ? m1 H1. rewrite bind_flag_clear by exact H1.
  apply bind_cong_holds; [exact H1|apply holds_memset_df|].
  intros ? m2 H2.
  apply bind_cong_holds; [exact H2| |].
  { destruct addtl as [|b l nx]; [apply holds_ret|].
    cbn in Hno. rewrite Hno. apply holds_ret. }
  intros [r a'] m3 H3.
  apply bind_cong_holds; [exact H3| |].
  { destruct (is_err r); [apply holds_ret|].
    apply holds_bind; [apply holds_ctr_update_loop; lia|]. intros r1.
    destruct (is_err r1); [apply holds_ret|].
    apply holds_bind_load. intros t Ht.
    apply holds_bind; [apply holds_load|]. intros d.
    apply holds_bind.
    { apply holds_store_low. pose proof (xor_bytes_length t d). lia. }
    intros ?. apply holds_bind.
    { apply holds_bind; [apply holds_load|]. intros bs.
      now apply holds_store_free. }
    intros ?. apply holds_bind; [|intros ?; apply holds_ret].
    apply holds_bind; [apply holds_load|]. intros bs.
    now apply holds_store_free. }
  intros r' m4 H4.
  apply bind_cong_holds; [exact H4|exact Htemp|].
  intros ? m5 H5. now rewrite bind_flag_clear.
Qed.

(** Without additional input both schemes skip the first update, and
    the update after the loop finds [df_data] clear. *)
Lemma ctr_generate_clear buf buflen addtl (m : mach env) :
  Inv m -> ptr_free buf -> has_bytes addtl = false ->
  gcry_drbg_ctr_generate G buf buflen addtl m
  = ctr_generate_unoptimized G buf buflen addtl m.
Proof.
  intros H Hb Hno. unfold gcry_drbg_ctr_generate, ctr_generate_unoptimized.
  rewrite !bind_get. unfold gcry_drbg_blocklen. rewrite (proj1 H).
  fold bl. rewrite Hno.
  assert (Htemp : holds Inv (memset (Mem LScratch 0) 0 bl)).
  { apply holds_store_low. rewrite repeat_length. unfold sl, bl. lia. }
  apply bind_cong_holds; [exact H|exact Htemp|].
  intros ? m1 H1.
  rewrite !bind_ret. cbv beta iota. change (is_err 0) with false. cbv iota.
  apply bind_cong_holds; [exact H1|now apply holds_add_buf|].
  intros ? m3 H3.
  apply bind_cong_holds;
    [exact H3|now apply holds_ctr_generate_loop|].
  intros r1 m4 H4. destruct (is_err r1); [reflexivity|].
  apply bind_ext; [|reflexivity].
  apply ctr_update_flag_clear; [exact H4|].
  destruct addtl as [|b l nx]; [reflexivity|exact Hno].
Qed.

End Clear.

(** ** The flag of [gcry_drbg_ctr_update] in the generate function *)

Section CtrFlags.

Context {env : Type} (G : platform env).

Lemma rel2_refl {A} (T : mach env -> mach env -> Prop)
      (o : option (A * mach env)) :
  (forall m, T m m) -> rel2 T o o.
Proof. intros HT. destruct o as [[v m]|]; cbn; [now split|exact I]. Qed.

Lemma same_key_state_refl (m : mach env) : same_key_state m m.
Proof. repeat split. Qed.

Lemma ctr_rel_same_key_state c slen a n (m1 m2 : mach env) :
  ctr_rel c slen a n m1 m2 -> same_key_state m1 m2.
Proof.
  intros (_ & _ & HV & HC & Ho & Hb & _). exact (conj HV (conj HC (conj Ho Hb))).
Qed.

Lemma ptr_free_node_ok a n p k : ptr_free p -> node_ok G a n p k.
Proof. destruct p as [|l o|d]; [easy| |easy]. now destruct l. Qed.

(** C5 (as the code has it).  For an instance of the CTR DRBG as
    [gcry_drbg_instantiate] lays it out, and a call whose additional
    input has bytes, or whose [df_data] area of the scratchpad is clear,
    the generate function, which calls update with the flags 2 and 3,
    and the scheme that calls update with flag 1 both times agree: both
    fail to return, or both return, with the same code and chain, the
    same key [C] and value [V], the same output and the same backend. *)
Theorem gcry_drbg_ctr_generate_flags_equiv (c : gcry_drbg_core)
        buf buflen addtl (m : mach env) :
  core (drbg m) = Some c ->
  0 < blocklen_bytes c < 2 ^ 15 ->
  blocklen_bytes c <= statelen c < 2 ^ 16 ->
  (Z.to_nat (statelen c + blocklen_bytes c + statelen c + blocklen_bytes c
             + blocklen_bytes c + statelen c + blocklen_bytes c)
   <= length (scratchpad (drbg m)))%nat ->
  ptr_free buf -> addtl_free addtl ->
  has_bytes addtl = true \/ df_data_clear c m ->
  rel2 same_key_state
       (gcry_drbg_ctr_generate G buf buflen addtl m)
       (ctr_generate_unoptimized G buf buflen addtl m).
Proof.
  intros Hc Hb Hs Hlen Hbuf Hfree Hcase.
  destruct (has_bytes addtl) eqn:Hhas.
  - destruct addtl as [|b l nx]; [discriminate|].
    apply Z.ltb_lt in Hhas.
    assert (HR : ctr_rel c (length (scratchpad (drbg m)))
                   (Z.to_nat (statelen c + blocklen_bytes c))
                   (Z.to_nat (statelen c)) m m).
    { refine (conj Hc (conj Hc (conj eq_refl (conj eq_refl (conj eq_refl
                (conj eq_refl (conj eq_refl _))))))).
      apply agree_refl. }
    pose proof (sim_ctr_generate G c _ Hb Hs Hlen buf buflen b l nx Hhas
                  (ptr_free_node_ok _ _ b l Hfree) m m HR) as Hsim.
    unfold rel2.
    destruct (gcry_drbg_ctr_generate G buf buflen (drbg_string b l nx) m)
      as [[v m1]|],
      (ctr_generate_unoptimized G buf buflen (drbg_string b l nx) m)
      as [[v' m2]|]; try exact Hsim.
    destruct Hsim as [Ev HR']. split; [exact Ev|].
    exact (ctr_rel_same_key_state _ _ _ _ _ _ HR').
  - destruct Hcase as [Habs|Hclear]; [discriminate|].
    rewrite (ctr_generate_clear G c Hb Hs buf buflen addtl m
               (conj Hc Hclear) Hbuf Hhas).
    apply rel2_refl. apply same_key_state_refl.
Qed.

End CtrFlags.

(** C5 as stated does not hold for every state.  A generate call with
    additional input whose cipher fails in the loop returns with what
    the derivation function made of the additional input still in
    [df_data]; from that state a call without additional input mixes it
    into [C] and [V] with flag 3, and does not with flag 1. *)
Lemma gcry_drbg_ctr_generate_stale_df_data :
  let addtl := drbg_string (Data [1; 2; 3]) 3 NoString in
  let m0 := test_mach (test_state 8 gcry_drbg_ctr_ops 160) 16
                      (repeat 0 16 ++ [5]) in
  exists r a m,
    gcry_drbg_ctr_generate test_platform (Mem LOut 0) 16 addtl m0
    = Some ((r, a), m)
    /\ is_err r = true
    /\ exists v1 m1 v2 m2,
         gcry_drbg_ctr_generate test_platform (Mem LOut 0) 16 NoString m
         = Some (v1, m1)
         /\ ctr_generate_unoptimized test_platform (Mem LOut 0) 16 NoString m
            = Some (v2, m2)
         /\ V (drbg m1) <> V (drbg m2)
         /\ C (drbg m1) <> C (drbg m2).
Proof.
  intros addtl m0. do 3 eexists. split; [vm_compute; reflexivity|].
  split; [reflexivity|].
  do 4 eexists. split; [vm_compute; reflexivity|].
  split; [vm_compute; reflexivity|].
  split; vm_compute; discriminate.
Qed.

(** Both cases of the theorem on the instance for AES-128: a call with
    three bytes of additional input, and a call without on the clear
    scratchpad. *)
Lemma gcry_drbg_ctr_generate_flags_equiv_witness :
  let m := test_mach (test_state 8 gcry_drbg_ctr_ops 160) 16 [] in
  rel2 same_key_state
       (gcry_drbg_ctr_generate test_platform (Mem LOut 0) 16
          (drbg_string (Data [1; 2; 3]) 3 NoString) m)
       (ctr_generate_unoptimized test_platform (Mem LOut 0) 16
          (drbg_string (Data [1; 2; 3]) 3 NoString) m)
  /\ rel2 same_key_state
       (gcry_drbg_ctr_generate test_platform (Mem LOut 0) 16 NoString m)
       (ctr_generate_unoptimized test_platform (Mem LOut 0) 16 NoString m).
Proof.
  intros m. split.
  - apply (gcry_drbg_ctr_generate_flags_equiv test_platform
             (Build_gcry_drbg_core 8193 32 16 7)).
    + reflexivity.
    + cbn. lia.
    + cbn. lia.
    + cbn. lia.
    + exact I.
    + exact I.
    + left. reflexivity.
  - apply (gcry_drbg_ctr_generate_flags_equiv test_platform
             (Build_gcry_drbg_core 8193 32 16 7)).
    + reflexivity.
    + cbn. lia.
    + cbn. lia.
    + cbn. lia.
    + exact I.
    + exact I.
    + right. intros i Hi. cbn in Hi. cbn [m test_mach drbg test_state scratchpad].
      apply nth_repeat.
Defined.

(** On that instance both calls of the generate function return, with
    success. *)
Lemma gcry_drbg_ctr_generate_returns :
  let m := test_mach (test_state 8 gcry_drbg_ctr_ops 160) 16 [] in
  (exists a m1,
     gcry_drbg_ctr_generate test_platform (Mem LOut 0) 16
       (drbg_string (Data [1; 2; 3]) 3 NoString) m = Some ((0, a), m1))
  /\ (exists a m1,
        gcry_drbg_ctr_generate test_platform (Mem LOut 0) 16 NoString m
        = Some ((0, a), m1)).
Proof.
  intros m. split; do 2 eexists; vm_compute; reflexivity.
Qed.

(** * Further properties of the code *)

(** ** Taking runs apart *)

Lemma bind_inv {env A B} (x : M env A) (f : A -> M env B) m v m' :
  bind x f m = Some (v, m') ->
  exists a m1, x m = Some (a, m1) /\ f a m1 = Some (v, m').
Proof.
  unfold bind. intros H. destruct (x m) as [[a m1]|]; [|discriminate].
  now exists a, m1.
Qed.

Lemma ret_inv {env A} (a : A) (m : mach env) v m' :
  ret a m = Some (v, m') -> v = a /\ m' = m.
Proof. intros H. injection H as <- <-. now split. Qed.

(** [peel H as a m1 E]: the first step of the run [H]. *)
Ltac peel H a m1 E :=
  apply bind_inv in H; destruct H as (a & m1 & E & H).

(** ** Looking up a core *)

Section AlgoAvailable.

Context {env : Type} (G : platform env).

Lemma algo_available_loop_spec fl : forall cores i,
  (fst (algo_available_loop G cores fl i) = 0
   /\ exists j c,
        snd (algo_available_loop G cores fl i) = i + Z.of_nat j
        /\ nth_error cores j = Some c /\ core_matches G c fl
        /\ forall j' c', (j' < j)%nat -> nth_error cores j' = Some c' ->
                         ~ core_matches G c' fl)
  \/ (algo_available_loop G cores fl i = (GPG_ERR_GENERAL, 0)
      /\ forall c, In c cores -> ~ core_matches G c fl).
Proof.
  induction cores as [|c cores IH]; intros i; cbn [algo_available_loop].
  - right. split; [reflexivity|]. intros c [].
  - destruct (Z.eqb_spec (Z.land (flags c) (GCRY_DRBG_CIPHER_MASK G))
                         (Z.land fl (GCRY_DRBG_CIPHER_MASK G))) as [E|E].
    + left. split; [reflexivity|]. exists 0%nat, c. cbn.
      repeat split; [lia|exact E|]. intros j' c' Hj. lia.
    + destruct (IH (i + 1)) as [(H0 & j & c0 & Hk & Hn & Hm & Hfirst)|[Hg Hno]].
      * left. split; [exact H0|]. exists (S j), c0.
        repeat split; [lia|exact Hn|exact Hm|].
        intros [|j'] c' Hj Hn'.
        -- cbn in Hn'. injection Hn' as <-. exact E.
        -- apply (Hfirst j' c'); [lia|exact Hn'].
      * right. split; [exact Hg|]. intros c' [<-|Hin]; [exact E|].
        now apply Hno.
Qed.

(** X1.  [gcry_drbg_algo_available] returns 0 and the index of the
    first entry of the table whose flags equal the requested flags under
    [GCRY_DRBG_CIPHER_MASK]; when no entry does, it returns
    [GPG_ERR_GENERAL].  The index it returns lies in the table. *)
Theorem gcry_drbg_algo_available_first_match fl :
  let r := fst (gcry_drbg_algo_available G fl) in
  let k := snd (gcry_drbg_algo_available G fl) in
  (r = 0 /\ 0 <= k < 11
   /\ exists c,
        nth_error (gcry_drbg_cores G) (Z.to_nat k) = Some c
        /\ core_matches G c fl
        /\ forall j c', (j < Z.to_nat k)%nat ->
                        nth_error (gcry_drbg_cores G) j = Some c' ->
                        ~ core_matches G c' fl)
  \/ (r = GPG_ERR_GENERAL
      /\ forall c, In c (gcry_drbg_cores G) -> ~ core_matches G c fl).
Proof.
  cbv zeta. unfold gcry_drbg_algo_available.
  destruct (algo_available_loop_spec fl (gcry_drbg_cores G) 0)
    as [(H0 & j & c & Hk & Hn & Hm & Hfirst)|[Hg Hno]].
  - left. split; [exact H0|]. rewrite Hk.
    assert (Hj : (j < 11)%nat).
    { change 11%nat with (length (gcry_drbg_cores G)).
      apply nth_error_Some. now rewrite Hn. }
    split; [lia|]. exists c. rewrite Z.add_0_l, Nat2Z.id.
    repeat split; assumption.
  - right. rewrite Hg. split; [reflexivity|exact Hno].
Qed.

End AlgoAvailable.

(** ** Seeding: what it sets and what it leaves *)

Section SeedState.

Context {env : Type} (G : platform env).

(** The bookkeeping fields and the output buffer are as they were. *)
Let K (m m' : mach env) : Prop :=
  same_bookkeeping m m' /\ out m' = out m /\ same_lengths m m'.

Lemma K_refl m : K m m.
Proof. repeat split. Qed.

Lemma K_trans a b c : K a b -> K b c -> K a c.
Proof.
  unfold K, same_bookkeeping, same_lengths. intros H1 H2.
  decompose [and] H1. decompose [and] H2. repeat split; congruence.
Qed.

Lemma K_store p bs m : not_out p -> K m (store_ptr p bs m).
Proof.
  intros Hp. destruct p as [|l o|d]; [apply K_refl| |apply K_refl].
  destruct l; try contradiction;
    repeat split; cbn; now rewrite ?buf_write_length.
Qed.

Lemma K_be m e : K m {| drbg := drbg m; out := out m; be := e |}.
Proof. repeat split. Qed.

Lemma not_out_ptr_add p k : not_out p -> not_out (ptr_add p k).
Proof. destruct p as [|[] o|d]; cbn; auto. Qed.

Lemma d_ops_update_K seed reseed : preserves K (d_ops_update G seed reseed).
Proof.
  apply pres_d_ops_update with (okptr := not_out);
    try (intros; exact I).
  - exact K_refl.
  - exact K_trans.
  - exact K_store.
  - exact K_be.
  - exact not_out_ptr_add.
Qed.

Lemma get_entropy_K b n : preserves K (gcry_drbg_get_entropy G b n).
Proof. apply pres_get_entropy; [exact K_refl|exact K_trans|exact K_be]. Qed.

Lemma call_K op : preserves K (call G op).
Proof. apply pres_call. exact K_be. Qed.

Lemma is_err_false r : is_err r = false -> r = 0.
Proof.
  unfold is_err. intros H. apply negb_false_iff in H. now apply Z.eqb_eq.
Qed.

Lemma is_err_true r : is_err r = true -> r <> 0.
Proof.
  unfold is_err. intros H. apply negb_true_iff in H. now apply Z.eqb_neq.
Qed.

Lemma call_inv op (m : mach env) e m' :
  call G op m = Some (e, m') -> drbg m' = drbg m /\ out m' = out m.
Proof.
  unfold call. destruct (backend G (be m) op) as [e0 b]. intros H.
  injection H as _ <-. now split.
Qed.

Lemma get_entropy_inv b n (m : mach env) v m' :
  gcry_drbg_get_entropy G b n m = Some (v, m') ->
  drbg m' = drbg m /\ out m' = out m.
Proof.
  unfold gcry_drbg_get_entropy. rewrite bind_get.
  destruct (match test_data (drbg m) with
            | Some t => fail_seed_source t
            | None => false
            end).
  - intros H. apply ret_inv in H as [_ ->]. now split.
  - destruct (gather_random G (be m) n) as [[rc bs] e]. intros H.
    injection H as _ <-. now split.
Qed.

Lemma same_drbg_K (m m' : mach env) :
  drbg m' = drbg m /\ out m' = out m -> K m m'.
Proof.
  intros [Hd Ho]. unfold K, same_bookkeeping, same_lengths.
  rewrite Hd. now repeat split.
Qed.

(** A run of [gcry_drbg_seed]: it returns an error with the bookkeeping
    fields as they were, or it returns 0 and has set [seeded] and the
    request counter after the update of the mechanism, which was run on
    the instance as it was. *)
Lemma seed_run pers reseed (m : mach env) r p m' :
  gcry_drbg_seed G pers reseed m = Some ((r, p), m') ->
  (is_err r = true /\ K m m')
  \/ (r = 0
      /\ exists data1 m1 d m2,
           drbg m1 = drbg m /\ out m1 = out m
           /\ d_ops_update G data1 reseed m1 = Some ((0, d), m2)
           /\ K m m2
           /\ m' = {| drbg := set_reseed_ctr 1 (set_seeded true (drbg m2));
                      out := out m2; be := be m2 |}).
Proof.
  intros H. unfold gcry_drbg_seed in H.
  destruct (match pers with
            | NoString => false
            | drbg_string _ l _ => l >? gcry_drbg_max_addtl G
            end).
  { apply ret_inv in H as [Hv ->]. injection Hv as -> ->.
    left. split; [reflexivity|apply K_refl]. }
  rewrite bind_get in H. peel H v1 m1 E1. destruct v1 as [r0 data1].
  assert (D1 : drbg m1 = drbg m /\ out m1 = out m).
  { assert (Hg : forall x,
              (fl <- core_flags ;;
               (let entropylen := gcry_drbg_sec_strength G fl in
                if entropylen =? 0 then ret (GPG_ERR_GENERAL, NoString)
                else
                  let entropylen0 := seed_entropylen entropylen reseed in
                  e <- call G (xcalloc_secure entropylen0) ;;
                  (if is_err e then ret (GPG_ERR_ENOMEM, NoString)
                   else
                     let entropy := repeat 0 (Z.to_nat entropylen0) in
                     ' (rc, entropy0) <-
                       gcry_drbg_get_entropy G entropy entropylen0 ;;
                     (let r := to_err_code rc in
                      if is_err r then ret (r, NoString)
                      else ret (0, gcry_drbg_string_fill (Data entropy0)
                                                         entropylen0)))))
                m = Some (x, m1) ->
              drbg m1 = drbg m /\ out m1 = out m).
    { intros x Ex. unfold core_flags in Ex.
      peel Ex fl m3 E3. peel E3 c0 m4 E4.
      assert (m4 = m).
      { unfold get_core in E4. rewrite bind_get in E4.
        destruct (core (drbg m)); [|discriminate].
        now apply ret_inv in E4 as [_ ->]. }
      subst m4. apply ret_inv in E3 as [_ ->].
      destruct (_ =? 0); [apply ret_inv in Ex as [_ ->]; now split|].
      peel Ex e m5 E5. apply call_inv in E5 as [Hd5 Ho5].
      destruct (is_err e);
        [apply ret_inv in Ex as [_ ->]; now split|].
      peel Ex v6 m6 E6. destruct v6 as [rc ent].
      apply get_entropy_inv in E6 as [Hd6 Ho6].
      destruct (is_err (to_err_code rc));
        apply ret_inv in Ex as [_ ->]; split; congruence. }
    destruct (test_data (drbg m)) as [[[|tb tl tn] fs]|].
    - exact (Hg _ E1).
    - apply ret_inv in E1 as [_ ->]. now split.
    - exact (Hg _ E1). }
  pose proof (same_drbg_K _ _ D1) as K1.
  destruct (is_err r0) eqn:Er0.
  { apply ret_inv in H as [Hv ->]. injection Hv as -> ->.
    left. now split. }
  peel H v2 m2 E2. destruct v2 as [r1 data1'].
  pose proof (K_trans _ _ _ K1 (d_ops_update_K _ _ _ _ _ E2)) as K2.
  destruct (is_err r1) eqn:Er1.
  { apply ret_inv in H as [Hv ->]. injection Hv as -> _.
    left. now split. }
  peel H u3 m3 E3. peel H u4 m4 E4.
  apply ret_inv in H as [Hv ->]. injection Hv as -> _.
  apply is_err_false in Er1. subst r1.
  right. split; [reflexivity|].
  exists (if pers_usable pers then set_next data1 pers else data1),
         m1, data1', m2.
  split; [exact (proj1 D1)|]. split; [exact (proj2 D1)|].
  split; [exact E2|]. split; [exact K2|].
  unfold modify_drbg in E3, E4.
  injection E3 as _ <-. injection E4 as _ <-. reflexivity.
Qed.

(** X2.  Whenever [gcry_drbg_seed] returns, the core, the mechanism,
    the prediction-resistance flag, the test data and the output buffer
    of the caller are as they were.  When it returns 0 the instance is
    seeded and its request counter is 1; when it returns an error,
    [seeded] and the request counter are as they were. *)
Theorem gcry_drbg_seed_bookkeeping pers reseed (m : mach env) r p m' :
  gcry_drbg_seed G pers reseed m = Some ((r, p), m') ->
  same_config m m' /\ out m' = out m
  /\ (r = 0 -> seeded (drbg m') = true /\ reseed_ctr (drbg m') = 1)
  /\ (r <> 0 -> seeded (drbg m') = seeded (drbg m)
                /\ reseed_ctr (drbg m') = reseed_ctr (drbg m)).
Proof.
  intros H.
  destruct (seed_run _ _ _ _ _ _ H)
    as [[Er [Hk [Ho _]]]
       |[-> (d1 & m1 & d & m2 & _ & _ & _ & [Hk [Ho _]] & ->)]];
    destruct Hk as (Hc & Hs & Hp & Hi & Hd & Hcore & Ht).
  - split; [now repeat split|]. split; [exact Ho|]. split.
    + intros ->. discriminate.
    + intros _. now split.
  - split; [now repeat split|]. split; [exact Ho|]. split.
    + intros _. now split.
    + intros Hne. now contradiction Hne.
Qed.

Lemma modify_inv f (m : mach env) v m' :
  modify_drbg f m = Some (v, m') ->
  m' = {| drbg := f (drbg m); out := out m; be := be m |}.
Proof. intros H. now injection H as _ <-. Qed.

Lemma uninstantiate_run (m : mach env) v m' :
  gcry_drbg_uninstantiate m = Some (v, m') ->
  v = 0 /\ uninstantiated (drbg m')
  /\ core (drbg m') = core (drbg m) /\ d_ops (drbg m') = d_ops (drbg m)
  /\ test_data (drbg m') = test_data (drbg m) /\ out m' = out m.
Proof.
  intros H. injection H as <- <-. repeat split.
Qed.

(** An error code that is assumed not to be one. *)
Ltac absurd_err :=
  match goal with
  | H : is_err _ = false |- _ => vm_compute in H; discriminate H
  | H : true = false |- _ => discriminate H
  end.

(** A run of [gcry_drbg_instantiate]. *)
Lemma instantiate_run pers coreref pr_ (m : mach env) r p m' :
  gcry_drbg_instantiate G pers coreref pr_ m = Some ((r, p), m') ->
  exists c,
    nth_error (gcry_drbg_cores G) (Z.to_nat coreref) = Some c
    /\ core (drbg m') = Some c
    /\ test_data (drbg m') = test_data (drbg m)
    /\ out m' = out m
    /\ match ops_of_flags G (flags c) with
       | None =>
           r = GPG_ERR_GENERAL
           /\ drbg m' = set_seeded false
                          (set_pr pr_ (set_core (Some c) (drbg m)))
       | Some o =>
           d_ops (drbg m') = Some o
           /\ ((r = 0 /\ pr (drbg m') = pr_ /\ seeded (drbg m') = true
                /\ reseed_ctr (drbg m') = 1
                /\ length (V (drbg m')) = Z.to_nat (statelen c)
                /\ length (C (drbg m')) = Z.to_nat (statelen c)
                /\ length (scratchpad (drbg m'))
                   = (if 0 <? sb_size_of G c
                      then Z.to_nat (sb_size_of G c)
                      else length (scratchpad (drbg m)))
                /\ exists data1 m1 d m2,
                     core (drbg m1) = Some c /\ d_ops (drbg m1) = Some o
                     /\ d_ops_update G data1 0 m1 = Some ((0, d), m2)
                     /\ drbg m' = set_reseed_ctr 1
                                    (set_seeded true (drbg m2)))
               \/ (r <> 0 /\ uninstantiated (drbg m')))
       end.
Proof.
  intros H. unfold gcry_drbg_instantiate in H.
  destruct (nth_error (gcry_drbg_cores G) (Z.to_nat coreref)) as [c|];
    [|discriminate].
  exists c. split; [reflexivity|].
  peel H u1 m1 E1. apply modify_inv in E1.
  peel H u2 m2 E2. apply modify_inv in E2.
  peel H u3 m3 E3. apply modify_inv in E3.
  fold (ops_of_flags G (flags c)) in H.
  destruct (ops_of_flags G (flags c)) as [o|].
  2:{ apply ret_inv in H as [Hv ->]. injection Hv as -> _.
      subst m3 m2 m1. repeat split. }
  peel H u4 m4 E4. apply modify_inv in E4.
  peel H v5 m5 E5. destruct v5 as [r1 p1].
  fold (sb_size_of G c) in E5.
  (* what the allocation and the seeding leave *)
  assert (Hin :
    core (drbg m5) = Some c /\ d_ops (drbg m5) = Some o
    /\ test_data (drbg m5) = test_data (drbg m) /\ out m5 = out m
    /\ (is_err r1 = false ->
        pr (drbg m5) = pr_ /\ seeded (drbg m5) = true
        /\ reseed_ctr (drbg m5) = 1
        /\ length (V (drbg m5)) = Z.to_nat (statelen c)
        /\ length (C (drbg m5)) = Z.to_nat (statelen c)
        /\ length (scratchpad (drbg m5))
           = (if 0 <? sb_size_of G c
              then Z.to_nat (sb_size_of G c)
              else length (scratchpad (drbg m)))
        /\ exists data1 m1 d m2,
             core (drbg m1) = Some c /\ d_ops (drbg m1) = Some o
             /\ d_ops_update G data1 0 m1 = Some ((0, d), m2)
             /\ drbg m5 = set_reseed_ctr 1 (set_seeded true (drbg m2)))).
  { assert (H4 : core (drbg m4) = Some c /\ d_ops (drbg m4) = Some o
                 /\ test_data (drbg m4) = test_data (drbg m)
                 /\ out m4 = out m /\ pr (drbg m4) = pr_
                 /\ scratchpad (drbg m4) = scratchpad (drbg m))
      by (subst m4 m3 m2 m1; repeat split).
    clear E1 E2 E3 E4. destruct H4 as (Hc4 & Hd4 & Ht4 & Ho4 & Hp4 & Hs4).
    peel E5 e6 m6 E6. apply call_inv in E6 as [Hd6 Ho6].
    destruct (is_err e6).
    { apply ret_inv in E5 as [Hv ->]. injection Hv as -> _.
      rewrite Hd6, Ho6. repeat split; try assumption; absurd_err. }
    peel E5 u7 m7 E7. apply modify_inv in E7.
    peel E5 e8 m8 E8. apply call_inv in E8 as [Hd8 Ho8].
    destruct (is_err e8).
    { apply ret_inv in E5 as [Hv ->]. injection Hv as -> _.
      rewrite Hd8, Ho8. subst m7. cbn. rewrite Hd6, Ho6.
      repeat split; try assumption; absurd_err. }
    peel E5 u9 m9 E9. apply modify_inv in E9.
    peel E5 e10 m10 E10.
    assert (H10 : core (drbg m10) = Some c /\ d_ops (drbg m10) = Some o
                  /\ test_data (drbg m10) = test_data (drbg m)
                  /\ out m10 = out m /\ pr (drbg m10) = pr_
                  /\ length (V (drbg m10)) = Z.to_nat (statelen c)
                  /\ length (C (drbg m10)) = Z.to_nat (statelen c)
                  /\ (is_err e10 = false ->
                      length (scratchpad (drbg m10))
                      = (if 0 <? sb_size_of G c
                         then Z.to_nat (sb_size_of G c)
                         else length (scratchpad (drbg m))))).
    { destruct (0 <? sb_size_of G c).
      - peel E10 e11 m11 E11. apply call_inv in E11 as [Hd11 Ho11].
        destruct (is_err e11) eqn:Ee11.
        + apply ret_inv in E10 as [-> ->].
          rewrite Hd11, Ho11. subst m9. cbn. rewrite Hd8, Ho8.
          subst m7. cbn. rewrite Hd6, Ho6, !repeat_length.
          repeat split; try assumption. intros Habs. congruence.
        + peel E10 u12 m12 E12. apply modify_inv in E12.
          apply ret_inv in E10 as [-> ->]. subst m12. cbn.
          rewrite Hd11, Ho11. subst m9. cbn. rewrite Hd8, Ho8.
          subst m7. cbn. rewrite Hd6, Ho6, !repeat_length.
          repeat split; assumption.
      - apply ret_inv in E10 as [-> ->]. subst m9. cbn.
        rewrite Hd8, Ho8. subst m7. cbn. rewrite Hd6, Ho6, !repeat_length.
        repeat split; try assumption. intros _. now rewrite Hs4. }
    clear E7 E9 E10 Hd6 Ho6 Hd8 Ho8.
    destruct H10 as (Hc & Hd & Ht & Ho & Hp & HV & HC & Hs).
    destruct (is_err e10) eqn:Ee10.
    { apply ret_inv in E5 as [Hv ->]. injection Hv as -> _.
      repeat split; try assumption; absurd_err. }
    specialize (Hs eq_refl).
    destruct (seed_run _ _ _ _ _ _ E5)
      as [[Er [Hk [Hout Hlen]]]
         |[-> (d1 & m1' & d & m2' & Hd1 & _ & Eu & [Hk [Hout Hlen]] & ->)]];
      destruct Hk as (Hkc & Hks & Hkp & Hki & Hkd & Hkcore & Hkt);
      destruct Hlen as (HlV & HlC & Hls).
    - rewrite Er. repeat split; try congruence.
    - cbn. repeat split; try congruence.
      exists d1, m1', d, m2'.
      split; [now rewrite Hd1|]. split; [now rewrite Hd1|].
      split; [exact Eu|reflexivity]. }
  destruct Hin as (Hc & Hd & Ht & Ho & Hok).
  destruct (is_err r1) eqn:Er1.
  - peel H v6 m6 E6. apply ret_inv in H as [Hv ->]. injection Hv as -> _.
    apply uninstantiate_run in E6 as (_ & Hun & Hc6 & Hd6 & Ht6 & Ho6).
    repeat split; try congruence.
    right. split; [now apply is_err_true|exact Hun].
  - apply ret_inv in H as [Hv ->]. injection Hv as -> _.
    repeat split; try congruence.
    left. split; [reflexivity|]. now apply Hok.
Qed.

(** X4.  When [gcry_drbg_instantiate] returns 0, the instance has the
    core [coreref] of the table and the mechanism that goes with its
    flags, the prediction-resistance flag of the call, it is seeded and
    its request counter is 1; [V] and [C] have [statelen] bytes and the
    scratchpad, when the mechanism has one, the size computed from the
    core.  The test data and the output buffer of the caller are as they
    were. *)
Theorem gcry_drbg_instantiate_success pers coreref pr_ (m : mach env)
        p m' :
  gcry_drbg_instantiate G pers coreref pr_ m = Some ((0, p), m') ->
  exists c,
    nth_error (gcry_drbg_cores G) (Z.to_nat coreref) = Some c
    /\ core (drbg m') = Some c
    /\ d_ops (drbg m') = ops_of_flags G (flags c)
    /\ d_ops (drbg m') <> None
    /\ pr (drbg m') = pr_ /\ seeded (drbg m') = true
    /\ reseed_ctr (drbg m') = 1
    /\ length (V (drbg m')) = Z.to_nat (statelen c)
    /\ length (C (drbg m')) = Z.to_nat (statelen c)
    /\ (0 < sb_size_of G c ->
        length (scratchpad (drbg m')) = Z.to_nat (sb_size_of G c))
    /\ test_data (drbg m') = test_data (drbg m)
    /\ out m' = out m.
Proof.
  intros H.
  destruct (instantiate_run _ _ _ _ _ _ _ H) as (c & Hn & Hc & Ht & Ho & Hr).
  exists c. destruct (ops_of_flags G (flags c)) as [o|].
  - destruct Hr as [Hd [(_ & Hp & Hs & Hctr & HV & HC & Hsp & _)|[Hne _]]];
      [|now contradiction Hne].
    repeat split; try assumption; try congruence.
    intros Hsb. apply Z.ltb_lt in Hsb. now rewrite Hsb in Hsp.
  - destruct Hr as [Habs _]. discriminate.
Qed.

(** X5.  When [gcry_drbg_instantiate] fails after it has selected a
    mechanism (an allocation fails, or the seeding), it returns with the
    instance uninstantiated: [V], [C] and the scratchpad are freed, the
    request counter is 0 and [seeded] and [pr] are clear.  The core
    stays set. *)
Theorem gcry_drbg_instantiate_failure_wipes pers coreref pr_
        (m : mach env) r p m' c :
  gcry_drbg_instantiate G pers coreref pr_ m = Some ((r, p), m') ->
  nth_error (gcry_drbg_cores G) (Z.to_nat coreref) = Some c ->
  ops_of_flags G (flags c) <> None ->
  r <> 0 ->
  uninstantiated (drbg m') /\ core (drbg m') = Some c
  /\ d_ops (drbg m') = ops_of_flags G (flags c).
Proof.
  intros H Hn Hops Hr.
  destruct (instantiate_run _ _ _ _ _ _ _ H)
    as (c' & Hn' & Hc & Ht & Ho & Hrun).
  rewrite Hn in Hn'. injection Hn' as <-.
  destruct (ops_of_flags G (flags c)) as [o|]; [|now contradiction Hops].
  destruct Hrun as [Hd [(H0 & _)|[_ Hun]]]; [now contradiction Hr|].
  split; [exact Hun|]. now split.
Qed.

End SeedState.

Section SeedPers.

Context {env : Type} (G : platform env).

(** X3.  [gcry_drbg_seed] uses the string [pers] (the personalization
    string, or the additional input of a reseed) only when its buffer is
    not null, its length is positive and its [next] pointer is null.
    Any other string within the length limit, in particular a chain of
    more than one node, is ignored: the function does what it does for a
    null [pers]. *)
Theorem gcry_drbg_seed_ignores_unusable_pers pers reseed (m : mach env) :
  pers_usable pers = false ->
  match pers with
  | NoString => True
  | drbg_string _ l _ => l <= gcry_drbg_max_addtl G
  end ->
  gcry_drbg_seed G pers reseed m
  = match gcry_drbg_seed G NoString reseed m with
    | Some ((r, _), m') => Some ((r, pers), m')
    | None => None
    end.
Proof.
  intros Hus Hlen. unfold gcry_drbg_seed.
  assert (E : match pers with
              | NoString => false
              | drbg_string _ l _ => l >? gcry_drbg_max_addtl G
              end = false).
  { destruct pers as [|b l nx]; [reflexivity|].
    rewrite Z.gtb_ltb. apply Z.ltb_ge. exact Hlen. }
  rewrite E, Hus. change (pers_usable NoString) with false. cbv iota.
  rewrite !bind_get. unfold bind.
  match goal with
  | |- match ?x with _ => _ end = _ =>
      destruct x as [[[r0 data1] m1]|]; [|reflexivity]
  end.
  destruct (is_err r0); [reflexivity|].
  destruct (d_ops_update G data1 reseed m1) as [[[r1 data1'] m2]|];
    [|reflexivity].
  destruct (is_err r1); reflexivity.
Qed.

End SeedPers.

(** ** Long requests *)

Section GenerateLong.

Context {env : Type} (G : platform env).

(** Only what is left of the request matters to the loop. *)
Lemma generate_long_loop_shift : forall fuel buf_p buflen len addtl m,
  generate_long_loop G fuel buf_p buflen len addtl m
  = generate_long_loop G fuel buf_p (buflen - len) 0 addtl m.
Proof.
  induction fuel as [|fuel IH]; intros buf_p buflen len addtl m;
    [reflexivity|].
  cbn [generate_long_loop]. rewrite Z.sub_0_r, Z.add_0_l.
  set (slice := (buflen - len) / gcry_drbg_max_request_bytes).
  set (chunk := if negb (slice =? 0)
                then gcry_drbg_max_request_bytes else buflen - len).
  apply bind_ext; [reflexivity|]. intros [r a] m1.
  destruct (is_err r); [reflexivity|].
  replace (len + chunk <? buflen) with (chunk <? buflen - len)
    by (apply Bool.eq_true_iff_eq; rewrite !Z.ltb_lt; lia).
  destruct ((slice >? 0) && (chunk <? buflen - len)); [|reflexivity].
  rewrite (IH _ buflen), (IH _ (buflen - len)).
  now replace (buflen - len - chunk) with (buflen - (len + chunk)) by lia.
Qed.

(** X6.  A request of at most [2^16] bytes is passed on by
    [gcry_drbg_generate_long] as one call of [gcry_drbg_generate] for
    all of it; for a request of no bytes that call returns
    [GPG_ERR_INV_ARG]. *)
Theorem gcry_drbg_generate_long_one_request buf buflen addtl
        (m : mach env) :
  0 <= buflen <= 2 ^ 16 ->
  gcry_drbg_generate_long G buf buflen addtl m
  = gcry_drbg_generate G buf buflen addtl m
  /\ (buflen = 0 ->
      gcry_drbg_generate_long G buf buflen addtl m
      = Some ((GPG_ERR_INV_ARG, addtl), m)).
Proof.
  intros Hb.
  assert (E : gcry_drbg_generate_long G buf buflen addtl m
              = gcry_drbg_generate G buf buflen addtl m).
  { unfold gcry_drbg_generate_long.
    rewrite Nat.add_1_r. cbn [generate_long_loop].
    rewrite Z.sub_0_r, Z.add_0_l.
    change gcry_drbg_max_request_bytes with (2 ^ 16).
    set (slice := buflen / 2 ^ 16).
    assert (Hc : (if negb (slice =? 0) then 2 ^ 16 else buflen) = buflen).
    { destruct (Z.eqb_spec slice 0) as [E0|E0]; [reflexivity|]. cbn [negb].
      destruct (Z.eq_dec buflen (2 ^ 16)) as [->|Hne]; [reflexivity|].
      exfalso. apply E0. unfold slice. apply Z.div_small. lia. }
    rewrite Hc, Z.ltb_irrefl, andb_false_r.
    unfold bind.
    destruct (gcry_drbg_generate G buf buflen addtl m) as [[[r a] m']|];
      [|reflexivity].
    now destruct (is_err r). }
  split; [exact E|]. intros ->. rewrite E. reflexivity.
Qed.

(** X7.  A request of more than [2^16] bytes is served in pieces: a
    call of [gcry_drbg_generate] for the first [2^16] bytes and, when it
    succeeds, [gcry_drbg_generate_long] for the rest, at [buf + 2^16]
    and with the additional input as the first call left it.  A piece
    that fails ends the request with its error code. *)
Theorem gcry_drbg_generate_long_pieces buf buflen addtl (m : mach env) :
  2 ^ 16 < buflen ->
  gcry_drbg_generate_long G buf buflen addtl m
  = (' (r, a) <- gcry_drbg_generate G buf (2 ^ 16) addtl ;;
     if is_err r then ret (r, a)
     else gcry_drbg_generate_long G (ptr_add buf (2 ^ 16))
                                  (buflen - 2 ^ 16) a) m.
Proof.
  intros Hb. unfold gcry_drbg_generate_long.
  rewrite Nat.add_1_r. cbn [generate_long_loop].
  change gcry_drbg_max_request_bytes with (2 ^ 16).
  assert (Hs : 1 <= buflen / 2 ^ 16)
    by (apply Z.div_le_lower_bound; lia).
  assert (E1 : ((buflen - 0) / 2 ^ 16 =? 0) = false)
    by (rewrite Z.sub_0_r; apply Z.eqb_neq; lia).
  assert (E2 : ((buflen - 0) / 2 ^ 16 >? 0) = true)
    by (rewrite Z.sub_0_r; apply Z.gtb_lt; lia).
  assert (E3 : (0 + 2 ^ 16 <? buflen) = true) by (apply Z.ltb_lt; lia).
  apply bind_ext; [now rewrite E1|]. intros [r a] m1.
  destruct (is_err r); [reflexivity|].
  rewrite E1, E2. cbn [negb]. rewrite E3. cbn [andb].
  rewrite generate_long_loop_shift.
  replace (buflen - (0 + 2 ^ 16)) with (buflen - 2 ^ 16) by lia.
  assert (Ed : (buflen - 2 ^ 16) / 2 ^ 16 = buflen / 2 ^ 16 - 1).
  { replace (buflen - 2 ^ 16) with (buflen + (-1) * 2 ^ 16) by lia.
    rewrite Z.div_add by lia. lia. }
  rewrite Ed.
  now replace (Z.to_nat (buflen / 2 ^ 16 - 1) + 1)%nat
    with (Z.to_nat (buflen / 2 ^ 16)) by lia.
Qed.

End GenerateLong.

(** ** Where the output goes *)

Lemma agree_trans a n sp1 sp2 sp3 :
  agree_off a n sp1 sp2 -> agree_off a n sp2 sp3 -> agree_off a n sp1 sp3.
Proof.
  intros [L1 A1] [L2 A2]. split; [congruence|].
  intros i Hi. now rewrite A1, A2.
Qed.

Lemma agree_widen a n a' n' sp sp' :
  agree_off a' n' sp sp' -> (a <= a')%nat -> (a' + n' <= a + n)%nat ->
  agree_off a n sp sp'.
Proof.
  intros [L A] H1 H2. split; [exact L|]. intros i Hi. apply A. lia.
Qed.

Section Window.

Context {env : Type} (G : platform env).

Variables off n : Z.
Hypothesis Hoff : 0 <= off.

Let W (m m' : mach env) : Prop := out_window off n m m'.

Lemma W_refl m : W m m.
Proof. apply agree_refl. Qed.

Lemma W_trans a b c : W a b -> W b c -> W a c.
Proof. apply agree_trans. Qed.

Lemma W_store p bs m : not_out p -> W m (store_ptr p bs m).
Proof.
  intros Hp. destruct p as [|l o|d]; try apply W_refl.
  destruct l; try contradiction; apply agree_refl.
Qed.

Lemma W_be m e : W m {| drbg := drbg m; out := out m; be := e |}.
Proof. apply agree_refl. Qed.

Lemma W_modify f m : W m {| drbg := f (drbg m); out := out m; be := be m |}.
Proof. apply agree_refl. Qed.

(** A store into the requested bytes, or of nothing. *)
Lemma W_store_in len bs m :
  bs = [] \/ (0 <= len /\ (Z.to_nat len + length bs <= Z.to_nat n)%nat) ->
  W m (store_ptr (Mem LOut (off + len)) bs m).
Proof.
  intros [->|[Hlen Hin]]; unfold W, out_window; cbn.
  - rewrite buf_write_nil. apply agree_refl.
  - split; [now rewrite buf_write_length|].
    intros i Hi. rewrite nth_buf_write_out by lia. reflexivity.
Qed.

Lemma load_length (m : mach env) p k :
  (length (load_ptr m p k) <= Z.to_nat k)%nat.
Proof.
  destruct p as [|l o|d]; cbn [load_ptr]; unfold buf_read;
    rewrite ?length_firstn; cbn [length]; lia.
Qed.

Lemma W_memcpy len src k :
  k <= 0 \/ (0 <= len /\ len + k <= n) ->
  preserves W (memcpy (ptr_add (Mem LOut off) len) src k).
Proof.
  intros Hk m v m' E. rewrite memcpy_eq in E. injection E as _ <-.
  cbn [ptr_add]. apply W_store_in.
  pose proof (load_length m src k) as Hl.
  destruct (Z.le_gt_cases k 0) as [Hle|Hgt].
  - left. apply length_zero_iff_nil. lia.
  - right. destruct Hk as [Hk|[H0 Hk]]; [lia|]. split; [exact H0|]. lia.
Qed.

Ltac wside :=
  try exact W_refl; try exact W_trans; try exact W_store; try exact W_be;
  try exact not_out_ptr_add; try exact W_modify; try (intros; exact I).

Ltac wstep :=
  match goal with
  | |- preserves _ (ret _) => apply pres_ret; exact W_refl
  | |- preserves _ diverge => apply pres_diverge
  | |- preserves _ get_drbg => apply pres_get_drbg; exact W_refl
  | |- preserves _ (load _ _) => apply pres_load; exact W_refl
  | |- preserves _ (modify_drbg _) => apply pres_modify; exact W_modify
  | |- preserves _ (memset _ _ _) =>
      apply pres_memset with (okptr := not_out); [exact W_store|exact I]
  | |- preserves _ (add_buf _ _ _ _) =>
      apply pres_add_buf with (okptr := not_out); wside
  | |- preserves _ (gcry_drbg_sym _ _ _ _) =>
      apply pres_sym with (okptr := not_out); wside
  | |- preserves _ (gcry_drbg_hmac _ _ _ _) =>
      apply pres_hmac with (okptr := not_out); wside
  | |- preserves _ (bind _ _) => eapply pres_bind; [exact W_trans| |intros]
  | |- preserves _ (if ?c then _ else _) => destruct c
  | |- preserves _ (match ?x with _ => _ end) => destruct x
  end.

(** The size of a piece: never more than what is left. *)
Lemma piece_fits bl len :
  len < n ->
  let outlen := if bl <? n - len then bl else n - len in
  (0 <= bl -> 0 <= len) ->
  (outlen <= 0 \/ (0 <= len /\ len + outlen <= n))
  /\ (0 <= bl -> 0 <= len + outlen).
Proof.
  intros Hlen outlen Hinv. subst outlen.
  destruct (Z.ltb_spec bl (n - len)); split; lia.
Qed.

Lemma W_ctr_generate_loop bl data : forall fuel len,
  (0 <= bl -> 0 <= len) ->
  preserves W (ctr_generate_loop G fuel bl (Mem LOut off) n data len).
Proof.
  induction fuel as [|fuel IH]; intros len Hinv; cbn [ctr_generate_loop].
  - destruct (len <? n); wstep.
  - destruct (Z.ltb_spec len n) as [Hlt|Hge]; [|wstep].
    destruct (piece_fits bl len Hlt Hinv) as [Hfit Hnext].
    repeat wstep.
    + now apply W_memcpy.
    + now apply IH.
Qed.

Lemma W_hmac_generate_loop bl data : forall fuel len,
  (0 <= bl -> 0 <= len) ->
  preserves W (hmac_generate_loop G fuel bl (Mem LOut off) n data len).
Proof.
  induction fuel as [|fuel IH]; intros len Hinv; cbn [hmac_generate_loop].
  - destruct (len <? n); wstep.
  - destruct (Z.ltb_spec len n) as [Hlt|Hge]; [|wstep].
    destruct (piece_fits bl len Hlt Hinv) as [Hfit Hnext].
    repeat wstep.
    + now apply W_memcpy.
    + now apply IH.
Qed.

Lemma W_hash_hashgen_loop sl bl data : forall fuel len,
  (0 <= bl -> 0 <= len) ->
  preserves W (hash_hashgen_loop G fuel sl bl (Mem LOut off) n
                 (Mem LScratch 0) (Mem LScratch sl) data len).
Proof.
  induction fuel as [|fuel IH]; intros len Hinv; cbn [hash_hashgen_loop].
  - destruct (len <? n); wstep.
  - destruct (Z.ltb_spec len n) as [Hlt|Hge]; [|wstep].
    destruct (piece_fits bl len Hlt Hinv) as [Hfit Hnext].
    repeat wstep.
    + now apply W_memcpy.
    + now apply IH.
Qed.

Lemma W_d_ops_update seed reseed : preserves W (d_ops_update G seed reseed).
Proof. apply pres_d_ops_update with (okptr := not_out); wside. Qed.

Lemma W_ctr_generate addtl :
  preserves W (gcry_drbg_ctr_generate G (Mem LOut off) n addtl).
Proof.
  unfold gcry_drbg_ctr_generate. repeat wstep;
    try (apply pres_ctr_update with (okptr := not_out); wside);
    apply W_ctr_generate_loop; lia.
Qed.

Lemma W_hmac_generate addtl :
  preserves W (gcry_drbg_hmac_generate G (Mem LOut off) n addtl).
Proof.
  unfold gcry_drbg_hmac_generate. repeat wstep;
    try (apply pres_hmac_update with (okptr := not_out); wside);
    apply W_hmac_generate_loop; lia.
Qed.

Lemma W_hash_hashgen :
  preserves W (gcry_drbg_hash_hashgen G (Mem LOut off) n).
Proof.
  unfold gcry_drbg_hash_hashgen. repeat wstep.
  - apply pres_memcpy with (okptr := not_out); wside.
  - apply W_hash_hashgen_loop. lia.
Qed.

Lemma W_hash_generate addtl :
  preserves W (gcry_drbg_hash_generate G (Mem LOut off) n addtl).
Proof.
  unfold gcry_drbg_hash_generate. repeat wstep;
    try (apply pres_hash_process_addtl with (okptr := not_out); wside);
    apply W_hash_hashgen.
Qed.

Lemma W_d_ops_generate addtl :
  preserves W (d_ops_generate G (Mem LOut off) n addtl).
Proof.
  unfold d_ops_generate. repeat wstep.
  - apply W_hash_generate.
  - apply W_hmac_generate.
  - apply W_ctr_generate.
Qed.

Lemma W_seed pers reseed : preserves W (gcry_drbg_seed G pers reseed).
Proof. apply pres_seed with (okptr := not_out); wside. Qed.

(** One call of [gcry_drbg_generate] writes its own bytes only. *)
Lemma generate_window addtl :
  preserves W (gcry_drbg_generate G (Mem LOut off) n addtl).
Proof.
  unfold gcry_drbg_generate. repeat wstep;
    try apply W_seed; apply W_d_ops_generate.
Qed.

End Window.

Section WindowTheorems.

Context {env : Type} (G : platform env).

(** X8.  Whenever [gcry_drbg_generate] returns, with success or with an
    error and for every mechanism, the output buffer of the caller has
    been written inside the [buflen] requested bytes at [buf] only: the
    bytes before and behind them are as they were. *)
Theorem gcry_drbg_generate_writes_request_only off buflen addtl
        (m : mach env) v m' :
  0 <= off ->
  gcry_drbg_generate G (Mem LOut off) buflen addtl m = Some (v, m') ->
  out_window off buflen m m'.
Proof.
  intros Hoff H. exact (generate_window G off buflen Hoff addtl m v m' H).
Qed.

Lemma generate_long_loop_window off buflen :
  0 <= off ->
  forall fuel len addtl (m : mach env) v m',
    0 <= len <= buflen ->
    generate_long_loop G fuel (Mem LOut (off + len)) buflen len addtl m
    = Some (v, m') ->
    out_window off buflen m m'.
Proof.
  intros Hoff. induction fuel as [|fuel IH]; intros len addtl m v m' Hlen H;
    [discriminate|].
  cbn [generate_long_loop] in H.
  change gcry_drbg_max_request_bytes with (2 ^ 16) in H.
  set (slice := (buflen - len) / 2 ^ 16) in H.
  set (chunk := if negb (slice =? 0) then 2 ^ 16 else buflen - len) in H.
  assert (Hchunk : 0 <= chunk /\ len + chunk <= buflen).
  { subst chunk. destruct (Z.eqb_spec slice 0) as [E|E]; cbn [negb];
      [lia|].
    assert (0 <= slice) by (apply Z.div_pos; lia).
    assert (2 ^ 16 * slice <= buflen - len)
      by (apply Z.mul_div_le; lia).
    lia. }
  peel H v1 m1 E1. destruct v1 as [r a].
  assert (W1 : out_window off buflen m m1).
  { pose proof (generate_window G (off + len) chunk ltac:(lia)
                                addtl m _ _ E1) as Hw.
    unfold out_window in *.
    eapply agree_widen; [exact Hw|lia|lia]. }
  destruct (is_err r); [apply ret_inv in H as [_ ->]; exact W1|].
  destruct ((slice >? 0) && (len + chunk <? buflen)) eqn:Ec.
  - cbn [ptr_add] in H. rewrite <- Z.add_assoc in H.
    apply IH in H; [|lia].
    unfold out_window in *. eapply agree_trans; eassumption.
  - apply ret_inv in H as [_ ->]. exact W1.
Qed.

(** X9.  Whenever [gcry_drbg_generate_long] returns, the output buffer
    of the caller has been written inside the [buflen] requested bytes
    at [buf] only, however many pieces the request was served in. *)
Theorem gcry_drbg_generate_long_writes_request_only off buflen addtl
        (m : mach env) v m' :
  0 <= off -> 0 <= buflen ->
  gcry_drbg_generate_long G (Mem LOut off) buflen addtl m = Some (v, m') ->
  out_window off buflen m m'.
Proof.
  intros Hoff Hb H. unfold gcry_drbg_generate_long in H.
  replace off with (off + 0) in H at 1 by lia.
  eapply (generate_long_loop_window off buflen Hoff); [|exact H]. lia.
Qed.

End WindowTheorems.

(** ** The CTR DRBG keeps [df_data] clear *)

Lemma nth_memset_zero sp a n i :
  (a <= i < a + n)%nat -> nth i (buf_write sp a (repeat 0 n)) 0 = 0.
Proof.
  intros Hi. destruct (Nat.lt_ge_cases i (length sp)) as [H|H].
  - rewrite nth_buf_write_in by (rewrite ?repeat_length; lia).
    apply nth_repeat.
  - apply nth_overflow. now rewrite buf_write_length.
Qed.

Section CtrClearInv.

Context {env : Type} (G : platform env).

Variable c : gcry_drbg_core.

Hypothesis Hbl : 0 < blocklen_bytes c < 2 ^ 15.
Hypothesis Hsl : blocklen_bytes c <= statelen c < 2 ^ 16.

Let same_core (m m' : mach env) : Prop := core (drbg m') = core (drbg m).

Lemma same_core_store p bs (m : mach env) :
  True -> same_core m (store_ptr p bs m).
Proof. intros _. destruct p as [|l o|d]; try reflexivity. now destruct l. Qed.

Ltac core_side :=
  try exact same_core_store;
  try (intros; exact I); try (intros; reflexivity);
  try (unfold same_core; intros; congruence).

Lemma ctr_update_same_core addtl f :
  preserves same_core (gcry_drbg_ctr_update G addtl f).
Proof.
  apply pres_ctr_update with (okptr := fun _ => True); core_side.
Qed.

Lemma ctr_generate_loop_same_core fuel bl buf buflen data len :
  preserves same_core (ctr_generate_loop G fuel bl buf buflen data len).
Proof.
  apply pres_ctr_generate_loop with (okptr := fun _ => True); core_side.
Qed.

Lemma ctr_update_clears addtl f (m : mach env) v m' :
  core (drbg m) = Some c -> f <> 2 ->
  gcry_drbg_ctr_update G addtl f m = Some (v, m') ->
  ctr_inv c m'.
Proof.
  intros Hc Hf H. split.
  - rewrite <- Hc. exact (ctr_update_same_core _ _ _ _ _ H).
  - unfold gcry_drbg_ctr_update in H. rewrite bind_get in H.
    unfold gcry_drbg_statelen, gcry_drbg_blocklen in H. rewrite Hc in H.
    peel H u1 m1 E1. peel H u2 m2 E2. peel H v3 m3 E3.
    destruct v3 as [r3 a3].
    peel H r4 m4 E4. peel H u5 m5 E5. peel H u6 m6 E6.
    apply ret_inv in H as [_ ->].
    assert (E : negb (f =? 2) = true)
      by (apply negb_true_iff; now apply Z.eqb_neq).
    rewrite E, memset_eq in E6. injection E6 as _ <-.
    intros i Hi. cbn. now apply nth_memset_zero.
Qed.

(** X10.  Whenever [gcry_drbg_ctr_update] returns from a call with a
    flag other than 2 (the seeding, a reseed, the update that ends a
    generate call), with success or with an error, the [df_data] area of
    the scratchpad holds zeros. *)
Theorem gcry_drbg_ctr_update_clears_df_data addtl f (m : mach env) v m' :
  core (drbg m) = Some c -> f <> 2 ->
  gcry_drbg_ctr_update G addtl f m = Some (v, m') ->
  core (drbg m') = Some c /\ df_data_clear c m'.
Proof. intros Hc Hf H. exact (ctr_update_clears _ _ _ _ _ Hc Hf H). Qed.

Lemma ctr_generate_clears buf buflen addtl (m : mach env) a m' :
  core (drbg m) = Some c ->
  gcry_drbg_ctr_generate G buf buflen addtl m = Some ((0, a), m') ->
  ctr_inv c m'.
Proof.
  intros Hc H. unfold gcry_drbg_ctr_generate in H. rewrite bind_get in H.
  unfold gcry_drbg_blocklen in H. rewrite Hc in H.
  peel H u1 m1 E1. rewrite memset_eq in E1. injection E1 as _ <-.
  set (m1 := store_ptr (Mem LScratch 0)
                       (repeat 0 (Z.to_nat (blocklen_bytes c))) m) in *.
  assert (Hc1 : core (drbg m1) = Some c) by exact Hc.
  peel H v2 m2 E2. destruct v2 as [r2 a2].
  assert (Hc2 : core (drbg m2) = Some c).
  { destruct (has_bytes addtl).
    - rewrite <- Hc1. exact (ctr_update_same_core _ _ _ _ _ E2).
    - now apply ret_inv in E2 as [_ ->]. }
  destruct (is_err r2) eqn:Er2.
  { apply ret_inv in H as [Hv _]. injection Hv as <- _.
    vm_compute in Er2. discriminate Er2. }
  peel H u3 m3 E3.
  assert (Hc3 : core (drbg m3) = Some c).
  { unfold add_buf, bind, load, store in E3. injection E3 as _ <-.
    exact Hc2. }
  peel H r4 m4 E4.
  assert (Hc4 : core (drbg m4) = Some c).
  { rewrite <- Hc3. exact (ctr_generate_loop_same_core _ _ _ _ _ _ _ _ _ E4). }
  destruct (is_err r4) eqn:Er4.
  { peel H u5 m5 E5. apply ret_inv in H as [Hv _].
    injection Hv as <- _. vm_compute in Er4. discriminate Er4. }
  peel H v5 m5 E5. destruct v5 as [r5 a5].
  assert (H32 : 3 <> 2) by discriminate.
  pose proof (ctr_update_clears _ _ _ _ _ Hc4 H32 E5) as I5.
  peel H u6 m6 E6. apply ret_inv in H as [_ ->].
  rewrite memset_eq in E6. injection E6 as _ <-.
  refine (inv_store_low c Hbl Hsl 0
            (repeat 0 (Z.to_nat (blocklen_bytes c))) m5 _ I5).
  rewrite repeat_length. lia.
Qed.

(** X11.  When [gcry_drbg_ctr_generate] returns 0, the [df_data] area
    of the scratchpad holds zeros: a call that succeeds leaves the
    instance as the next call without additional input needs it. *)
Theorem gcry_drbg_ctr_generate_success_clears_df_data buf buflen addtl
        (m : mach env) a m' :
  core (drbg m) = Some c ->
  gcry_drbg_ctr_generate G buf buflen addtl m = Some ((0, a), m') ->
  core (drbg m') = Some c /\ df_data_clear c m'.
Proof. intros Hc H. exact (ctr_generate_clears _ _ _ _ _ _ Hc H). Qed.

End CtrClearInv.

Section CtrInstance.

Context {env : Type} (G : platform env).

(** X12.  An instance of the CTR DRBG that [gcry_drbg_instantiate]
    returns with success is laid out as the functions of the mechanism
    use it: its scratchpad has room for [temp], [df_data], [pad], [iv]
    and the second [temp], and its [df_data] area holds zeros. *)
Theorem gcry_drbg_instantiate_ctr_layout pers coreref pr_ (m : mach env)
        p m' c :
  gcry_drbg_instantiate G pers coreref pr_ m = Some ((0, p), m') ->
  nth_error (gcry_drbg_cores G) (Z.to_nat coreref) = Some c ->
  ops_of_flags G (flags c) = Some gcry_drbg_ctr_ops ->
  core (drbg m') = Some c
  /\ (Z.to_nat (statelen c + blocklen_bytes c + statelen c
                + blocklen_bytes c + blocklen_bytes c + statelen c
                + blocklen_bytes c)
      <= length (scratchpad (drbg m')))%nat
  /\ df_data_clear c m'.
Proof.
  intros H Hn Hops.
  destruct (instantiate_run _ _ _ _ _ _ _ _ H)
    as (c' & Hn' & Hc & Ht & Ho & Hrun).
  rewrite Hn in Hn'. injection Hn' as <-.
  rewrite Hops in Hrun.
  destruct Hrun as [Hd [(_ & _ & _ & _ & _ & _ & Hsp & Hup)|[Hne _]]];
    [|now contradiction Hne].
  split; [exact Hc|]. split.
  - rewrite Hsp. unfold sb_size_of.
    unfold ops_of_flags in Hops.
    destruct (flag_set (flags c) (GCRY_DRBG_HMAC G)); [discriminate|].
    destruct (flag_set (flags c) (GCRY_DRBG_HASH_MASK G)); [discriminate|].
    destruct (flag_set (flags c) (GCRY_DRBG_CTR_MASK G)); [|discriminate].
    destruct (Z.ltb_spec 0 (statelen c + blocklen_bytes c + statelen c
                            + blocklen_bytes c + blocklen_bytes c
                            + statelen c + blocklen_bytes c)); lia.
  - destruct Hup as (data1 & m1 & d & m2 & Hc1 & Hd1 & Eu & Hm').
    unfold d_ops_update in Eu. rewrite bind_get, Hd1 in Eu.
    assert (H02 : 0 <> 2) by discriminate.
    destruct (ctr_update_clears G c _ _ _ _ _ Hc1 H02 Eu) as [_ Hz].
    intros i Hi. rewrite Hm'. cbn. now apply Hz.
Qed.

End CtrInstance.

(** ** The further properties on the test platform *)

(** A reseed of a Hash-SHA1 instance. *)
Lemma gcry_drbg_seed_bookkeeping_witness :
  let m := test_mach (test_state 0 gcry_drbg_hash_ops 75) 4 [] in
  exists p m',
    gcry_drbg_seed test_platform NoString 1 m = Some ((0, p), m')
    /\ same_config m m' /\ out m' = out m
    /\ seeded (drbg m') = true /\ reseed_ctr (drbg m') = 1.
Proof.
  intros m.
  destruct (gcry_drbg_seed test_platform NoString 1 m)
    as [[[r p] m']|] eqn:E; [|vm_compute in E; discriminate].
  assert (Hr : r = 0) by (vm_compute in E; now injection E as <- _ _).
  subst r. exists p, m'. split; [reflexivity|].
  destruct (gcry_drbg_seed_bookkeeping test_platform NoString 1 m 0 p m' E)
    as (Hc & Ho & H0 & _).
  destruct (H0 eq_refl) as [Hs Hctr].
  split; [exact Hc|]. split; [exact Ho|]. split; [exact Hs|exact Hctr].
Defined.

(** A personalization string of two nodes. *)
Lemma gcry_drbg_seed_ignores_unusable_pers_witness :
  let m := test_mach (test_state 0 gcry_drbg_hash_ops 75) 4 [] in
  let pers := drbg_string (Data [1]) 1 (drbg_string (Data [2]) 1 NoString) in
  gcry_drbg_seed test_platform pers 0 m
  = match gcry_drbg_seed test_platform NoString 0 m with
    | Some ((r, _), m') => Some ((r, pers), m')
    | None => None
    end.
Proof.
  intros m pers.
  apply (gcry_drbg_seed_ignores_unusable_pers test_platform pers 0 m).
  - reflexivity.
  - vm_compute. discriminate.
Defined.

(** The instantiation of the Hash-SHA1 core. *)
Lemma gcry_drbg_instantiate_success_witness :
  let m := test_mach drbg_calloc 4 [] in
  exists p m',
    gcry_drbg_instantiate test_platform NoString 0 false m
    = Some ((0, p), m')
    /\ seeded (drbg m') = true /\ reseed_ctr (drbg m') = 1
    /\ length (V (drbg m')) = 55%nat
    /\ length (scratchpad (drbg m')) = 75%nat.
Proof.
  intros m.
  destruct (gcry_drbg_instantiate test_platform NoString 0 false m)
    as [[[r p] m']|] eqn:E; [|vm_compute in E; discriminate].
  assert (Hr : r = 0) by (vm_compute in E; now injection E as <- _ _).
  subst r. exists p, m'. split; [reflexivity|].
  destruct (gcry_drbg_instantiate_success
              test_platform NoString 0 false m p m' E)
    as (c & Hn & Hc & Hd & Hdn & Hp & Hs & Hctr & HV & HC & Hsp & _).
  injection Hn as <-.
  repeat split; try assumption. apply Hsp. reflexivity.
Defined.

(** The first allocation of an instantiation fails. *)
Lemma gcry_drbg_instantiate_failure_wipes_witness :
  let m := test_mach (test_state 0 gcry_drbg_hash_ops 75) 4 [5] in
  exists r p m',
    gcry_drbg_instantiate test_platform NoString 0 false m
    = Some ((r, p), m')
    /\ r <> 0 /\ uninstantiated (drbg m').
Proof.
  intros m.
  destruct (gcry_drbg_instantiate test_platform NoString 0 false m)
    as [[[r p] m']|] eqn:E; [|vm_compute in E; discriminate].
  assert (Hr : r <> 0)
    by (vm_compute in E; injection E as <- _ _; discriminate).
  exists r, p, m'. split; [reflexivity|]. split; [exact Hr|].
  apply (gcry_drbg_instantiate_failure_wipes
           test_platform NoString 0 false m r p m'
           (Build_gcry_drbg_core 16 55 20 2) E).
  - reflexivity.
  - vm_compute. discriminate.
  - exact Hr.
Defined.

(** A request of four bytes, and one of none. *)
Lemma gcry_drbg_generate_long_one_request_witness :
  let m := test_mach (test_state 0 gcry_drbg_hash_ops 75) 4 [] in
  (gcry_drbg_generate_long test_platform (Mem LOut 0) 4 NoString m
   = gcry_drbg_generate test_platform (Mem LOut 0) 4 NoString m)
  /\ gcry_drbg_generate_long test_platform (Mem LOut 0) 0 NoString m
     = Some ((GPG_ERR_INV_ARG, NoString), m).
Proof.
  intros m. split.
  - apply (gcry_drbg_generate_long_one_request
             test_platform (Mem LOut 0) 4 NoString m). lia.
  - apply (gcry_drbg_generate_long_one_request
             test_platform (Mem LOut 0) 0 NoString m); [lia|reflexivity].
Defined.

(** A request of [2^16 + 1] bytes. *)
Lemma gcry_drbg_generate_long_pieces_witness :
  let m := test_mach (test_state 0 gcry_drbg_hash_ops 75) 4 [] in
  gcry_drbg_generate_long test_platform (Mem LOut 0) 65537 NoString m
  = (' (r, a) <- gcry_drbg_generate test_platform (Mem LOut 0) (2 ^ 16)
                                    NoString ;;
     if is_err r then ret (r, a)
     else gcry_drbg_generate_long test_platform
            (ptr_add (Mem LOut 0) (2 ^ 16)) (65537 - 2 ^ 16) a) m.
Proof.
  intros m.
  apply (gcry_drbg_generate_long_pieces
           test_platform (Mem LOut 0) 65537 NoString m). lia.
Defined.

(** Two bytes requested in the middle of a buffer of four. *)
Lemma gcry_drbg_generate_writes_request_only_witness :
  let m := test_mach (test_state 0 gcry_drbg_hash_ops 75) 4 [] in
  exists a m',
    gcry_drbg_generate test_platform (Mem LOut 1) 2 NoString m
    = Some ((0, a), m')
    /\ out_window 1 2 m m'.
Proof.
  intros m.
  destruct (gcry_drbg_generate test_platform (Mem LOut 1) 2 NoString m)
    as [[[r a] m']|] eqn:E; [|vm_compute in E; discriminate].
  assert (Hr : r = 0) by (vm_compute in E; now injection E as <- _ _).
  subst r. exists a, m'. split; [reflexivity|].
  apply (gcry_drbg_generate_writes_request_only
           test_platform 1 2 NoString m (0, a) m'); [lia|exact E].
Defined.

Lemma gcry_drbg_generate_long_writes_request_only_witness :
  let m := test_mach (test_state 4 gcry_drbg_hmac_ops 0) 4 [] in
  exists a m',
    gcry_drbg_generate_long test_platform (Mem LOut 1) 2 NoString m
    = Some ((0, a), m')
    /\ out_window 1 2 m m'.
Proof.
  intros m.
  destruct (gcry_drbg_generate_long test_platform (Mem LOut 1) 2 NoString m)
    as [[[r a] m']|] eqn:E; [|vm_compute in E; discriminate].
  assert (Hr : r = 0) by (vm_compute in E; now injection E as <- _ _).
  subst r. exists a, m'. split; [reflexivity|].
  apply (gcry_drbg_generate_long_writes_request_only
           test_platform 1 2 NoString m (0, a) m'); [lia|lia|exact E].
Defined.

(** A reseed-style update of the AES-128 instance, started with a
    [df_data] that is not clear. *)
Lemma gcry_drbg_ctr_update_clears_df_data_witness :
  let c := Build_gcry_drbg_core 8193 32 16 7 in
  let st := set_scratchpad (repeat 9 160)
                           (test_state 8 gcry_drbg_ctr_ops 160) in
  let m := test_mach st 4 [] in
  exists v m',
    gcry_drbg_ctr_update test_platform
      (drbg_string (Data [1; 2; 3]) 3 NoString) 1 m = Some (v, m')
    /\ core (drbg m') = Some c /\ df_data_clear c m'.
Proof.
  intros c st m.
  destruct (gcry_drbg_ctr_update test_platform
              (drbg_string (Data [1; 2; 3]) 3 NoString) 1 m)
    as [[v m']|] eqn:E; [|vm_compute in E; discriminate].
  exists v, m'. split; [reflexivity|].
  apply (gcry_drbg_ctr_update_clears_df_data
           test_platform c
           (drbg_string (Data [1; 2; 3]) 3 NoString) 1 m v m');
    [reflexivity|discriminate|exact E].
Defined.

Lemma gcry_drbg_ctr_generate_success_clears_df_data_witness :
  let c := Build_gcry_drbg_core 8193 32 16 7 in
  let m := test_mach (test_state 8 gcry_drbg_ctr_ops 160) 16 [] in
  exists a m',
    gcry_drbg_ctr_generate test_platform (Mem LOut 0) 16
      (drbg_string (Data [1; 2; 3]) 3 NoString) m = Some ((0, a), m')
    /\ core (drbg m') = Some c /\ df_data_clear c m'.
Proof.
  intros c m.
  destruct (gcry_drbg_ctr_generate test_platform (Mem LOut 0) 16
              (drbg_string (Data [1; 2; 3]) 3 NoString) m)
    as [[[r a] m']|] eqn:E; [|vm_compute in E; discriminate].
  assert (Hr : r = 0) by (vm_compute in E; now injection E as <- _ _).
  subst r. exists a, m'. split; [reflexivity|].
  apply (gcry_drbg_ctr_generate_success_clears_df_data
           test_platform c ltac:(cbn; lia) ltac:(cbn; lia)
           (Mem LOut 0) 16 (drbg_string (Data [1; 2; 3]) 3 NoString)
           m a m'); [reflexivity|exact E].
Defined.

(** The instantiation of the AES-128 core. *)
Lemma gcry_drbg_instantiate_ctr_layout_witness :
  let c := Build_gcry_drbg_core 8193 32 16 7 in
  let m := test_mach drbg_calloc 4 [] in
  exists p m',
    gcry_drbg_instantiate test_platform NoString 8 false m
    = Some ((0, p), m')
    /\ core (drbg m') = Some c
    /\ (160 <= length (scratchpad (drbg m')))%nat
    /\ df_data_clear c m'.
Proof.
  intros c m.
  destruct (gcry_drbg_instantiate test_platform NoString 8 false m)
    as [[[r p] m']|] eqn:E; [|vm_compute in E; discriminate].
  assert (Hr : r = 0) by (vm_compute in E; now injection E as <- _ _).
  subst r. exists p, m'. split; [reflexivity|].
  apply (gcry_drbg_instantiate_ctr_layout
           test_platform NoString 8 false m p m' c E); reflexivity.
Defined.

(** ** Blocks of a request *)

Lemma req_blocks_last bl k : 0 < bl -> 0 < k <= bl -> req_blocks bl k = 1%nat.
Proof.
  intros Hb Hk. unfold req_blocks.
  replace ((k + bl - 1) / bl) with 1; [reflexivity|].
  apply Z.div_unique with (r := k - 1); lia.
Qed.

Lemma req_blocks_more bl k :
  0 < bl -> bl < k -> req_blocks bl k = S (req_blocks bl (k - bl)).
Proof.
  intros Hb Hk. unfold req_blocks.
  replace (k + bl - 1) with ((k - bl + bl - 1) + 1 * bl) by lia.
  rewrite Z.div_add by lia.
  rewrite Z2Nat.inj_add; [|apply Z.div_pos; lia|lia].
  change (Z.to_nat 1) with 1%nat. lia.
Qed.

Lemma req_blocks_none bl k : 0 < bl -> k <= 0 -> req_blocks bl k = 0%nat.
Proof.
  intros Hb Hk. unfold req_blocks.
  assert ((k + bl - 1) / bl < 1); [|lia].
  apply Z.div_lt_upper_bound; lia.
Qed.

(** ** The HMAC DRBG against SP 800-90A *)

Lemma chain_bytes_off {env} (s : gcry_drbg_string) (m m' : mach env) :
  (forall l, chain_off l s \/ buf_of m' l = buf_of m l) ->
  chain_bytes m' s = chain_bytes m s.
Proof.
  induction s as [|p n nx IH]; intros H; [reflexivity|].
  cbn [chain_bytes]. f_equal.
  - destruct p as [|l o|d]; try reflexivity.
    cbn [load_ptr]. destruct (H l) as [[Hl _]|E]; [now elim Hl|].
    now rewrite E.
  - apply IH. intros l. destruct (H l) as [[_ Hl]|E]; [now left|now right].
Qed.

Lemma buf_read_all sp : buf_read sp 0 (length sp) = sp.
Proof. unfold buf_read. cbn [skipn]. apply firstn_all. Qed.

Lemma buf_write_all sp bs :
  length bs = length sp -> buf_write sp 0 bs = bs.
Proof.
  intros H. rewrite <- (app_nil_r sp).
  rewrite (buf_write_exact bs sp []) by now symmetry.
  apply app_nil_r.
Qed.

Section HmacDrbg.

Context {env : Type} (G : platform env).

Variable c : gcry_drbg_core.

Let sl := statelen c.
Let bl := blocklen_bytes c.
Let HMAC := core_hmac G c.

(** The cores of the HMAC DRBG: the state is as long as a digest. *)
Hypothesis Hsl : statelen c = blocklen_bytes c.
Hypothesis Hdig : forall k d, length (HMAC k d) = Z.to_nat (blocklen_bytes c).

Let inv (m : mach env) : Prop :=
  core (drbg m) = Some c
  /\ length (V (drbg m)) = Z.to_nat sl
  /\ length (C (drbg m)) = Z.to_nat sl.

(** What a run wrote outside [V] and [C]. *)
Let rest (m m' : mach env) : Prop :=
  scratchpad (drbg m') = scratchpad (drbg m) /\ out m' = out m.

Lemma chain_bytes_be (s : gcry_drbg_string) (m : mach env) b :
  chain_bytes (with_be m b) s = chain_bytes m s.
Proof.
  apply chain_bytes_off. intros l. right. destruct l; reflexivity.
Qed.

(** One call of the keyed digest, the key in [C]. *)
Lemma hmac_keyed outval buf (m : mach env) r m' :
  core (drbg m) = Some c ->
  gcry_drbg_hmac G (Mem LC 0) outval buf m = Some (r, m') ->
  r = 0 ->
  exists b,
    m' = store_ptr outval
           (firstn (Z.to_nat bl)
                   (HMAC (load_ptr m (Mem LC 0) sl) (chain_bytes m buf)))
           (with_be m b).
Proof.
  intros Hc H Hr. unfold gcry_drbg_hmac in H.
  cbv beta iota delta [bind get_core get_drbg] in H. rewrite Hc in H.
  cbv beta iota delta [ret is_null negb] in H.
  unfold gcry_drbg_statelen, gcry_drbg_blocklen in H. rewrite Hc in H.
  fold sl bl in H.
  unfold call in H.
  destruct (backend G (be m) (md_open (backend_cipher c) true)) as [e1 b1].
  destruct (is_err e1) eqn:E1.
  { injection H as <- _. subst e1. discriminate. }
  cbv beta iota delta [load] in H.
  cbn [drbg out be] in H.
  destruct (backend G b1 (md_setkey _)) as [e2 b2] eqn:Eb in H.
  destruct (is_err e2) eqn:E2.
  { injection H as <- _. subst e2. discriminate. }
  cbv beta iota delta [read_chain store] in H.
  injection H as _ <-. exists b2. cbn [load_ptr buf_of drbg].
  fold (with_be m b2). rewrite chain_bytes_be.
  reflexivity.
Qed.

Lemma inv_loads (m : mach env) :
  inv m ->
  load_ptr m (Mem LC 0) sl = C (drbg m)
  /\ load_ptr m (Mem LV 0) sl = V (drbg m).
Proof.
  intros (_ & HV & HC). cbn [load_ptr buf_of]. change (Z.to_nat 0) with 0%nat.
  split; [rewrite <- HC|rewrite <- HV]; apply buf_read_all.
Qed.

Lemma firstn_digest k d : firstn (Z.to_nat bl) (HMAC k d) = HMAC k d.
Proof. apply firstn_all2. rewrite Hdig. apply Nat.le_refl. Qed.

(** One round of [gcry_drbg_hmac_update]: the digest for the key, then
    the digest for [V]. *)
Lemma hmac_round_run prefix seed (m : mach env) r1 m1 r2 m2 :
  inv m -> chain_off LV seed -> chain_off LC seed ->
  gcry_drbg_hmac G (Mem LC 0) (Mem LC 0)
    (drbg_string (Mem LV 0) sl (drbg_string (Data [prefix]) 1 seed)) m
  = Some (r1, m1) ->
  r1 = 0 ->
  gcry_drbg_hmac G (Mem LC 0) (Mem LV 0)
    (gcry_drbg_string_fill (Mem LV 0) sl) m1 = Some (r2, m2) ->
  r2 = 0 ->
  inv m2 /\ rest m m2
  /\ (C (drbg m2), V (drbg m2))
     = HMAC_DRBG_round HMAC prefix (chain_bytes m seed)
                       (C (drbg m), V (drbg m))
  /\ chain_bytes m2 seed = chain_bytes m seed.
Proof.
  intros Hi HoV HoC H1 Hr1 H2 Hr2.
  destruct (inv_loads m Hi) as [LC_ LV_].
  destruct Hi as (Hc & HV & HC).
  destruct (hmac_keyed _ _ _ _ _ Hc H1 Hr1) as [b1 E1].
  rewrite LC_, firstn_digest in E1.
  cbn [chain_bytes] in E1. rewrite LV_ in E1.
  change (load_ptr m (Data [prefix]) 1) with [prefix] in E1.
  cbn [app] in E1.
  set (K1 := HMAC (C (drbg m)) (V (drbg m) ++ prefix :: chain_bytes m seed))
    in E1.
  assert (E1' : m1 = {| drbg := set_C K1 (drbg m); out := out m; be := b1 |}).
  { rewrite E1. cbn [store_ptr set_buf buf_of with_be drbg out be].
    change (Z.to_nat 0) with 0%nat.
    rewrite buf_write_all; [reflexivity|].
    unfold K1. rewrite Hdig, HC. unfold sl. now rewrite Hsl. }
  clear E1. subst m1.
  assert (Hi1 : inv {| drbg := set_C K1 (drbg m); out := out m; be := b1 |}).
  { repeat split; cbn; try assumption.
    unfold K1. rewrite Hdig. unfold sl. now rewrite Hsl. }
  destruct (inv_loads _ Hi1) as [LC1 LV1].
  destruct (hmac_keyed _ _ _ _ _ (proj1 Hi1) H2 Hr2) as [b2 E2].
  rewrite LC1, firstn_digest in E2.
  unfold gcry_drbg_string_fill in E2. cbn [chain_bytes] in E2.
  rewrite LV1, app_nil_r in E2.
  cbn [drbg set_C C V] in E2.
  assert (E2' : m2 = {| drbg := set_V (HMAC K1 (V (drbg m)))
                                      (set_C K1 (drbg m));
                        out := out m; be := b2 |}).
  { rewrite E2. cbn [store_ptr set_buf buf_of with_be drbg out be set_C V].
    change (Z.to_nat 0) with 0%nat.
    rewrite buf_write_all; [reflexivity|].
    rewrite Hdig, HV. unfold sl. now rewrite Hsl. }
  clear E2. subst m2.
  split.
  { repeat split; cbn; try assumption.
    - rewrite Hdig. unfold sl. now rewrite Hsl.
    - unfold K1. rewrite Hdig. unfold sl. now rewrite Hsl. }
  split; [now split|]. split; [reflexivity|].
  apply chain_bytes_off. intros l.
  destruct l; [now left|now left|now right|now right].
Qed.

Lemma hmac_update_for_run seed (m : mach env) r m' :
  inv m -> chain_off LV seed -> chain_off LC seed ->
  hmac_update_for G 2 sl seed m = Some (r, m') -> r = 0 ->
  inv m' /\ rest m m'
  /\ (C (drbg m'), V (drbg m'))
     = HMAC_DRBG_Update HMAC (has_bytes seed) (chain_bytes m seed)
                        (C (drbg m), V (drbg m)).
Proof.
  intros Hi HoV HoC H Hr.
  cbn [hmac_update_for Nat.eqb] in H.
  peel H r1 m1 E1. destruct (is_err r1) eqn:Er1.
  { apply ret_inv in H. destruct H as [-> _]. rewrite Hr in Er1.
    discriminate. }
  peel H r2 m2 E2. destruct (is_err r2) eqn:Er2.
  { apply ret_inv in H. destruct H as [-> _]. rewrite Hr in Er2.
    discriminate. }
  destruct (hmac_round_run 0 seed m r1 m1 r2 m2 Hi HoV HoC E1
              (is_err_false _ Er1) E2 (is_err_false _ Er2))
    as (Hi2 & [Hs2 Ho2] & Hkv2 & Hd2).
  unfold HMAC_DRBG_Update. rewrite <- Hkv2.
  destruct (has_bytes seed) eqn:Hb; cbn [negb] in H.
  - peel H r3 m3 E3. destruct (is_err r3) eqn:Er3.
    { apply ret_inv in H. destruct H as [-> _]. rewrite Hr in Er3.
    discriminate. }
    peel H r4 m4 E4. destruct (is_err r4) eqn:Er4.
    { apply ret_inv in H. destruct H as [-> _]. rewrite Hr in Er4.
    discriminate. }
    apply ret_inv in H. destruct H as [_ ->].
    destruct (hmac_round_run 1 seed m2 r3 m3 r4 m4 Hi2 HoV HoC E3
                (is_err_false _ Er3) E4 (is_err_false _ Er4))
      as (Hi4 & [Hs4 Ho4] & Hkv4 & _).
    split; [exact Hi4|]. split; [split; congruence|].
    rewrite Hkv4, Hd2. reflexivity.
  - apply ret_inv in H. destruct H as [_ ->].
    split; [exact Hi2|]. split; [now split|]. reflexivity.
Qed.

Lemma hmac_update_run seed reseed (m : mach env) a m' :
  inv m -> chain_off LV seed -> chain_off LC seed ->
  gcry_drbg_hmac_update G seed reseed m = Some ((0, a), m') ->
  inv m' /\ rest m m'
  /\ (C (drbg m'), V (drbg m'))
     = HMAC_DRBG_Update HMAC (has_bytes seed) (chain_bytes m seed)
         (C (drbg m),
          if reseed =? 0 then repeat 1 (Z.to_nat sl) else V (drbg m)).
Proof.
  intros Hi HoV HoC H.
  unfold gcry_drbg_hmac_update in H. rewrite bind_get in H.
  unfold gcry_drbg_statelen in H. rewrite (proj1 Hi) in H. fold sl in H.
  peel H u m0 E0. peel H r m1 E1. apply ret_inv in H.
  destruct H as [H ->]. injection H as <- _.
  assert (D : inv m0 /\ rest m m0 /\ C (drbg m0) = C (drbg m)
              /\ V (drbg m0) = (if reseed =? 0 then repeat 1 (Z.to_nat sl)
                                else V (drbg m))
              /\ chain_bytes m0 seed = chain_bytes m seed).
  { destruct Hi as (Hc & HV & HC). destruct (reseed =? 0).
    - rewrite memset_eq in E0. injection E0 as _ <-.
      cbn [store_ptr set_buf buf_of drbg out]. change (Z.to_nat 0) with 0%nat.
      rewrite buf_write_all by (now rewrite repeat_length).
      repeat split; cbn; try assumption; try reflexivity.
      + apply repeat_length.
      + apply chain_bytes_off. intros l.
        destruct l; [now left|now right|now right|now right].
    - apply ret_inv in E0. destruct E0 as [_ ->]. now repeat split. }
  destruct D as (Hi0 & [Hs0 Ho0] & HC0 & HV0 & Hd0).
  destruct (hmac_update_for_run seed m0 0 m1 Hi0 HoV HoC E1 eq_refl)
    as (Hi1 & [Hs1 Ho1] & Hkv).
  split; [exact Hi1|]. split; [split; congruence|].
  rewrite Hkv, Hd0, HC0, HV0. reflexivity.
Qed.

(** X13.  On an instance of an HMAC core ([V] and the key [C] as long as
    a digest) a successful [gcry_drbg_hmac_update] computes the update
    function of SP 800-90A 10.1.2.2 on the bytes of the seed chain: the
    round with prefix 0x00 and, when the first node of the chain has
    bytes, the round with prefix 0x01.  For the seeding ([reseed = 0])
    it starts from a [V] of 0x01 bytes.  The scratchpad and the output
    buffer are as they were. *)
Theorem gcry_drbg_hmac_update_computes seed reseed (m : mach env) a m' :
  core (drbg m) = Some c ->
  length (V (drbg m)) = Z.to_nat (statelen c) ->
  length (C (drbg m)) = Z.to_nat (statelen c) ->
  chain_off LV seed -> chain_off LC seed ->
  gcry_drbg_hmac_update G seed reseed m = Some ((0, a), m') ->
  (C (drbg m'), V (drbg m'))
  = HMAC_DRBG_Update (core_hmac G c) (has_bytes seed) (chain_bytes m seed)
      (C (drbg m),
       if reseed =? 0 then repeat 1 (Z.to_nat (statelen c))
       else V (drbg m))
  /\ scratchpad (drbg m') = scratchpad (drbg m) /\ out m' = out m.
Proof.
  intros Hc HV HC HoV HoC H.
  destruct (hmac_update_run seed reseed m a m' (conj Hc (conj HV HC))
              HoV HoC H) as (_ & [Hs Ho] & Hkv).
  split; [exact Hkv|]. now split.
Qed.

Hypothesis Hpos : 0 < blocklen_bytes c.

Let blocks := req_blocks bl.

Let blocks_last k : 0 < k <= bl -> blocks k = 1%nat := req_blocks_last bl k Hpos.
Let blocks_more k : bl < k -> blocks k = S (blocks (k - bl)) := req_blocks_more bl k Hpos.
Let blocks_none k : k <= 0 -> blocks k = 0%nat := req_blocks_none bl k Hpos.

Lemma hmac_generate_loop_run off buflen : forall fuel len (m : mach env) r m',
  inv m -> 0 <= off -> 0 <= len ->
  (Z.to_nat (off + buflen) <= length (out m))%nat ->
  hmac_generate_loop G fuel bl (Mem LOut off) buflen
    (gcry_drbg_string_fill (Mem LV 0) sl) len m = Some (r, m') ->
  r = 0 ->
  inv m'
  /\ C (drbg m') = C (drbg m)
  /\ scratchpad (drbg m') = scratchpad (drbg m)
  /\ V (drbg m')
     = HMAC_DRBG_V HMAC (C (drbg m)) (V (drbg m)) (blocks (buflen - len))
  /\ out m'
     = buf_write (out m) (Z.to_nat (off + len))
         (firstn (Z.to_nat (buflen - len))
            (HMAC_DRBG_temp HMAC (C (drbg m)) (V (drbg m))
                            (blocks (buflen - len)))).
Proof.
  induction fuel as [|fuel IH]; intros len m r m' Hi Hoff Hlen Hout H Hr;
    cbn [hmac_generate_loop] in H;
    destruct (len <? buflen) eqn:E; try discriminate;
    try (apply Z.ltb_ge in E; apply ret_inv in H; destruct H as [_ ->];
         rewrite blocks_none by lia; cbn [HMAC_DRBG_V HMAC_DRBG_temp];
         rewrite firstn_nil, buf_write_nil;
         split; [exact Hi|now repeat split]).
  apply Z.ltb_lt in E.
  peel H r1 m1 E1. destruct (is_err r1) eqn:Er1.
  { apply ret_inv in H. destruct H as [-> _]. rewrite Hr in Er1.
    discriminate. }
  destruct (inv_loads m Hi) as [LC_ LV_].
  destruct (hmac_keyed _ _ _ _ _ (proj1 Hi) E1 (is_err_false _ Er1))
    as [b1 Em1].
  rewrite LC_, firstn_digest in Em1.
  unfold gcry_drbg_string_fill in Em1. cbn [chain_bytes] in Em1.
  rewrite LV_, app_nil_r in Em1.
  set (V1 := HMAC (C (drbg m)) (V (drbg m))) in Em1.
  assert (HV1 : length V1 = Z.to_nat bl) by apply Hdig.
  assert (Em1' : m1 = {| drbg := set_V V1 (drbg m); out := out m;
                         be := b1 |}).
  { rewrite Em1. cbn [store_ptr set_buf buf_of with_be drbg out be].
    change (Z.to_nat 0) with 0%nat.
    rewrite buf_write_all; [reflexivity|].
    rewrite HV1. destruct Hi as (_ & HV & _). rewrite HV. unfold sl, bl.
    now rewrite Hsl. }
  clear Em1 E1. subst m1.
  peel H u m2 E2. rewrite memcpy_eq in E2. injection E2 as _ <-.
  cbn [ptr_add load_ptr buf_of drbg set_V V store_ptr set_buf out] in H.
  change (Z.to_nat 0) with 0%nat in H.
  set (outlen := if bl <? buflen - len then bl else buflen - len) in H.
  assert (Hol : 0 < outlen <= bl /\ outlen <= buflen - len).
  { unfold outlen. destruct (bl <? buflen - len) eqn:Eb.
    - apply Z.ltb_lt in Eb. unfold bl in *. lia.
    - apply Z.ltb_ge in Eb. lia. }
  assert (Hrd : buf_read V1 0 (Z.to_nat outlen) = firstn (Z.to_nat outlen) V1)
    by reflexivity.
  rewrite Hrd in H.
  match type of H with
  | hmac_generate_loop _ _ _ _ _ _ _ ?mm = _ => set (m2 := mm) in H
  end.
  assert (Hi2 : inv m2).
  { destruct Hi as (Hc & HV & HC). repeat split; cbn; try assumption.
    rewrite HV1. unfold sl, bl. now rewrite Hsl. }
  assert (Hout2 : (Z.to_nat (off + buflen) <= length (out m2))%nat).
  { cbn [m2 out]. now rewrite buf_write_length. }
  destruct (IH (len + outlen) m2 r m' Hi2 Hoff ltac:(lia) Hout2 H Hr)
    as (Hi' & HC' & Hs' & HV' & Ho').
  cbn [m2 drbg out set_V C V scratchpad] in HC', Hs', HV', Ho'.
  split; [exact Hi'|]. split; [exact HC'|]. split; [exact Hs'|].
  assert (Hn : blocks (buflen - len)
               = S (blocks (buflen - (len + outlen)))).
  { unfold outlen. destruct (bl <? buflen - len) eqn:Eb.
    - apply Z.ltb_lt in Eb. rewrite (blocks_more (buflen - len)) by exact Eb.
      do 2 f_equal. lia.
    - apply Z.ltb_ge in Eb. rewrite blocks_last by lia.
      rewrite blocks_none by lia. reflexivity. }
  rewrite Hn. cbn [HMAC_DRBG_V HMAC_DRBG_temp]. fold V1.
  split; [exact HV'|].
  rewrite Ho'.
  assert (Hl1 : length (firstn (Z.to_nat outlen) V1) = Z.to_nat outlen).
  { rewrite length_firstn, HV1. lia. }
  replace (Z.to_nat (off + (len + outlen)))
    with (Z.to_nat (off + len) + length (firstn (Z.to_nat outlen) V1))%nat
    by (rewrite Hl1; lia).
  rewrite buf_write_compose. f_equal.
  rewrite firstn_app, HV1.
  unfold outlen. destruct (bl <? buflen - len) eqn:Eb.
  - apply Z.ltb_lt in Eb.
    rewrite !firstn_all2 with (l := V1) by (rewrite HV1; lia).
    f_equal. f_equal. lia.
  - apply Z.ltb_ge in Eb. f_equal.
    replace (Z.to_nat (buflen - (len + (buflen - len)))) with 0%nat by lia.
    replace (Z.to_nat (buflen - len) - Z.to_nat bl)%nat with 0%nat by lia.
    reflexivity.
Qed.

Lemma has_bytes_set_next addtl :
  has_bytes (set_next addtl NoString) = has_bytes addtl.
Proof. now destruct addtl. Qed.

Lemma set_next_idem addtl :
  set_next (set_next addtl NoString) NoString = set_next addtl NoString.
Proof. now destruct addtl. Qed.

Lemma hmac_generate_run off buflen addtl (m : mach env) a m' :
  inv m -> 0 <= off ->
  (Z.to_nat (off + buflen) <= length (out m))%nat ->
  (forall l, l <> LScratch -> chain_off l (set_next addtl NoString)) ->
  gcry_drbg_hmac_generate G (Mem LOut off) buflen addtl m
  = Some ((0, a), m') ->
  let data := chain_bytes m (set_next addtl NoString) in
  let KV1 := if has_bytes addtl
             then HMAC_DRBG_Update HMAC true data (C (drbg m), V (drbg m))
             else (C (drbg m), V (drbg m)) in
  out m'
  = buf_write (out m) (Z.to_nat off)
      (firstn (Z.to_nat buflen)
              (HMAC_DRBG_temp HMAC (fst KV1) (snd KV1) (blocks buflen)))
  /\ (C (drbg m'), V (drbg m'))
     = HMAC_DRBG_Update HMAC (has_bytes addtl) data
         (fst KV1, HMAC_DRBG_V HMAC (fst KV1) (snd KV1) (blocks buflen))
  /\ scratchpad (drbg m') = scratchpad (drbg m).
Proof.
  intros Hi Hoff Hout Hch H data KV1.
  assert (HoV := Hch LV ltac:(discriminate)).
  assert (HoC := Hch LC ltac:(discriminate)).
  assert (HoO := Hch LOut ltac:(discriminate)).
  unfold gcry_drbg_hmac_generate in H. rewrite bind_get in H.
  unfold gcry_drbg_statelen, gcry_drbg_blocklen in H.
  rewrite (proj1 Hi) in H. fold sl bl in H.
  peel H ra m1 E1. destruct ra as [r1 a1].
  destruct (is_err r1) eqn:Er1.
  { apply ret_inv in H. destruct H as [H _]. injection H as <- _.
    discriminate. }
  apply is_err_false in Er1. subst r1.
  assert (D : inv m1 /\ rest m m1
              /\ (C (drbg m1), V (drbg m1)) = KV1
              /\ set_next a1 NoString = set_next addtl NoString).
  { unfold KV1. destruct (has_bytes addtl) eqn:Hb.
    - assert (Ea : a1 = set_next addtl NoString).
      { unfold gcry_drbg_hmac_update in E1. rewrite bind_get in E1.
        peel E1 u0 m00 E00. peel E1 r0 m01 E01. apply ret_inv in E1.
        destruct E1 as [E1 _]. now injection E1 as _ <-. }
      destruct (hmac_update_run _ 1 m a1 m1 Hi HoV HoC E1)
        as (Hi1 & Hr1 & Hkv).
      rewrite has_bytes_set_next, Hb in Hkv.
      change (1 =? 0) with false in Hkv. cbv iota in Hkv.
      split; [exact Hi1|]. split; [exact Hr1|]. split; [exact Hkv|].
      rewrite Ea. apply set_next_idem.
    - apply ret_inv in E1. destruct E1 as [E1 ->]. injection E1 as <-.
      split; [exact Hi|]. split; [now split|]. now split. }
  destruct D as (Hi1 & [Hs1 Ho1] & Hkv1 & Ea).
  rewrite Ea in H. clear Ea E1.
  peel H r2 m2 E2. destruct (is_err r2) eqn:Er2.
  { apply ret_inv in H. destruct H as [H _]. injection H as <- _.
    discriminate. }
  apply is_err_false in Er2.
  destruct (hmac_generate_loop_run off buflen _ 0 m1 r2 m2 Hi1 Hoff
              ltac:(lia) ltac:(now rewrite Ho1) E2 Er2)
    as (Hi2 & HC2 & Hs2 & HV2 & Ho2).
  rewrite Z.sub_0_r, Z.add_0_r in Ho2. rewrite Z.sub_0_r in HV2.
  assert (Hd2 : chain_bytes m2 (set_next addtl NoString) = data).
  { unfold data. apply chain_bytes_off. intros l.
    destruct l; [now left|now left|right|now left].
    cbn [buf_of]. congruence. }
  destruct (hmac_update_run _ 1 m2 a m' Hi2 HoV HoC H)
    as (_ & [Hs3 Ho3] & Hkv3).
  rewrite has_bytes_set_next, Hd2 in Hkv3.
  change (1 =? 0) with false in Hkv3. cbv iota in Hkv3.
  rewrite <- Hkv1. cbn [fst snd].
  split; [rewrite Ho3, Ho2, Ho1; reflexivity|].
  split; [rewrite Hkv3, HC2, HV2; reflexivity|]. congruence.
Qed.

(** X14.  On an instance of an HMAC core a successful
    [gcry_drbg_hmac_generate] computes the generate function of
    SP 800-90A 10.1.2.5.  With additional input the state is first
    updated with it; the request is the leftmost [buflen] bytes of
    [V1 || V2 || ...], [Vi = HMAC (K, Vi-1)], written at the address of
    the caller; the state is then updated once more with the additional
    input, from the last [V].  The additional input is the first node of
    [addtl] alone. *)
Theorem gcry_drbg_hmac_generate_computes off buflen addtl (m : mach env)
        a m' :
  core (drbg m) = Some c ->
  length (V (drbg m)) = Z.to_nat (statelen c) ->
  length (C (drbg m)) = Z.to_nat (statelen c) ->
  0 <= off ->
  (Z.to_nat (off + buflen) <= length (out m))%nat ->
  (forall l, l <> LScratch -> chain_off l (set_next addtl NoString)) ->
  gcry_drbg_hmac_generate G (Mem LOut off) buflen addtl m
  = Some ((0, a), m') ->
  let data := chain_bytes m (set_next addtl NoString) in
  let KV1 := if has_bytes addtl
             then HMAC_DRBG_Update (core_hmac G c) true data
                                   (C (drbg m), V (drbg m))
             else (C (drbg m), V (drbg m)) in
  let n := req_blocks (blocklen_bytes c) buflen in
  out m'
  = buf_write (out m) (Z.to_nat off)
      (firstn (Z.to_nat buflen)
              (HMAC_DRBG_temp (core_hmac G c) (fst KV1) (snd KV1) n))
  /\ (C (drbg m'), V (drbg m'))
     = HMAC_DRBG_Update (core_hmac G c) (has_bytes addtl) data
         (fst KV1, HMAC_DRBG_V (core_hmac G c) (fst KV1) (snd KV1) n)
  /\ scratchpad (drbg m') = scratchpad (drbg m).
Proof.
  intros Hc HV HC Hoff Hout Hch H.
  exact (hmac_generate_run off buflen addtl m a m' (conj Hc (conj HV HC))
           Hoff Hout Hch H).
Qed.

End HmacDrbg.

(** The seeding of an HMAC-SHA1 instance from three bytes. *)
Lemma gcry_drbg_hmac_update_computes_witness :
  let c := Build_gcry_drbg_core 4112 20 20 2 in
  let m := test_mach (test_state 4 gcry_drbg_hmac_ops 0) 4 [] in
  let seed := drbg_string (Data [1; 2; 3]) 3 NoString in
  exists a m',
    gcry_drbg_hmac_update test_platform seed 0 m = Some ((0, a), m')
    /\ (C (drbg m'), V (drbg m'))
       = HMAC_DRBG_Update (core_hmac test_platform c) true [1; 2; 3]
                          (repeat 0 20, repeat 1 20).
Proof.
  intros c m seed.
  destruct (gcry_drbg_hmac_update test_platform seed 0 m)
    as [[[r a] m']|] eqn:E; [|vm_compute in E; discriminate].
  assert (Hr : r = 0) by (vm_compute in E; now injection E as <- _ _).
  subst r. exists a, m'. split; [reflexivity|].
  assert (Hdig : forall k d,
             length (core_hmac test_platform c k d) = Z.to_nat 20).
  { intros k d. unfold core_hmac. cbn [md_digest test_platform
      test_platform_with backend_cipher c].
    unfold test_md_digest. now rewrite length_map, length_seq. }
  exact (proj1 (gcry_drbg_hmac_update_computes test_platform c eq_refl Hdig
                  seed 0 m a m' eq_refl eq_refl eq_refl
                  (conj I I) (conj I I) E)).
Defined.

(** A request of 30 bytes, two digests of SHA-1, with additional input,
    written at offset 1 of a buffer of 32 bytes. *)
Lemma gcry_drbg_hmac_generate_computes_witness :
  let c := Build_gcry_drbg_core 4112 20 20 2 in
  let H := core_hmac test_platform c in
  let m := test_mach (test_state 4 gcry_drbg_hmac_ops 0) 32 [] in
  let addtl := drbg_string (Data [1; 2; 3]) 3 NoString in
  let KV1 := HMAC_DRBG_Update H true [1; 2; 3] (repeat 0 20, repeat 0 20) in
  exists a m',
    gcry_drbg_hmac_generate test_platform (Mem LOut 1) 30 addtl m
    = Some ((0, a), m')
    /\ out m'
       = buf_write (repeat 0 32) 1
           (firstn 30 (HMAC_DRBG_temp H (fst KV1) (snd KV1) 2))
    /\ (C (drbg m'), V (drbg m'))
       = HMAC_DRBG_Update H true [1; 2; 3]
           (fst KV1, HMAC_DRBG_V H (fst KV1) (snd KV1) 2).
Proof.
  intros c H m addtl KV1.
  destruct (gcry_drbg_hmac_generate test_platform (Mem LOut 1) 30 addtl m)
    as [[[r a] m']|] eqn:E; [|vm_compute in E; discriminate].
  assert (Hr : r = 0) by (vm_compute in E; now injection E as <- _ _).
  subst r. exists a, m'. split; [reflexivity|].
  assert (Hdig : forall k d,
             length (core_hmac test_platform c k d) = Z.to_nat 20).
  { intros k d. unfold core_hmac. cbn [md_digest test_platform
      test_platform_with backend_cipher c].
    unfold test_md_digest. now rewrite length_map, length_seq. }
  destruct (gcry_drbg_hmac_generate_computes test_platform c eq_refl Hdig
              ltac:(cbn; lia) 1 30 addtl m a m' eq_refl eq_refl eq_refl
              ltac:(lia) ltac:(apply Nat.leb_le; reflexivity)
              ltac:(intros l _; split; exact I) E)
    as (Ho & Hkv & _).
  split; [exact Ho|exact Hkv].
Defined.

(** ** Big-endian numbers of a fixed length *)

Lemma be_bytes_length : forall n x, length (be_bytes n x) = n.
Proof.
  induction n as [|n IH]; intros x; [reflexivity|].
  cbn [be_bytes]. rewrite length_app, IH. cbn. lia.
Qed.

Lemma be_bytes_bytes : forall n x, bytes (be_bytes n x).
Proof.
  induction n as [|n IH]; intros x; [constructor|].
  cbn [be_bytes]. apply bytes_app. split; [apply IH|].
  apply bytes_single. unfold is_byte. apply Z.mod_pos_bound. lia.
Qed.

Lemma be_int_be_bytes : forall n x,
  be_int (be_bytes n x) = x mod 256 ^ Z.of_nat n.
Proof.
  induction n as [|n IH]; intros x.
  - cbn. now rewrite Z.mod_1_r.
  - cbn [be_bytes]. rewrite be_int_app, be_int_single, IH. cbn [length].
    change (256 ^ Z.of_nat 1) with 256.
    rewrite Nat2Z.inj_succ, Z.pow_succ_r by lia.
    rewrite (Z.mul_comm 256).
    rewrite <- mod_push_digit;
      [|apply Z.pow_pos_nonneg; lia|lia|apply Z.mod_pos_bound; lia].
    f_equal. pose proof (Z.div_mod x 256 ltac:(lia)). lia.
Qed.

Lemma be_bytes_be_int l : bytes l -> be_bytes (length l) (be_int l) = l.
Proof.
  induction l as [|b l IH] using rev_ind; intros Hb; [reflexivity|].
  apply bytes_app in Hb as [Hl Hx]. apply bytes_single in Hx.
  unfold is_byte in Hx.
  rewrite length_app, Nat.add_comm. cbn [length Nat.add be_bytes].
  rewrite be_int_app, be_int_single. cbn [length].
  change (256 ^ Z.of_nat 1) with 256.
  replace ((be_int l * 256 + b) / 256) with (be_int l)
    by (apply Z.div_unique with (r := b); lia).
  replace ((be_int l * 256 + b) mod 256) with b
    by (apply Z.mod_unique with (q := be_int l); lia).
  now rewrite IH.
Qed.

Lemma be_bytes_mod n x : be_bytes n (x mod 256 ^ Z.of_nat n) = be_bytes n x.
Proof.
  rewrite <- be_int_be_bytes.
  rewrite <- (be_bytes_length n x) at 1.
  apply be_bytes_be_int, be_bytes_bytes.
Qed.

(** [gcry_drbg_add_buf] on byte buffers, as an encoding. *)
Lemma add_buf_encodes (dst add : list Z) :
  bytes dst -> bytes add -> (length add <= length dst)%nat ->
  gcry_drbg_add_buf dst (Z.of_nat (length dst)) add (Z.of_nat (length add))
  = add_mod dst (be_int add).
Proof.
  intros Hd Ha Hlen. unfold add_mod.
  set (r := gcry_drbg_add_buf _ _ _ _).
  assert (Hr : length r = length dst /\ bytes r
               /\ be_int r = (be_int dst + be_int add)
                             mod 256 ^ Z.of_nat (length dst)).
  { subst r. unfold gcry_drbg_add_buf.
    set (k := (length dst - length add)%nat).
    assert (Hsplit : exists A Dm, dst = A ++ Dm /\ length A = k
                                  /\ length Dm = length add).
    { exists (firstn k dst), (skipn k dst). rewrite firstn_skipn.
      rewrite length_firstn, length_skipn. repeat split; lia. }
    destruct Hsplit as (A & Dm & -> & HlA & HlD). clearbody k.
    apply bytes_app in Hd as [HbA HbD].
    destruct (add_buf_loop1_spec (length add) A Dm [] [] add [] 0
                HlD eq_refl HbD Ha ltac:(lia))
      as (Dm' & r' & Heq & HlD' & HbD' & Hr' & Hval).
    rewrite !app_nil_r in Heq. cbn [app length] in Heq.
    rewrite Nat2Z.id, length_app.
    replace (Z.of_nat (length A + length Dm) - 1)
      with (Z.of_nat (length A + length add) - 1) by lia.
    replace (Z.of_nat (length add) - 1)
      with (Z.of_nat (0 + length add) - 1) by lia.
    rewrite Heq.
    replace (Z.to_nat (Z.of_nat (length A + length Dm)
                       - Z.of_nat (length add)))
      with k by lia.
    destruct (add_buf_loop2_spec k A Dm' r' HlA HbA Hr')
      as (A' & Heq2 & HlA' & HbA' & Hval2).
    rewrite HlA, Heq2.
    repeat split.
    - rewrite length_app. lia.
    - apply bytes_app. now split.
    - rewrite !be_int_app, Hval2, HlD', HlD.
      rewrite Nat2Z.inj_add, Z.pow_add_r by lia.
      pose proof (be_int_range Dm' HbD') as HrD. rewrite HlD' in HrD.
      rewrite <- mod_push_digit
        by (try apply Z.pow_pos_nonneg; lia).
      f_equal. nia. }
  destruct Hr as (Hl & Hb & Hv).
  rewrite <- (be_bytes_be_int r Hb), Hl, Hv. apply be_bytes_mod.
Qed.

Lemma add_mod_length V_ x : length (add_mod V_ x) = length V_.
Proof. apply be_bytes_length. Qed.

Lemma add_mod_bytes V_ x : bytes (add_mod V_ x).
Proof. apply be_bytes_bytes. Qed.

Lemma add_mod_add_mod V_ x y : add_mod (add_mod V_ x) y = add_mod V_ (x + y).
Proof.
  unfold add_mod. rewrite be_bytes_length, be_int_be_bytes.
  rewrite <- (be_bytes_mod _ (_ mod _ + y)).
  rewrite Zplus_mod_idemp_l, be_bytes_mod. f_equal. lia.
Qed.

Lemma shiftr_byte v k : 0 <= k -> Z.land (Z.shiftr v k) 255 = v / 2 ^ k mod 256.
Proof.
  intros Hk. change 255 with (Z.ones 8).
  now rewrite Z.land_ones, Z.shiftr_div_pow2 by lia.
Qed.

Lemma be_bswap64_be_bytes x : be_bswap64 x = be_bytes 8 (x mod 2 ^ 64).
Proof.
  unfold be_bswap64. cbv zeta. set (v := x mod 2 ^ 64).
  rewrite !shiftr_byte by lia.
  replace (Z.land v 255) with (v / 2 ^ 0 mod 256)
    by (rewrite <- shiftr_byte by lia; now rewrite Z.shiftr_0_r).
  cbn [be_bytes app].
  rewrite !Z.div_div by lia.
  rewrite Z.pow_0_r, Z.div_1_r. reflexivity.
Qed.

Lemma be_int_be_bswap64 x : be_int (be_bswap64 x) = x mod 2 ^ 64.
Proof.
  rewrite be_bswap64_be_bytes, be_int_be_bytes.
  change (256 ^ Z.of_nat 8) with (2 ^ 64). apply Z.mod_mod. lia.
Qed.

(** ** The Hash DRBG against SP 800-90A *)

Section HashDrbg.

Context {env : Type} (G : platform env).

Variable c : gcry_drbg_core.

Let sl := statelen c.
Let bl := blocklen_bytes c.
Let H := core_hash G c.

(** The cores of the Hash DRBG: a digest is not longer than the state,
    the hash always opens, and what it delivers are [blocklen] bytes. *)
Hypothesis Hbl : 0 < blocklen_bytes c < 2 ^ 15.
Hypothesis Hsl : blocklen_bytes c <= statelen c.
Hypothesis Hopen :
  forall e, fst (backend G e (md_open (backend_cipher c) false)) = 0.
Hypothesis Hdlen : forall data, length (H data) = Z.to_nat (blocklen_bytes c).
Hypothesis Hdbytes : forall data, bytes (H data).

(** What the functions of the mechanism leave as it is while they work
    in the scratchpad and write the output. *)
Let keep (m m' : mach env) : Prop :=
  V (drbg m') = V (drbg m) /\ C (drbg m') = C (drbg m)
  /\ reseed_ctr (drbg m') = reseed_ctr (drbg m)
  /\ core (drbg m') = core (drbg m)
  /\ length (scratchpad (drbg m')) = length (scratchpad (drbg m)).

Lemma keep_refl m : keep m m.
Proof. now repeat split. Qed.

Lemma keep_trans m1 m2 m3 : keep m1 m2 -> keep m2 m3 -> keep m1 m3.
Proof.
  intros (A1 & A2 & A3 & A4 & A5) (B1 & B2 & B3 & B4 & B5).
  repeat split; congruence.
Qed.

Lemma keep_store_scratch o bs m : keep m (store_ptr (Mem LScratch o) bs m).
Proof.
  repeat split. cbn. apply buf_write_length.
Qed.

Lemma keep_store_out o bs m : keep m (store_ptr (Mem LOut o) bs m).
Proof. now repeat split. Qed.

Lemma keep_be m b : keep m (with_be m b).
Proof. now repeat split. Qed.

(** One digest into the scratchpad. *)
Lemma hash_to_scratch o buf (m : mach env) :
  core (drbg m) = Some c ->
  exists m',
    gcry_drbg_hmac G Null (Mem LScratch o) buf m = Some (0, m')
    /\ keep m m' /\ out m' = out m
    /\ scratchpad (drbg m')
       = buf_write (scratchpad (drbg m)) (Z.to_nat o) (H (chain_bytes m buf)).
Proof.
  intros Hc.
  destruct (hmac_hash G c Hopen Hdlen m (Mem LScratch o) buf Hc) as [b E].
  eexists. split; [exact E|].
  split; [|split; reflexivity].
  apply keep_trans with (m2 := with_be m b);
    [apply keep_be|apply keep_store_scratch].
Qed.

Lemma hashgen_loop_run off buflen : forall fuel len data (m : mach env),
  core (drbg m) = Some c ->
  (Z.to_nat (sl + bl) <= length (scratchpad (drbg m)))%nat ->
  (Z.to_nat (off + buflen) <= length (out m))%nat ->
  buf_read (scratchpad (drbg m)) 0 (Z.to_nat sl) = data ->
  length data = Z.to_nat sl -> bytes data ->
  0 <= off -> 0 <= len -> (Z.to_nat (buflen - len) <= fuel)%nat ->
  exists m',
    hash_hashgen_loop G fuel sl bl (Mem LOut off) buflen (Mem LScratch 0)
      (Mem LScratch sl) (gcry_drbg_string_fill (Mem LScratch 0) sl) len m
    = Some (0, m')
    /\ keep m m'
    /\ out m'
       = buf_write (out m) (Z.to_nat (off + len))
           (firstn (Z.to_nat (buflen - len))
                   (Hashgen H data (req_blocks bl (buflen - len)))).
Proof.
  induction fuel as [|fuel IH];
    intros len data m Hc Hsp Hout Hdata Hdl Hdb Hoff Hlen Hfuel;
    cbn [hash_hashgen_loop]; destruct (len <? buflen) eqn:E;
    try (apply Z.ltb_lt in E; lia);
    try (apply Z.ltb_ge in E; exists m; split; [reflexivity|];
         split; [apply keep_refl|];
         rewrite req_blocks_none by (unfold bl; lia);
         cbn [Hashgen]; now rewrite firstn_nil, buf_write_nil).
  apply Z.ltb_lt in E.
  destruct (hash_to_scratch sl (gcry_drbg_string_fill (Mem LScratch 0) sl)
                            m Hc) as (m1 & E1 & K1 & O1 & S1).
  rewrite (bind_some _ _ _ _ _ E1). cbn [is_err Z.eqb negb].
  unfold gcry_drbg_string_fill in S1. cbn [chain_bytes load_ptr buf_of] in S1.
  change (Z.to_nat 0) with 0%nat in S1. rewrite Hdata, app_nil_r in S1.
  set (outlen := if bl <? buflen - len then bl else buflen - len).
  assert (Hol : 0 < outlen <= bl /\ outlen <= buflen - len).
  { unfold outlen. destruct (bl <? buflen - len) eqn:Eb.
    - apply Z.ltb_lt in Eb. unfold bl in *. lia.
    - apply Z.ltb_ge in Eb. lia. }
  rewrite (bind_some _ _ _ _ _ (memcpy_eq _ _ _ _)).
  assert (Hload : load_ptr m1 (Mem LScratch sl) outlen
                  = firstn (Z.to_nat outlen) (H data)).
  { cbn [load_ptr buf_of]. rewrite S1. apply buf_read_write_same.
    - rewrite Hdlen. fold bl. unfold sl, bl in *. lia.
    - rewrite Hdlen. fold bl. lia. }
  rewrite Hload. cbn [ptr_add].
  set (m2 := store_ptr (Mem LOut (off + len))
                       (firstn (Z.to_nat outlen) (H data)) m1).
  assert (K2 : keep m m2)
    by (apply keep_trans with (m2 := m1);
        [exact K1|apply keep_store_out]).
  assert (S2 : scratchpad (drbg m2)
               = buf_write (scratchpad (drbg m)) (Z.to_nat sl) (H data))
    by exact S1.
  assert (O2 : out m2 = buf_write (out m) (Z.to_nat (off + len))
                                  (firstn (Z.to_nat outlen) (H data)))
    by (cbn [m2 store_ptr set_buf buf_of out]; now rewrite O1).
  assert (R2 : buf_read (scratchpad (drbg m2)) 0 (Z.to_nat sl) = data).
  { rewrite <- Hdata.
    apply buf_read_prefix with (k := Z.to_nat sl); [|lia].
    rewrite S2. apply firstn_buf_write_above. lia. }
  assert (Hl1 : length (firstn (Z.to_nat outlen) (H data)) = Z.to_nat outlen).
  { rewrite length_firstn, Hdlen. fold bl. lia. }
  assert (Hn : req_blocks bl (buflen - len)
               = S (req_blocks bl (buflen - (len + outlen)))).
  { unfold outlen. destruct (bl <? buflen - len) eqn:Eb.
    - apply Z.ltb_lt in Eb.
      rewrite (req_blocks_more bl (buflen - len)) by (unfold bl in *; lia).
      do 2 f_equal. lia.
    - apply Z.ltb_ge in Eb.
      rewrite req_blocks_last by (unfold bl in *; lia).
      rewrite req_blocks_none by (unfold bl in *; lia). reflexivity. }
  assert (Hcut : forall W,
             firstn (Z.to_nat (buflen - len)) (H data ++ W)
             = firstn (Z.to_nat outlen) (H data)
               ++ firstn (Z.to_nat (buflen - (len + outlen))) W).
  { intros W. rewrite firstn_app, Hdlen. fold bl.
    unfold outlen. destruct (bl <? buflen - len) eqn:Eb.
    - apply Z.ltb_lt in Eb.
      rewrite !firstn_all2 with (l := H data)
        by (rewrite Hdlen; fold bl; lia).
      f_equal. f_equal. lia.
    - apply Z.ltb_ge in Eb. f_equal.
      replace (Z.to_nat (buflen - (len + (buflen - len)))) with 0%nat by lia.
      replace (Z.to_nat (buflen - len) - Z.to_nat bl)%nat with 0%nat by lia.
      reflexivity. }
  destruct (len + outlen <? buflen) eqn:E3.
  - (* one more block: the counter is incremented *)
    unfold add_buf.
    cbv beta iota delta [bind load] .
    cbn [load_ptr buf_of]. change (Z.to_nat 0) with 0%nat. rewrite R2.
    change (firstn (Z.to_nat 1) [1]) with [1].
    assert (Ea : gcry_drbg_add_buf data sl [1] 1 = add_mod data 1).
    { replace sl with (Z.of_nat (length data))
        by (rewrite Hdl; unfold sl, bl in *; lia).
      change 1 with (Z.of_nat (length [1])) at 2.
      rewrite add_buf_encodes; [reflexivity|exact Hdb| |].
      - apply bytes_single. unfold is_byte. lia.
      - cbn [length]. rewrite Hdl. unfold sl, bl in *. lia. }
    rewrite Ea. unfold store.
    set (m3 := store_ptr (Mem LScratch 0) (add_mod data 1) m2).
    assert (Hc3 : core (drbg m3) = Some c).
    { unfold m3. rewrite core_store. destruct K2 as (_ & _ & _ & K4 & _).
      now rewrite K4. }
    assert (K3 : keep m m3)
      by (apply keep_trans with (m2 := m2);
          [exact K2|apply keep_store_scratch]).
    assert (R3 : buf_read (scratchpad (drbg m3)) 0 (Z.to_nat sl)
                 = add_mod data 1).
    { cbn [m3 store_ptr set_buf buf_of drbg scratchpad set_scratchpad].
      change (Z.to_nat 0) with 0%nat.
      rewrite buf_read_write_same.
      - apply firstn_all2. rewrite add_mod_length. lia.
      - rewrite add_mod_length, S2, buf_write_length. lia.
      - rewrite add_mod_length. lia. }
    destruct (IH (len + outlen) (add_mod data 1) m3 Hc3
                ltac:(destruct K3 as (_ & _ & _ & _ & K5); now rewrite K5)
                ltac:(cbn [m3 store_ptr set_buf out];
                      rewrite O2, buf_write_length; exact Hout)
                R3 ltac:(now rewrite add_mod_length) (add_mod_bytes _ _)
                Hoff ltac:(lia) ltac:(lia))
      as (m' & Er & Kr & Or).
    exists m'. split; [exact Er|]. split.
    + apply keep_trans with (m2 := m3); assumption.
    + rewrite Or. cbn [m3 store_ptr set_buf out]. rewrite O2.
      rewrite Hn. cbn [Hashgen]. rewrite Hcut.
      replace (Z.to_nat (off + (len + outlen)))
        with (Z.to_nat (off + len)
              + length (firstn (Z.to_nat outlen) (H data)))%nat
        by (rewrite Hl1; lia).
      now rewrite buf_write_compose.
  - (* the request is complete *)
    apply Z.ltb_ge in E3.
    rewrite bind_ret.
    destruct fuel as [|fuel']; cbn [hash_hashgen_loop];
      (assert (E4 : (len + outlen <? buflen) = false)
         by (apply Z.ltb_ge; lia)); rewrite E4;
      (exists m2; split; [reflexivity|]; split; [exact K2|];
       rewrite O2, Hn; cbn [Hashgen]; rewrite Hcut;
       replace (Z.to_nat (buflen - (len + outlen))) with 0%nat by lia;
       now rewrite !firstn_O, app_nil_r).
Qed.

Lemma zero_upto_memset k n sp :
  (k <= n)%nat -> zero_upto k (buf_write sp 0 (repeat 0 n)).
Proof. intros Hk i Hi. apply nth_memset_zero. lia. Qed.

Lemma zero_upto_memset_low k n sp :
  zero_upto k sp -> zero_upto k (buf_write sp 0 (repeat 0 n)).
Proof.
  intros Hz i Hi. destruct (Nat.lt_ge_cases i n) as [Hn|Hn].
  - apply nth_memset_zero. lia.
  - rewrite nth_buf_write_out by (rewrite repeat_length; lia). now apply Hz.
Qed.

Lemma load_whole (m : mach env) l :
  load_ptr m (Mem l 0) (Z.of_nat (length (buf_of m l))) = buf_of m l.
Proof.
  cbn [load_ptr]. change (Z.to_nat 0) with 0%nat. rewrite Nat2Z.id.
  apply buf_read_all.
Qed.

(** [gcry_drbg_hash_hashgen] *)
Lemma hashgen_run off buflen (m : mach env) :
  core (drbg m) = Some c ->
  length (V (drbg m)) = Z.to_nat sl -> bytes (V (drbg m)) ->
  (Z.to_nat (sl + bl) <= length (scratchpad (drbg m)))%nat ->
  (Z.to_nat (off + buflen) <= length (out m))%nat ->
  0 <= off ->
  exists m',
    gcry_drbg_hash_hashgen G (Mem LOut off) buflen m = Some (0, m')
    /\ keep m m'
    /\ out m'
       = buf_write (out m) (Z.to_nat off)
           (firstn (Z.to_nat buflen)
                   (Hashgen H (V (drbg m)) (req_blocks bl buflen)))
    /\ zero_upto (Z.to_nat (sl + bl)) (scratchpad (drbg m')).
Proof.
  intros Hc HV HbV Hsp Hout Hoff.
  unfold gcry_drbg_hash_hashgen. rewrite bind_get.
  unfold gcry_drbg_statelen, gcry_drbg_blocklen. rewrite Hc. fold sl bl.
  rewrite (bind_some _ _ _ _ _ (memset_eq _ _ _ _)).
  set (m1 := store_ptr (Mem LScratch 0) (repeat 0 (Z.to_nat sl)) m).
  rewrite (bind_some _ _ _ _ _ (memset_eq _ _ _ _)).
  set (m2 := store_ptr (Mem LScratch sl) (repeat 0 (Z.to_nat bl)) m1).
  rewrite (bind_some _ _ _ _ _ (memcpy_eq _ _ _ _)).
  assert (K2 : keep m m2).
  { apply keep_trans with (m2 := m1); apply keep_store_scratch. }
  assert (HlV : load_ptr m2 (Mem LV 0) sl = V (drbg m)).
  { replace sl with (Z.of_nat (length (buf_of m2 LV))).
    - apply load_whole.
    - cbn [buf_of]. rewrite (proj1 K2), HV. unfold sl, bl in *. lia. }
  rewrite HlV.
  set (m3 := store_ptr (Mem LScratch 0) (V (drbg m)) m2).
  assert (K3 : keep m m3).
  { apply keep_trans with (m2 := m2); [exact K2|apply keep_store_scratch]. }
  destruct K3 as (K3V & K3C & K3r & K3c & K3l).
  assert (R3 : buf_read (scratchpad (drbg m3)) 0 (Z.to_nat sl) = V (drbg m)).
  { cbn [m3 store_ptr set_buf buf_of drbg scratchpad set_scratchpad].
    change (Z.to_nat 0) with 0%nat.
    rewrite buf_read_write_same.
    - apply firstn_all2. lia.
    - destruct K2 as (_ & _ & _ & _ & K2l).
      change (buf_of m2 LScratch) with (scratchpad (drbg m2)).
      rewrite K2l. lia.
    - lia. }
  destruct (hashgen_loop_run off buflen (Z.to_nat buflen) 0 (V (drbg m)) m3
              ltac:(now rewrite K3c) ltac:(now rewrite K3l) Hout R3 HV HbV
              Hoff ltac:(lia) ltac:(lia))
    as (m4 & E4 & K4 & O4).
  rewrite (bind_some _ _ _ _ _ E4).
  rewrite (bind_some _ _ _ _ _ (memset_eq _ _ _ _)).
  eexists. split; [reflexivity|].
  split; [|split].
  - apply keep_trans with (m2 := m3); [now repeat split|].
    apply keep_trans with (m2 := m4); [exact K4|apply keep_store_scratch].
  - cbn [store_ptr set_buf out]. rewrite O4.
    now rewrite Z.add_0_r, Z.sub_0_r.
  - cbn [store_ptr set_buf buf_of drbg scratchpad set_scratchpad].
    change (Z.to_nat 0) with 0%nat. now apply zero_upto_memset.
Qed.

(** [gcry_drbg_hash_process_addtl] *)
Lemma process_addtl_run addtl (m : mach env) :
  core (drbg m) = Some c ->
  length (V (drbg m)) = Z.to_nat sl -> bytes (V (drbg m)) ->
  (Z.to_nat (sl + bl) <= length (scratchpad (drbg m)))%nat ->
  chain_off LScratch (set_next addtl NoString) ->
  exists a' m',
    gcry_drbg_hash_process_addtl G addtl m = Some ((0, a'), m')
    /\ V (drbg m')
       = Hash_DRBG_addtl H (V (drbg m)) (has_bytes addtl)
                         (chain_bytes m (set_next addtl NoString))
    /\ C (drbg m') = C (drbg m)
    /\ reseed_ctr (drbg m') = reseed_ctr (drbg m)
    /\ core (drbg m') = core (drbg m)
    /\ length (scratchpad (drbg m')) = length (scratchpad (drbg m))
    /\ out m' = out m.
Proof.
  intros Hc HV HbV Hsp Hch.
  unfold gcry_drbg_hash_process_addtl. rewrite bind_get.
  unfold gcry_drbg_statelen, gcry_drbg_blocklen. rewrite Hc. fold sl bl.
  rewrite (bind_some _ _ _ _ _ (memset_eq _ _ _ _)).
  set (m1 := store_ptr (Mem LScratch 0) (repeat 0 (Z.to_nat bl)) m).
  assert (K1 : keep m m1) by apply keep_store_scratch.
  unfold Hash_DRBG_addtl.
  destruct (has_bytes addtl) eqn:Hb; cbn [negb].
  2:{ eexists _, _. split; [reflexivity|].
      destruct K1 as (K1V & K1C & K1r & K1c & K1l). now repeat split. }
  set (data3 := set_next addtl NoString) in *.
  set (data1 := drbg_string (Data [2]) 1 (drbg_string (Mem LV 0) sl data3)).
  destruct K1 as (K1V & K1C & K1r & K1c & K1l).
  destruct (hash_to_scratch 0 data1 m1 ltac:(now rewrite K1c))
    as (m2 & E2 & K2 & O2 & S2).
  rewrite (bind_some _ _ _ _ _ E2). cbn [is_err Z.eqb negb].
  assert (Hd : chain_bytes m1 data1
               = 2 :: V (drbg m) ++ chain_bytes m data3).
  { unfold data1. cbn [chain_bytes].
    change (load_ptr m1 (Data [2]) 1) with [2]. cbn [app]. f_equal.
    f_equal.
    - replace sl with (Z.of_nat (length (buf_of m1 LV))).
      + rewrite load_whole. exact K1V.
      + cbn [buf_of]. rewrite K1V, HV. unfold sl, bl in *. lia.
    - apply chain_bytes_off. intros l.
      destruct l; [right|right|now left|right]; reflexivity. }
  rewrite Hd in S2. set (h := H (2 :: V (drbg m) ++ chain_bytes m data3)) in *.
  destruct K2 as (K2V & K2C & K2r & K2c & K2l).
  unfold add_buf. cbv beta iota delta [bind load store].
  assert (L1 : load_ptr m2 (Mem LV 0) sl = V (drbg m)).
  { replace sl with (Z.of_nat (length (buf_of m2 LV))).
    - rewrite load_whole. cbn [buf_of]. congruence.
    - cbn [buf_of]. rewrite K2V, K1V, HV. unfold sl, bl in *. lia. }
  assert (L2 : load_ptr m2 (Mem LScratch 0) bl = h).
  { cbn [load_ptr buf_of]. rewrite S2. change (Z.to_nat 0) with 0%nat.
    rewrite buf_read_write_same.
    - apply firstn_all2. unfold h. rewrite Hdlen. fold bl. lia.
    - unfold h. rewrite Hdlen, K1l. fold bl. unfold sl, bl in *. lia.
    - unfold h. rewrite Hdlen. fold bl. lia. }
  rewrite L1, L2.
  assert (Ea : gcry_drbg_add_buf (V (drbg m)) sl h bl
               = add_mod (V (drbg m)) (be_int h)).
  { replace sl with (Z.of_nat (length (V (drbg m))))
      by (rewrite HV; unfold sl, bl in *; lia).
    replace bl with (Z.of_nat (length h))
      by (unfold h; rewrite Hdlen; fold bl; unfold bl in *; lia).
    apply add_buf_encodes; [exact HbV|apply Hdbytes|].
    unfold h. rewrite Hdlen, HV. unfold sl. lia. }
  rewrite Ea, memset_eq. cbv beta iota delta [ret].
  eexists _, _. split; [reflexivity|].
  cbn [store_ptr set_buf buf_of drbg out V C reseed_ctr core scratchpad
       set_V set_scratchpad].
  change (Z.to_nat 0) with 0%nat.
  split.
  { apply buf_write_all. now rewrite add_mod_length, K2V, K1V. }
  rewrite buf_write_length.
  assert (O1 : out m1 = out m) by reflexivity.
  repeat split; congruence.
Qed.

Lemma zero_upto_scrub k n h sp :
  (length h <= n)%nat -> zero_upto k sp ->
  zero_upto k (buf_write (buf_write sp 0 h) 0 (repeat 0 n)).
Proof.
  intros Hh Hz i Hi. destruct (Nat.lt_ge_cases i n) as [Hn|Hn].
  - apply nth_memset_zero. lia.
  - rewrite !nth_buf_write_out by (rewrite ?repeat_length; lia).
    now apply Hz.
Qed.

(** *** The derivation function, with what it leaves alone *)

(** What [gcry_drbg_hash_df] with its output in the buffer [l] leaves
    alone. *)
Let frame (l : loc) (m m' : mach env) : Prop :=
  (forall l', l' <> l -> l' <> LScratch -> buf_of m' l' = buf_of m l')
  /\ (forall l', length (buf_of m' l') = length (buf_of m l'))
  /\ reseed_ctr (drbg m') = reseed_ctr (drbg m)
  /\ core (drbg m') = core (drbg m).

Let okptr (l : loc) (p : ptr) : Prop :=
  match p with
  | Mem l' _ => l' = l \/ l' = LScratch
  | _ => True
  end.

Lemma frame_refl l m : frame l m m.
Proof. now repeat split. Qed.

Lemma frame_trans l m1 m2 m3 : frame l m1 m2 -> frame l m2 m3 -> frame l m1 m3.
Proof.
  intros (A1 & A2 & A3 & A4) (B1 & B2 & B3 & B4). repeat split.
  - intros l' H1 H2. now rewrite B1, A1.
  - intros l'. now rewrite B2, A2.
  - congruence.
  - congruence.
Qed.

Lemma frame_store l p bs m : okptr l p -> frame l m (store_ptr p bs m).
Proof.
  intros Hp. destruct p as [|l' o|d]; try apply frame_refl.
  repeat split.
  - intros l'' H1 H2. apply buf_of_store_other.
    destruct Hp as [->| ->]; assumption.
  - intros l''. destruct l', l''; cbn; try reflexivity;
      apply buf_write_length.
  - destruct l'; reflexivity.
  - apply core_store.
Qed.

Lemma frame_be l m e :
  frame l m {| drbg := drbg m; out := out m; be := e |}.
Proof. repeat split; intros; destruct l'; reflexivity. Qed.

Lemma okptr_add l p k : okptr l p -> okptr l (ptr_add p k).
Proof. destruct p as [|l' o|d]; intros Hp; exact Hp || exact I. Qed.

Lemma hash_df_run l L entropy (m : mach env) :
  l <> LScratch ->
  core (drbg m) = Some c ->
  (Z.to_nat (sl + bl) <= length (scratchpad (drbg m)))%nat ->
  0 <= L -> (Z.to_nat L <= length (buf_of m l))%nat ->
  chain_outside l sl entropy ->
  exists m',
    gcry_drbg_hash_df G (Mem l 0) L entropy m = Some (0, m')
    /\ buf_of m' l
       = buf_write (buf_of m l) 0 (Hash_df H bl (chain_bytes m entropy) L)
    /\ frame l m m'
    /\ (forall i, (Z.to_nat sl <= i < Z.to_nat sl + Z.to_nat bl)%nat ->
                  nth i (scratchpad (drbg m')) 0 = 0).
Proof.
  intros Hl Hc Hsp HL Hlen Hchain.
  assert (Hsl0 : 0 <= statelen c) by lia.
  assert (Hrun : exists m',
             gcry_drbg_hash_df G (Mem l 0) L entropy m = Some (0, m')
             /\ buf_of m' l
                = buf_write (buf_of m l) 0
                            (Hash_df H bl (chain_bytes m entropy) L)
             /\ (forall i,
                    (Z.to_nat sl <= i < Z.to_nat sl + Z.to_nat bl)%nat ->
                    nth i (scratchpad (drbg m')) 0 = 0)).
  { unfold gcry_drbg_hash_df. rewrite bind_get.
    unfold gcry_drbg_blocklen, gcry_drbg_statelen. rewrite Hc.
    fold sl. fold bl.
    rewrite (bind_some _ _ _ _ _ (memset_eq _ _ _ _)).
    set (m0 := store_ptr (Mem LScratch sl) (repeat 0 (Z.to_nat bl)) m).
    assert (Hb0 : buf_of m0 l = buf_of m l)
      by (unfold m0; now rewrite buf_of_store_other by exact Hl).
    assert (Hch0 : chain_bytes m0 entropy = chain_bytes m entropy).
    { apply (chain_bytes_stab c l entropy m m0 Hchain). split.
      - intros l' _ Hns. unfold m0. now apply buf_of_store_other.
      - change (scratchpad (drbg m0)) with (buf_of m0 LScratch).
        unfold m0. rewrite buf_of_store_same.
        apply firstn_buf_write_above. lia. }
    rewrite cpu_to_be32_BE32.
    change 1 with (1 mod 256) at 1.
    destruct (hash_df_loop_spec G c l 0 L entropy Hbl Hsl0 Hopen Hdlen Hl
                ltac:(lia) Hchain (chain_bytes m entropy) (Z.to_nat L) 1 0 m0)
      as (m' & Hr & Hres).
    - split; [unfold m0; now rewrite core_store|].
      change (scratchpad (drbg m0)) with (buf_of m0 LScratch).
      unfold m0. rewrite buf_of_store_same, buf_write_length. exact Hsp.
    - exact Hch0.
    - now rewrite Hb0.
    - lia.
    - lia.
    - rewrite (bind_some _ _ _ _ _ Hr).
      rewrite (bind_some _ _ _ _ _ (memset_eq _ _ _ _)). unfold ret.
      eexists. split; [reflexivity|]. split.
      + rewrite buf_of_store_other by exact Hl.
        rewrite Hres, Hb0. reflexivity.
      + intros i Hi.
        change (scratchpad (drbg (store_ptr (Mem LScratch sl)
                                           (repeat 0 (Z.to_nat bl)) m')))
          with (buf_of (store_ptr (Mem LScratch sl)
                                  (repeat 0 (Z.to_nat bl)) m') LScratch).
        rewrite buf_of_store_same. apply nth_memset_zero. exact Hi. }
  destruct Hrun as (m' & Hr & Hres & Hz).
  exists m'. split; [exact Hr|]. split; [exact Hres|]. split; [|exact Hz].
  apply (pres_hash_df G (frame l) (okptr l) (frame_refl l) (frame_trans l)
           (frame_store l) (frame_be l) (okptr_add l)
           (fun o => or_intror eq_refl) (Mem l 0) L entropy
           (or_introl eq_refl) m 0 m' Hr).
Qed.

Lemma chain_off_outside l s :
  chain_off l s -> chain_off LScratch s -> chain_outside l sl s.
Proof.
  induction s as [|p n nx IH]; [easy|].
  intros [H1 H2] [H3 H4]. split; [|now apply IH].
  destruct p as [|l' o|d]; try exact I. split; [exact H1|].
  intros ->. now elim H3.
Qed.

(** [gcry_drbg_hash_update] *)
Lemma hash_update_run sbuf slen snext reseed (m : mach env) :
  let seed := drbg_string sbuf slen snext in
  core (drbg m) = Some c ->
  length (V (drbg m)) = Z.to_nat sl ->
  length (C (drbg m)) = Z.to_nat sl ->
  (Z.to_nat (sl + bl) <= length (scratchpad (drbg m)))%nat ->
  chain_off LV seed -> chain_off LScratch seed ->
  let material := if reseed =? 0 then chain_bytes m seed
                  else 1 :: V (drbg m) ++ chain_bytes m seed in
  exists m',
    gcry_drbg_hash_update G seed reseed m = Some ((0, seed), m')
    /\ V (drbg m') = Hash_df H bl material sl
    /\ C (drbg m') = Hash_df H bl (0 :: V (drbg m')) sl
    /\ out m' = out m
    /\ reseed_ctr (drbg m') = reseed_ctr (drbg m)
    /\ zero_upto (Z.to_nat (sl + bl)) (scratchpad (drbg m')).
Proof.
  intros seed Hc HV HC Hsp HoV HoS material.
  assert (Hsl0 : 0 <= sl) by (unfold sl; lia).
  unfold gcry_drbg_hash_update. rewrite bind_get.
  unfold gcry_drbg_statelen. rewrite Hc. fold sl.
  rewrite (bind_some _ _ _ _ _ (memset_eq _ _ _ _)).
  set (m1 := store_ptr (Mem LScratch 0) (repeat 0 (Z.to_nat sl)) m).
  subst seed. cbv beta iota.
  set (seed := drbg_string sbuf slen snext) in *.
  (* the chain the first derivation reads *)
  assert (D : exists data1 m2,
             (if negb (reseed =? 0)
              then memcpy (Mem LScratch 0) (Mem LV 0) sl ;;
                   ret (drbg_string (Data [1]) 1
                          (drbg_string (Mem LScratch 0) sl seed))
              else ret seed) m1 = Some (data1, m2)
             /\ chain_bytes m2 data1 = material
             /\ chain_outside LV sl data1
             /\ core (drbg m2) = Some c
             /\ V (drbg m2) = V (drbg m) /\ C (drbg m2) = C (drbg m)
             /\ length (scratchpad (drbg m2)) = length (scratchpad (drbg m))
             /\ out m2 = out m
             /\ reseed_ctr (drbg m2) = reseed_ctr (drbg m)).
  { unfold material. destruct (reseed =? 0); cbn [negb].
    - exists seed, m1. split; [reflexivity|].
      split.
      { apply chain_bytes_off. intros l.
        destruct l; [right|right|now left|right]; reflexivity. }
      split; [now apply chain_off_outside|].
      repeat split; try assumption. cbn. apply buf_write_length.
    - rewrite (bind_some _ _ _ _ _ (memcpy_eq _ _ _ _)).
      assert (L1 : load_ptr m1 (Mem LV 0) sl = V (drbg m)).
      { replace sl with (Z.of_nat (length (buf_of m1 LV))).
        - apply load_whole.
        - cbn [buf_of]. change (V (drbg m1)) with (V (drbg m)).
          rewrite HV. lia. }
      rewrite L1.
      set (m2 := store_ptr (Mem LScratch 0) (V (drbg m)) m1).
      eexists _, m2. split; [reflexivity|].
      split.
      { cbn [chain_bytes]. change (load_ptr m2 (Data [1]) 1) with [1].
        cbn [app]. f_equal. f_equal.
        - cbn [load_ptr buf_of m2 store_ptr set_buf drbg scratchpad
               set_scratchpad].
          change (Z.to_nat 0) with 0%nat.
          rewrite buf_read_write_same.
          + apply firstn_all2. lia.
          + cbn [m1 store_ptr set_buf buf_of drbg scratchpad
                 set_scratchpad].
            rewrite buf_write_length. lia.
          + lia.
        - apply chain_bytes_off. intros l.
          destruct l; [right|right|now left|right]; reflexivity. }
      split.
      { split; [exact I|]. split.
        - split; [discriminate|]. intros _. lia.
        - now apply chain_off_outside. }
      repeat split; try assumption.
      cbn. now rewrite !buf_write_length. }
  destruct D as (data1 & m2 & E2 & Hmat & Hco & c2 & V2 & C2 & l2 & O2 & r2).
  assert (E2' : (if negb (reseed =? 0)
                 then memcpy (Mem LScratch 0) (Mem LV 0) sl ;;
                      ret (drbg_string (Data [1]) 1
                             (drbg_string (Mem LScratch 0) sl seed))
                 else ret (drbg_string sbuf slen snext)) m1
                = Some (data1, m2)) by exact E2.
  rewrite (bind_some _ _ _ _ _ E2').
  destruct (hash_df_run LV sl data1 m2 ltac:(discriminate) c2
              ltac:(now rewrite l2) Hsl0
              ltac:(cbn [buf_of]; rewrite V2, HV; lia) Hco)
    as (m3 & E3 & B3 & (F3 & L3 & r3 & c3) & _).
  rewrite (bind_some _ _ _ _ _ E3). cbn [is_err Z.eqb negb].
  rewrite Hmat in B3. cbn [buf_of] in B3.
  assert (Hdf : forall inb, length (Hash_df H bl inb sl) = Z.to_nat sl).
  { intros inb. unfold Hash_df.
    rewrite (Hash_df_blocks_length G c sl Hbl Hdlen) by lia.
    f_equal. lia. }
  rewrite buf_write_all in B3 by (now rewrite Hdf, V2).
  set (data0 := drbg_string (Data [0]) 1
                  (gcry_drbg_string_fill (Mem LV 0) sl)).
  assert (Hd0 : chain_bytes m3 data0 = 0 :: V (drbg m3)).
  { unfold data0, gcry_drbg_string_fill. cbn [chain_bytes].
    change (load_ptr m3 (Data [0]) 1) with [0]. cbn [app]. f_equal.
    rewrite app_nil_r.
    replace sl with (Z.of_nat (length (buf_of m3 LV))).
    - apply load_whole.
    - cbn [buf_of]. rewrite B3, Hdf. lia. }
  destruct (hash_df_run LC sl data0 m3 ltac:(discriminate)
              ltac:(congruence)
              ltac:(specialize (L3 LScratch); cbn [buf_of] in L3;
                    rewrite L3, l2; exact Hsp)
              Hsl0
              ltac:(specialize (L3 LC); cbn [buf_of] in L3;
                    cbn [buf_of]; rewrite L3, C2, HC; lia)
              ltac:(repeat split; discriminate))
    as (m4 & E4 & B4 & (F4 & L4 & r4 & c4) & Z4).
  rewrite (bind_some _ _ _ _ _ E4).
  rewrite (bind_some _ _ _ _ _ (memset_eq _ _ _ _)). unfold ret.
  eexists. split; [reflexivity|].
  rewrite Hd0 in B4. cbn [buf_of] in B4.
  rewrite buf_write_all in B4
    by (rewrite Hdf; specialize (L3 LC); cbn [buf_of] in L3;
        now rewrite L3, C2).
  pose proof (F4 LV ltac:(discriminate) ltac:(discriminate)) as V4.
  pose proof (F4 LOut ltac:(discriminate) ltac:(discriminate)) as O4.
  pose proof (F3 LOut ltac:(discriminate) ltac:(discriminate)) as O3.
  cbn [buf_of] in V4, O4, O3.
  cbn [store_ptr set_buf buf_of drbg out V C reseed_ctr scratchpad
       set_scratchpad].
  change (Z.to_nat 0) with 0%nat.
  split; [now rewrite V4, B3|].
  split; [now rewrite V4, B4|].
  split; [congruence|]. split; [congruence|].
  intros i Hi. destruct (Nat.lt_ge_cases i (Z.to_nat sl)) as [Hlt|Hge].
  - apply nth_memset_zero. lia.
  - rewrite nth_buf_write_out by (rewrite repeat_length; lia).
    apply Z4. unfold sl, bl in *. lia.
Qed.

(** X15.  On an instance of a Hash core whose hash opens, a
    [gcry_drbg_hash_update] with a seed chain returns 0 and computes the
    seeding of SP 800-90A 10.1.1.2 and 10.1.1.3: [V] is the derivation
    function [Hash_df] of the seed material, which is the bytes of the
    chain for the seeding and [0x01 || V || chain] for a reseed, and [C]
    is [Hash_df (0x00 || V)] of the new [V].  The output buffer and the
    request counter are as they were, and the work area of the
    scratchpad is all zeros. *)
Theorem gcry_drbg_hash_update_computes sbuf slen snext reseed
        (m : mach env) :
  let seed := drbg_string sbuf slen snext in
  core (drbg m) = Some c ->
  length (V (drbg m)) = Z.to_nat (statelen c) ->
  length (C (drbg m)) = Z.to_nat (statelen c) ->
  (Z.to_nat (statelen c + blocklen_bytes c)
   <= length (scratchpad (drbg m)))%nat ->
  chain_off LV seed -> chain_off LScratch seed ->
  let material := if reseed =? 0 then chain_bytes m seed
                  else 1 :: V (drbg m) ++ chain_bytes m seed in
  exists m',
    gcry_drbg_hash_update G seed reseed m = Some ((0, seed), m')
    /\ V (drbg m')
       = Hash_df (core_hash G c) (blocklen_bytes c) material (statelen c)
    /\ C (drbg m')
       = Hash_df (core_hash G c) (blocklen_bytes c) (0 :: V (drbg m'))
                 (statelen c)
    /\ out m' = out m
    /\ reseed_ctr (drbg m') = reseed_ctr (drbg m)
    /\ zero_upto (Z.to_nat (statelen c + blocklen_bytes c))
                 (scratchpad (drbg m')).
Proof.
  intros seed Hc HV HC Hsp HoV HoS.
  exact (hash_update_run sbuf slen snext reseed m Hc HV HC Hsp HoV HoS).
Qed.

(** The state has room for the request counter. *)
Hypothesis Hctr : 8 <= statelen c.

(** [gcry_drbg_hash_generate] *)
Lemma hash_generate_run off buflen addtl (m : mach env) :
  core (drbg m) = Some c ->
  length (V (drbg m)) = Z.to_nat sl -> bytes (V (drbg m)) ->
  length (C (drbg m)) = Z.to_nat sl -> bytes (C (drbg m)) ->
  (Z.to_nat (sl + bl) <= length (scratchpad (drbg m)))%nat ->
  (Z.to_nat (off + buflen) <= length (out m))%nat ->
  0 <= off ->
  chain_off LScratch (set_next addtl NoString) ->
  let V1 := Hash_DRBG_addtl H (V (drbg m)) (has_bytes addtl)
                            (chain_bytes m (set_next addtl NoString)) in
  exists a' m',
    gcry_drbg_hash_generate G (Mem LOut off) buflen addtl m
    = Some ((0, a'), m')
    /\ out m'
       = buf_write (out m) (Z.to_nat off)
           (firstn (Z.to_nat buflen) (Hashgen H V1 (req_blocks bl buflen)))
    /\ V (drbg m')
       = Hash_DRBG_next H V1 (C (drbg m)) (reseed_ctr (drbg m) mod 2 ^ 64)
    /\ C (drbg m') = C (drbg m)
    /\ reseed_ctr (drbg m') = reseed_ctr (drbg m)
    /\ zero_upto (Z.to_nat (sl + bl)) (scratchpad (drbg m')).
Proof.
  intros Hc HV HbV HC HbC Hsp Hout Hoff Hch V1.
  unfold gcry_drbg_hash_generate. rewrite bind_get.
  unfold gcry_drbg_statelen, gcry_drbg_blocklen. rewrite Hc. fold sl bl.
  destruct (process_addtl_run addtl m Hc HV HbV Hsp Hch)
    as (a1 & m1 & E1 & V1e & C1 & r1 & c1 & l1 & O1).
  fold V1 in V1e.
  rewrite (bind_some _ _ _ _ _ E1). cbv beta iota. cbn [is_err Z.eqb negb].
  assert (HV1 : length V1 = Z.to_nat sl).
  { unfold V1, Hash_DRBG_addtl. destruct (has_bytes addtl);
      [now rewrite add_mod_length|exact HV]. }
  assert (HbV1 : bytes V1).
  { unfold V1, Hash_DRBG_addtl. destruct (has_bytes addtl);
      [apply add_mod_bytes|exact HbV]. }
  destruct (hashgen_run off buflen m1 ltac:(now rewrite c1)
              ltac:(now rewrite V1e) ltac:(now rewrite V1e)
              ltac:(now rewrite l1) ltac:(now rewrite O1) Hoff)
    as (m2 & E2 & (V2 & C2 & r2 & c2 & l2) & O2 & Z2).
  rewrite (bind_some _ _ _ _ _ E2). cbn [is_err Z.eqb negb].
  rewrite (bind_some _ _ _ _ _ (memset_eq _ _ _ _)).
  set (m3 := store_ptr (Mem LScratch 0) (repeat 0 (Z.to_nat bl)) m2).
  set (data1 := drbg_string (Data [3]) 1
                  (gcry_drbg_string_fill (Mem LV 0) sl)).
  destruct (hash_to_scratch 0 data1 m3 ltac:(cbn; congruence))
    as (m4 & E4 & (V4 & C4 & r4 & c4 & l4) & O4 & S4).
  rewrite (bind_some _ _ _ _ _ E4). cbn [is_err Z.eqb negb].
  assert (V3 : V (drbg m3) = V1) by (cbn; congruence).
  assert (C3 : C (drbg m3) = C (drbg m))
    by (change (C (drbg m3)) with (C (drbg m2)); congruence).
  assert (r3 : reseed_ctr (drbg m3) = reseed_ctr (drbg m))
    by (change (reseed_ctr (drbg m3)) with (reseed_ctr (drbg m2));
        congruence).
  assert (Hd : chain_bytes m3 data1 = 3 :: V1).
  { unfold data1, gcry_drbg_string_fill. cbn [chain_bytes].
    change (load_ptr m3 (Data [3]) 1) with [3]. cbn [app]. f_equal.
    rewrite app_nil_r.
    replace sl with (Z.of_nat (length (buf_of m3 LV))).
    - rewrite load_whole. exact V3.
    - cbn [buf_of]. rewrite V3, HV1. unfold sl, bl in *. lia. }
  rewrite Hd in S4. set (h := H (3 :: V1)) in *.
  assert (Hh : length h = Z.to_nat bl) by apply Hdlen.
  assert (l3 : length (scratchpad (drbg m3)) = length (scratchpad (drbg m))).
  { cbn [m3 store_ptr set_buf buf_of drbg scratchpad set_scratchpad].
    rewrite buf_write_length. congruence. }
  (* the three additions *)
  unfold add_buf. cbv beta iota delta [bind load store get_drbg].
  assert (L1 : load_ptr m4 (Mem LV 0) sl = V1).
  { replace sl with (Z.of_nat (length (buf_of m4 LV))).
    - rewrite load_whole. cbn [buf_of]. congruence.
    - cbn [buf_of]. rewrite V4, V3, HV1. unfold sl, bl in *. lia. }
  assert (L2 : load_ptr m4 (Mem LScratch 0) bl = h).
  { cbn [load_ptr buf_of]. rewrite S4. change (Z.to_nat 0) with 0%nat.
    rewrite buf_read_write_same.
    - apply firstn_all2. lia.
    - rewrite Hh, l3. unfold sl, bl in *. lia.
    - lia. }
  rewrite L1, L2.
  assert (Ea : gcry_drbg_add_buf V1 sl h bl = add_mod V1 (be_int h)).
  { replace sl with (Z.of_nat (length V1))
      by (rewrite HV1; unfold sl, bl in *; lia).
    replace bl with (Z.of_nat (length h))
      by (rewrite Hh; unfold bl in *; lia).
    apply add_buf_encodes; [exact HbV1|apply Hdbytes|].
    rewrite Hh, HV1. unfold sl, bl. lia. }
  rewrite Ea.
  set (Va := add_mod V1 (be_int h)).
  set (m5 := store_ptr (Mem LV 0) Va m4).
  assert (V5 : V (drbg m5) = Va).
  { cbn [m5 store_ptr set_buf buf_of drbg V set_V].
    change (Z.to_nat 0) with 0%nat. apply buf_write_all.
    unfold Va. now rewrite add_mod_length, V4, V3. }
  assert (HVa : length Va = Z.to_nat sl)
    by (unfold Va; now rewrite add_mod_length).
  assert (L3 : load_ptr m5 (Mem LV 0) sl = Va).
  { replace sl with (Z.of_nat (length (buf_of m5 LV))).
    - rewrite load_whole. exact V5.
    - cbn [buf_of]. rewrite V5, HVa. unfold sl, bl in *. lia. }
  assert (C5 : C (drbg m5) = C (drbg m))
    by (change (C (drbg m5)) with (C (drbg m4)); congruence).
  assert (L4 : load_ptr m5 (Mem LC 0) sl = C (drbg m)).
  { replace sl with (Z.of_nat (length (buf_of m5 LC))).
    - rewrite load_whole. exact C5.
    - cbn [buf_of]. rewrite C5, HC. unfold sl, bl in *. lia. }
  rewrite L3, L4.
  assert (Eb : gcry_drbg_add_buf Va sl (C (drbg m)) sl
               = add_mod Va (be_int (C (drbg m)))).
  { replace sl with (Z.of_nat (length Va)) at 1
      by (rewrite HVa; unfold sl, bl in *; lia).
    replace sl with (Z.of_nat (length (C (drbg m))))
      by (rewrite HC; unfold sl, bl in *; lia).
    apply add_buf_encodes; [apply add_mod_bytes|exact HbC|].
    rewrite HC, HVa. lia. }
  rewrite Eb.
  set (Vb := add_mod Va (be_int (C (drbg m)))).
  set (m6 := store_ptr (Mem LV 0) Vb m5).
  assert (V6 : V (drbg m6) = Vb).
  { cbn [m6 store_ptr set_buf buf_of drbg V set_V].
    change (Z.to_nat 0) with 0%nat. apply buf_write_all.
    unfold Vb. now rewrite add_mod_length, V5. }
  assert (HVb : length Vb = Z.to_nat sl)
    by (unfold Vb; now rewrite add_mod_length).
  assert (L5 : load_ptr m6 (Mem LV 0) sl = Vb).
  { replace sl with (Z.of_nat (length (buf_of m6 LV))).
    - rewrite load_whole. exact V6.
    - cbn [buf_of]. rewrite V6, HVb. unfold sl, bl in *. lia. }
  rewrite L5.
  assert (r6 : reseed_ctr (drbg m6) = reseed_ctr (drbg m))
    by (change (reseed_ctr (drbg m6)) with (reseed_ctr (drbg m4));
        congruence).
  rewrite r6.
  set (ctr := be_bswap64 (reseed_ctr (drbg m))).
  assert (Hcl : length ctr = 8%nat) by reflexivity.
  change (load_ptr m6 (Data ctr) 8) with (firstn 8 ctr).
  rewrite (firstn_all2 (n := 8) ctr) by (rewrite Hcl; lia).
  assert (Ec : gcry_drbg_add_buf Vb sl ctr 8
               = add_mod Vb (reseed_ctr (drbg m) mod 2 ^ 64)).
  { replace sl with (Z.of_nat (length Vb))
      by (rewrite HVb; unfold sl, bl in *; lia).
    change 8 with (Z.of_nat (length ctr)).
    rewrite add_buf_encodes.
    - unfold ctr. now rewrite be_int_be_bswap64.
    - apply add_mod_bytes.
    - unfold ctr. rewrite be_bswap64_be_bytes. apply be_bytes_bytes.
    - rewrite Hcl, HVb. unfold sl. lia. }
  rewrite Ec.
  set (Vc := add_mod Vb (reseed_ctr (drbg m) mod 2 ^ 64)).
  rewrite memset_eq. cbv beta iota delta [ret].
  eexists _, _. split; [reflexivity|].
  cbn [store_ptr set_buf buf_of drbg out V C reseed_ctr scratchpad
       set_V set_scratchpad].
  change (Z.to_nat 0) with 0%nat.
  split; [|split; [|split; [|split]]].
  - change (out m6) with (out m4). rewrite O4.
    change (out m3) with (out m2). rewrite O2, O1, V1e. reflexivity.
  - rewrite buf_write_all
      by (unfold Vc; rewrite add_mod_length; now rewrite V6).
    unfold Vc, Vb, Va, Hash_DRBG_next. fold h.
    rewrite !add_mod_add_mod. f_equal. lia.
  - change (C (drbg m6)) with (C (drbg m4)). congruence.
  - exact r6.
  - change (scratchpad (drbg m6)) with (scratchpad (drbg m4)).
    rewrite S4. change (Z.to_nat 0) with 0%nat.
    apply zero_upto_scrub; [lia|].
    cbn [m3 store_ptr set_buf buf_of drbg scratchpad set_scratchpad].
    change (Z.to_nat 0) with 0%nat.
    now apply zero_upto_memset_low.
Qed.

(** X16.  On an instance of a Hash core whose hash opens,
    [gcry_drbg_hash_generate] returns 0 and computes the generate
    function of SP 800-90A 10.1.1.4.  With additional input (the first
    node of [addtl]) [V] first becomes
    [(V + Hash (0x02 || V || input)) mod 2^seedlen]; the request is the
    leftmost [buflen] bytes of [Hash (V) || Hash (V + 1) || ...]; then
    [V] becomes [(V + Hash (0x03 || V) + C + reseed_ctr) mod 2^seedlen],
    the counter taken as the eight bytes [be_bswap64] stores.  [C] and
    the counter are as they were and the work area of the scratchpad is
    all zeros. *)
Theorem gcry_drbg_hash_generate_computes off buflen addtl (m : mach env) :
  core (drbg m) = Some c ->
  length (V (drbg m)) = Z.to_nat (statelen c) -> bytes (V (drbg m)) ->
  length (C (drbg m)) = Z.to_nat (statelen c) -> bytes (C (drbg m)) ->
  (Z.to_nat (statelen c + blocklen_bytes c)
   <= length (scratchpad (drbg m)))%nat ->
  (Z.to_nat (off + buflen) <= length (out m))%nat ->
  0 <= off ->
  chain_off LScratch (set_next addtl NoString) ->
  let V1 := Hash_DRBG_addtl (core_hash G c) (V (drbg m)) (has_bytes addtl)
                            (chain_bytes m (set_next addtl NoString)) in
  exists a' m',
    gcry_drbg_hash_generate G (Mem LOut off) buflen addtl m
    = Some ((0, a'), m')
    /\ out m'
       = buf_write (out m) (Z.to_nat off)
           (firstn (Z.to_nat buflen)
                   (Hashgen (core_hash G c) V1
                            (req_blocks (blocklen_bytes c) buflen)))
    /\ V (drbg m')
       = Hash_DRBG_next (core_hash G c) V1 (C (drbg m))
                        (reseed_ctr (drbg m) mod 2 ^ 64)
    /\ C (drbg m') = C (drbg m)
    /\ reseed_ctr (drbg m') = reseed_ctr (drbg m)
    /\ zero_upto (Z.to_nat (statelen c + blocklen_bytes c))
                 (scratchpad (drbg m')).
Proof.
  intros Hc HV HbV HC HbC Hsp Hout Hoff Hch.
  exact (hash_generate_run off buflen addtl m Hc HV HbV HC HbC Hsp Hout
           Hoff Hch).
Qed.

End HashDrbg.

(** The stand-in digest of the test platform delivers bytes. *)
Lemma test_md_digest_bytes algo key data :
  bytes (test_md_digest algo key data).
Proof.
  unfold test_md_digest. apply Forall_forall. intros x Hx.
  apply in_map_iff in Hx. destruct Hx as (i & <- & _).
  unfold is_byte. apply Z.mod_pos_bound. lia.
Qed.

Lemma test_md_digest_length algo key data :
  length (test_md_digest algo key data) = test_digest_len algo.
Proof. unfold test_md_digest. now rewrite length_map, length_seq. Qed.

(** A reseed of the instance for SHA-1 from three bytes. *)
Lemma gcry_drbg_hash_update_computes_witness :
  let c := Build_gcry_drbg_core 16 55 20 2 in
  let H := core_hash quiet_platform c in
  let m := test_mach (test_state 0 gcry_drbg_hash_ops 75) 0 [] in
  let seed := drbg_string (Data [1; 2; 3]) 3 NoString in
  exists m',
    gcry_drbg_hash_update quiet_platform seed 1 m = Some ((0, seed), m')
    /\ V (drbg m') = Hash_df H 20 (1 :: repeat 0 55 ++ [1; 2; 3]) 55
    /\ C (drbg m') = Hash_df H 20 (0 :: V (drbg m')) 55.
Proof.
  intros c H m seed.
  destruct (gcry_drbg_hash_update_computes quiet_platform c
              ltac:(cbn; lia) ltac:(cbn; lia) (fun e => eq_refl)
              (fun d => test_md_digest_length 2 None d)
              (Data [1; 2; 3]) 3 NoString 1 m eq_refl eq_refl eq_refl
              ltac:(apply Nat.leb_le; reflexivity) (conj I I) (conj I I))
    as (m' & E & HV & HC & _).
  exists m'. split; [exact E|]. split; [exact HV|exact HC].
Defined.

(** A request of 30 bytes, two digests of SHA-1, with additional input,
    at offset 1 of a buffer of 32 bytes; the request counter is 1. *)
Lemma gcry_drbg_hash_generate_computes_witness :
  let c := Build_gcry_drbg_core 16 55 20 2 in
  let H := core_hash quiet_platform c in
  let m := test_mach (test_state 0 gcry_drbg_hash_ops 75) 32 [] in
  let addtl := drbg_string (Data [1; 2; 3]) 3 NoString in
  let V1 := add_mod (repeat 0 55)
                    (be_int (H (2 :: repeat 0 55 ++ [1; 2; 3]))) in
  exists a' m',
    gcry_drbg_hash_generate quiet_platform (Mem LOut 1) 30 addtl m
    = Some ((0, a'), m')
    /\ out m' = buf_write (repeat 0 32) 1 (firstn 30 (Hashgen H V1 2))
    /\ V (drbg m') = add_mod V1 (be_int (H (3 :: V1)) + 0 + 1).
Proof.
  intros c H m addtl V1.
  assert (Hz : bytes (repeat 0 55)).
  { apply Forall_forall. intros x Hx. apply repeat_spec in Hx. subst x.
    unfold is_byte. lia. }
  destruct (gcry_drbg_hash_generate_computes quiet_platform c
              ltac:(cbn; lia) ltac:(cbn; lia) (fun e => eq_refl)
              (fun d => test_md_digest_length 2 None d)
              (fun d => test_md_digest_bytes 2 None d)
              ltac:(cbn; lia) 1 30 addtl m eq_refl eq_refl Hz eq_refl Hz
              ltac:(apply Nat.leb_le; reflexivity)
              ltac:(apply Nat.leb_le; reflexivity) ltac:(lia) (conj I I))
    as (a' & m' & E & Ho & HV & _).
  exists a', m'. split; [exact E|]. split; [exact Ho|exact HV].
Defined.

(** ** The sanity test of the health check *)

Section SanityCheck.

Context {env : Type} (G : platform env).

Lemma addtl_overflow_rejected buf buflen p :
  generate_args_rejected G buf buflen
    (gcry_drbg_string_fill p (to_size_t G (gcry_drbg_max_addtl G + 1)))
  = true.
Proof.
  unfold generate_args_rejected, gcry_drbg_string_fill.
  apply orb_true_iff. right. apply Z.gtb_lt.
  rewrite max_addtl_eq. unfold to_size_t, size_bits.
  destruct (lp64 G); rewrite Z.mod_small; lia.
Qed.

Lemma sanity_run_spec test coreref (m : mach env) :
  healthcheck_sanity_run G test coreref m
  = (' (r, _) <- gcry_drbg_instantiate G NoString coreref true ;;
     if is_err r then ret r else gcry_drbg_uninstantiate ;; ret r) m.
Proof.
  unfold healthcheck_sanity_run. apply bind_ext; [reflexivity|].
  intros [r p] m1. destruct (is_err r); [reflexivity|].
  cbv zeta. unfold bind at 1.
  rewrite (bind_some _ _ _ _ _
             (generate_rejected G _ _ _ m1
                (addtl_overflow_rejected (Mem LOut 0) (tv_expectedlen test)
                                         (tv_addtla test)))).
  reflexivity.
Qed.

(** X17.  In FIPS mode [gcry_drbg_healthcheck_sanity] returns
    [GPG_ERR_ENOMEM] or [GPG_ERR_GENERAL] before it has an instance, or
    else what its first [gcry_drbg_instantiate] returns: when that
    instantiation succeeds the result is 0, and the backend and the
    buffer are at the end as the instantiation left them.  The first
    generate call, with its over-long additional input, is rejected, and
    that ends the test: the second generate call and the two
    instantiations that follow in the code are never made.  Outside FIPS
    mode the function returns 0 and does nothing. *)
Theorem gcry_drbg_healthcheck_sanity_first_check_ends fips_mode test
        (m : mach env) r m' :
  gcry_drbg_healthcheck_sanity G fips_mode test m = Some (r, m') ->
  (fips_mode = false -> r = 0 /\ m' = m)
  /\ (fips_mode = true ->
      drbg m' = drbg m
      /\ (r = GPG_ERR_ENOMEM \/ r = GPG_ERR_GENERAL
          \/ exists m1 p m2,
               drbg m1 = drbg_calloc
               /\ gcry_drbg_instantiate G NoString
                    (snd (gcry_drbg_algo_available G (tv_flags test)))
                    true m1 = Some ((r, p), m2)
               /\ out m' = out m2 /\ be m' = be m2)).
Proof.
  intros H. unfold gcry_drbg_healthcheck_sanity in H.
  destruct fips_mode; cbn [negb] in H.
  2:{ apply ret_inv in H. split; [intros _; exact H|discriminate]. }
  split; [discriminate|]. intros _.
  peel H e m1 E1. apply call_inv in E1. destruct E1 as [D1 O1].
  destruct (is_err e).
  { apply ret_inv in H. destruct H as [-> ->]. split; [exact D1|now left]. }
  peel H u m2 E2. injection E2 as _ <-.
  destruct (gcry_drbg_algo_available G (tv_flags test)) as [tmpret coreref].
  destruct (is_err tmpret).
  { apply ret_inv in H. destruct H as [-> ->].
    split; [exact D1|right; now left]. }
  peel H e3 m3 E3. apply call_inv in E3. destruct E3 as [D3 O3].
  cbn [drbg out] in D3, O3.
  destruct (is_err e3).
  { apply ret_inv in H. destruct H as [-> ->].
    split; [congruence|right; now left]. }
  rewrite sanity_run_spec in H.
  match type of H with
  | match ?x ?m0 with _ => _ end = _ =>
      set (m4 := m0) in H; destruct (x m4) as [[r0 m5]|] eqn:E5;
        [|discriminate]
  end.
  injection H as <- <-. cbn [drbg out be].
  split; [congruence|]. right. right.
  peel E5 rp m6 E6. destruct rp as [r1 p1].
  exists m4, p1, m6. split; [reflexivity|]. cbn [snd].
  destruct (is_err r1) eqn:Er1.
  - apply ret_inv in E5. destruct E5 as [-> ->]. now repeat split.
  - peel E5 u7 m7 E7. apply ret_inv in E5. destruct E5 as [-> ->].
    split; [exact E6|].
    injection E7 as _ <-. now split.
Qed.

End SanityCheck.

(** The sanity test on the test platform, in FIPS mode. *)
Lemma gcry_drbg_healthcheck_sanity_first_check_ends_witness :
  let m := test_mach (test_state 8 gcry_drbg_ctr_ops 160) 0 [] in
  exists m',
    gcry_drbg_healthcheck_sanity test_platform true test_vector m
    = Some (0, m')
    /\ drbg m' = drbg m.
Proof.
  intros m.
  destruct (gcry_drbg_healthcheck_sanity test_platform true test_vector m)
    as [[r m']|] eqn:E; [|vm_compute in E; discriminate].
  assert (Hr : r = 0) by (vm_compute in E; now injection E as <- _).
  subst r. exists m'. split; [reflexivity|].
  exact (proj1 (proj2 (gcry_drbg_healthcheck_sanity_first_check_ends
                         test_platform true test_vector m 0 m' E)
                      eq_refl)).
Defined.

(** ** The instance of the library *)

Section InitInternal.

Context {env : Type} (G : platform env).

Lemma algo_unavailable fl :
  fst (gcry_drbg_algo_available G fl) <> 0 ->
  gcry_drbg_algo_available G fl = (GPG_ERR_GENERAL, 0).
Proof.
  intros H. unfold gcry_drbg_algo_available in *.
  destruct (algo_available_loop_spec G fl (gcry_drbg_cores G) 0)
    as [(H0 & _)|[Hg _]]; [now contradiction H|exact Hg].
Qed.

(** X18.  Flags that name no available DRBG type make
    [_gcry_drbg_init_internal] return [GPG_ERR_GENERAL] with the instance
    as it was, but they are remembered all the same: a later call with
    flags 0, which stands for the flags of the previous initialization,
    fails in the same way, whatever type had been initialized before. *)
Theorem gcry_drbg_init_internal_remembers_bad_flags pid fl pers g
        (m : mach env) :
  fl <> 0 ->
  fst (gcry_drbg_algo_available G fl) <> 0 ->
  _gcry_drbg_init_internal G pid fl pers g m
  = Some ((GPG_ERR_GENERAL, set_oldflags fl g), m)
  /\ forall pid' pers',
       _gcry_drbg_init_internal G pid' 0 pers' (set_oldflags fl g) m
       = Some ((GPG_ERR_GENERAL, set_oldflags fl g), m).
Proof.
  intros Hfl Hno. pose proof (algo_unavailable fl Hno) as E.
  split; [|intros pid' pers']; unfold _gcry_drbg_init_internal.
  - apply Z.eqb_neq in Hfl. rewrite Hfl, E. reflexivity.
  - cbn [Z.eqb oldflags set_oldflags]. rewrite E. reflexivity.
Qed.

(** X19.  [_gcry_drbg_init_internal] on an existing instance, with
    flags of an available type (or 0 and such flags remembered): the
    flags are remembered.  When it returns 0 the instance is seeded, has
    the core and the prediction-resistance flag the flags select, and
    the process id is recorded.  When it returns an error the previous
    instance is gone: its buffers are freed and it is not seeded, and
    the FIPS error has been signalled. *)
Theorem gcry_drbg_init_internal_replaces_instance pid fl pers g
        (m : mach env) r g' m' :
  let eff := if fl =? 0 then oldflags g else fl in
  gcry_drbg_allocated g = true ->
  fst (gcry_drbg_algo_available G eff) = 0 ->
  _gcry_drbg_init_internal G pid fl pers g m = Some ((r, g'), m') ->
  oldflags g' = eff /\ gcry_drbg_allocated g' = true
  /\ out m' = out m
  /\ (r = 0 ->
      seeded (drbg m') = true /\ seed_init_pid (drbg m') = pid
      /\ pr (drbg m') = flag_set eff (GCRY_DRBG_PREDICTION_RESIST G)
      /\ core (drbg m')
         = nth_error (gcry_drbg_cores G)
             (Z.to_nat (snd (gcry_drbg_algo_available G eff)))
      /\ fips_error g' = fips_error g)
  /\ (r <> 0 ->
      V (drbg m') = [] /\ C (drbg m') = [] /\ scratchpad (drbg m') = []
      /\ seeded (drbg m') = false /\ fips_error g' = true).
Proof.
  intros eff Ha Hav H. unfold _gcry_drbg_init_internal in H.
  fold eff in H.
  destruct (gcry_drbg_algo_available G eff) as [r0 coreref].
  cbn [fst] in Hav. subst r0. cbn [snd]. cbn [is_err Z.eqb negb] in H.
  cbn [set_oldflags gcry_drbg_allocated] in H. rewrite Ha in H.
  peel H eg m1 E1. destruct eg as [e g1].
  peel E1 u m0 E0. apply ret_inv in E1. destruct E1 as [E1 ->].
  injection E1 as -> ->. cbn [is_err Z.eqb negb] in H.
  destruct (uninstantiate_run _ _ _ E0) as (_ & Hun & _ & _ & _ & Ho0).
  peel H rp m2 E2. destruct rp as [r2 p2].
  destruct (instantiate_run G _ _ _ _ _ _ _ E2)
    as (c & Hn & Hc & _ & Ho2 & Hrun).
  destruct Hun as (HV0 & HC0 & HS0 & _ & _ & _ & _).
  destruct (is_err r2) eqn:Er.
  - apply ret_inv in H. destruct H as [H ->]. injection H as -> ->.
    apply is_err_true in Er.
    cbn [oldflags gcry_drbg_allocated fips_signal_error fips_error].
    split; [reflexivity|]. split; [exact Ha|]. split; [congruence|].
    split; [intros Hr; now contradiction Er|]. intros _.
    destruct (ops_of_flags G (flags c)) as [o|].
    + destruct Hrun as [_ [(Hr0 & _)|[_ Hun2]]]; [now contradiction Er|].
      destruct Hun2 as (A & B & D & _ & S & _). now repeat split.
    + destruct Hrun as [_ ->]. cbn. now repeat split.
  - apply is_err_false in Er. subst r2.
    peel H u3 m3 E3. apply modify_inv in E3.
    apply ret_inv in H. destruct H as [H ->]. injection H as -> ->.
    subst m3. cbn [drbg out seeded seed_init_pid pr core set_seed_init_pid
                   oldflags gcry_drbg_allocated fips_error].
    split; [reflexivity|]. split; [exact Ha|]. split; [congruence|].
    split; [|intros Hr; now contradiction Hr]. intros _.
    destruct (ops_of_flags G (flags c)) as [o|].
    + destruct Hrun as [_ [(_ & Hp & Hs & _)|[Hr _]]];
        [|now contradiction Hr].
      repeat split; try assumption. congruence.
    + destruct Hrun as [Hr _]. discriminate.
Qed.

End InitInternal.

(** Flags with a cipher bit no core has, after an initialization with
    the flags of Hash-SHA1. *)
Lemma gcry_drbg_init_internal_remembers_bad_flags_witness :
  let g := {| gcry_drbg_allocated := true; oldflags := 16;
              fips_error := false |} in
  let m := test_mach (test_state 0 gcry_drbg_hash_ops 75) 0 [] in
  _gcry_drbg_init_internal test_platform 7 2 NoString g m
  = Some ((GPG_ERR_GENERAL, set_oldflags 2 g), m)
  /\ _gcry_drbg_init_internal test_platform 7 0 NoString (set_oldflags 2 g) m
     = Some ((GPG_ERR_GENERAL, set_oldflags 2 g), m).
Proof.
  intros g m.
  destruct (gcry_drbg_init_internal_remembers_bad_flags
              test_platform 7 2 NoString g m)
    as [H1 H2].
  - discriminate.
  - vm_compute. discriminate.
  - split; [exact H1|exact (H2 7 NoString)].
Defined.

(** A call with flags 0 on an HMAC instance, the flags of Hash-SHA1
    remembered. *)
Lemma gcry_drbg_init_internal_replaces_instance_witness :
  let g := {| gcry_drbg_allocated := true; oldflags := 16;
              fips_error := false |} in
  let m := test_mach (test_state 4 gcry_drbg_hmac_ops 0) 0 [] in
  exists g' m',
    _gcry_drbg_init_internal test_platform 7 0 NoString g m
    = Some ((0, g'), m')
    /\ oldflags g' = 16
    /\ seeded (drbg m') = true /\ seed_init_pid (drbg m') = 7
    /\ core (drbg m') = Some (Build_gcry_drbg_core 16 55 20 2).
Proof.
  intros g m.
  destruct (_gcry_drbg_init_internal test_platform 7 0 NoString g m)
    as [[[r g'] m']|] eqn:E; [|vm_compute in E; discriminate].
  assert (Hr : r = 0) by (vm_compute in E; now injection E as <- _ _).
  subst r. exists g', m'. split; [reflexivity|].
  destruct (gcry_drbg_init_internal_replaces_instance
              test_platform 7 0 NoString g m 0 g' m' eq_refl eq_refl E)
    as (Hf & _ & _ & H0 & _).
  destruct (H0 eq_refl) as (Hs & Hp & _ & Hc & _).
  split; [exact Hf|]. split; [exact Hs|]. split; [exact Hp|exact Hc].
Defined.

(** ** Reads after writes *)

Lemma buf_read_write_beyond sp o bs a k :
  (o + length bs <= a)%nat ->
  buf_read (buf_write sp o bs) a k = buf_read sp a k.
Proof.
  intros Ha. unfold buf_read. f_equal.
  apply nth_ext with (d := 0) (d' := 0).
  - now rewrite !length_skipn, buf_write_length.
  - intros i _. rewrite !nth_skipn. apply nth_buf_write_out. lia.
Qed.

Lemma buf_read_write_inside sp o bs a k :
  (o + length bs <= length sp)%nat -> (a + k <= length bs)%nat ->
  buf_read (buf_write sp o bs) (o + a) k = firstn k (skipn a bs).
Proof.
  intros Ho Ha. rewrite buf_write_in_range by exact Ho. unfold buf_read.
  rewrite skipn_app, length_firstn.
  replace (o + a - Nat.min o (length sp))%nat with a by lia.
  rewrite (skipn_all2 (n := (o + a)%nat)) by (rewrite length_firstn; lia).
  cbn [app]. rewrite skipn_app.
  rewrite firstn_app.
  replace (k - length (skipn a bs))%nat with 0%nat
    by (rewrite length_skipn; lia).
  now rewrite firstn_O, app_nil_r.
Qed.

Lemma xor_bytes_same_length : forall a b,
  length a = length b -> length (xor_bytes a b) = length a.
Proof.
  induction a as [|x a IH]; intros [|y b] Hl; try discriminate;
    [reflexivity|].
  cbn [xor_bytes length]. f_equal. apply IH. now injection Hl.
Qed.

Lemma xor_bytes_zeros : forall t, xor_bytes t (repeat 0 (length t)) = t.
Proof.
  induction t as [|x t IH]; [reflexivity|].
  cbn [length repeat xor_bytes]. now rewrite Z.lxor_0_r, IH.
Qed.

(** ** The CTR DRBG against SP 800-90A *)

Section CtrDrbg.

Context {env : Type} (G : platform env).

Variable c : gcry_drbg_core.

Let sl := statelen c.
Let bl := blocklen_bytes c.
Let kl := statelen c - blocklen_bytes c.
Let E := core_encrypt G c.

(** The cores of the CTR DRBG: the state is a key and a block, the
    cipher opens and takes its key, and its blocks are [blocklen]
    bytes. *)
Hypothesis Hbl : 0 < blocklen_bytes c.
Hypothesis Hsl : blocklen_bytes c <= statelen c < 2 ^ 16.
Hypothesis Hcopen :
  forall e, fst (backend G e (cipher_open (backend_cipher c))) = 0.
Hypothesis Hsetkey : forall e k, fst (backend G e (cipher_setkey k)) = 0.
Hypothesis Hblk :
  cipher_get_algo_blklen G (backend_cipher c) = blocklen_bytes c.
Hypothesis Helen :
  forall k x, length x = Z.to_nat (blocklen_bytes c) ->
              length (E k x) = Z.to_nat (blocklen_bytes c).

(** The key and the counter block of an instance. *)
Let key_of (m : mach env) : list Z := firstn (Z.to_nat kl) (C (drbg m)).
Let ctr_of (m : mach env) : list Z := firstn (Z.to_nat bl) (V (drbg m)).

Lemma keylen_kl (m : mach env) :
  core (drbg m) = Some c -> gcry_drbg_keylen (drbg m) = kl.
Proof.
  intros Hc. unfold gcry_drbg_keylen. rewrite Hc. unfold to_ushort.
  apply Z.mod_small. unfold kl. lia.
Qed.

(** One block of the cipher, the key in [C], the input the block in
    [V]. *)
Lemma ctr_of_length (m : mach env) :
  (Z.to_nat bl <= length (V (drbg m)))%nat ->
  length (ctr_of m) = Z.to_nat bl.
Proof. intros HV. unfold ctr_of. rewrite length_firstn. lia. Qed.

Lemma sym_run outval (m : mach env) :
  core (drbg m) = Some c ->
  (Z.to_nat bl <= length (V (drbg m)))%nat ->
  exists b,
    gcry_drbg_sym G (Mem LC 0) outval (gcry_drbg_string_fill (Mem LV 0) bl) m
    = Some (0, store_ptr outval (E (key_of m) (ctr_of m)) (with_be m b)).
Proof.
  intros Hc HV. unfold gcry_drbg_sym, gcry_drbg_string_fill.
  cbv beta iota delta [bind get_core get_drbg]. rewrite Hc.
  cbv beta iota delta [ret]. unfold call.
  pose proof (Hcopen (be m)) as Ho.
  destruct (backend G (be m) (cipher_open (backend_cipher c))) as [e1 b1].
  cbn [fst] in Ho. subst e1. cbn [is_err Z.eqb negb].
  rewrite (keylen_kl m Hc).
  unfold gcry_drbg_blocklen. cbn [drbg]. rewrite Hc. fold bl.
  rewrite Hblk. fold bl. rewrite Z.eqb_refl. cbn [negb].
  rewrite Z.ltb_irrefl.
  cbv beta iota delta [load]. cbn [drbg out be].
  match goal with
  | |- context [backend G b1 (cipher_setkey ?k)] =>
      pose proof (Hsetkey b1 k) as Hk;
        destruct (backend G b1 (cipher_setkey k)) as [e2 b2]
  end.
  cbn [fst] in Hk. subst e2. cbn [is_err Z.eqb negb].
  cbv beta iota delta [store]. exists b2. f_equal. f_equal.
  cbn [load_ptr buf_of drbg]. change (Z.to_nat 0) with 0%nat.
  unfold buf_read. cbn [skipn]. fold (key_of m) (ctr_of m).
  fold (E (key_of m) (ctr_of m)).
  rewrite firstn_all2
    by (rewrite Helen; [fold bl; lia|apply ctr_of_length; exact HV]).
  reflexivity.
Qed.

(** What the loops leave as it is. *)
Let fixed (m m' : mach env) : Prop :=
  core (drbg m') = core (drbg m)
  /\ C (drbg m') = C (drbg m)
  /\ reseed_ctr (drbg m') = reseed_ctr (drbg m)
  /\ length (V (drbg m')) = length (V (drbg m))
  /\ length (scratchpad (drbg m')) = length (scratchpad (drbg m)).

Lemma fixed_refl m : fixed m m.
Proof. now repeat split. Qed.

Lemma fixed_trans m1 m2 m3 : fixed m1 m2 -> fixed m2 m3 -> fixed m1 m3.
Proof.
  intros (A1 & A2 & A3 & A4 & A5) (B1 & B2 & B3 & B4 & B5).
  repeat split; congruence.
Qed.

Lemma fixed_store l o bs m : l <> LC -> fixed m (store_ptr (Mem l o) bs m).
Proof.
  intros Hl. destruct l; try (now elim Hl); repeat split; cbn;
    apply buf_write_length.
Qed.

Lemma fixed_be m b : fixed m (with_be m b).
Proof. now repeat split. Qed.

Lemma ctr_of_store_V x (m : mach env) :
  length x = Z.to_nat bl -> (Z.to_nat bl <= length (V (drbg m)))%nat ->
  ctr_of (store_ptr (Mem LV 0) x m) = x.
Proof.
  intros Hx HV. unfold ctr_of.
  cbn [store_ptr set_buf buf_of drbg V set_V]. change (Z.to_nat 0) with 0%nat.
  change (firstn (Z.to_nat bl) (buf_write (V (drbg m)) 0 x))
    with (buf_read (buf_write (V (drbg m)) 0 x) 0 (Z.to_nat bl)).
  rewrite buf_read_write_same by lia. apply firstn_all2. lia.
Qed.

(** [V = (V + 1) mod 2^blocklen] *)
Lemma ctr_add_one (m : mach env) :
  (Z.to_nat bl <= length (V (drbg m)))%nat -> bytes (ctr_of m) ->
  add_buf (Mem LV 0) bl (Data [1]) 1 m
  = Some (tt, store_ptr (Mem LV 0) (add_mod (ctr_of m) 1) m).
Proof.
  intros HV Hb. unfold add_buf. cbv beta iota delta [bind load store].
  cbn [load_ptr buf_of]. change (Z.to_nat 0) with 0%nat.
  unfold buf_read. cbn [skipn]. fold (ctr_of m).
  change (firstn (Z.to_nat 1) [1]) with [1].
  assert (Hl : length (ctr_of m) = Z.to_nat bl)
    by (unfold ctr_of; rewrite length_firstn; lia).
  replace bl with (Z.of_nat (length (ctr_of m))) at 1
    by (rewrite Hl; unfold bl; lia).
  change 1 with (Z.of_nat (length [1])) at 2.
  rewrite add_buf_encodes; [reflexivity|exact Hb| |].
  - apply bytes_single. unfold is_byte. lia.
  - cbn [length]. rewrite Hl. unfold bl. lia.
Qed.

(** The scratchpad behind the block the generate loop works in. *)
Let beyond (m m' : mach env) : Prop :=
  forall o k, (Z.to_nat bl <= o)%nat ->
    buf_read (scratchpad (drbg m')) o k = buf_read (scratchpad (drbg m)) o k.

Lemma beyond_refl m : beyond m m.
Proof. now intros o k _. Qed.

Lemma beyond_trans m1 m2 m3 : beyond m1 m2 -> beyond m2 m3 -> beyond m1 m3.
Proof. intros A B o k Ho. now rewrite B, A. Qed.

Lemma ctr_generate_loop_run off buflen :
  forall fuel len vprev (m : mach env),
  core (drbg m) = Some c ->
  (Z.to_nat bl <= length (V (drbg m)))%nat ->
  ctr_of m = add_mod vprev 1 ->
  (Z.to_nat bl <= length (scratchpad (drbg m)))%nat ->
  (Z.to_nat (off + buflen) <= length (out m))%nat ->
  0 <= off -> 0 <= len -> (Z.to_nat (buflen - len) <= fuel)%nat ->
  let n := req_blocks bl (buflen - len) in
  exists m',
    ctr_generate_loop G fuel bl (Mem LOut off) buflen
      (gcry_drbg_string_fill (Mem LV 0) bl) len m = Some (0, m')
    /\ fixed m m'
    /\ ctr_of m' = add_mod vprev (Z.of_nat (Nat.max 1 n))
    /\ out m'
       = buf_write (out m) (Z.to_nat (off + len))
           (firstn (Z.to_nat (buflen - len))
                   (CTR_DRBG_temp E (key_of m) vprev n))
    /\ beyond m m'.
Proof.
  induction fuel as [|fuel IH];
    intros len vprev m Hc HV Hv Hsp Hout Hoff Hlen Hfuel n; subst n;
    cbn [ctr_generate_loop]; destruct (len <? buflen) eqn:El;
    try (apply Z.ltb_lt in El; lia);
    try (apply Z.ltb_ge in El; exists m; split; [reflexivity|];
         split; [apply fixed_refl|];
         rewrite req_blocks_none by (unfold bl; lia);
         cbn [CTR_DRBG_temp Nat.max]; split; [exact Hv|];
         rewrite firstn_nil, buf_write_nil; split; [reflexivity|];
         apply beyond_refl).
  apply Z.ltb_lt in El.
  destruct (sym_run (Mem LScratch 0) m Hc HV) as [b Es].
  rewrite (bind_some _ _ _ _ _ Es). cbn [is_err Z.eqb negb].
  pose proof (ctr_of_length m HV) as Hlv0. rewrite Hv in Hlv0.
  rewrite Hv.
  set (blk := E (key_of m) (add_mod vprev 1)).
  assert (Hblk' : length blk = Z.to_nat bl) by (apply Helen; exact Hlv0).
  set (m1 := store_ptr (Mem LScratch 0) blk (with_be m b)).
  set (outlen := if bl <? buflen - len then bl else buflen - len).
  assert (Hol : 0 < outlen <= bl /\ outlen <= buflen - len).
  { unfold outlen. destruct (bl <? buflen - len) eqn:Eb.
    - apply Z.ltb_lt in Eb. unfold bl in *. lia.
    - apply Z.ltb_ge in Eb. lia. }
  rewrite (bind_some _ _ _ _ _ (memcpy_eq _ _ _ _)).
  assert (Hload : load_ptr m1 (Mem LScratch 0) outlen
                  = firstn (Z.to_nat outlen) blk).
  { cbn [load_ptr buf_of m1 store_ptr set_buf drbg scratchpad
         set_scratchpad with_be].
    change (Z.to_nat 0) with 0%nat. apply buf_read_write_same; lia. }
  rewrite Hload. cbn [ptr_add].
  set (m2 := store_ptr (Mem LOut (off + len))
                       (firstn (Z.to_nat outlen) blk) m1).
  assert (F2 : fixed m m2).
  { apply fixed_trans with (m2 := with_be m b); [apply fixed_be|].
    apply fixed_trans with (m2 := m1); apply fixed_store; discriminate. }
  assert (O2 : out m2 = buf_write (out m) (Z.to_nat (off + len))
                                  (firstn (Z.to_nat outlen) blk))
    by reflexivity.
  assert (V2 : V (drbg m2) = V (drbg m)) by reflexivity.
  assert (B2 : beyond m m2).
  { intros o k Ho.
    change (scratchpad (drbg m2))
      with (buf_write (scratchpad (drbg m)) 0 blk).
    apply buf_read_write_beyond. lia. }
  assert (K2 : key_of m2 = key_of m) by reflexivity.
  assert (Hl1 : length (firstn (Z.to_nat outlen) blk) = Z.to_nat outlen)
    by (rewrite length_firstn, Hblk'; lia).
  assert (Hn : req_blocks bl (buflen - len)
               = S (req_blocks bl (buflen - (len + outlen)))).
  { unfold outlen. destruct (bl <? buflen - len) eqn:Eb.
    - apply Z.ltb_lt in Eb.
      rewrite (req_blocks_more bl (buflen - len)) by (unfold bl in *; lia).
      do 2 f_equal. lia.
    - apply Z.ltb_ge in Eb.
      rewrite req_blocks_last by (unfold bl in *; lia).
      rewrite req_blocks_none by (unfold bl in *; lia). reflexivity. }
  assert (Hcut : forall W,
             firstn (Z.to_nat (buflen - len)) (blk ++ W)
             = firstn (Z.to_nat outlen) blk
               ++ firstn (Z.to_nat (buflen - (len + outlen))) W).
  { intros W. rewrite firstn_app, Hblk'.
    unfold outlen. destruct (bl <? buflen - len) eqn:Eb.
    - apply Z.ltb_lt in Eb.
      rewrite !firstn_all2 with (l := blk) by (rewrite Hblk'; lia).
      f_equal. f_equal. lia.
    - apply Z.ltb_ge in Eb. f_equal.
      replace (Z.to_nat (buflen - (len + (buflen - len)))) with 0%nat by lia.
      replace (Z.to_nat (buflen - len) - Z.to_nat bl)%nat with 0%nat by lia.
      reflexivity. }
  assert (Hctr2 : ctr_of m2 = add_mod vprev 1) by exact Hv.
  destruct (len + outlen <? buflen) eqn:E3.
  - (* one more block: the counter is incremented *)
    apply Z.ltb_lt in E3.
    rewrite (bind_some _ _ _ _ _
               (ctr_add_one m2 ltac:(rewrite V2; exact HV)
                  ltac:(rewrite Hctr2; apply add_mod_bytes))).
    rewrite Hctr2.
    set (m3 := store_ptr (Mem LV 0) (add_mod (add_mod vprev 1) 1) m2).
    assert (F3 : fixed m m3).
    { apply fixed_trans with (m2 := m2); [exact F2|].
      apply fixed_store. discriminate. }
    assert (Hlv : length (add_mod vprev 1) = Z.to_nat bl).
    { rewrite <- Hv. unfold ctr_of. rewrite length_firstn. lia. }
    assert (Hctr3 : ctr_of m3 = add_mod (add_mod vprev 1) 1).
    { apply ctr_of_store_V.
      - now rewrite add_mod_length.
      - now rewrite V2. }
    destruct F3 as (F3c & F3C & F3r & F3V & F3s).
    destruct (IH (len + outlen) (add_mod vprev 1) m3
                ltac:(now rewrite F3c) ltac:(now rewrite F3V) Hctr3
                ltac:(now rewrite F3s)
                ltac:(change (out m3) with (out m2);
                      rewrite O2, buf_write_length; exact Hout)
                Hoff ltac:(lia) ltac:(lia))
      as (m' & Er & Fr & Cr & Or & Br).
    exists m'. split; [exact Er|]. split.
    { apply fixed_trans with (m2 := m3); [now repeat split|exact Fr]. }
    split; [|split; [|apply beyond_trans with (m2 := m3);
                       [exact B2|exact Br]]].
    + rewrite Cr, Hn, add_mod_add_mod. f_equal.
      assert (0 < req_blocks bl (buflen - (len + outlen)))%nat; [|lia].
      destruct (Z.ltb_spec bl (buflen - (len + outlen))).
      * rewrite req_blocks_more by (unfold bl in *; lia). lia.
      * rewrite req_blocks_last by (unfold bl in *; lia). lia.
    + rewrite Or. change (out m3) with (out m2). rewrite O2.
      change (key_of m3) with (key_of m).
      rewrite Hn. cbn [CTR_DRBG_temp]. fold blk. rewrite Hcut.
      replace (Z.to_nat (off + (len + outlen)))
        with (Z.to_nat (off + len)
              + length (firstn (Z.to_nat outlen) blk))%nat
        by (rewrite Hl1; lia).
      now rewrite buf_write_compose.
  - (* the request is complete *)
    apply Z.ltb_ge in E3.
    rewrite bind_ret.
    destruct fuel as [|fuel']; cbn [ctr_generate_loop];
      (assert (E4 : (len + outlen <? buflen) = false)
         by (apply Z.ltb_ge; lia)); rewrite E4;
      (exists m2; split; [reflexivity|]; split; [exact F2|];
       rewrite Hn, req_blocks_none by (unfold bl in *; lia);
       split; [exact Hctr2|];
       split; [|exact B2];
       rewrite O2; cbn [CTR_DRBG_temp]; fold blk; rewrite Hcut;
       replace (Z.to_nat (buflen - (len + outlen))) with 0%nat by lia;
       now rewrite !firstn_O, app_nil_r).
Qed.

Lemma CTR_DRBG_temp_length K : forall n v,
  length v = Z.to_nat bl ->
  length (CTR_DRBG_temp E K v n) = (n * Z.to_nat bl)%nat.
Proof.
  induction n as [|n IH]; intros v Hv; [reflexivity|].
  cbn [CTR_DRBG_temp].
  rewrite length_app, Helen, IH by (now rewrite add_mod_length).
  fold bl. lia.
Qed.

(** 10.2.1.2 step 2, the loop of [gcry_drbg_ctr_update] *)
Lemma ctr_update_loop_run : forall fuel len v (m : mach env),
  core (drbg m) = Some c ->
  (Z.to_nat bl <= length (V (drbg m)))%nat ->
  ctr_of m = v -> bytes v ->
  0 <= len -> (Z.to_nat (sl - len) <= fuel)%nat ->
  let n := req_blocks bl (sl - len) in
  exists m',
    ctr_update_loop G fuel sl bl (Mem LScratch 0)
      (gcry_drbg_string_fill (Mem LV 0) bl) len m = Some (0, m')
    /\ fixed m m' /\ out m' = out m
    /\ ctr_of m' = add_mod v (Z.of_nat n)
    /\ scratchpad (drbg m')
       = buf_write (scratchpad (drbg m)) (Z.to_nat len)
                   (CTR_DRBG_temp E (key_of m) v n).
Proof.
  induction fuel as [|fuel IH];
    intros len v m Hc HV Hv Hb Hlen Hfuel n; subst n;
    cbn [ctr_update_loop]; destruct (len <? sl) eqn:El;
    try (apply Z.ltb_lt in El; lia);
    try (apply Z.ltb_ge in El; exists m; split; [reflexivity|];
         split; [apply fixed_refl|]; split; [reflexivity|];
         rewrite req_blocks_none by (unfold bl; lia);
         cbn [CTR_DRBG_temp]; rewrite buf_write_nil; split; [|reflexivity];
         unfold add_mod; rewrite Z.add_0_r, <- Hv;
         symmetry; apply be_bytes_be_int; now rewrite Hv).
  apply Z.ltb_lt in El.
  rewrite (bind_some _ _ _ _ _
             (ctr_add_one m HV ltac:(now rewrite Hv))).
  rewrite Hv.
  set (m1 := store_ptr (Mem LV 0) (add_mod v 1) m).
  assert (Hlv : length v = Z.to_nat bl)
    by (rewrite <- Hv; unfold ctr_of; rewrite length_firstn; lia).
  assert (Hctr1 : ctr_of m1 = add_mod v 1)
    by (apply ctr_of_store_V; [now rewrite add_mod_length|exact HV]).
  assert (F1 : fixed m m1) by (apply fixed_store; discriminate).
  destruct F1 as (F1c & F1C & F1r & F1V & F1s).
  destruct (sym_run (ptr_add (Mem LScratch 0) len) m1
                    ltac:(now rewrite F1c) ltac:(now rewrite F1V))
    as [b Es].
  rewrite (bind_some _ _ _ _ _ Es). cbn [is_err Z.eqb negb].
  rewrite Hctr1. change (key_of m1) with (key_of m).
  set (blk := E (key_of m) (add_mod v 1)).
  cbn [ptr_add]. rewrite Z.add_0_l.
  set (m2 := store_ptr (Mem LScratch len) blk (with_be m1 b)).
  assert (F2 : fixed m m2).
  { apply fixed_trans with (m2 := m1); [now repeat split|].
    apply fixed_trans with (m2 := with_be m1 b); [apply fixed_be|].
    apply fixed_store. discriminate. }
  assert (Hctr2 : ctr_of m2 = add_mod v 1) by exact Hctr1.
  destruct F2 as (F2c & F2C & F2r & F2V & F2s).
  destruct (IH (len + bl) (add_mod v 1) m2
              ltac:(now rewrite F2c) ltac:(now rewrite F2V) Hctr2
              (add_mod_bytes _ _) ltac:(unfold bl; lia)
              ltac:(unfold bl in *; lia))
    as (m' & Er & Fr & Or & Cr & Sr).
  exists m'. split; [exact Er|]. split.
  { apply fixed_trans with (m2 := m2); [now repeat split|exact Fr]. }
  split; [rewrite Or; reflexivity|].
  assert (Hn : req_blocks bl (sl - len)
               = S (req_blocks bl (sl - (len + bl)))).
  { destruct (Z.ltb_spec bl (sl - len)).
    - rewrite (req_blocks_more bl (sl - len)) by (unfold bl in *; lia).
      do 2 f_equal. lia.
    - rewrite req_blocks_last by (unfold bl in *; lia).
      rewrite req_blocks_none by (unfold bl in *; lia). reflexivity. }
  rewrite Hn. split.
  - rewrite Cr, add_mod_add_mod. f_equal. lia.
  - rewrite Sr. change (key_of m2) with (key_of m).
    cbn [CTR_DRBG_temp]. fold blk.
    change (scratchpad (drbg m2))
      with (buf_write (scratchpad (drbg m)) (Z.to_nat len) blk).
    replace (Z.to_nat (len + bl))
      with (Z.to_nat len + length blk)%nat
      by (unfold blk; rewrite Helen by (now rewrite add_mod_length);
          fold bl; unfold bl in *; lia).
    now rewrite buf_write_compose.
Qed.

Lemma req_blocks_bounds k :
  0 <= k ->
  (Z.to_nat k <= req_blocks bl k * Z.to_nat bl)%nat
  /\ (req_blocks bl k * Z.to_nat bl < Z.to_nat k + Z.to_nat bl)%nat.
Proof.
  intros Hk. unfold req_blocks.
  pose proof (Z.div_mod (k + bl - 1) bl ltac:(unfold bl; lia)) as D.
  pose proof (Z.mod_pos_bound (k + bl - 1) bl ltac:(unfold bl; lia)) as B.
  assert (Hq : 0 <= (k + bl - 1) / bl)
    by (apply Z.div_pos; unfold bl in *; lia).
  set (q := (k + bl - 1) / bl) in *.
  assert (Em : (Z.to_nat q * Z.to_nat bl)%nat = Z.to_nat (q * bl))
    by (rewrite Z2Nat.inj_mul; unfold bl in *; lia).
  rewrite Em. unfold bl in *. nia.
Qed.

(** [gcry_drbg_ctr_update] from the point where [df_data] holds the
    provided data [dd] of 10.2.1.2: [m1] is the state after the two
    [memset] calls at the start, [m1'] the state after the derivation
    function, if it is called. *)
Lemma ctr_update_df_run addtl addtl' reseed dd (m m1' : mach env) :
  core (drbg m) = Some c ->
  (Z.to_nat bl <= length (V (drbg m)))%nat ->
  (Z.to_nat kl <= length (C (drbg m)))%nat ->
  bytes (ctr_of m) ->
  (Z.to_nat (sl + bl + sl) <= length (scratchpad (drbg m)))%nat ->
  let m0 := store_ptr (Mem LScratch 0) (repeat 0 (Z.to_nat (sl + bl))) m in
  let m1 := if reseed <? 3
            then store_ptr (Mem LScratch (sl + bl))
                           (repeat 0 (Z.to_nat sl)) m0
            else m0 in
  match addtl with
  | NoString => ret (0, addtl)
  | drbg_string _ l _ =>
      if 0 <? l
      then gcry_drbg_ctr_df G (Mem LScratch (sl + bl)) sl addtl
      else ret (0, addtl)
  end m1 = Some ((0, addtl'), m1') ->
  fixed m1 m1' -> out m1' = out m1 -> V (drbg m1') = V (drbg m1) ->
  buf_read (scratchpad (drbg m1')) (Z.to_nat (sl + bl)) (Z.to_nat sl) = dd ->
  let X := xor_bytes
             (firstn (Z.to_nat sl)
                     (CTR_DRBG_temp E (key_of m) (ctr_of m)
                                    (req_blocks bl sl))) dd in
  exists m',
    gcry_drbg_ctr_update G addtl reseed m = Some ((0, addtl'), m')
    /\ key_of m' = firstn (Z.to_nat kl) X
    /\ ctr_of m' = skipn (Z.to_nat kl) X
    /\ out m' = out m
    /\ core (drbg m') = core (drbg m)
    /\ reseed_ctr (drbg m') = reseed_ctr (drbg m)
    /\ length (V (drbg m')) = length (V (drbg m))
    /\ length (C (drbg m')) = length (C (drbg m))
    /\ length (scratchpad (drbg m')) = length (scratchpad (drbg m))
    /\ (reseed = 2 ->
        buf_read (scratchpad (drbg m')) (Z.to_nat (sl + bl)) (Z.to_nat sl)
        = dd).
Proof.
  intros Hc HV HC Hb Hsp m0 m1 Ea F11 O11 V11 D1 X.
  unfold gcry_drbg_ctr_update. rewrite bind_get.
  rewrite (keylen_kl m Hc).
  unfold gcry_drbg_statelen, gcry_drbg_blocklen. rewrite Hc. fold sl bl.
  rewrite (bind_some _ _ _ _ _ (memset_eq _ _ _ _)). fold m0.
  assert (D : (if reseed <? 3 then memset (Mem LScratch (sl + bl)) 0 sl
               else ret tt) m0 = Some (tt, m1)
              /\ fixed m m1 /\ out m1 = out m /\ V (drbg m1) = V (drbg m)).
  { unfold m1. destruct (reseed <? 3).
    - rewrite memset_eq. split; [reflexivity|].
      split; [|split; reflexivity].
      apply fixed_trans with (m2 := m0); apply fixed_store; discriminate.
    - split; [reflexivity|].
      split; [apply fixed_store; discriminate|split; reflexivity]. }
  destruct D as (E1 & F01 & O01 & V01).
  rewrite (bind_some _ _ _ _ _ E1).
  rewrite (bind_some _ _ _ _ _ Ea). cbv beta iota. cbn [is_err Z.eqb negb].
  pose proof (fixed_trans _ _ _ F01 F11) as F1.
  assert (O1 : out m1' = out m) by congruence.
  assert (V1 : V (drbg m1') = V (drbg m)) by congruence.
  clear E1 Ea F01 F11 O01 V01 O11 V11. clear m1. rename m1' into m1.
  destruct F1 as (F1c & F1C & F1r & F1V & F1s).
  assert (K1 : key_of m1 = key_of m) by (unfold key_of; now rewrite F1C).
  assert (C1 : ctr_of m1 = ctr_of m) by (unfold ctr_of; now rewrite V1).
  destruct (ctr_update_loop_run (Z.to_nat sl) 0 (ctr_of m) m1
              ltac:(now rewrite F1c) ltac:(now rewrite F1V) C1 Hb
              ltac:(lia) ltac:(lia))
    as (m2 & E2 & (F2c & F2C & F2r & F2V & F2s) & O2 & C2 & S2).
  rewrite Z.sub_0_r in *. rewrite K1 in S2.
  set (T := CTR_DRBG_temp E (key_of m) (ctr_of m) (req_blocks bl sl)) in *.
  assert (HT : (Z.to_nat sl <= length T)%nat
               /\ (length T < Z.to_nat sl + Z.to_nat bl)%nat).
  { unfold T. rewrite CTR_DRBG_temp_length by (now apply ctr_of_length).
    apply req_blocks_bounds. unfold sl, bl in *. lia. }
  cbv beta iota delta [bind load store memcpy ret]. rewrite E2.
  cbv beta iota. cbn [is_err Z.eqb negb].
  assert (Lt : load_ptr m2 (Mem LScratch 0) sl = firstn (Z.to_nat sl) T).
  { cbn [load_ptr buf_of]. rewrite S2. change (Z.to_nat 0) with 0%nat.
    apply buf_read_write_same; [|lia]. rewrite F1s. unfold sl, bl in *. lia. }
  assert (Ld : load_ptr m2 (Mem LScratch (sl + bl)) sl = dd).
  { cbn [load_ptr buf_of]. rewrite S2, <- D1. change (Z.to_nat 0) with 0%nat.
    apply buf_read_write_beyond. unfold sl, bl in *. lia. }
  rewrite Lt, Ld. fold X.
  assert (Hd : length dd = Z.to_nat sl).
  { rewrite <- D1. apply buf_read_length. rewrite F1s.
    unfold sl, bl in *. lia. }
  assert (HX : length X = Z.to_nat sl).
  { unfold X. rewrite xor_bytes_same_length; rewrite length_firstn; lia. }
  set (m3 := store_ptr (Mem LScratch 0) X m2).
  assert (S3 : (length X <= length (scratchpad (drbg m2)))%nat).
  { rewrite HX, F2s, F1s. unfold sl, bl in *. lia. }
  assert (Lk : load_ptr m3 (Mem LScratch 0) kl = firstn (Z.to_nat kl) X).
  { cbn [load_ptr buf_of m3 store_ptr set_buf drbg scratchpad
         set_scratchpad].
    change (Z.to_nat 0) with 0%nat.
    apply buf_read_write_same; [lia|]. rewrite HX. unfold kl, sl, bl in *.
    lia. }
  rewrite Lk.
  set (m4 := store_ptr (Mem LC 0) (firstn (Z.to_nat kl) X) m3).
  cbn [ptr_add]. rewrite Z.add_0_l.
  assert (Lv : load_ptr m4 (Mem LScratch kl) bl = skipn (Z.to_nat kl) X).
  { cbn [load_ptr buf_of m4 m3 store_ptr set_buf drbg scratchpad
         set_scratchpad set_C].
    change (Z.to_nat 0) with 0%nat.
    rewrite (buf_read_write_inside _ 0 X (Z.to_nat kl) (Z.to_nat bl))
      by (rewrite ?HX; unfold kl, sl, bl in *; lia).
    apply firstn_all2. rewrite length_skipn, HX. unfold kl, sl, bl in *.
    lia. }
  rewrite Lv.
  set (m5 := store_ptr (Mem LV 0) (skipn (Z.to_nat kl) X) m4).
  rewrite memset_eq. cbv beta iota.
  set (m6 := store_ptr (Mem LScratch 0) (repeat 0 (Z.to_nat (sl + bl))) m5).
  assert (E7 : exists m7,
             (if negb (reseed =? 2) then memset (Mem LScratch (sl + bl)) 0 sl
              else ret tt) m6 = Some (tt, m7)
             /\ V (drbg m7) = V (drbg m5) /\ C (drbg m7) = C (drbg m4)
             /\ out m7 = out m2 /\ core (drbg m7) = core (drbg m2)
             /\ reseed_ctr (drbg m7) = reseed_ctr (drbg m2)
             /\ length (scratchpad (drbg m7))
                = length (scratchpad (drbg m2))
             /\ (reseed = 2 ->
                 buf_read (scratchpad (drbg m7)) (Z.to_nat (sl + bl))
                          (Z.to_nat sl) = dd)).
  { destruct (negb (reseed =? 2)) eqn:E2r.
    - rewrite memset_eq. eexists. split; [reflexivity|].
      repeat split; [cbn; now rewrite !buf_write_length|].
      intros ->. discriminate.
    - exists m6. split; [reflexivity|].
      repeat split; [cbn; now rewrite !buf_write_length|].
      intros _. rewrite <- Ld.
      change (scratchpad (drbg m6))
        with (buf_write (buf_write (scratchpad (drbg m2)) 0 X) 0
                        (repeat 0 (Z.to_nat (sl + bl)))).
      cbn [load_ptr buf_of].
      rewrite buf_read_write_beyond by (rewrite repeat_length; lia).
      apply buf_read_write_beyond. lia. }
  destruct E7 as (m7 & E7 & V7 & C7 & O7 & c7 & r7 & l7 & d7).
  unfold ret in E7. rewrite E7. cbv beta iota.
  eexists. split; [reflexivity|].
  split.
  { unfold key_of. rewrite C7.
    cbn [m4 store_ptr set_buf buf_of drbg C set_C].
    change (Z.to_nat 0) with 0%nat.
    change (firstn (Z.to_nat kl) (buf_write (C (drbg m3)) 0
                                            (firstn (Z.to_nat kl) X)))
      with (buf_read (buf_write (C (drbg m3)) 0 (firstn (Z.to_nat kl) X))
                     0 (Z.to_nat kl)).
    assert (Hk : length (firstn (Z.to_nat kl) X) = Z.to_nat kl)
      by (rewrite length_firstn, HX; unfold kl, sl, bl in *; lia).
    rewrite buf_read_write_same.
    - apply firstn_all2. lia.
    - rewrite Hk. change (C (drbg m3)) with (C (drbg m2)).
      now rewrite F2C, F1C.
    - lia. }
  split.
  { unfold ctr_of. rewrite V7.
    cbn [m5 store_ptr set_buf buf_of drbg V set_V].
    change (Z.to_nat 0) with 0%nat.
    assert (Hs : length (skipn (Z.to_nat kl) X) = Z.to_nat bl)
      by (rewrite length_skipn, HX; unfold kl, sl, bl in *; lia).
    change (firstn (Z.to_nat bl) (buf_write (V (drbg m4)) 0
                                            (skipn (Z.to_nat kl) X)))
      with (buf_read (buf_write (V (drbg m4)) 0 (skipn (Z.to_nat kl) X))
                     0 (Z.to_nat bl)).
    rewrite buf_read_write_same.
    - apply firstn_all2. lia.
    - rewrite Hs. change (V (drbg m4)) with (V (drbg m2)).
      now rewrite F2V, F1V.
    - lia. }
  split; [congruence|]. split; [congruence|]. split; [congruence|].
  split.
  { rewrite V7. cbn [m5 store_ptr set_buf buf_of drbg V set_V].
    rewrite buf_write_length. change (V (drbg m4)) with (V (drbg m2)).
    congruence. }
  split.
  { rewrite C7. cbn [m4 store_ptr set_buf buf_of drbg C set_C].
    rewrite buf_write_length. change (C (drbg m3)) with (C (drbg m2)).
    congruence. }
  split; [congruence|exact d7].
Qed.

(** [gcry_drbg_ctr_update] without additional bytes: the provided data
    of 10.2.1.2 is what [df_data] holds, zeros unless the flag is 3. *)
Lemma ctr_update_plain_run addtl reseed (m : mach env) :
  has_bytes addtl = false ->
  core (drbg m) = Some c ->
  (Z.to_nat bl <= length (V (drbg m)))%nat ->
  (Z.to_nat kl <= length (C (drbg m)))%nat ->
  bytes (ctr_of m) ->
  (Z.to_nat (sl + bl + sl) <= length (scratchpad (drbg m)))%nat ->
  let d := if reseed <? 3 then repeat 0 (Z.to_nat sl)
           else buf_read (scratchpad (drbg m)) (Z.to_nat (sl + bl))
                         (Z.to_nat sl) in
  let X := xor_bytes
             (firstn (Z.to_nat sl)
                     (CTR_DRBG_temp E (key_of m) (ctr_of m)
                                    (req_blocks bl sl))) d in
  exists m',
    gcry_drbg_ctr_update G addtl reseed m = Some ((0, addtl), m')
    /\ key_of m' = firstn (Z.to_nat kl) X
    /\ ctr_of m' = skipn (Z.to_nat kl) X
    /\ out m' = out m
    /\ core (drbg m') = core (drbg m)
    /\ reseed_ctr (drbg m') = reseed_ctr (drbg m)
    /\ length (V (drbg m')) = length (V (drbg m))
    /\ length (C (drbg m')) = length (C (drbg m))
    /\ length (scratchpad (drbg m')) = length (scratchpad (drbg m)).
Proof.
  intros Hnb Hc HV HC Hb Hsp d X.
  set (m0 := store_ptr (Mem LScratch 0) (repeat 0 (Z.to_nat (sl + bl))) m).
  set (m1 := if reseed <? 3
             then store_ptr (Mem LScratch (sl + bl))
                            (repeat 0 (Z.to_nat sl)) m0
             else m0).
  assert (D1 : buf_read (scratchpad (drbg m1)) (Z.to_nat (sl + bl))
                        (Z.to_nat sl) = d).
  { unfold d, m1. destruct (reseed <? 3).
    - cbn [store_ptr set_buf buf_of drbg scratchpad set_scratchpad].
      rewrite buf_read_write_same.
      + apply firstn_all2. now rewrite repeat_length.
      + cbn [m0 store_ptr set_buf buf_of drbg scratchpad set_scratchpad].
        rewrite buf_write_length, repeat_length. unfold sl, bl in *. lia.
      + now rewrite repeat_length.
    - cbn [m0 store_ptr set_buf buf_of drbg scratchpad set_scratchpad].
      apply buf_read_write_beyond. rewrite repeat_length. lia. }
  assert (Ea : match addtl with
               | NoString => ret (0, addtl)
               | drbg_string _ l _ =>
                   if 0 <? l
                   then gcry_drbg_ctr_df G (Mem LScratch (sl + bl)) sl addtl
                   else ret (0, addtl)
               end m1 = Some ((0, addtl), m1)).
  { destruct addtl as [|p l nx]; [reflexivity|].
    cbn [has_bytes] in Hnb. now rewrite Hnb. }
  destruct (ctr_update_df_run addtl addtl reseed d m m1 Hc HV HC Hb Hsp
              Ea (fixed_refl m1) eq_refl eq_refl D1)
    as (m' & Er & H1 & H2 & H3 & H4 & H5 & H6 & H7 & H8 & _).
  exists m'. split; [exact Er|]. split; [exact H1|]. split; [exact H2|].
  split; [exact H3|]. split; [exact H4|]. split; [exact H5|].
  split; [exact H6|]. split; [exact H7|exact H8].
Qed.



(** [gcry_drbg_ctr_generate] without additional bytes *)
Lemma ctr_generate_plain_run off buflen addtl (m : mach env) :
  has_bytes addtl = false ->
  core (drbg m) = Some c ->
  (Z.to_nat bl <= length (V (drbg m)))%nat ->
  (Z.to_nat kl <= length (C (drbg m)))%nat ->
  bytes (ctr_of m) ->
  (Z.to_nat (sl + bl + sl) <= length (scratchpad (drbg m)))%nat ->
  (Z.to_nat (off + buflen) <= length (out m))%nat ->
  0 <= off -> 0 < buflen ->
  let n := req_blocks bl buflen in
  let d := buf_read (scratchpad (drbg m)) (Z.to_nat (sl + bl))
                    (Z.to_nat sl) in
  let X := xor_bytes
             (firstn (Z.to_nat sl)
                (CTR_DRBG_temp E (key_of m)
                               (add_mod (ctr_of m) (Z.of_nat n))
                               (req_blocks bl sl))) d in
  exists m',
    gcry_drbg_ctr_generate G (Mem LOut off) buflen addtl m
    = Some ((0, set_next addtl NoString), m')
    /\ out m'
       = buf_write (out m) (Z.to_nat off)
           (firstn (Z.to_nat buflen)
                   (CTR_DRBG_temp E (key_of m) (ctr_of m) n))
    /\ key_of m' = firstn (Z.to_nat kl) X
    /\ ctr_of m' = skipn (Z.to_nat kl) X
    /\ core (drbg m') = core (drbg m)
    /\ reseed_ctr (drbg m') = reseed_ctr (drbg m).
Proof.
  intros Hnb Hc HV HC Hb Hsp Hout Hoff Hlen n d X.
  unfold gcry_drbg_ctr_generate. rewrite bind_get.
  unfold gcry_drbg_blocklen. rewrite Hc. fold bl.
  rewrite (bind_some _ _ _ _ _ (memset_eq _ _ _ _)).
  set (m0 := store_ptr (Mem LScratch 0) (repeat 0 (Z.to_nat bl)) m).
  rewrite Hnb. rewrite bind_ret. cbv beta iota. cbn [is_err Z.eqb negb].
  assert (F0 : fixed m m0) by (apply fixed_store; discriminate).
  assert (B0 : beyond m m0).
  { intros o k Ho.
    cbn [m0 store_ptr set_buf buf_of drbg scratchpad set_scratchpad].
    apply buf_read_write_beyond. rewrite repeat_length. lia. }
  destruct F0 as (F0c & F0C & F0r & F0V & F0s).
  rewrite (bind_some _ _ _ _ _
             (ctr_add_one m0 ltac:(now rewrite F0V) Hb)).
  change (ctr_of m0) with (ctr_of m).
  set (m1 := store_ptr (Mem LV 0) (add_mod (ctr_of m) 1) m0).
  assert (Hlv : length (ctr_of m) = Z.to_nat bl)
    by (unfold ctr_of; rewrite length_firstn; lia).
  assert (C1 : ctr_of m1 = add_mod (ctr_of m) 1).
  { apply ctr_of_store_V; [now rewrite add_mod_length|now rewrite F0V]. }
  destruct (ctr_generate_loop_run off buflen (Z.to_nat buflen) 0 (ctr_of m)
              m1 ltac:(now rewrite <- Hc) ltac:(cbn; now rewrite
                                                  buf_write_length)
              C1
              ltac:(change (scratchpad (drbg m1))
                      with (scratchpad (drbg m0));
                    rewrite F0s; unfold sl, bl in *; lia)
              Hout Hoff ltac:(lia) ltac:(lia))
    as (m2 & E2 & (F2c & F2C & F2r & F2V & F2s) & C2 & O2 & B2).
  rewrite Z.sub_0_r, Z.add_0_r in *. fold n in C2, O2.
  rewrite (bind_some _ _ _ _ _ E2). cbn [is_err Z.eqb negb].
  assert (Hn : (1 <= n)%nat).
  { unfold n. destruct (Z.ltb_spec bl buflen).
    - rewrite req_blocks_more by (unfold bl in *; lia). lia.
    - rewrite req_blocks_last by (unfold bl in *; lia). lia. }
  rewrite Nat.max_r in C2 by exact Hn.
  assert (K2 : key_of m2 = key_of m).
  { unfold key_of. rewrite F2C. reflexivity. }
  assert (D2 : buf_read (scratchpad (drbg m2)) (Z.to_nat (sl + bl))
                        (Z.to_nat sl) = d).
  { unfold d. rewrite B2 by (unfold sl, bl in *; lia).
    change (scratchpad (drbg m1)) with (scratchpad (drbg m0)).
    apply B0. unfold sl, bl in *. lia. }
  destruct (ctr_update_plain_run (set_next addtl NoString) 3 m2
              ltac:(rewrite has_bytes_set_next; exact Hnb)
              ltac:(rewrite F2c; now rewrite <- Hc)
              ltac:(rewrite F2V; cbn; now rewrite buf_write_length)
              ltac:(rewrite F2C; exact HC)
              ltac:(rewrite C2; apply add_mod_bytes)
              ltac:(rewrite F2s;
                    change (scratchpad (drbg m1))
                      with (scratchpad (drbg m0));
                    now rewrite F0s))
    as (m3 & E3 & K3 & C3 & O3 & c3 & r3 & _).
  change (3 <? 3) with false in K3, C3. cbv iota in K3, C3.
  rewrite K2, C2, D2 in K3, C3. fold X in K3, C3.
  rewrite (bind_some _ _ _ _ _ E3). cbv beta iota.
  rewrite (bind_some _ _ _ _ _ (memset_eq _ _ _ _)).
  eexists. split; [reflexivity|].
  split.
  { cbn [store_ptr set_buf out]. rewrite O3, O2. reflexivity. }
  split; [exact K3|]. split; [exact C3|].
  cbn [store_ptr set_buf buf_of drbg core reseed_ctr set_scratchpad].
  assert (c1 : core (drbg m1) = core (drbg m)) by reflexivity.
  assert (r1 : reseed_ctr (drbg m1) = reseed_ctr (drbg m)) by reflexivity.
  split; congruence.
Qed.

(** X20.  On an instance of a CTR core whose cipher opens and takes its
    key, [gcry_drbg_ctr_update] without additional bytes returns 0 and
    computes the update function of SP 800-90A 10.2.1.2: the counter
    block in [V] is incremented for each block,
    [temp = E (Key, V+1) || E (Key, V+2) || ...] is cut to [seedlen]
    bytes and XORed with the provided data, and the result is the new
    key and the new [V].  The provided data is what [df_data] holds:
    zeros for a flag below 3, and for flag 3 the bytes left there. *)
Theorem gcry_drbg_ctr_update_plain_computes addtl reseed (m : mach env) :
  has_bytes addtl = false ->
  core (drbg m) = Some c ->
  (Z.to_nat (blocklen_bytes c) <= length (V (drbg m)))%nat ->
  (Z.to_nat (statelen c - blocklen_bytes c) <= length (C (drbg m)))%nat ->
  bytes (firstn (Z.to_nat (blocklen_bytes c)) (V (drbg m))) ->
  (Z.to_nat (statelen c + blocklen_bytes c + statelen c)
   <= length (scratchpad (drbg m)))%nat ->
  let Key := firstn (Z.to_nat (statelen c - blocklen_bytes c))
                    (C (drbg m)) in
  let V_ := firstn (Z.to_nat (blocklen_bytes c)) (V (drbg m)) in
  let provided_data :=
    if reseed <? 3 then repeat 0 (Z.to_nat (statelen c))
    else buf_read (scratchpad (drbg m))
                  (Z.to_nat (statelen c + blocklen_bytes c))
                  (Z.to_nat (statelen c)) in
  let temp :=
    xor_bytes
      (firstn (Z.to_nat (statelen c))
              (CTR_DRBG_temp (core_encrypt G c) Key V_
                 (req_blocks (blocklen_bytes c) (statelen c))))
      provided_data in
  exists m',
    gcry_drbg_ctr_update G addtl reseed m = Some ((0, addtl), m')
    /\ firstn (Z.to_nat (statelen c - blocklen_bytes c)) (C (drbg m'))
       = firstn (Z.to_nat (statelen c - blocklen_bytes c)) temp
    /\ firstn (Z.to_nat (blocklen_bytes c)) (V (drbg m'))
       = skipn (Z.to_nat (statelen c - blocklen_bytes c)) temp
    /\ out m' = out m
    /\ reseed_ctr (drbg m') = reseed_ctr (drbg m).
Proof.
  intros Hnb Hc HV HC Hb Hsp Key V_ provided_data temp.
  destruct (ctr_update_plain_run addtl reseed m Hnb Hc HV HC Hb Hsp)
    as (m' & E1 & K1 & C1 & O1 & _ & r1 & _).
  exists m'. split; [exact E1|]. split; [exact K1|]. split; [exact C1|].
  now split.
Qed.

(** X21.  On an instance of a CTR core whose cipher opens and takes its
    key, [gcry_drbg_ctr_generate] without additional bytes returns 0 and
    computes the generate function of SP 800-90A 10.2.1.5.2: the request
    is the leftmost [buflen] bytes of [E (Key, V+1) || E (Key, V+2) || ...],
    written at the address of the caller, and the state is then updated
    from the last counter block.  The provided data of that update is
    not the zeros of the standard but what [df_data] holds at the call.
    The chain of the caller comes back cut after its first node. *)
Theorem gcry_drbg_ctr_generate_plain_computes off buflen addtl
        (m : mach env) :
  has_bytes addtl = false ->
  core (drbg m) = Some c ->
  (Z.to_nat (blocklen_bytes c) <= length (V (drbg m)))%nat ->
  (Z.to_nat (statelen c - blocklen_bytes c) <= length (C (drbg m)))%nat ->
  bytes (firstn (Z.to_nat (blocklen_bytes c)) (V (drbg m))) ->
  (Z.to_nat (statelen c + blocklen_bytes c + statelen c)
   <= length (scratchpad (drbg m)))%nat ->
  (Z.to_nat (off + buflen) <= length (out m))%nat ->
  0 <= off -> 0 < buflen ->
  let Key := firstn (Z.to_nat (statelen c - blocklen_bytes c))
                    (C (drbg m)) in
  let V_ := firstn (Z.to_nat (blocklen_bytes c)) (V (drbg m)) in
  let n := req_blocks (blocklen_bytes c) buflen in
  let provided_data :=
    buf_read (scratchpad (drbg m))
             (Z.to_nat (statelen c + blocklen_bytes c))
             (Z.to_nat (statelen c)) in
  let temp :=
    xor_bytes
      (firstn (Z.to_nat (statelen c))
              (CTR_DRBG_temp (core_encrypt G c) Key
                 (add_mod V_ (Z.of_nat n))
                 (req_blocks (blocklen_bytes c) (statelen c))))
      provided_data in
  exists m',
    gcry_drbg_ctr_generate G (Mem LOut off) buflen addtl m
    = Some ((0, set_next addtl NoString), m')
    /\ out m'
       = buf_write (out m) (Z.to_nat off)
           (firstn (Z.to_nat buflen)
                   (CTR_DRBG_temp (core_encrypt G c) Key V_ n))
    /\ firstn (Z.to_nat (statelen c - blocklen_bytes c)) (C (drbg m'))
       = firstn (Z.to_nat (statelen c - blocklen_bytes c)) temp
    /\ firstn (Z.to_nat (blocklen_bytes c)) (V (drbg m'))
       = skipn (Z.to_nat (statelen c - blocklen_bytes c)) temp
    /\ reseed_ctr (drbg m') = reseed_ctr (drbg m).
Proof.
  intros Hnb Hc HV HC Hb Hsp Hout Hoff Hlen Key V_ n provided_data temp.
  destruct (ctr_generate_plain_run off buflen addtl m Hnb Hc HV HC Hb Hsp
              Hout Hoff Hlen)
    as (m' & E1 & O1 & K1 & C1 & _ & r1).
  exists m'. split; [exact E1|]. split; [exact O1|]. split; [exact K1|].
  now split.
Qed.

End CtrDrbg.

Lemma test_cipher_encrypt_length algo key input :
  length (test_cipher_encrypt algo key input) = length input.
Proof. unfold test_cipher_encrypt. apply length_map. Qed.

Lemma bytes_repeat_0 n : bytes (repeat 0 n).
Proof.
  apply Forall_forall. intros x Hx. apply repeat_spec in Hx. subst x.
  unfold is_byte. lia.
Qed.

(** The update that ends a generate call (flag 3) on the AES-128
    instance, with bytes of value 9 left in the scratchpad. *)
Lemma gcry_drbg_ctr_update_plain_computes_witness :
  let c := Build_gcry_drbg_core 8193 32 16 7 in
  let st := set_scratchpad (repeat 9 160)
                           (test_state 8 gcry_drbg_ctr_ops 160) in
  let m := test_mach st 0 [] in
  let temp :=
    xor_bytes
      (firstn 32 (CTR_DRBG_temp (core_encrypt quiet_platform c)
                                (repeat 0 16) (repeat 0 16) 2))
      (repeat 9 32) in
  exists m',
    gcry_drbg_ctr_update quiet_platform NoString 3 m
    = Some ((0, NoString), m')
    /\ firstn 16 (C (drbg m')) = firstn 16 temp
    /\ firstn 16 (V (drbg m')) = skipn 16 temp.
Proof.
  intros c st m temp.
  destruct (gcry_drbg_ctr_update_plain_computes quiet_platform c
              ltac:(cbn; lia) ltac:(cbn; lia) (fun e => eq_refl)
              (fun e k => eq_refl) eq_refl
              (fun k x Hx => eq_trans (test_cipher_encrypt_length 7 k x) Hx)
              NoString 3 m eq_refl eq_refl
              ltac:(apply Nat.leb_le; reflexivity)
              ltac:(apply Nat.leb_le; reflexivity)
              (bytes_repeat_0 16)
              ltac:(apply Nat.leb_le; reflexivity))
    as (m' & E & HK & HV & _).
  exists m'. split; [exact E|]. split; [exact HK|exact HV].
Defined.

(** A request of 30 bytes, two blocks of AES, without additional input,
    at offset 1 of a buffer of 32 bytes; [df_data] is clear. *)
Lemma gcry_drbg_ctr_generate_plain_computes_witness :
  let c := Build_gcry_drbg_core 8193 32 16 7 in
  let E := core_encrypt quiet_platform c in
  let m := test_mach (test_state 8 gcry_drbg_ctr_ops 160) 32 [] in
  let temp :=
    xor_bytes
      (firstn 32 (CTR_DRBG_temp E (repeat 0 16)
                                (add_mod (repeat 0 16) 2) 2))
      (repeat 0 32) in
  exists m',
    gcry_drbg_ctr_generate quiet_platform (Mem LOut 1) 30 NoString m
    = Some ((0, NoString), m')
    /\ out m'
       = buf_write (repeat 0 32) 1
           (firstn 30 (CTR_DRBG_temp E (repeat 0 16) (repeat 0 16) 2))
    /\ firstn 16 (C (drbg m')) = firstn 16 temp
    /\ firstn 16 (V (drbg m')) = skipn 16 temp.
Proof.
  intros c E m temp.
  destruct (gcry_drbg_ctr_generate_plain_computes quiet_platform c
              ltac:(cbn; lia) ltac:(cbn; lia) (fun e => eq_refl)
              (fun e k => eq_refl) eq_refl
              (fun k x Hx => eq_trans (test_cipher_encrypt_length 7 k x) Hx)
              1 30 NoString m eq_refl eq_refl
              ltac:(apply Nat.leb_le; reflexivity)
              ltac:(apply Nat.leb_le; reflexivity)
              (bytes_repeat_0 16)
              ltac:(apply Nat.leb_le; reflexivity)
              ltac:(apply Nat.leb_le; reflexivity)
              ltac:(lia) ltac:(lia))
    as (m' & Er & HO & HK & HV & _).
  exists m'. split; [exact Er|]. split; [exact HO|].
  split; [exact HK|exact HV].
Defined.

(** ** The BCC function of the CTR DRBG *)

Lemma xor_into_length : forall o r, length (xor_into o r) = length o.
Proof.
  induction o as [|x o IH]; intros [|y r]; cbn; try reflexivity.
  now rewrite IH.
Qed.

Lemma xor_into_split : forall o r,
  (length r <= length o)%nat ->
  xor_into o r = xor_bytes (firstn (length r) o) r ++ skipn (length r) o.
Proof.
  induction o as [|x o IH]; intros [|y r] Hl; cbn in *; try reflexivity;
    try lia.
  f_equal. apply IH. lia.
Qed.

Lemma BCC_blocks_fuel E bl : forall f1 f2 cv data,
  (0 < bl)%nat -> (length data <= f1)%nat -> (length data <= f2)%nat ->
  BCC_blocks E bl f1 cv data = BCC_blocks E bl f2 cv data.
Proof.
  induction f1 as [|f1 IH]; intros f2 cv data Hbl H1 H2.
  - destruct data; [|cbn in H1; lia]. now destruct f2.
  - destruct data as [|y data]; [now destruct f2|].
    destruct f2 as [|f2]; [cbn in H2; lia|].
    cbn [BCC_blocks]. cbn [length] in H1, H2.
    assert (Hs : (length (skipn bl (y :: data)) <= length data)%nat).
    { rewrite length_skipn. cbn [length]. lia. }
    apply IH; [exact Hbl|lia|lia].
Qed.

Lemma load_with_be {env} (m : mach env) b p n :
  load_ptr (with_be m b) p n = load_ptr m p n.
Proof. destruct p as [|[] o|d]; reflexivity. Qed.

Lemma agree_write_inside a n sp sp' o bs :
  agree_off a n sp sp' -> (a <= o)%nat -> (o + length bs <= a + n)%nat ->
  agree_off a n sp (buf_write sp' o bs).
Proof.
  intros [Hl Ha] Ho Hb. split; [now rewrite buf_write_length|].
  intros i Hi. rewrite nth_buf_write_out by lia. now apply Ha.
Qed.

Lemma loc_eq_or (l l' : loc) : l = l' \/ l <> l'.
Proof. destruct l, l'; (now left) || (right; discriminate). Qed.

Lemma buf_read_cons : forall sp k n,
  (k < length sp)%nat ->
  buf_read sp k (S n) = nth k sp 0 :: buf_read sp (S k) n.
Proof.
  induction sp as [|y sp IH]; intros k n Hk; [cbn in Hk; lia|].
  destruct k as [|k]; [reflexivity|].
  cbn [length] in Hk. unfold buf_read in *. cbn [skipn nth].
  apply IH. lia.
Qed.

Lemma xor_bytes_firstn : forall o r,
  xor_bytes o r = xor_bytes (firstn (length r) o) r.
Proof.
  induction o as [|x o IH]; intros [|y r]; cbn; try reflexivity.
  now rewrite <- IH.
Qed.

Lemma xor_bytes_min_length : forall o r,
  length (xor_bytes o r) = Nat.min (length o) (length r).
Proof.
  induction o as [|x o IH]; intros [|y r]; cbn; try reflexivity.
  now rewrite IH.
Qed.

Lemma buf_read_write_prefix sp o X n :
  (o + n <= length sp)%nat -> (length X <= n)%nat ->
  buf_read (buf_write sp o X) o n = X ++ skipn (length X) (buf_read sp o n).
Proof.
  intros Ho HX. rewrite buf_write_in_range by lia. unfold buf_read.
  rewrite skipn_app, length_firstn.
  replace (o - Nat.min o (length sp))%nat with 0%nat by lia.
  rewrite (skipn_all2 (n := o)) by (rewrite length_firstn; lia).
  cbn [app skipn]. rewrite firstn_app, (firstn_all2 (n := n) X) by lia.
  f_equal. rewrite skipn_firstn_comm, skipn_skipn. f_equal. f_equal. lia.
Qed.

Section Bcc.

Context {env : Type} (G : platform env).

Variable c : gcry_drbg_core.

Let bl := blocklen_bytes c.
Let kl := statelen c - blocklen_bytes c.
Let E := core_encrypt G c.

Hypothesis Hbl : 0 < blocklen_bytes c.
Hypothesis Hsl : blocklen_bytes c <= statelen c < 2 ^ 16.
Hypothesis Hcopen :
  forall e, fst (backend G e (cipher_open (backend_cipher c))) = 0.
Hypothesis Hsetkey : forall e k, fst (backend G e (cipher_setkey k)) = 0.
Hypothesis Hblk :
  cipher_get_algo_blklen G (backend_cipher c) = blocklen_bytes c.
Hypothesis Helen :
  forall k x, length x = Z.to_nat (blocklen_bytes c) ->
              length (E k x) = Z.to_nat (blocklen_bytes c).

(** One block of the cipher, for any key and any input block. *)
Lemma sym_block key outval inp (m : mach env) :
  core (drbg m) = Some c ->
  length (load_ptr m inp bl) = Z.to_nat bl ->
  exists b,
    gcry_drbg_sym G key outval (gcry_drbg_string_fill inp bl) m
    = Some (0, store_ptr outval (E (load_ptr m key kl) (load_ptr m inp bl))
                         (with_be m b)).
Proof.
  intros Hc Hin. unfold gcry_drbg_sym, gcry_drbg_string_fill.
  cbv beta iota delta [bind get_core get_drbg]. rewrite Hc.
  cbv beta iota delta [ret]. unfold call.
  pose proof (Hcopen (be m)) as Ho.
  destruct (backend G (be m) (cipher_open (backend_cipher c))) as [e1 b1].
  cbn [fst] in Ho. subst e1. cbn [is_err Z.eqb negb].
  assert (Hk : gcry_drbg_keylen (drbg m) = kl).
  { unfold gcry_drbg_keylen. rewrite Hc. unfold to_ushort.
    apply Z.mod_small. unfold kl. lia. }
  rewrite Hk.
  unfold gcry_drbg_blocklen. cbn [drbg]. rewrite Hc. fold bl.
  rewrite Hblk. fold bl. rewrite Z.eqb_refl. cbn [negb].
  rewrite Z.ltb_irrefl.
  cbv beta iota delta [load]. cbn [drbg out be].
  fold (with_be m b1). rewrite load_with_be.
  match goal with
  | |- context [backend G b1 (cipher_setkey ?k)] =>
      pose proof (Hsetkey b1 k) as Hs;
        destruct (backend G b1 (cipher_setkey k)) as [e2 b2]
  end.
  cbn [fst] in Hs. subst e2. cbn [is_err Z.eqb negb].
  cbv beta iota delta [store]. exists b2. f_equal. f_equal.
  cbn [drbg out]. fold (with_be m b2). rewrite load_with_be.
  fold (E (load_ptr m key kl) (load_ptr m inp bl)).
  rewrite firstn_all2 by (rewrite Helen; [fold bl; lia|exact Hin]).
  reflexivity.
Qed.

(** The block the function works in: the [blocklen] bytes at offset [a]
    of the buffer [lo]. *)
Variable lo : loc.
Variable a : Z.
Hypothesis Ha : 0 <= a.

(** What the chain can see is as in [m0]. *)
Let outside (m0 m : mach env) : Prop :=
  (forall l', l' <> lo -> buf_of m l' = buf_of m0 l')
  /\ agree_off (Z.to_nat a) (Z.to_nat bl) (buf_of m0 lo) (buf_of m lo).

Lemma outside_refl m : outside m m.
Proof. split; [reflexivity|apply agree_refl]. Qed.

Lemma outside_store m0 m o bs :
  outside m0 m -> a <= o -> o + Z.of_nat (length bs) <= a + bl ->
  outside m0 (store_ptr (Mem lo o) bs m).
Proof.
  intros [H1 H2] Ho Hb. split.
  - intros l' Hl. rewrite buf_of_store_other by exact Hl. now apply H1.
  - rewrite buf_of_store_same. apply agree_write_inside; [exact H2|lia|lia].
Qed.

Lemma outside_be m0 m b : outside m0 m -> outside m0 (with_be m b).
Proof.
  intros [H1 H2]. split.
  - intros l' Hl. rewrite buf_of_with_be. now apply H1.
  - now rewrite buf_of_with_be.
Qed.

Lemma node_stable m0 m p k j :
  outside m0 m -> node_apart m0 lo a bl p k -> 0 <= j <= k ->
  load_ptr m p j = load_ptr m0 p j.
Proof.
  intros [H1 H2] [Hk Hp] Hj. destruct p as [|l' o|d]; try reflexivity.
  destruct Hp as (Ho & Hlen & Hap). cbn [load_ptr].
  destruct (loc_eq_or l' lo) as [->|Hne].
  - symmetry. apply (agree_read _ _ _ _ _ _ H2).
    destruct (Hap eq_refl); [left|right]; lia.
  - now rewrite H1.
Qed.

Lemma node_step (m0 : mach env) p k :
  node_apart m0 lo a bl p k -> 1 < k ->
  node_apart m0 lo a bl (ptr_add p 1) (k - 1).
Proof.
  intros [Hk Hp] H1. split; [lia|].
  destruct p as [|l' o|d]; [exact Hp| |]; cbn [ptr_add].
  - destruct Hp as (Ho & Hlen & Hap). repeat split; try lia.
    intros El. destruct (Hap El); [left|right]; lia.
  - rewrite length_skipn. change (Z.to_nat 1) with 1%nat. lia.
Qed.

Lemma node_load (m0 : mach env) p k :
  node_apart m0 lo a bl p k ->
  load_ptr m0 p k
  = hd 0 (load_ptr m0 p 1) :: load_ptr m0 (ptr_add p 1) (k - 1).
Proof.
  intros [Hk Hp]. destruct p as [|l' o|d]; [now elim Hp| |].
  - destruct Hp as (Ho & Hlen & _). cbn [load_ptr ptr_add].
    replace (Z.to_nat k) with (S (Z.to_nat (k - 1))) by lia.
    change (Z.to_nat 1) with 1%nat.
    rewrite !buf_read_cons by lia. cbn [hd].
    f_equal. f_equal. lia.
  - cbn [load_ptr ptr_add]. change (Z.to_nat 1) with 1%nat.
    destruct d as [|y d]; [cbn in Hp; lia|].
    replace (Z.to_nat k) with (S (Z.to_nat (k - 1))) by lia.
    reflexivity.
Qed.

Lemma node_not_null (m0 : mach env) p k : node_apart m0 lo a bl p k -> p <> Null.
Proof. intros [_ Hp] ->. exact Hp. Qed.

Lemma deref_eq p (m : mach env) :
  p <> Null -> deref p m = Some (hd 0 (load_ptr m p 1), m).
Proof. intros Hp. destruct p; [now elim Hp|reflexivity|reflexivity]. Qed.

(** The [for] loop: up to [n] bytes of the chain are XORed into the
    block from position [cnt] on. *)
Lemma ctr_bcc_for_run (m0 : mach env) : forall n cnt b l nx pos inpos (m : mach env),
  outside m0 m ->
  node_apart m0 lo a bl pos inpos -> chain_apart m0 lo a bl nx ->
  0 <= cnt -> cnt + Z.of_nat n <= bl ->
  (Z.to_nat (a + bl) <= length (buf_of m lo))%nat ->
  let R := load_ptr m0 pos inpos ++ chain_bytes m0 nx in
  exists curr' pos' inpos' m',
    ctr_bcc_for G n cnt (Mem lo a) (drbg_string b l nx) pos inpos m
    = Some ((curr', pos', inpos'), m')
    /\ buf_of m' lo
       = buf_write (buf_of m lo) (Z.to_nat (a + cnt))
           (xor_bytes (buf_read (buf_of m lo) (Z.to_nat (a + cnt)) n)
                      (firstn n R))
    /\ (forall l', l' <> lo -> buf_of m' l' = buf_of m l')
    /\ be m' = be m /\ core (drbg m') = core (drbg m)
    /\ ((curr' = NoString /\ inpos' = 0 /\ skipn n R = [])
        \/ (exists b' l' nx',
              curr' = drbg_string b' l' nx'
              /\ node_apart m0 lo a bl pos' inpos'
              /\ chain_apart m0 lo a bl nx'
              /\ skipn n R
                 = load_ptr m0 pos' inpos' ++ chain_bytes m0 nx')).
Proof.
  induction n as [|n IH];
    intros cnt b l nx pos inpos m Hout Hnode Hchain Hcnt Hn Hlen R.
  - exists (drbg_string b l nx), pos, inpos, m.
    split; [reflexivity|]. split; [now rewrite buf_write_nil|].
    split; [reflexivity|]. split; [reflexivity|]. split; [reflexivity|].
    right. exists b, l, nx. split; [reflexivity|].
    split; [exact Hnode|]. split; [exact Hchain|reflexivity].
  - cbn [ctr_bcc_for ptr_add].
    rewrite (bind_some _ _ _ _ _
               (deref_eq (Mem lo (a + cnt)) m ltac:(discriminate))).
    rewrite (bind_some _ _ _ _ _
               (deref_eq pos m (node_not_null _ _ _ Hnode))).
    rewrite (node_stable m0 m pos inpos 1 Hout Hnode
               ltac:(destruct Hnode as [? _]; lia)).
    set (o := hd 0 (load_ptr m (Mem lo (a + cnt)) 1)).
    set (y := hd 0 (load_ptr m0 pos 1)).
    unfold store at 1. unfold bind at 1.
    set (m1 := store_ptr (Mem lo (a + cnt)) [Z.lxor o y] m).
    assert (Hout1 : outside m0 m1).
    { apply outside_store; [exact Hout|lia|cbn [length]; lia]. }
    assert (Hlen1 : (Z.to_nat (a + bl) <= length (buf_of m1 lo))%nat).
    { unfold m1. now rewrite buf_of_store_same, buf_write_length. }
    assert (HR : R = y :: load_ptr m0 (ptr_add pos 1) (inpos - 1)
                       ++ chain_bytes m0 nx).
    { unfold R. now rewrite (node_load m0 pos inpos Hnode). }
    assert (Ho : buf_read (buf_of m lo) (Z.to_nat (a + cnt)) (S n)
                 = o :: buf_read (buf_of m lo) (Z.to_nat (a + (cnt + 1))) n).
    { rewrite buf_read_cons by lia. unfold o. cbn [load_ptr].
      change (Z.to_nat 1) with 1%nat. rewrite buf_read_cons by lia.
      cbn [hd]. f_equal. f_equal. lia. }
    (* what a further run of the loop, or none, adds up to *)
    assert (Hfin : forall R' (m' : mach env),
               R = y :: R' ->
               buf_of m' lo
               = buf_write (buf_of m1 lo) (Z.to_nat (a + (cnt + 1)))
                   (xor_bytes (buf_read (buf_of m1 lo)
                                        (Z.to_nat (a + (cnt + 1))) n)
                              (firstn n R')) ->
               buf_of m' lo
               = buf_write (buf_of m lo) (Z.to_nat (a + cnt))
                   (xor_bytes (buf_read (buf_of m lo)
                                        (Z.to_nat (a + cnt)) (S n))
                              (firstn (S n) R))).
    { intros R' m' ER Hb. rewrite Hb, ER, Ho. cbn [firstn xor_bytes].
      unfold m1. rewrite buf_of_store_same.
      rewrite (buf_read_write_beyond _ _ [Z.lxor o y])
        by (cbn [length]; lia).
      replace (Z.to_nat (a + (cnt + 1)))
        with (Z.to_nat (a + cnt) + length [Z.lxor o y])%nat
        by (cbn [length]; lia).
      now rewrite buf_write_compose. }
    assert (Hsz : to_size_t G (inpos - 1) = inpos - 1).
    { destruct Hnode as [Hk _]. unfold to_size_t, size_bits.
      apply Z.mod_small. destruct (lp64 G); lia. }
    rewrite Hsz.
    destruct (inpos - 1 =? 0) eqn:E0.
    + apply Z.eqb_eq in E0.
      assert (HR1 : R = y :: chain_bytes m0 nx).
      { rewrite HR. replace (inpos - 1) with 0 by lia.
        destruct (ptr_add pos 1) as [|l1 o1|d1]; reflexivity. }
      destruct nx as [|b2 l2 nx2].
      * (* the last node is used up *)
        exists NoString, (ptr_add pos 1), 0, m1.
        split; [reflexivity|].
        split.
        { apply (Hfin [] m1 HR1). cbn [firstn].
          destruct n; cbn [firstn]; rewrite ?buf_write_nil;
            try reflexivity.
          assert (Hx : forall l0, xor_bytes l0 [] = [])
            by (now intros [|? ?]).
          now rewrite Hx, buf_write_nil. }
        split; [intros l' Hl; unfold m1; now apply buf_of_store_other|].
        split; [apply be_store|]. split; [apply core_store|].
        left. split; [reflexivity|]. split; [reflexivity|].
        rewrite HR1. cbn [chain_bytes skipn]. now destruct n.
      * (* on to the next node *)
        destruct Hchain as [Hn2 Hc2].
        destruct (IH (cnt + 1) b2 l2 nx2 b2 l2 m1 Hout1 Hn2 Hc2
                     ltac:(lia) ltac:(lia) Hlen1)
          as (curr' & pos' & inpos' & m' & Er & Hb & Hoth & Hbe & Hco & Hw).
        exists curr', pos', inpos', m'. split; [exact Er|].
        split; [exact (Hfin _ m' HR1 Hb)|].
        split.
        { intros l' Hl. rewrite Hoth by exact Hl. unfold m1.
          now apply buf_of_store_other. }
        split; [rewrite Hbe; apply be_store|].
        split; [rewrite Hco; apply core_store|].
        rewrite HR1. cbn [skipn]. exact Hw.
    + apply Z.eqb_neq in E0.
      assert (Hstep : node_apart m0 lo a bl (ptr_add pos 1) (inpos - 1)).
      { apply node_step; [exact Hnode|].
        destruct Hnode as [Hk _]. lia. }
      destruct (IH (cnt + 1) b l nx (ptr_add pos 1) (inpos - 1) m1 Hout1
                   Hstep Hchain ltac:(lia) ltac:(lia) Hlen1)
        as (curr' & pos' & inpos' & m' & Er & Hb & Hoth & Hbe & Hco & Hw).
      exists curr', pos', inpos', m'. split; [exact Er|].
      split; [exact (Hfin _ m' HR Hb)|].
      split.
      { intros l' Hl. rewrite Hoth by exact Hl. unfold m1.
        now apply buf_of_store_other. }
      split; [rewrite Hbe; apply be_store|].
      split; [rewrite Hco; apply core_store|].
      rewrite HR. cbn [skipn]. exact Hw.
Qed.

Lemma node_length (m0 : mach env) p k :
  node_apart m0 lo a bl p k -> length (load_ptr m0 p k) = Z.to_nat k.
Proof.
  intros [Hk Hp]. destruct p as [|l' o|d]; [now elim Hp| |].
  - destruct Hp as (Ho & Hlen & _). cbn [load_ptr].
    apply buf_read_length. lia.
  - cbn [load_ptr]. rewrite length_firstn. lia.
Qed.

Lemma chain_length (m0 : mach env) s :
  chain_apart m0 lo a bl s ->
  length (chain_bytes m0 s) = Z.to_nat (chain_len s) /\ 0 <= chain_len s.
Proof.
  induction s as [|p k nx IH]; intros Hs; [now split|].
  destruct Hs as [Hn Hc]. destruct (IH Hc) as [IH1 IH2].
  cbn [chain_bytes chain_len].
  rewrite length_app, (node_length _ _ _ Hn), IH1.
  destruct Hn as [Hk _]. lia.
Qed.

(** The block after the bytes [r] were XORed in. *)
Lemma block_after_xor sp r :
  (Z.to_nat (a + bl) <= length sp)%nat -> (length r <= Z.to_nat bl)%nat ->
  let B := buf_read sp (Z.to_nat a) (Z.to_nat bl) in
  buf_read (buf_write sp (Z.to_nat a) (xor_bytes B r))
           (Z.to_nat a) (Z.to_nat bl)
  = xor_into B r.
Proof.
  intros Hsp Hr B.
  assert (HB : length B = Z.to_nat bl)
    by (apply buf_read_length; lia).
  rewrite buf_read_write_prefix
    by (rewrite ?xor_bytes_min_length; lia).
  fold B. rewrite xor_bytes_min_length, HB, Nat.min_r by lia.
  rewrite (xor_into_split B r) by lia.
  now rewrite <- xor_bytes_firstn.
Qed.

(** The [while] loop of [gcry_drbg_ctr_bcc]. *)
Lemma ctr_bcc_while_run (m0 : mach env) ks :
  forall fuel b l nx pos inpos (m : mach env),
  outside m0 m -> core (drbg m) = Some c ->
  node_apart m0 lo a bl pos inpos -> chain_apart m0 lo a bl nx ->
  (Z.to_nat (a + bl) <= length (buf_of m lo))%nat ->
  let R := load_ptr m0 pos inpos ++ chain_bytes m0 nx in
  (length R <= fuel)%nat ->
  exists m',
    ctr_bcc_while G fuel bl (Mem lo a) (Data ks)
      (gcry_drbg_string_fill (Mem lo a) bl) (drbg_string b l nx) pos inpos m
    = Some (0, m')
    /\ buf_read (buf_of m' lo) (Z.to_nat a) (Z.to_nat bl)
       = BCC_blocks (E (firstn (Z.to_nat kl) ks)) (Z.to_nat bl) fuel
           (buf_read (buf_of m lo) (Z.to_nat a) (Z.to_nat bl)) R
    /\ outside m0 m' /\ core (drbg m') = Some c
    /\ length (buf_of m' lo) = length (buf_of m lo).
Proof.
  induction fuel as [|fuel IH];
    intros b l nx pos inpos m Hout Hc Hnode Hchain Hlen R Hfuel.
  { pose proof (node_length _ _ _ Hnode) as Hl. unfold R in Hfuel.
    rewrite length_app, Hl in Hfuel. destruct Hnode as [Hk _]. lia. }
  cbn [ctr_bcc_while].
  assert (E0 : (inpos =? 0) = false)
    by (apply Z.eqb_neq; destruct Hnode as [Hk _]; lia).
  rewrite E0.
  destruct (ctr_bcc_for_run m0 (Z.to_nat bl) 0 b l nx pos inpos m Hout
              Hnode Hchain ltac:(lia) ltac:(unfold bl; lia) Hlen)
    as (curr' & pos' & inpos' & m1 & E1 & B1 & O1 & be1 & c1 & W1).
  fold R in B1, W1. rewrite Z.add_0_r in B1.
  rewrite (bind_some _ _ _ _ _ E1). cbv beta iota.
  set (B := buf_read (buf_of m lo) (Z.to_nat a) (Z.to_nat bl)) in *.
  assert (HB : length B = Z.to_nat bl)
    by (apply buf_read_length; lia).
  assert (Hl1 : length (buf_of m1 lo) = length (buf_of m lo))
    by (now rewrite B1, buf_write_length).
  assert (Hblock1 : load_ptr m1 (Mem lo a) bl
                    = xor_into B (firstn (Z.to_nat bl) R)).
  { cbn [load_ptr]. rewrite B1. apply block_after_xor; [exact Hlen|].
    rewrite length_firstn. lia. }
  assert (Hout1 : outside m0 m1).
  { destruct Hout as [H1 H2]. split.
    - intros l' Hl. rewrite O1 by exact Hl. now apply H1.
    - rewrite B1. apply agree_write_inside; [exact H2|lia|].
      rewrite xor_bytes_min_length, HB. lia. }
  destruct (sym_block (Data ks) (Mem lo a) (Mem lo a) m1
              ltac:(now rewrite c1)
              ltac:(rewrite Hblock1, xor_into_length; exact HB))
    as [b2 E2].
  rewrite (bind_some _ _ _ _ _ E2). cbn [is_err Z.eqb negb].
  rewrite Hblock1 in *.
  change (load_ptr m1 (Data ks) kl) with (firstn (Z.to_nat kl) ks) in *.
  set (K := firstn (Z.to_nat kl) ks) in *.
  set (cv := E K (xor_into B (firstn (Z.to_nat bl) R))) in *.
  assert (Hcv : length cv = Z.to_nat bl)
    by (apply Helen; now rewrite xor_into_length).
  set (m2 := store_ptr (Mem lo a) cv (with_be m1 b2)).
  assert (Hout2 : outside m0 m2).
  { apply outside_store; [now apply outside_be|lia|rewrite Hcv; lia]. }
  assert (Hc2 : core (drbg m2) = Some c).
  { unfold m2. rewrite core_store. cbn. now rewrite c1. }
  assert (Hl2 : length (buf_of m2 lo) = length (buf_of m lo)).
  { unfold m2. now rewrite buf_of_store_same, buf_write_length,
                   buf_of_with_be. }
  assert (Hb2 : buf_read (buf_of m2 lo) (Z.to_nat a) (Z.to_nat bl) = cv).
  { unfold m2. rewrite buf_of_store_same, buf_of_with_be.
    rewrite buf_read_write_same by lia. apply firstn_all2. lia. }
  assert (HRne : exists y R0, R = y :: R0).
  { pose proof (node_length _ _ _ Hnode) as Hl. unfold R.
    destruct (load_ptr m0 pos inpos) as [|y R0];
      [cbn in Hl; destruct Hnode as [Hk _]; lia|].
    now exists y, (R0 ++ chain_bytes m0 nx). }
  destruct HRne as (y & R0 & HR).
  assert (Hspec : BCC_blocks (E K) (Z.to_nat bl) (S fuel) B R
                  = BCC_blocks (E K) (Z.to_nat bl) fuel cv
                               (skipn (Z.to_nat bl) R)).
  { cbn [BCC_blocks]. rewrite HR. rewrite <- HR. reflexivity. }
  rewrite Hspec.
  destruct W1 as [(-> & -> & Hs)|(b' & l' & nx' & -> & Hn' & Hc' & Hs)].
  - (* the chain is used up *)
    assert (Ew : ctr_bcc_while G fuel bl (Mem lo a) (Data ks)
                   (gcry_drbg_string_fill (Mem lo a) bl) NoString pos' 0 m2
                 = Some (0, m2)) by (destruct fuel; reflexivity).
    rewrite Ew. exists m2. split; [reflexivity|].
    split; [rewrite Hb2, Hs; now destruct fuel|].
    split; [exact Hout2|]. split; [exact Hc2|exact Hl2].
  - destruct (IH b' l' nx' pos' inpos' m2 Hout2 Hc2 Hn' Hc'
                ltac:(now rewrite Hl2))
      as (m' & Er & Hb & Ho' & Hco & Hl').
    { rewrite <- Hs, length_skipn. rewrite HR in *. cbn [length] in *.
      lia. }
    exists m'. split; [exact Er|].
    split; [now rewrite Hb, Hb2, Hs|].
    split; [exact Ho'|]. split; [exact Hco|]. now rewrite Hl'.
Qed.

(** [gcry_drbg_ctr_bcc] on a block of the buffer [lo]. *)
Lemma ctr_bcc_run ks b l nx (m : mach env) :
  core (drbg m) = Some c ->
  chain_apart m lo a bl (drbg_string b l nx) ->
  (Z.to_nat (a + bl) <= length (buf_of m lo))%nat ->
  exists m',
    gcry_drbg_ctr_bcc G (Mem lo a) (Data ks) (drbg_string b l nx) m
    = Some (0, m')
    /\ buf_read (buf_of m' lo) (Z.to_nat a) (Z.to_nat bl)
       = BCC (E (firstn (Z.to_nat kl) ks)) (Z.to_nat bl)
             (chain_bytes m (drbg_string b l nx))
    /\ (forall l', l' <> lo -> buf_of m' l' = buf_of m l')
    /\ agree_off (Z.to_nat a) (Z.to_nat bl) (buf_of m lo) (buf_of m' lo)
    /\ core (drbg m') = Some c.
Proof.
  intros Hc [Hnode Hchain] Hlen.
  unfold gcry_drbg_ctr_bcc. rewrite bind_get.
  assert (Hb : gcry_drbg_blocklen (drbg m) = bl)
    by (unfold gcry_drbg_blocklen; now rewrite Hc).
  rewrite Hb, (bind_some _ _ _ _ _ (memset_eq (Mem lo a) 0 bl m)).
  set (m1 := store_ptr (Mem lo a) (repeat 0 (Z.to_nat bl)) m).
  assert (Hout1 : outside m m1).
  { apply outside_store; [apply outside_refl|lia|].
    rewrite repeat_length. lia. }
  assert (Hc1 : core (drbg m1) = Some c)
    by (unfold m1; now rewrite core_store).
  assert (Hl1 : length (buf_of m1 lo) = length (buf_of m lo)).
  { unfold m1. now rewrite buf_of_store_same, buf_write_length. }
  destruct (chain_length m (drbg_string b l nx) (conj Hnode Hchain))
    as [HRl HRpos].
  destruct (ctr_bcc_while_run m ks (Z.to_nat (chain_len (drbg_string b l nx)))
              b l nx b l m1 Hout1 Hc1 Hnode Hchain
              ltac:(now rewrite Hl1))
    as (m' & Er & Hblock & [Ho1 Ho2] & Hc' & _).
  { cbn [chain_bytes] in HRl. now rewrite HRl. }
  exists m'. split; [exact Er|].
  split; [|split; [exact Ho1|split; [exact Ho2|exact Hc']]].
  rewrite Hblock. unfold BCC. cbn [chain_bytes].
  assert (Hz : buf_read (buf_of m1 lo) (Z.to_nat a) (Z.to_nat bl)
               = repeat 0 (Z.to_nat bl)).
  { unfold m1. rewrite buf_of_store_same.
    rewrite buf_read_write_same by (rewrite repeat_length; lia).
    apply firstn_all2. rewrite repeat_length. lia. }
  rewrite Hz. apply BCC_blocks_fuel; [lia| |lia].
  cbn [chain_bytes] in HRl. now rewrite HRl.
Qed.

(** X22.  [gcry_drbg_ctr_bcc] computes the BCC function of SP 800-90A
    10.4.3: called on a block of [blocklen] bytes at offset [a] of a
    buffer, with a key and a chain whose nodes are readable, not empty
    and apart from that block, it returns 0 and leaves in the block
    [BCC (key, data)], where [data] is the concatenation of the nodes of
    the chain; a last block that is not full counts as padded with
    zeros.  Nothing outside the block is written. *)
Theorem gcry_drbg_ctr_bcc_computes ks b l nx (m : mach env) :
  core (drbg m) = Some c ->
  chain_apart m lo a bl (drbg_string b l nx) ->
  (Z.to_nat (a + bl) <= length (buf_of m lo))%nat ->
  exists m',
    gcry_drbg_ctr_bcc G (Mem lo a) (Data ks) (drbg_string b l nx) m
    = Some (0, m')
    /\ buf_read (buf_of m' lo) (Z.to_nat a) (Z.to_nat bl)
       = BCC (E (firstn (Z.to_nat kl) ks)) (Z.to_nat bl)
             (chain_bytes m (drbg_string b l nx))
    /\ (forall l', l' <> lo -> buf_of m' l' = buf_of m l')
    /\ agree_off (Z.to_nat a) (Z.to_nat bl) (buf_of m lo) (buf_of m' lo).
Proof.
  intros Hc Hch Hlen.
  destruct (ctr_bcc_run ks b l nx m Hc Hch Hlen)
    as (m' & Er & Hb & Ho & Ha' & _).
  exists m'. split; [exact Er|]. split; [exact Hb|].
  split; [exact Ho|exact Ha'].
Qed.

End Bcc.

(** BCC over a chain of two nodes, 3 and 20 bytes, into the second block
    of the scratchpad of the AES-128 instance. *)
Lemma gcry_drbg_ctr_bcc_computes_witness :
  let c := Build_gcry_drbg_core 8193 32 16 7 in
  let m := test_mach (test_state 8 gcry_drbg_ctr_ops 160) 0 [] in
  let ks := ctr_df_K in
  let in_ := drbg_string (Data [1; 2; 3]) 3
               (drbg_string (Data (repeat 7 20)) 20 NoString) in
  exists m',
    gcry_drbg_ctr_bcc quiet_platform (Mem LScratch 16) (Data ks) in_ m
    = Some (0, m')
    /\ buf_read (buf_of m' LScratch) 16 16
       = BCC (core_encrypt quiet_platform c (firstn 16 ks)) 16
             ([1; 2; 3] ++ repeat 7 20).
Proof.
  intros c m ks in_.
  destruct (gcry_drbg_ctr_bcc_computes quiet_platform c
              ltac:(cbn; lia) ltac:(cbn; lia) (fun e => eq_refl)
              (fun e k => eq_refl) eq_refl
              (fun k x Hx => eq_trans (test_cipher_encrypt_length 7 k x) Hx)
              LScratch 16 ltac:(lia) ks (Data [1; 2; 3]) 3
              (drbg_string (Data (repeat 7 20)) 20 NoString) m eq_refl)
    as (m' & E & HB & _).
  - unfold chain_apart, node_apart. cbn [length repeat].
    repeat split; lia.
  - apply Nat.leb_le. reflexivity.
  - exists m'. split; [exact E|exact HB].
Defined.

(** ** The derivation function of the CTR DRBG *)

Lemma firstn_repeat_le {A} (x : A) : forall k n,
  (k <= n)%nat -> firstn k (repeat x n) = repeat x k.
Proof.
  induction k as [|k IH]; intros [|n] H; try reflexivity; [lia|].
  cbn [repeat firstn]. f_equal. apply IH. lia.
Qed.

Lemma skipn_repeat_le {A} (x : A) : forall k n,
  skipn k (repeat x n) = repeat x (n - k).
Proof.
  induction k as [|k IH]; intros [|n]; try reflexivity.
  cbn [repeat skipn]. apply IH.
Qed.

Lemma firstn_plus {A} : forall n1 n2 (L : list A),
  firstn (n1 + n2) L = firstn n1 L ++ firstn n2 (skipn n1 L).
Proof.
  induction n1 as [|n1 IH]; intros n2 [|x L]; cbn [firstn skipn Nat.add app];
    try reflexivity; [now rewrite firstn_nil|].
  f_equal. apply IH.
Qed.

Lemma buf_read_app sp o n1 n2 :
  buf_read sp o (n1 + n2) = buf_read sp o n1 ++ buf_read sp (o + n1) n2.
Proof.
  unfold buf_read. rewrite firstn_plus, skipn_skipn.
  now rewrite (Nat.add_comm n1 o).
Qed.

Lemma buf_read_write_before sp o bs a k :
  (a + k <= o)%nat ->
  buf_read (buf_write sp o bs) a k = buf_read sp a k.
Proof.
  intros H. apply buf_read_prefix with (k := o); [|exact H].
  now apply firstn_buf_write_above.
Qed.

Lemma buf_read_firstn sp o n j :
  (j <= n)%nat -> firstn j (buf_read sp o n) = buf_read sp o j.
Proof.
  intros H. unfold buf_read. rewrite firstn_firstn. f_equal. lia.
Qed.

Lemma buf_read_skipn sp o n j :
  skipn j (buf_read sp o n) = buf_read sp (o + j) (n - j).
Proof.
  unfold buf_read. rewrite skipn_firstn_comm, skipn_skipn.
  now rewrite (Nat.add_comm j o).
Qed.

Lemma cpu_to_be32_plain x : gcry_drbg_cpu_to_be32 x = BE32 x.
Proof.
  unfold gcry_drbg_cpu_to_be32, BE32. cbv zeta.
  rewrite !be32_byte by lia.
  replace (Z.land (x mod 2 ^ 32) 255) with (x / 2 ^ 0 mod 256)
    by (rewrite <- be32_byte by lia; now rewrite Z.shiftr_0_r).
  now rewrite Z.pow_0_r, Z.div_1_r.
Qed.

Lemma to_short_small z : 0 <= z < 2 ^ 15 -> to_short z = z.
Proof.
  intros H. unfold to_short. rewrite Z.mod_small; lia.
Qed.

Section ChainApart.

Context {env : Type}.

Lemma node_apart_mono (m m' : mach env) l a n a' n' p k :
  (forall l', length (buf_of m' l') = length (buf_of m l')) ->
  a <= a' -> a' + n' <= a + n ->
  node_apart m l a n p k -> node_apart m' l a' n' p k.
Proof.
  intros Hl Ha Hn [Hk Hp]. split; [exact Hk|].
  destruct p as [|l' o|bs]; [exact Hp| |exact Hp].
  destruct Hp as (Ho & Hlen & Hap). rewrite Hl.
  split; [exact Ho|]. split; [exact Hlen|].
  intros El. destruct (Hap El); [left|right]; lia.
Qed.

Lemma chain_apart_mono (m m' : mach env) l a n a' n' s :
  (forall l', length (buf_of m' l') = length (buf_of m l')) ->
  a <= a' -> a' + n' <= a + n ->
  chain_apart m l a n s -> chain_apart m' l a' n' s.
Proof.
  intros Hl Ha Hn. induction s as [|p k nx IH]; [trivial|].
  intros [H1 H2]. split; [|now apply IH].
  now apply (node_apart_mono m m' l a n a' n').
Qed.

Lemma node_bytes_apart (m m' : mach env) l a n p k :
  0 <= a -> 0 <= n -> node_apart m l a n p k ->
  (forall l', l' <> l -> buf_of m' l' = buf_of m l') ->
  agree_off (Z.to_nat a) (Z.to_nat n) (buf_of m l) (buf_of m' l) ->
  load_ptr m' p k = load_ptr m p k.
Proof.
  intros Ha Hn [Hk Hp] H1 H2. destruct p as [|l' o|bs]; try reflexivity.
  destruct Hp as (Ho & Hlen & Hap). cbn [load_ptr].
  destruct (loc_eq_or l' l) as [->|Hne].
  - symmetry. apply (agree_read _ _ _ _ _ _ H2).
    destruct (Hap eq_refl); [left|right]; lia.
  - now rewrite H1.
Qed.

Lemma chain_bytes_apart (m m' : mach env) l a n s :
  0 <= a -> 0 <= n -> chain_apart m l a n s ->
  (forall l', l' <> l -> buf_of m' l' = buf_of m l') ->
  agree_off (Z.to_nat a) (Z.to_nat n) (buf_of m l) (buf_of m' l) ->
  chain_bytes m' s = chain_bytes m s.
Proof.
  intros Ha Hn Hs H1 H2. induction s as [|p k nx IH]; [reflexivity|].
  destruct Hs as [Hp Hs]. cbn [chain_bytes].
  rewrite (node_bytes_apart m m' l a n p k Ha Hn Hp H1 H2).
  now rewrite IH.
Qed.

Lemma chain_apart_length (m : mach env) l a n s :
  chain_apart m l a n s ->
  length (chain_bytes m s) = Z.to_nat (chain_len s) /\ 0 <= chain_len s.
Proof.
  induction s as [|p k nx IH]; intros Hs; [now split|].
  destruct Hs as [[Hk Hp] Hc]. destruct (IH Hc) as [IH1 IH2].
  cbn [chain_bytes chain_len]. rewrite length_app, IH1.
  assert (Hl : length (load_ptr m p k) = Z.to_nat k).
  { destruct p as [|l' o|bs]; [now elim Hp| |].
    - destruct Hp as (Ho & Hlen & _). cbn [load_ptr].
      apply buf_read_length. lia.
    - cbn [load_ptr]. rewrite length_firstn. lia. }
  rewrite Hl. lia.
Qed.

Lemma chain_bytes_splice (m : mach env) s4 : forall s,
  s <> NoString ->
  chain_bytes m (splice s s4) = chain_bytes m s ++ chain_bytes m s4.
Proof.
  induction s as [|p k nx IH]; intros Hs; [now elim Hs|].
  destruct nx as [|p' k' nx'].
  - cbn [splice chain_bytes]. now rewrite app_nil_r.
  - change (splice (drbg_string p k (drbg_string p' k' nx')) s4)
      with (drbg_string p k (splice (drbg_string p' k' nx') s4)).
    cbn [chain_bytes] in *. rewrite IH by discriminate.
    now rewrite <- !app_assoc.
Qed.

Lemma chain_apart_splice (m : mach env) l a n s4 : forall s,
  chain_apart m l a n s -> chain_apart m l a n s4 ->
  chain_apart m l a n (splice s s4).
Proof.
  induction s as [|p k nx IH]; intros Hs H4; [exact I|].
  destruct nx as [|p' k' nx'].
  - destruct Hs as [Hp _]. cbn [splice chain_apart]. now split.
  - change (splice (drbg_string p k (drbg_string p' k' nx')) s4)
      with (drbg_string p k (splice (drbg_string p' k' nx') s4)).
    destruct Hs as [Hp Hs]. split; [exact Hp|]. now apply IH.
Qed.

End ChainApart.

Lemma store_lengths {env} p bs (m : mach env) l' :
  length (buf_of (store_ptr p bs m) l') = length (buf_of m l').
Proof.
  destruct p as [|l o|x]; try reflexivity.
  destruct (loc_eq_or l' l) as [->|Hne].
  - now rewrite buf_of_store_same, buf_write_length.
  - now rewrite buf_of_store_other.
Qed.

Lemma pad_zeros x b :
  0 < b ->
  (if negb (x mod b =? 0) then b - x mod b else x mod b) = (- x) mod b.
Proof.
  intros Hb. destruct (x mod b =? 0) eqn:E; cbn [negb].
  - apply Z.eqb_eq in E. rewrite Z.mod_opp_l_z by lia. exact E.
  - apply Z.eqb_neq in E. now rewrite Z.mod_opp_l_nz by lia.
Qed.

Section CtrDf.

Context {env : Type} (G : platform env).

Variable c : gcry_drbg_core.

Let sl := statelen c.
Let bl := blocklen_bytes c.
Let kl := statelen c - blocklen_bytes c.
Let E := core_encrypt G c.

(** The cores of the CTR DRBG, as before; a block holds the 32-bit
    counter of the derivation function. *)
Hypothesis Hbl : 4 <= blocklen_bytes c < 2 ^ 15.
Hypothesis Hsl : blocklen_bytes c <= statelen c < 2 ^ 16.
Hypothesis Hcopen :
  forall e, fst (backend G e (cipher_open (backend_cipher c))) = 0.
Hypothesis Hsetkey : forall e k, fst (backend G e (cipher_setkey k)) = 0.
Hypothesis Hblk :
  cipher_get_algo_blklen G (backend_cipher c) = blocklen_bytes c.
Hypothesis Helen :
  forall k x, length x = Z.to_nat (blocklen_bytes c) ->
              length (E k x) = Z.to_nat (blocklen_bytes c).

Lemma df_bl_pos : 0 < blocklen_bytes c.
Proof. lia. Qed.

(** The buffers of the function in the scratchpad: [df_data] at offset
    [d], then [pad], [iv] and [temp]. *)
Variable d : Z.
Hypothesis Hd : 0 <= d.

Let pad := d + sl.
Let iv := d + sl + bl.
Let t := d + sl + 2 * bl.
Let nb := req_blocks bl sl.
Let K0 := firstn (Z.to_nat kl) ctr_df_K.

(** [iv] and the blocks of [temp] *)
Let rs := bl + Z.of_nat nb * bl.

Lemma df_nb_bounds : sl <= Z.of_nat nb * bl < sl + bl.
Proof.
  pose proof (req_blocks_bounds c df_bl_pos Hsl sl ltac:(unfold sl; lia))
    as B.
  fold bl nb in B.
  assert (Em : Z.of_nat (nb * Z.to_nat bl) = Z.of_nat nb * bl)
    by (rewrite Nat2Z.inj_mul, Z2Nat.id; unfold bl; lia).
  unfold sl, bl in *. lia.
Qed.

Let frame (m0 m : mach env) : Prop :=
  (forall l', l' <> LScratch -> buf_of m l' = buf_of m0 l')
  /\ agree_off (Z.to_nat iv) (Z.to_nat rs)
               (buf_of m0 LScratch) (buf_of m LScratch).

Lemma df_frame_lengths (m0 m : mach env) :
  frame m0 m -> forall l', length (buf_of m l') = length (buf_of m0 l').
Proof.
  intros [H1 [H2 _]] l'. destruct (loc_eq_or l' LScratch) as [->|Hne].
  - now rewrite H2.
  - now rewrite H1.
Qed.

Lemma df_temp_S K Sb i :
  df_temp E K bl Sb (S i)
  = df_temp E K bl Sb i
    ++ BCC (E K) (Z.to_nat bl)
         ((BE32 (Z.of_nat i) ++ repeat 0 (Z.to_nat (bl - 4))) ++ Sb).
Proof.
  unfold df_temp. rewrite seq_S, flat_map_app. cbn [flat_map Nat.add].
  now rewrite app_nil_r.
Qed.

(** 10.4.2 step 9, the loop over the blocks of [temp] *)
Lemma ctr_df_bcc_loop_run (ms : mach env) S2 Sb :
  chain_apart ms LScratch iv rs S2 ->
  chain_bytes ms S2 = Sb ->
  (Z.to_nat (iv + rs) <= length (buf_of ms LScratch))%nat ->
  forall k i fuel (m : mach env),
    (i + k = nb)%nat -> (k <= fuel)%nat ->
    core (drbg m) = Some c -> frame ms m ->
    buf_read (buf_of m LScratch) (Z.to_nat (iv + 4)) (Z.to_nat (bl - 4))
    = repeat 0 (Z.to_nat (bl - 4)) ->
    buf_read (buf_of m LScratch) (Z.to_nat t) (i * Z.to_nat bl)
    = df_temp E K0 bl Sb i ->
    exists m',
      ctr_df_bcc_loop G fuel kl bl (Mem LScratch iv) (Mem LScratch t)
        (drbg_string (Mem LScratch iv) bl S2)
        (Z.of_nat i) (Z.of_nat i * bl) m = Some (0, m')
      /\ core (drbg m') = Some c /\ frame ms m'
      /\ buf_read (buf_of m' LScratch) (Z.to_nat t) (nb * Z.to_nat bl)
         = df_temp E K0 bl Sb nb.
Proof.
  intros HS2 HSb Hlen. pose proof df_nb_bounds as NB.
  induction k as [|k IH]; intros i fuel m Hik Hfuel Hc Hfr Hz Hpre.
  - assert (i = nb) by lia. subst i.
    assert (El : (Z.of_nat nb * bl <? kl + bl) = false)
      by (apply Z.ltb_ge; unfold kl, sl, bl in *; lia).
    exists m. split.
    + destruct fuel; cbn [ctr_df_bcc_loop]; now rewrite El.
    + split; [exact Hc|]. split; [exact Hfr|exact Hpre].
  - destruct fuel as [|fuel]; [lia|]. cbn [ctr_df_bcc_loop].
    assert (Hi : Z.of_nat i * bl + bl <= Z.of_nat nb * bl)
      by (unfold bl in *; nia).
    assert (El : (Z.of_nat i * bl <? kl + bl) = true)
      by (apply Z.ltb_lt; unfold kl, sl, bl in *; lia).
    rewrite El.
    rewrite (bind_some _ _ _ _ _
               (eq_refl : store (Mem LScratch iv)
                                (gcry_drbg_cpu_to_be32 (Z.of_nat i)) m
                          = Some (tt, _))).
    rewrite cpu_to_be32_plain.
    set (ma := store_ptr (Mem LScratch iv) (BE32 (Z.of_nat i)) m).
    pose proof (df_frame_lengths ms m Hfr) as Hlm.
    assert (Hfa : frame ms ma).
    { destruct Hfr as [H1 H2]. split.
      - intros l' Hl. unfold ma. rewrite buf_of_store_other by exact Hl.
        now apply H1.
      - unfold ma. rewrite buf_of_store_same.
        apply agree_write_inside; [exact H2|lia|].
        cbn [BE32 length]. unfold rs, bl in *. lia. }
    pose proof (df_frame_lengths ms ma Hfa) as Hla.
    assert (Hca : core (drbg ma) = Some c)
      by (unfold ma; now rewrite core_store).
    cbn [ptr_add].
    assert (Hiv : load_ptr ma (Mem LScratch iv) bl
                  = BE32 (Z.of_nat i) ++ repeat 0 (Z.to_nat (bl - 4))).
    { cbn [load_ptr]. unfold ma. rewrite buf_of_store_same.
      rewrite buf_read_write_prefix.
      - f_equal. cbn [BE32 length]. rewrite buf_read_skipn.
        rewrite <- Hz. f_equal; unfold bl, iv in *; lia.
      - rewrite Hlm. unfold rs, iv, bl in *. lia.
      - cbn [BE32 length]. unfold bl in *. lia. }
    assert (HSa : chain_bytes ma S2 = Sb).
    { rewrite <- HSb. destruct Hfa as [H1 H2].
      apply (chain_bytes_apart ms ma LScratch iv rs);
        [unfold iv, sl, bl in *; lia|unfold rs, bl in *; lia
         |exact HS2|exact H1|exact H2]. }
    destruct (ctr_bcc_run G c df_bl_pos Hsl Hcopen Hsetkey Hblk Helen
                LScratch (t + Z.of_nat i * bl)
                ltac:(unfold t, sl, bl in *; nia)
                ctr_df_K (Mem LScratch iv) bl S2 ma Hca)
      as (mb & Eb & Bb & Ob & Ab & Hcb).
    { split.
      - split; [unfold bl in *; lia|].
        split; [unfold iv, sl, bl in *; lia|].
        split; [rewrite Hla; unfold rs, iv, bl in *; lia|].
        intros _. left. unfold t, iv, bl in *. nia.
      - apply (chain_apart_mono ms ma LScratch iv rs);
          [exact Hla|unfold t, iv, bl in *; nia
           |unfold t, iv, rs, bl in *; lia|exact HS2]. }
    { rewrite Hla. unfold t, iv, rs, bl in *. lia. }
    fold kl in Bb. fold E K0 in Bb. fold bl in Eb, Bb, Ab.
    rewrite (bind_some _ _ _ _ _ Eb). cbn [is_err Z.eqb negb].
    cbn [chain_bytes] in Bb. rewrite Hiv, HSa in Bb.
    assert (Hfb : frame ms mb).
    { destruct Hfa as [H1 H2]. split.
      - intros l' Hl. rewrite Ob by exact Hl. now apply H1.
      - apply agree_trans with (sp2 := buf_of ma LScratch); [exact H2|].
        apply (agree_widen _ _ _ _ _ _ Ab);
          unfold t, iv, rs, bl in *; lia. }
    replace (Z.of_nat i + 1) with (Z.of_nat (S i)) by lia.
    replace (Z.of_nat i * bl + bl) with (Z.of_nat (S i) * bl) by lia.
    apply (IH (S i) fuel mb ltac:(lia) ltac:(lia) Hcb Hfb).
    + rewrite <- Hz.
      rewrite <- (agree_read _ _ _ _ _ _ Ab)
        by (left; unfold t, iv, bl in *; lia).
      unfold ma. rewrite buf_of_store_same.
      apply buf_read_write_beyond. cbn [BE32 length]. lia.
    + rewrite df_temp_S, <- Bb, <- Hpre.
      replace (S i * Z.to_nat bl)%nat
        with (i * Z.to_nat bl + Z.to_nat bl)%nat by lia.
      rewrite buf_read_app. f_equal.
      * rewrite <- (agree_read _ _ _ _ _ _ Ab)
          by (left; unfold t, iv, bl in *; nia).
        unfold ma. rewrite buf_of_store_same.
        apply buf_read_write_beyond. cbn [BE32 length].
        unfold t, iv, bl in *. lia.
      * f_equal. unfold t, iv, bl in *. nia.
Qed.

(** 10.4.2 step 13, the loop that produces the output *)
Lemma ctr_df_out_loop_run n K :
  n <= sl ->
  forall fuel g X0 (m : mach env),
    core (drbg m) = Some c ->
    buf_read (buf_of m LScratch) (Z.to_nat t) (Z.to_nat kl) = K ->
    buf_read (buf_of m LScratch) (Z.to_nat (t + kl)) (Z.to_nat bl) = X0 ->
    (Z.to_nat (t + kl + bl) <= length (buf_of m LScratch))%nat ->
    0 <= g -> (Z.to_nat (n - g) <= fuel)%nat ->
    exists m',
      ctr_df_out_loop G fuel bl (Mem LScratch d) (Mem LScratch t)
        (Mem LScratch (t + kl))
        (gcry_drbg_string_fill (Mem LScratch (t + kl)) bl) n g m
      = Some (0, m')
      /\ core (drbg m') = Some c
      /\ length (buf_of m' LScratch) = length (buf_of m LScratch)
      /\ buf_read (buf_of m' LScratch) (Z.to_nat d)
                  (Z.to_nat g + Z.to_nat (n - g))
         = buf_read (buf_of m LScratch) (Z.to_nat d) (Z.to_nat g)
           ++ firstn (Z.to_nat (n - g))
                     (df_out (E K) X0 (req_blocks bl (n - g))).
Proof.
  intros Hn.
  induction fuel as [|fuel IH]; intros g X0 m Hc HK HX Hlen Hg Hfuel;
    cbn [ctr_df_out_loop]; destruct (g <? n) eqn:El;
    try (apply Z.ltb_lt in El; lia);
    try (apply Z.ltb_ge in El; exists m; split; [reflexivity|];
         split; [exact Hc|]; split; [reflexivity|];
         replace (Z.to_nat (n - g)) with 0%nat by lia;
         now rewrite Nat.add_0_r, firstn_O, app_nil_r).
  apply Z.ltb_lt in El.
  assert (HX0 : length X0 = Z.to_nat bl).
  { rewrite <- HX. apply buf_read_length. unfold t, kl, sl, bl in *. lia. }
  destruct (sym_block G c df_bl_pos Hsl Hcopen Hsetkey Hblk Helen
              (Mem LScratch t) (Mem LScratch (t + kl))
              (Mem LScratch (t + kl)) m Hc
              ltac:(cbn [load_ptr]; fold bl; rewrite HX; exact HX0))
    as [b Es].
  fold kl in Es. fold bl in Es. cbn [load_ptr] in Es. rewrite HK, HX in Es.
  fold E in Es.
  rewrite (bind_some _ _ _ _ _ Es). cbn [is_err Z.eqb negb].
  set (X1 := E K X0) in *.
  assert (HX1 : length X1 = Z.to_nat bl) by (apply Helen; exact HX0).
  set (m1 := store_ptr (Mem LScratch (t + kl)) X1 (with_be m b)).
  set (ol := if bl <? n - g then bl else n - g).
  assert (Hol : 0 < ol <= bl /\ ol <= n - g).
  { unfold ol. destruct (bl <? n - g) eqn:Eb.
    - apply Z.ltb_lt in Eb. unfold bl in *. lia.
    - apply Z.ltb_ge in Eb. lia. }
  rewrite to_short_small by (unfold bl in *; lia).
  rewrite (bind_some _ _ _ _ _ (memcpy_eq _ _ _ _)).
  assert (Hs1 : buf_of m1 LScratch
                = buf_write (buf_of m LScratch) (Z.to_nat (t + kl)) X1).
  { unfold m1. now rewrite buf_of_store_same, buf_of_with_be. }
  assert (Hload : load_ptr m1 (Mem LScratch (t + kl)) ol
                  = firstn (Z.to_nat ol) X1).
  { cbn [load_ptr]. rewrite Hs1. apply buf_read_write_same; lia. }
  rewrite Hload. cbn [ptr_add].
  set (F := firstn (Z.to_nat ol) X1).
  assert (HF : length F = Z.to_nat ol)
    by (unfold F; rewrite length_firstn, HX1; lia).
  set (m2 := store_ptr (Mem LScratch (d + g)) F m1).
  assert (Hs2 : buf_of m2 LScratch
                = buf_write (buf_of m1 LScratch) (Z.to_nat (d + g)) F).
  { unfold m2. now rewrite buf_of_store_same. }
  assert (Hc2 : core (drbg m2) = Some c).
  { unfold m2, m1. rewrite !core_store. exact Hc. }
  assert (Hl2 : length (buf_of m2 LScratch) = length (buf_of m LScratch)).
  { now rewrite Hs2, Hs1, !buf_write_length. }
  assert (Hnk : req_blocks bl (n - g)
                = S (req_blocks bl (n - (g + ol)))).
  { unfold ol. destruct (bl <? n - g) eqn:Eb.
    - apply Z.ltb_lt in Eb.
      rewrite (req_blocks_more bl (n - g)) by (unfold bl in *; lia).
      do 2 f_equal. lia.
    - apply Z.ltb_ge in Eb.
      rewrite req_blocks_last by (unfold bl in *; lia).
      rewrite req_blocks_none by (unfold bl in *; lia). reflexivity. }
  assert (Hcut : forall W,
             firstn (Z.to_nat (n - g)) (X1 ++ W)
             = F ++ firstn (Z.to_nat (n - (g + ol))) W).
  { intros W. rewrite firstn_app, HX1. unfold F, ol.
    destruct (bl <? n - g) eqn:Eb.
    - apply Z.ltb_lt in Eb.
      rewrite !firstn_all2 with (l := X1) by (rewrite HX1; lia).
      f_equal. f_equal. lia.
    - apply Z.ltb_ge in Eb. f_equal.
      replace (Z.to_nat (n - (g + (n - g)))) with 0%nat by lia.
      replace (Z.to_nat (n - g) - Z.to_nat bl)%nat with 0%nat by lia.
      reflexivity. }
  destruct (IH (g + ol) X1 m2 Hc2) as (m' & Er & Hc' & Hl' & Hr).
  - rewrite <- HK, Hs2, Hs1.
    rewrite buf_read_write_beyond
      by (rewrite HF; unfold t, kl, sl, bl in *; lia).
    apply buf_read_write_before. lia.
  - rewrite Hs2, Hs1.
    rewrite buf_read_write_beyond
      by (rewrite HF; unfold t, kl, sl, bl in *; lia).
    rewrite buf_read_write_same by lia. apply firstn_all2. lia.
  - now rewrite Hl2.
  - lia.
  - lia.
  - exists m'. split; [exact Er|]. split; [exact Hc'|].
    split; [now rewrite Hl', Hl2|].
    replace (Z.to_nat g + Z.to_nat (n - g))%nat
      with (Z.to_nat (g + ol) + Z.to_nat (n - (g + ol)))%nat by lia.
    rewrite Hr, Hnk. cbn [df_out]. fold X1. rewrite Hcut.
    rewrite app_assoc. f_equal.
    replace (Z.to_nat (g + ol)) with (Z.to_nat g + Z.to_nat ol)%nat by lia.
    rewrite buf_read_app. f_equal.
    + rewrite Hs2, Hs1.
      rewrite buf_read_write_before by lia.
      apply buf_read_write_before. unfold t, kl, sl, bl in *. lia.
    + rewrite Hs2.
      replace (Z.to_nat d + Z.to_nat g)%nat with (Z.to_nat (d + g)) by lia.
      rewrite buf_read_write_same.
      * apply firstn_all2. lia.
      * rewrite Hs1, buf_write_length, HF. unfold t, kl, sl, bl in *. lia.
      * lia.
Qed.

Lemma to_size_t_32 z : 0 <= z < 2 ^ 32 -> to_size_t G z = z.
Proof.
  intros H. unfold to_size_t, size_bits.
  destruct (lp64 G); apply Z.mod_small; lia.
Qed.

(** [gcry_drbg_ctr_df] with [df_data] at offset [d] of the scratchpad *)
Lemma ctr_df_run n b l nx (m : mach env) :
  core (drbg m) = Some c ->
  chain_apart m LScratch d (2 * sl + 3 * bl) (drbg_string b l nx) ->
  chain_len (drbg_string b l nx) + 9 < 2 ^ 32 ->
  0 <= n <= sl -> n <= 64 ->
  (Z.to_nat (d + 2 * sl + 3 * bl) <= length (buf_of m LScratch))%nat ->
  exists addtl' m',
    gcry_drbg_ctr_df G (Mem LScratch d) n (drbg_string b l nx) m
    = Some ((0, addtl'), m')
    /\ buf_read (buf_of m' LScratch) (Z.to_nat d) (Z.to_nat n)
       = Block_Cipher_df E ctr_df_K kl bl
           (chain_bytes m (drbg_string b l nx)) n.
Proof.
  intros Hc Hch Hcl Hn H64 Hlen. pose proof df_nb_bounds as NB.
  set (addtl := drbg_string b l nx) in *.
  destruct (chain_apart_length m LScratch d _ addtl Hch) as [Hil Hipos].
  set (input := chain_bytes m addtl) in *.
  unfold gcry_drbg_ctr_df. rewrite bind_get.
  assert (Hk : gcry_drbg_keylen (drbg m) = kl).
  { unfold gcry_drbg_keylen. rewrite Hc. unfold to_ushort.
    apply Z.mod_small. unfold kl. lia. }
  rewrite Hk. unfold gcry_drbg_statelen, gcry_drbg_blocklen. rewrite Hc.
  fold sl bl. cbn [ptr_add].
  replace (d + sl + bl + bl) with t by (unfold t; lia).
  fold pad. fold iv.
  rewrite (bind_some _ _ _ _ _ (memset_eq _ _ _ _)).
  set (m1 := store_ptr (Mem LScratch pad) (repeat 0 (Z.to_nat bl)) m).
  rewrite (bind_some _ _ _ _ _ (memset_eq _ _ _ _)).
  set (m2 := store_ptr (Mem LScratch iv) (repeat 0 (Z.to_nat bl)) m1).
  rewrite (bind_some _ _ _ _ _ (memset_eq _ _ _ _)).
  set (m3 := store_ptr (Mem LScratch t) (repeat 0 (Z.to_nat sl)) m2).
  assert (E64 : (512 / 8 <? n) = false)
    by (apply Z.ltb_ge; change (512 / 8) with 64; lia).
  rewrite E64.
  rewrite (to_size_t_32 (chain_len addtl)) by lia.
  rewrite (to_size_t_32 (chain_len addtl + 8 + 1)) by lia.
  assert (Eb0 : (bl =? 0) = false) by (apply Z.eqb_neq; unfold bl; lia).
  rewrite Eb0.
  rewrite (pad_zeros (chain_len addtl + 8 + 1) bl) by (unfold bl; lia).
  set (z := (- (chain_len addtl + 8 + 1)) mod bl).
  assert (Hz : 0 <= z < bl)
    by (apply Z.mod_pos_bound; unfold bl; lia).
  rewrite (bind_some _ _ _ _ _
             (eq_refl : store (Mem LScratch pad) [128] m3 = Some (tt, _))).
  set (ms := store_ptr (Mem LScratch pad) [128] m3).
  set (S4 := gcry_drbg_string_fill (Mem LScratch pad) (z + 1)).
  set (L_N := gcry_drbg_cpu_to_be32 (chain_len addtl)
              ++ gcry_drbg_cpu_to_be32 n).
  subst addtl. cbv beta iota.
  set (addtl := drbg_string b l nx) in *.
  set (S2 := drbg_string (Data L_N) 8 (splice addtl S4)).
  (* the scratchpad when the loops start *)
  assert (Hlm : forall l', length (buf_of ms l') = length (buf_of m l')).
  { intros l'. unfold ms, m3, m2, m1. now rewrite !store_lengths. }
  assert (Hom : forall l', l' <> LScratch -> buf_of ms l' = buf_of m l').
  { intros l' Hl. unfold ms, m3, m2, m1.
    now rewrite !buf_of_store_other by exact Hl. }
  assert (Hsp : buf_of ms LScratch
                = buf_write
                    (buf_write
                       (buf_write
                          (buf_write (buf_of m LScratch) (Z.to_nat pad)
                                     (repeat 0 (Z.to_nat bl)))
                          (Z.to_nat iv) (repeat 0 (Z.to_nat bl)))
                       (Z.to_nat t) (repeat 0 (Z.to_nat sl)))
                    (Z.to_nat pad) [128]).
  { unfold ms, m3, m2, m1. now rewrite !buf_of_store_same. }
  assert (Ham : agree_off (Z.to_nat d) (Z.to_nat (2 * sl + 3 * bl))
                          (buf_of m LScratch) (buf_of ms LScratch)).
  { rewrite Hsp.
    repeat (apply agree_write_inside;
            [|unfold pad, iv, t, sl, bl in *; lia
             |cbn [length]; rewrite ?repeat_length;
              unfold pad, iv, t, sl, bl in *; lia]).
    apply agree_refl. }
  assert (Hin : chain_bytes ms addtl = input).
  { apply (chain_bytes_apart m ms LScratch d (2 * sl + 3 * bl));
      [exact Hd|unfold sl, bl in *; lia|exact Hch|exact Hom|exact Ham]. }
  assert (Hpadb : load_ptr ms (Mem LScratch pad) (z + 1)
                  = 128 :: repeat 0 (Z.to_nat z)).
  { cbn [load_ptr]. rewrite Hsp.
    rewrite buf_read_write_prefix.
    - cbn [length app]. f_equal.
      rewrite buf_read_write_before
        by (unfold pad, iv, t, sl, bl in *; lia).
      rewrite buf_read_write_before
        by (unfold pad, iv, t, sl, bl in *; lia).
      rewrite buf_read_write_same
        by (rewrite ?repeat_length; unfold pad, iv, t, sl, bl in *; lia).
      rewrite firstn_repeat_le by lia. rewrite skipn_repeat_le.
      f_equal. lia.
    - rewrite !buf_write_length. unfold pad, iv, t, sl, bl in *. lia.
    - cbn [length]. lia. }
  assert (HLN : L_N = BE32 (Z.of_nat (length input)) ++ BE32 n).
  { unfold L_N. rewrite !cpu_to_be32_plain. do 2 f_equal. lia. }
  set (Sb := (BE32 (Z.of_nat (length input)) ++ BE32 n)
             ++ input ++ 128 :: repeat 0 (Z.to_nat z)).
  assert (HSb : chain_bytes ms S2 = Sb).
  { unfold S2. cbn [chain_bytes load_ptr].
    rewrite chain_bytes_splice by discriminate.
    rewrite Hin. unfold S4, gcry_drbg_string_fill. cbn [chain_bytes].
    rewrite Hpadb, app_nil_r, HLN. reflexivity. }
  assert (HS2 : chain_apart ms LScratch iv rs S2).
  { split.
    - split; [lia|]. unfold L_N. cbn [length gcry_drbg_cpu_to_be32 app].
      lia.
    - apply chain_apart_splice.
      + apply (chain_apart_mono m ms LScratch d (2 * sl + 3 * bl));
          [exact Hlm|unfold iv, sl, bl in *; lia
           |unfold iv, rs, sl, bl in *; lia|exact Hch].
      + split; [|exact I]. split; [lia|].
        split; [unfold pad, sl, bl in *; lia|].
        split; [rewrite Hlm; unfold pad, sl, bl in *; lia|].
        intros _. left. unfold pad, iv, bl in *. lia. }
  assert (Hcs : core (drbg ms) = Some c).
  { unfold ms, m3, m2, m1. now rewrite !core_store. }
  destruct (ctr_df_bcc_loop_run ms S2 Sb HS2 HSb
              ltac:(rewrite Hlm; unfold iv, rs, sl, bl in *; lia)
              nb 0%nat (Z.to_nat (kl + bl)) ms eq_refl
              ltac:(unfold kl, sl, bl in *; nia) Hcs
              (conj (fun l' _ => eq_refl) (agree_refl _ _ _)))
    as (mb & Eb & Hcb & Hfb & HT).
  { rewrite Hsp.
    rewrite buf_read_write_beyond
      by (cbn [length]; unfold pad, iv, bl in *; lia).
    rewrite buf_read_write_before
      by (unfold pad, iv, t, sl, bl in *; lia).
    replace (Z.to_nat (iv + 4)) with (Z.to_nat iv + 4)%nat
      by (unfold iv, sl, bl in *; lia).
    rewrite buf_read_write_inside.
    - rewrite skipn_repeat_le. apply firstn_repeat_le. lia.
    - rewrite buf_write_length, repeat_length.
      unfold pad, iv, t, sl, bl in *. lia.
    - rewrite repeat_length. lia. }
  { reflexivity. }
  change (Z.of_nat 0) with 0 in Eb. change (0 * bl) with 0 in Eb.
  rewrite (bind_some _ _ _ _ _ Eb). cbn [is_err Z.eqb negb].
  set (T := df_temp E K0 bl Sb nb) in *.
  pose proof (df_frame_lengths ms mb Hfb) as Hlb.
  assert (HnbZ : Z.of_nat (nb * Z.to_nat bl) = Z.of_nat nb * bl)
    by (rewrite Nat2Z.inj_mul, Z2Nat.id; unfold bl; lia).
  destruct (ctr_df_out_loop_run n (firstn (Z.to_nat kl) T) ltac:(lia)
              (Z.to_nat n) 0
              (firstn (Z.to_nat bl) (skipn (Z.to_nat kl) T)) mb Hcb)
    as (mo & Eo & Hco & Hlo & Ho).
  { rewrite <- HT. symmetry. apply buf_read_firstn.
    unfold kl, sl, bl in *. lia. }
  { rewrite <- HT, buf_read_skipn, buf_read_firstn
      by (unfold kl, sl, bl in *; lia).
    f_equal. unfold t, kl, sl, bl in *. lia. }
  { rewrite Hlb, Hlm. unfold t, kl, sl, bl in *. lia. }
  { lia. }
  { lia. }
  unfold gcry_drbg_string_fill in Eo |- *.
  rewrite (bind_some _ _ _ _ _ Eo).
  rewrite !Z.sub_0_r in Ho. change (Z.to_nat 0) with 0%nat in Ho.
  cbn [Nat.add] in Ho.
  change (buf_read (buf_of mb LScratch) (Z.to_nat d) 0) with (@nil Z) in Ho.
  cbn [app] in Ho.
  rewrite (bind_some _ _ _ _ _ (memset_eq _ _ _ _)).
  rewrite (bind_some _ _ _ _ _ (memset_eq _ _ _ _)).
  rewrite (bind_some _ _ _ _ _ (memset_eq _ _ _ _)).
  eexists. eexists. split; [reflexivity|].
  rewrite !buf_of_store_same.
  rewrite !buf_read_write_before
    by (unfold pad, iv, t, sl, bl in *; lia).
  rewrite Ho. unfold Block_Cipher_df. cbv zeta.
  fold input.
  replace (kl + bl) with sl by (unfold kl, sl, bl; lia). fold nb K0.
  assert (HS : (BE32 (Z.of_nat (length input)) ++ BE32 n ++ input ++ [128])
               ++ repeat 0
                    (Z.to_nat
                       ((- Z.of_nat
                             (length (BE32 (Z.of_nat (length input))
                                      ++ BE32 n ++ input ++ [128])))
                        mod bl))
               = Sb).
  { unfold Sb. rewrite !length_app. cbn [BE32 length].
    replace (Z.of_nat (4 + (4 + (length input + 1))))
      with (chain_len addtl + 8 + 1) by lia.
    fold z. cbn [app]. rewrite <- !app_assoc. cbn [app]. reflexivity. }
  rewrite HS. reflexivity.
Qed.

End CtrDf.
